(* ===== verification/_CoqProject ===== *)
-Q . S2P
Prelude.v
Config.v
Wire.v
Atomics.v
YQueue.v
Channel.v
YPipe.v
Message.v
MessageBody.v
Command.v
Swap.v
DataDam.v
DataDamFifo.v
DamRuns.v
Pipe.v
PipeThreads.v
PipeRuns.v
Store.v
Mux.v
Demux.v
PollSet.v
StoreRuns.v
Engine.v
Shutdown.v
Attributes.v
Dispatcher.v
Dispatching.v
DispatchRuns.v
EngineFactory.v
ApiThread.v
ApiRuns.v
Codec.v
BpCodec.v
BpEncoding.v
BpDecoding.v
CodecRuns.v
TcpSocket.v
Listening.v
Addresses.v
Signaler.v
WinSockets.v
Locator.v
DirectoryServer.v
Directory.v
BpTcpEngine.v
TcpEngineStates.v
TcpRuns.v
Poller.v
PollThread.v
PollRounds.v
SelectThread.v
Epoll.v
EpollRounds.v
Kqueue.v
KqueueRounds.v
DevPoll.v
DevPollRounds.v
Amqp.v
AmqpLayout.v
AmqpMarshaller.v
AmqpMarshalling.v
AmqpUnmarshaller.v
AmqpUnmarshalling.v
AmqpCodec.v
AmqpFrames.v
AmqpEncoding.v
AmqpClient.v
AmqpHandshake.v
AmqpRuns.v
PgmSocket.v
BpPgm.v
PgmSending.v
PgmReceiving.v
PgmJoin.v
PgmRuns.v
WinPgm.v
Sctp.v
SctpTransfer.v
CInterface.v
Loopback.v
