(* ===== verification/Prelude.v ===== *)
(** * A verification development for 0MQ 1.x (libzmq and zmq_server)

    ** The program

    0MQ passes messages between threads and processes.  An application thread
    ([api_thread_t]) owns exchanges (output engines) and queues (input
    engines).  Engines that live in I/O threads ([poller_t]) carry messages
    over TCP, SCTP, to AMQP brokers or by reliable multicast (PGM).  A [pipe_t]
    connects a source engine with a destination engine: messages go one way
    through a lock-free queue ([ypipe_t] over [yqueue_t]), with a high and a low
    watermark and a swap file ([data_dam_t]).  Everything else that threads tell
    each other are commands, which the [dispatcher_t] passes through one
    [ypipe_t] for each pair of threads and announces by a signal ([ypollset_t]
    for API threads, [ysocketpair_t] for I/O threads).  The dispatcher also registers objects by name, locally or at the directory
    server ([zmq_server]), which it reaches through a [locator_t], and makes
    engines and listeners for remote objects ([engine_factory_t]).

    ** The files and the code (under [src/libzmq] unless said otherwise)

    - [Prelude]: outcomes with faults ([res], [ST]), machine integers, the laws
      of runs ([runs]), of weakest preconditions ([wp]) and of frames ([keeps]),
      tactics ([st_inv], [call_inv], [wp_steps], [keeps_auto]).
    - [Config]: [zmq/config.hpp].  [Wire]: [zmq/wire.hpp].
    - [Atomics]: [zmq/atomic_counter.hpp], [atomic_ptr.hpp], [atomic_bitmap.hpp]
      on every platform.
    - [YQueue], [YPipe]: [zmq/yqueue.hpp] with its chunks and addresses;
      [zmq/ypipe.hpp] and the steps of its two threads.  [Channel] is the
      interface of a queue that [YPipe] discharges for [Pipe].
    - [Message], [MessageBody]: [zmq/raw_message.hpp], [zmq/message.hpp] over a
      heap of counted blocks; filling a body through its pointer.
    - [Command]: [zmq/command.hpp].
    - [Swap]: what pipes ask of a swap file, with its laws; [DataDam],
      [DataDamFifo]: [data_dam.cpp] over a disk, and the proof of those laws.
    - [Pipe], [PipeThreads]: [pipe.cpp] and the steps of its two threads;
      [Shutdown]: two engines that end a pipe, over [Store] and [Engine].
    - [Store]: objects behind pointers, for the calls of engines on pipes.
      [Mux], [Demux]: [mux.cpp]; [load_balancer.cpp], [publisher.cpp].
      [Engine]: [zmq/engine_base.hpp], [in_engine.cpp], [out_engine.cpp].
    - [PollSet]: [ypollset.cpp], [ysemaphore.cpp] and the steps of threads.
      [Signaler]: [ysocketpair.cpp] over eventfd and over a socket pair;
      [WinSockets]: the same, [tcp_socket.cpp] and [tcp_listener.cpp] over
      Windows sockets.
    - [Attributes]: attribute lists, byte strings, the locator's interface.
      [Dispatcher], [Dispatching]: [dispatcher.cpp]; the steps of its threads.
      [EngineFactory]: [engine_factory.cpp].
    - [ApiThread]: [api_thread.cpp].  [CInterface]: [src/libczmq/zmq.cpp];
      [Loopback]: what an application that binds its own objects sees.
    - [Codec]: the state machines [zmq/encoder.hpp], [zmq/decoder.hpp];
      [BpCodec]: [bp_encoder.cpp], [bp_decoder.cpp]; [BpEncoding], [BpDecoding]:
      their correctness.
    - [TcpSocket]: [tcp_socket.cpp], host names of [ip.cpp], the macros of
      [select]; [Listening]: [tcp_listener.cpp], interfaces of [ip.cpp], the
      socket pairs of OpenVMS; [Addresses]: what a listener is reached by, and
      that the platforms look up the same interfaces; [BpTcpEngine]: [bp_tcp_engine.cpp], [bp_tcp_listener.cpp];
      [TcpEngineStates]: the engine's invariant.
    - [Locator]: [locator.cpp]; [DirectoryServer]: [src/zmq_server]; [Directory]:
      both together.
    - [Poller]: [zmq/poller.hpp]; [PollThread], [SelectThread], [Epoll],
      [Kqueue], [DevPoll]: [poll_thread.cpp], [select_thread.cpp],
      [epoll_thread.cpp], [kqueue_thread.cpp], [devpoll_thread.cpp];
      [PollRounds], [EpollRounds], [KqueueRounds], [DevPollRounds]: rounds of
      events.
    - [Amqp]: [zmq/i_amqp.hpp]; [AmqpMarshaller], [AmqpUnmarshaller]:
      [amqp_marshaller.cpp], [amqp_unmarshaller.cpp], with [AmqpLayout] for the
      bytes of each method and [AmqpMarshalling], [AmqpUnmarshalling] for their
      correctness; [AmqpCodec]: [amqp_encoder.cpp], [amqp_decoder.cpp], with
      [AmqpFrames] for the bytes of frames and [AmqpEncoding] for what the
      encoder writes; [AmqpClient]: [amqp_client.cpp]; [AmqpHandshake]: its
      answers to the broker.
    - [PgmSocket]: [pgm_socket.cpp]; [BpPgm]: [bp_pgm_sender.cpp],
      [bp_pgm_receiver.cpp]; [PgmSending], [PgmReceiving], [PgmJoin]: the packets
      of a sender, what a receiver makes of them, and both together;
      [WinPgm]: the sockets, the engines and their protocol on Windows.
    - [Sctp]: [sctp_engine.cpp], [sctp_listener.cpp]; [SctpTransfer]: what two
      engines do to the messages between them.
    - The files in [...Runs], and the last sections of some others, hold concrete runs that instantiate the theorems,
      and counterexamples for what the code gets wrong.

    ** How code is modelled

    A function that reads and writes a state [S] is a term of [ST S A]; it ends
    in a result or in a [fault]: a failed assertion, an access to freed or
    foreign memory, a wait that never ends.  Objects behind pointers live in
    explicit stores ([mheap], [store], the chunks of [YQueue], the entries of
    [Epoll]), so that aliasing and double frees are visible.  Unsigned integers
    are kept below [2^w] by [wrap].  Threads are relations of steps
    ([YPipe.ystep], [PipeThreads.pstep], [PollSet.poll_step],
    [Dispatching.dstep]) whose atoms are the accesses to shared memory; critical
    sections are single steps.  Interfaces of the code ([i_demux], [i_locator],
    [i_poller], the swap, the event monitor of a poller) and of the operating
    system (sockets, files, epoll) are classes; their laws are classes of their
    own, and each class of laws has an instance.

    ** What the theorems show

    - The queue is a list and frees every chunk once; the lock-free pipe gives
      every flushed item once and in order, loses no wake-up, and drains.
    - The test-set-and-reset of the bitmap is one atomic step in each of its
      bodies, a comment about x86 notwithstanding.
    - Messages are freed once and not before their last copy; they have the
      bytes asked for, but for sizes that wrap [size_t].
    - A pipe is first in, first out, through the swap as well, keeps to its high
      watermark and does not get stuck; the data dam is a queue of messages.
      Both need that what is swapped has a body.  The calls of the two threads
      fail only where the swap is full, a swapped message finds no memory, or a
      gap that had to wait becomes due.
    - Publishing counts references right; load balancing and multiplexing are
      fair.
    - Commands arrive once and in order and signals are not lost, in both kinds
      of threads.
    - What the encoder writes the decoder reads, for all sizes of buffers and
      all cuts of the stream; no buffer is overrun, and each is filled unless the
      source has nothing more.
    - A TCP engine keeps socket, poller and timers consistent with its state;
      a listener connects both ends of a new pipe in order.
    - Rounds of [poll], [epoll], [kqueue] and [/dev/poll] pass events only to
      registered engines and touch no deleted entry, whatever engines add and
      remove meanwhile; but [poll] reads in front of its table where an engine
      removed a descriptor whose turn was still to come.
    - Two engines end a pipe without a fault, and it is deleted once.
    - AMQP methods survive marshalling and unmarshalling; the encoder writes
      them and the messages in well-formed frames; the client obeys the
      handshake of the protocol.
    - A multicast receiver can join at any packet and begin anew after a loss:
      it hands on whole messages of the sender, in order, as long as no pipe
      refuses one; so it does on Windows, and between Windows and Linux.
    - Over SCTP messages up to the size of the buffer stay messages, in order.
      The address a listener gives
      leads to it, and interfaces are found alike on every platform.
    - The locator and the server together are a table of objects, for names and
      values of 1 to 255 bytes.
    - From the C interface down to the lock-free queue: an exchange and a queue
      of one thread are a bounded queue of byte strings; the program is aborted
      exactly where a receive gives no bytes and [malloc (0)] is [NULL].
    - The dispatcher's registry and identifiers, and the calls of API threads
      that bind and fetch, do what they say; a fetch drops only what the mask
      does not let through.

    ** Bounds

    Loops of the code that end by themselves are structural or take a fuel that
    the theorems show to be enough: [swap_in_loop] the messages in the swap and
    one more, the destructor of a pipe the messages in it, the encoder [4 * size
    + 4] and the decoder one more than its bytes with four actions each, the
    copy loops of the dam the bytes left, the fields of an AMQP table the bytes of
    the arguments, the frames of a body its length, the rounds of [poll] the bound on its
    array and the interruptions to come, attributes their number, a multicast
    receiver the packets it receives at once and two more.  Loops that
    other threads can prolong ([read_commands], [poller_rounds], [drain_commands])
    take a fuel and end in [OutOfFuel] without it.  The theorems on [YPipe] hold
    for runs of any length; those on [Pipe] up to [2^31] messages in a run,
    because its counters wrap.  The dam's host is a 64-bit little-endian one.

    ** Not modelled

    Creation and joining of system threads, mutexes and the text of errors
    (threads are interleavings of steps, critical sections single steps, failed
    assertions faults); third-party code (the XML parser, OpenPGM); the bindings to other
    languages, the examples and the performance tests, which only call the
    library.  A command that an engine sends to its own thread is obeyed after
    the call that sends it, not within it.  Relaxed memory is not modelled: the
    code uses full barriers. *)
From stdpp Require Export base tactics option list numbers gmap sets.
From Stdlib Require Export ZArith Lia.

(** ** Outcomes of C++ code *)

(** Why a computation stops without a result: a failed [assert] or
    [errno_assert], behaviour the language leaves undefined, or a wait for
    something that never happens. *)
Inductive fault :=
  | AssertFailed
  | UseAfterFree
  | BadAccess
  | Blocked
  | OutOfFuel.

Inductive res (A : Type) :=
  | Ok (a : A)
  | Crash (f : fault).
Arguments Ok {A} a.
Arguments Crash {A} f.

#[export] Instance fault_eq_dec : EqDecision fault.
Proof. solve_decision. Defined.

#[export] Instance res_ret : MRet res := @Ok.
#[export] Instance res_bind : MBind res :=
  fun A B k m => match m with Ok a => k a | Crash f => Crash f end.

(** Stateful code over a state [S] that may crash. *)
Definition ST (S A : Type) : Type := S → res (A * S).

#[export] Instance st_ret {S} : MRet (ST S) := fun A a s => Ok (a, s).
#[export] Instance st_bind {S} : MBind (ST S) :=
  fun A B k m s => match m s with Ok (a, s') => k a s' | Crash f => Crash f end.

Definition st_get {S} : ST S S := fun s => Ok (s, s).
Definition st_put {S} (s' : S) : ST S unit := fun _ => Ok (tt, s').
Definition st_modify {S} (f : S → S) : ST S unit := fun s => Ok (tt, f s).
Definition st_crash {S A} (e : fault) : ST S A := fun _ => Crash e.

(** C's [assert (b)]. *)
Definition st_assert {S} (b : bool) : ST S unit :=
  fun s => if b then Ok (tt, s) else Crash AssertFailed.

(** [st_when b m] is [if (b) m;]. *)
Definition st_when {S} (b : bool) (m : ST S unit) : ST S unit :=
  if b then m else mret tt.

(** A [for] loop over the elements of a container, in order. *)
Definition st_for {S A} (l : list A) (f : A → ST S unit) : ST S unit :=
  foldr (λ a m, f a ;; m) (mret tt) l.

Definition st_of_option {S A} (e : fault) (o : option A) : ST S A :=
  match o with Some a => mret a | None => st_crash e end.

(** A function that may return early with a failure: what follows runs only
    where [m] succeeds. *)
Definition st_try {S A B} (m : ST S (option A)) (k : A → ST S (option B)) : ST S (option B) :=
  m ≫= λ o, match o with Some a => k a | None => mret None end.

(** [st_lift g p m] runs [m] on the part of the state that [g] reads and
    [p] writes back. *)
Definition st_lift {S T A} (g : S → T) (p : T → S → S) (m : ST T A) : ST S A :=
  fun s => match m (g s) with Ok (a, t) => Ok (a, p t s) | Crash f => Crash f end.

(** [runs m s a s'] is the successful run of [m] from [s]. *)
Definition runs {S A} (m : ST S A) (s : S) (a : A) (s' : S) : Prop :=
  m s = Ok (a, s').

(** ** Record update *)

(** [eta r] rebuilds [r] field by field; one instance per record. *)
Class Eta (R : Type) := eta : R → R.
Class FieldUpdate {R T : Type} (proj : R → T) := { field_update : (T → T) → R → R }.
Arguments field_update {R T} proj {_} f r /.

Ltac derive_field_update :=
  match goal with
  | |- @FieldUpdate ?R ?T ?proj =>
      let i := constr:(_ : Eta R) in
      let h := constr:(fun (f : T → T) (r : R) =>
        ltac:(let e := eval hnf in (i r) in
              lazymatch e with context [proj r] => idtac end;
              match eval pattern (proj r) in e with
              | ?body _ =>
                  let b := eval cbv beta in (body (f (proj r))) in exact b
              end)) in
      exact (Build_FieldUpdate R T proj h)
  end.

#[export] Hint Mode FieldUpdate + + + : typeclass_instances.
#[export] Hint Extern 1 (FieldUpdate _) => derive_field_update : typeclass_instances.

Declare Scope zmq_scope.
Delimit Scope zmq_scope with zmq.
#[warnings="-postfix-notation-not-level-1"]
Notation "r <| p := v |>" := (field_update p (λ _, v) r)
  (at level 12, left associativity, p at level 11, v at level 200) : zmq_scope.
Notation "x ←? m ; k" := (st_try m (λ x, k)) (at level 20, m at level 100, k at level 200, right associativity) : zmq_scope.
Notation "m ;;? k" := (st_try m (λ _, k)) (at level 100, k at level 200, right associativity) : zmq_scope.
Global Open Scope zmq_scope.

(** ** Machine integers *)

(** Values of unsigned [w]-bit types are kept in [[0, 2^w)]. *)
Definition wrap (w x : Z) : Z := x `mod` 2 ^ w.
Abbreviation u8 := (wrap 8).
Abbreviation u16 := (wrap 16).
Abbreviation u32 := (wrap 32).
Abbreviation u64 := (wrap 64).

(** Conversion to a signed [w]-bit type (two's complement). *)
Definition swrap (w x : Z) : Z :=
  let y := wrap w x in if (y <? 2 ^ (w - 1))%Z then y else (y - 2 ^ w)%Z.
Abbreviation i32 := (swrap 32).
Abbreviation i64 := (swrap 64).

Definition in_u (w x : Z) : Prop := (0 ≤ x < 2 ^ w)%Z.

(** ** Laws of the state monad *)

Section st_laws.
Context {S : Type}.

Lemma runs_ret {A} (a : A) (s : S) : runs (mret a) s a s.
Proof. done. Qed.

Lemma runs_get (s : S) : runs st_get s s s.
Proof. done. Qed.

Lemma runs_bind {A B} (m : ST S A) (k : A → ST S B) s a s1 b s2 :
  runs m s a s1 → runs (k a) s1 b s2 → runs (m ≫= k) s b s2.
Proof. unfold runs, mbind, st_bind. by intros -> ->. Qed.

Lemma runs_bind_inv {A B} (m : ST S A) (k : A → ST S B) s b s2 :
  runs (m ≫= k) s b s2 → ∃ a s1, runs m s a s1 ∧ runs (k a) s1 b s2.
Proof.
  unfold runs, mbind, st_bind. destruct (m s) as [[a s1]|] eqn:E; [|done]. eauto.
Qed.

Lemma runs_assert b (s : S) u s' : runs (st_assert b) s u s' ↔ b = true ∧ s' = s.
Proof. unfold runs, st_assert. destruct b, u; naive_solver. Qed.

Lemma runs_when b (m : ST S unit) s u s' :
  runs (st_when b m) s u s' ↔ (b = true ∧ runs m s u s') ∨ (b = false ∧ s' = s).
Proof.
  unfold runs, st_when, mret, st_ret. destruct b, u; split; naive_solver.
Qed.

Lemma runs_of_option {A} e (o : option A) (s : S) a s' : runs (st_of_option e o) s a s' → o = Some a ∧ s' = s.
Proof. unfold runs, st_of_option. destruct o; [by intros [= -> ->]|done]. Qed.

Lemma runs_for_nil {A} (f : A → ST S unit) s u s' : runs (st_for [] f) s u s' ↔ s' = s.
Proof. unfold runs; simpl. destruct u. unfold mret, st_ret. naive_solver. Qed.

(** A predicate kept by every iteration is kept by the loop. *)
Lemma runs_for_invariant {A} (P : S → Prop) (f : A → ST S unit) l :
  (∀ a s u s', a ∈ l → P s → runs (f a) s u s' → P s') →
  ∀ s u s', P s → runs (st_for l f) s u s' → P s'.
Proof.
  induction l as [|a l IH]; intros Hf s u s' HP Hr.
  - apply runs_for_nil in Hr. by subst.
  - apply runs_bind_inv in Hr as (? & s1 & H1 & H2).
    eapply IH; [|eapply Hf; [left|done|exact H1]|exact H2]. by eauto using list_elem_of_further.
Qed.

(** [s0] before the loop and [s'] after it are related when each iteration
    relates its end states, for a reflexive and transitive relation. *)
Lemma runs_for_preorder {A} (R : relation S) `{!PreOrder R} (f : A → ST S unit) l :
  (∀ a s u s', a ∈ l → runs (f a) s u s' → R s s') →
  ∀ s u s', runs (st_for l f) s u s' → R s s'.
Proof.
  induction l as [|a l IH]; intros Hf s u s' Hr.
  - apply runs_for_nil in Hr. by subst.
  - apply runs_bind_inv in Hr as (? & s1 & H1 & H2). trans s1.
    + eapply Hf; [left|done].
    + eapply IH; [|exact H2]. eauto using list_elem_of_further.
Qed.
End st_laws.

(** Takes a successful run apart, bind by bind. *)
Ltac st_inv :=
  repeat match goal with
  | H : runs (_ ≫= _) _ _ _ |- _ =>
      let a := fresh "x" in let s := fresh "s" in let H1 := fresh "Hr" in
      apply runs_bind_inv in H as (a & s & H1 & H)
  | H : runs (mret _) _ _ _ |- _ => unfold runs, mret, st_ret in H; simplify_eq
  | H : runs st_get _ _ _ |- _ => unfold runs, st_get in H; simplify_eq
  | H : runs (st_put _) _ _ _ |- _ => unfold runs, st_put in H; simplify_eq
  | H : runs (st_modify _) _ _ _ |- _ => unfold runs, st_modify in H; simplify_eq
  | H : runs (st_crash _) _ _ _ |- _ => unfold runs, st_crash in H; discriminate H
  | H : runs (st_assert _) _ _ _ |- _ => apply runs_assert in H as [? ->]
  | H : runs (st_for [] _) _ _ _ |- _ => apply runs_for_nil in H as ->
  end.

(** [st_inv], through pointers and array elements as well. *)
Ltac call_inv := repeat (st_inv; match goal with
  | H : runs (st_of_option _ _) _ _ _ |- _ => apply runs_of_option in H as [H ->]
  end); st_inv.

(** ** Weakest preconditions *)

(** [wp m F Q s]: run from [s], [m] ends in a result and a state that satisfy
    [Q], or crashes in a way that [F] admits. *)
Definition wp {S A} (m : ST S A) (F : fault → Prop) (Q : A → S → Prop) (s : S) : Prop :=
  match m s with Ok (a, s') => Q a s' | Crash f => F f end.

(** Runs that never crash, runs that may only fail an assertion, and runs that
    may do so only under a condition. *)
Definition no_fault : fault → Prop := λ _, False.
Definition only_assert : fault → Prop := λ f, f = AssertFailed.
Definition asserts_if (C : Prop) (f : fault) : Prop := f = AssertFailed ∧ C.

Lemma asserts_if_mono (C C' : Prop) : (C → C') → ∀ f, asserts_if C f → asserts_if C' f.
Proof. intros HC f [? ?]. split; auto. Qed.

Section wp_laws.
Context {S : Type} (F : fault → Prop).

Lemma wp_ret {A} (a : A) Q (s : S) : Q a s → wp (mret a) F Q s.
Proof. done. Qed.

Lemma wp_bind {A B} (m : ST S A) (k : A → ST S B) Q s :
  wp m F (λ a s', wp (k a) F Q s') s → wp (m ≫= k) F Q s.
Proof. unfold wp, mbind, st_bind. by destruct (m s) as [[a s']|]. Qed.

Lemma wp_get Q (s : S) : Q s s → wp st_get F Q s.
Proof. done. Qed.

Lemma wp_modify f Q (s : S) : Q tt (f s) → wp (st_modify f) F Q s.
Proof. done. Qed.

Lemma wp_assert b Q (s : S) : b = true → Q tt s → wp (st_assert b) F Q s.
Proof. by intros ->. Qed.

Lemma wp_guard `{Decision Pr} e (Q : Pr → S → Prop) s :
  Pr → (∀ p, Q p s) → wp (st_of_option e (guard Pr)) F Q s.
Proof. intros Hp HQ. unfold st_of_option. case_guard; [apply HQ|done]. Qed.

Lemma wp_of_option {A} e (o : option A) a Q (s : S) : o = Some a → Q a s → wp (st_of_option e o) F Q s.
Proof. by intros ->. Qed.

Lemma wp_when_true b (m : ST S unit) Q s : b = true → wp m F Q s → wp (st_when b m) F Q s.
Proof. by intros ->. Qed.

Lemma wp_when_false b (m : ST S unit) Q s : b = false → Q tt s → wp (st_when b m) F Q s.
Proof. by intros ->. Qed.

Lemma wp_when b (m : ST S unit) Q s :
  (b = true → wp m F Q s) → (b = false → Q tt s) → wp (st_when b m) F Q s.
Proof. destruct b; [by intros H _; apply H|by intros _ H; apply H]. Qed.

Lemma wp_mono {A} (m : ST S A) (Q Q' : A → S → Prop) s :
  wp m F Q s → (∀ a s', Q a s' → Q' a s') → wp m F Q' s.
Proof. unfold wp. destruct (m s) as [[a s']|]; eauto. Qed.

Lemma wp_lift {T A} (g : S → T) (p : T → S → S) (m : ST T A) Q s :
  wp m F (λ a t, Q a (p t s)) (g s) → wp (st_lift g p m) F Q s.
Proof. unfold wp, st_lift. by destruct (m (g s)) as [[a t]|]. Qed.

Lemma runs_wp {A} (m : ST S A) (Q : A → S → Prop) s a s' : runs m s a s' → Q a s' → wp m F Q s.
Proof. unfold runs, wp. by intros ->. Qed.

Lemma wp_runs {A} (m : ST S A) (Q : A → S → Prop) s a s' : wp m F Q s → runs m s a s' → Q a s'.
Proof. unfold runs, wp. intros H E. by rewrite E in H. Qed.

(** A loop over a container keeps an invariant that every turn keeps. *)
Lemma wp_for {A} (I : list A → S → Prop) (f : A → ST S unit) l s :
  I l s →
  (∀ a l' s, I (a :: l') s → wp (f a) F (λ _ s', I l' s') s) →
  wp (st_for l f) F (λ _ s', I [] s') s.
Proof.
  intros HI Hf. revert s HI. induction l as [|a l IH]; intros s HI; [done|].
  apply wp_bind. eapply wp_mono; [by apply Hf|]. intros u s' HI'. by apply IH.
Qed.
End wp_laws.

Lemma wp_fault {S A} (F F' : fault → Prop) (m : ST S A) (Q : A → S → Prop) s :
  (∀ f, F f → F' f) → wp m F Q s → wp m F' Q s.
Proof. unfold wp. destruct (m s) as [[a s']|]; eauto. Qed.

Lemma wp_no_fault {S A} (m : ST S A) (Q : A → S → Prop) s :
  wp m no_fault Q s → ∃ a s', runs m s a s' ∧ Q a s'.
Proof. unfold wp, runs. destruct (m s) as [[a s']|]; [eauto|done]. Qed.

Lemma wp_only_assert {S A} (m : ST S A) (Q : A → S → Prop) s :
  wp m only_assert Q s → m s = Crash AssertFailed ∨ ∃ a s', runs m s a s' ∧ Q a s'.
Proof. unfold wp, runs, only_assert. destruct (m s) as [[a s']|f]; [eauto|intros ->; by left]. Qed.

Lemma wp_asserts_if {S A} b (m : ST S A) (Q : A → S → Prop) s :
  wp m (asserts_if (b = true)) (λ a s', Q a s' ∧ b = false) s →
  if b then m s = Crash AssertFailed else ∃ a s', runs m s a s' ∧ Q a s'.
Proof.
  unfold wp, runs, asserts_if. destruct (m s) as [[a s']|f]; [intros [HQ ->]; eauto|]. intros [-> ->]. done.
Qed.

(** Walks through the leading reads and writes of a computation. *)
Ltac wp_step :=
  match goal with
  | |- wp (_ ≫= _) _ _ _ => apply wp_bind
  | |- wp (mret _) _ _ _ => apply wp_ret
  | |- wp st_get _ _ _ => apply wp_get
  | |- wp (st_modify _) _ _ _ => apply wp_modify
  end.
Ltac wp_steps := repeat wp_step.

(** ** Frames *)

(** [keeps f m]: [m] does not change what [f] reads of the state. *)
Definition keeps {S A B} (f : S → B) (m : ST S A) : Prop :=
  ∀ s a s', runs m s a s' → f s' = f s.

Section keeps_laws.
Context {S B : Type} (f : S → B).

Lemma keeps_ret {A} (a : A) : keeps f (mret a).
Proof. by intros s a' s' [= _ <-]. Qed.

Lemma keeps_get : keeps f st_get.
Proof. by intros s a' s' [= _ <-]. Qed.

Lemma keeps_crash {A} e : keeps f (st_crash (A := A) e).
Proof. done. Qed.

Lemma keeps_assert b : keeps f (st_assert b).
Proof. intros s a s' [_ ->]%runs_assert. done. Qed.

Lemma keeps_of_option {A} e (o : option A) : keeps f (st_of_option e o).
Proof. destruct o; [apply keeps_ret|apply keeps_crash]. Qed.

Lemma keeps_modify g : (∀ s, f (g s) = f s) → keeps f (st_modify g).
Proof. intros Hg s a s' [= _ <-]. apply Hg. Qed.

Lemma keeps_bind {A C} (m : ST S A) (k : A → ST S C) :
  keeps f m → (∀ a, keeps f (k a)) → keeps f (m ≫= k).
Proof. intros Hm Hk s a s' (b & s1 & H1 & H2)%runs_bind_inv. apply Hk in H2. apply Hm in H1. congruence. Qed.

Lemma keeps_when b m : keeps f m → keeps f (st_when b m).
Proof. destruct b; [done|intros _; apply keeps_ret]. Qed.

Lemma keeps_for {A} (l : list A) (g : A → ST S unit) : (∀ a, keeps f (g a)) → keeps f (st_for l g).
Proof. intros Hg. induction l as [|a l IH]; [apply keeps_ret|]. by apply keeps_bind. Qed.

Lemma keeps_lift {T A} (r : S → T) p (m : ST T A) : (∀ t s, f (p t s) = f s) → keeps f (st_lift r p m).
Proof. intros Hp s a s'. unfold runs, st_lift. destruct (m (r s)) as [[]|]; [|done]. intros [= _ <-]. apply Hp. Qed.
End keeps_laws.

Create HintDb keeps.
#[export] Hint Resolve keeps_ret keeps_get keeps_crash keeps_assert keeps_of_option : keeps.

(** Walks through a computation that leaves a part of the state alone. *)
Ltac keeps_step :=
  match goal with
  | |- keeps _ (_ ≫= _) => apply keeps_bind; [|intro]
  | |- keeps _ (st_when _ _) => apply keeps_when
  | |- keeps _ (st_for _ _) => apply keeps_for; intro
  | |- keeps _ (st_modify _) => apply keeps_modify; intro; reflexivity
  | |- keeps _ (st_lift _ _ _) => apply keeps_lift; intros; reflexivity
  | |- keeps _ (match ?x with _ => _ end) => destruct x
  | |- keeps _ _ => solve [auto with keeps]
  end.
Ltac keeps_auto := repeat keeps_step.

Lemma wp_keeps {S A B} (f : S → B) (m : ST S A) F (Q : A → S → Prop) s :
  keeps f m → wp m F (λ a s', f s' = f s → Q a s') s → wp m F Q s.
Proof. intros Hk. unfold wp. destruct (m s) as [[a s']|] eqn:E; [|done]. intros H. apply H. by eapply Hk. Qed.

(** ** Options and lists *)

(** A computation that is checked to end in a state that passes [P]. *)
Lemma option_computes {A} (P : A → bool) (o : option A) :
  from_option P false o = true → ∃ a, o = Some a ∧ P a = true.
Proof. destruct o as [a|]; [by exists a|done]. Qed.

(** [memcpy] to an offset of a buffer that must have the room. *)
Definition overwrite (o : nat) (b l : list Z) : option (list Z) :=
  guard (o + length b ≤ length l)%nat;; Some (take o l ++ b ++ drop (o + length b) l).

Lemma overwrite_spec o b (l : list Z) : (o + length b ≤ length l)%nat →
  ∃ l', overwrite o b l = Some l' ∧ length l' = length l ∧ take (o + length b) l' = take o l ++ b.
Proof.
  intros Hl. unfold overwrite. rewrite option_guard_True by done. eexists. split; [done|].
  split; [rewrite !length_app, length_take, length_drop; lia|].
  rewrite app_assoc. apply take_app_length'. rewrite length_app, length_take. lia.
Qed.

Lemma elem_of_drop {A} (x : A) n l : x ∈ drop n l → x ∈ l.
Proof. intros H. rewrite <- (take_drop n l). set_solver. Qed.

Lemma elem_of_take {A} (x : A) n l : x ∈ take n l → x ∈ l.
Proof. intros H. rewrite <- (take_drop n l). set_solver. Qed.

Lemma NoDup_drop {A} n (l : list A) : NoDup l → NoDup (drop n l).
Proof. intros. eapply sublist_NoDup; [done|apply sublist_drop]. Qed.

Lemma elem_of_fst {A B} (a : A) (b : B) l : (a, b) ∈ l → a ∈ l.*1.
Proof. intros. apply list_elem_of_fmap. by exists (a, b). Qed.

(** ** Laws of machine integers *)

Section wrap.
Open Scope Z_scope.

Lemma wrap_range w x : 0 ≤ w → in_u w (wrap w x).
Proof. intros. unfold in_u, wrap. apply Z.mod_pos_bound, Z.pow_pos_nonneg; lia. Qed.

Lemma wrap_small w x : in_u w x → wrap w x = x.
Proof. unfold in_u, wrap. intros. by apply Z.mod_small. Qed.

Lemma wrap_idemp w x : 0 ≤ w → wrap w (wrap w x) = wrap w x.
Proof. intros. by apply wrap_small, wrap_range. Qed.

Lemma wrap_add_l w x y : wrap w (wrap w x + y) = wrap w (x + y).
Proof. unfold wrap. apply Zplus_mod_idemp_l. Qed.

Lemma wrap_add_r w x y : wrap w (x + wrap w y) = wrap w (x + y).
Proof. unfold wrap. apply Zplus_mod_idemp_r. Qed.

Lemma wrap_sub_l w x y : wrap w (wrap w x - y) = wrap w (x - y).
Proof. unfold wrap. apply Zminus_mod_idemp_l. Qed.

Lemma wrap_sub_r w x y : wrap w (x - wrap w y) = wrap w (x - y).
Proof. unfold wrap. apply Zminus_mod_idemp_r. Qed.

Lemma swrap_small w x : 0 < w → - 2 ^ (w - 1) ≤ x < 2 ^ (w - 1) → swrap w x = x.
Proof.
  intros Hw Hx. assert (2 ^ w = 2 * 2 ^ (w - 1)) as E.
  { rewrite <- Z.pow_succ_r by lia. f_equal. lia. }
  unfold swrap, wrap. destruct (decide (0 ≤ x)).
  - rewrite Z.mod_small by lia. destruct (Z.ltb_spec x (2 ^ (w - 1))); lia.
  - rewrite <- (Z_mod_plus_full x 1), Z.mod_small by lia.
    destruct (Z.ltb_spec (x + 1 * 2 ^ w) (2 ^ (w - 1))); lia.
Qed.

Lemma swrap_lt w x : 0 < w → swrap w x < 2 ^ (w - 1).
Proof.
  intros Hw. assert (2 ^ w = 2 * 2 ^ (w - 1)) as E by (rewrite <- Z.pow_succ_r by lia; f_equal; lia).
  pose proof (wrap_range w x). unfold swrap, in_u in *. destruct (Z.ltb_spec (wrap w x) (2 ^ (w - 1))); lia.
Qed.
End wrap.

Create Rewrite HintDb wrap.
#[export] Hint Rewrite wrap_add_l wrap_add_r wrap_sub_l wrap_sub_r : wrap.
Create HintDb zmq.
#[export] Hint Resolve runs_ret runs_bind wrap_range wrap_small : zmq.
