(* ===== verification/Config.v ===== *)
(** Compile-time settings of libzmq ([src/libzmq/zmq/config.hpp]). *)
From S2P Require Import Prelude.
Local Open Scope Z_scope.

Definition default_locator_port : Z := 5682.
Definition bp_in_batch_size : Z := 8192.
Definition pgm_max_tpdu : Z := 1500.
Definition pgm_in_batch_size : Z := 1000.
Definition pgm_window_size : Z := 0.
Definition pgm_max_rte : Z := 1250000.
Definition pgm_secs : Z := 10.
Definition bp_out_batch_size : Z := 8192.
Definition message_pipe_granularity : nat := 256.
Definition command_pipe_granularity : nat := 16.
Definition max_vsm_size : Z := 30.
Definition api_thread_poll_rate : Z := 100.
Definition api_thread_max_command_delay : Z := 3000000.
Definition max_io_events : Z := 256.
Definition bp_hwm : Z := 10000.
Definition bp_lwm : Z := 5000.
Definition max_sctp_message_size : Z := 4096.
Definition max_timer_period : Z := 100.
