(* ===== verification/Wire.v ===== *)
(** Conversion of integers to and from network byte order
    ([src/libzmq/zmq/wire.hpp]).  A buffer is a list of bytes; the functions
    write at its front, as the code writes at the pointer it is given. *)
From S2P Require Import Prelude.
Local Open Scope Z_scope.

(** ** Operations *)

(** [buffer_ [i] = b] and [buffer_ [i]]. *)
Definition byte_at (buffer : list Z) (i : nat) : Z := buffer !!! i.

Definition put_uint8 (buffer : list Z) (value : Z) : list Z :=
  <[0%nat := u8 value]> buffer.

Definition get_uint8 (buffer : list Z) : Z := byte_at buffer 0.

Definition put_uint16 (buffer : list Z) (value : Z) : list Z :=
  <[1%nat := Z.land value 255]>
  (<[0%nat := Z.land (Z.shiftr value 8) 255]> buffer).

Definition get_uint16 (buffer : list Z) : Z :=
  Z.lor (Z.shiftl (byte_at buffer 0) 8) (byte_at buffer 1).

Definition put_uint32 (buffer : list Z) (value : Z) : list Z :=
  <[3%nat := Z.land value 255]>
  (<[2%nat := Z.land (Z.shiftr value 8) 255]>
  (<[1%nat := Z.land (Z.shiftr value 16) 255]>
  (<[0%nat := Z.land (Z.shiftr value 24) 255]> buffer))).

Definition get_uint32 (buffer : list Z) : Z :=
  Z.lor (Z.lor (Z.lor
    (Z.shiftl (byte_at buffer 0) 24)
    (Z.shiftl (byte_at buffer 1) 16))
    (Z.shiftl (byte_at buffer 2) 8))
    (byte_at buffer 3).

Definition put_uint64 (buffer : list Z) (value : Z) : list Z :=
  <[7%nat := Z.land value 255]>
  (<[6%nat := Z.land (Z.shiftr value 8) 255]>
  (<[5%nat := Z.land (Z.shiftr value 16) 255]>
  (<[4%nat := Z.land (Z.shiftr value 24) 255]>
  (<[3%nat := Z.land (Z.shiftr value 32) 255]>
  (<[2%nat := Z.land (Z.shiftr value 40) 255]>
  (<[1%nat := Z.land (Z.shiftr value 48) 255]>
  (<[0%nat := Z.land (Z.shiftr value 56) 255]> buffer))))))).

Definition get_uint64 (buffer : list Z) : Z :=
  Z.lor (Z.lor (Z.lor (Z.lor (Z.lor (Z.lor (Z.lor
    (Z.shiftl (byte_at buffer 0) 56)
    (Z.shiftl (byte_at buffer 1) 48))
    (Z.shiftl (byte_at buffer 2) 40))
    (Z.shiftl (byte_at buffer 3) 32))
    (Z.shiftl (byte_at buffer 4) 24))
    (Z.shiftl (byte_at buffer 5) 16))
    (Z.shiftl (byte_at buffer 6) 8))
    (byte_at buffer 7).

(** What every wire format promises its users: [put] writes [n] bytes that
    depend on the value alone, leaves the rest of the buffer as it was, and
    [get] reads the value back. *)
Class WireFormat (n : nat) (put : list Z → Z → list Z) (get : list Z → Z) := {
  wire_put_app : ∀ pre post v, length pre = n →
    put (pre ++ post) v = put pre v ++ post;
  wire_put_irrel : ∀ b b' v, length b = n → length b' = n → put b v = put b' v;
  wire_put_length : ∀ b v, length (put b v) = length b;
  wire_get_put : ∀ b v, (n ≤ length b)%nat →
    get (put b v) = wrap (8 * Z.of_nat n) v;
  wire_get_app : ∀ pre post, length pre = n → get (pre ++ post) = get pre;
  wire_put_bytes : ∀ b v, length b = n → Forall (in_u 8) (put b v)
}.

(** ** Proofs *)

Lemma lor_shift_add (k a b : Z) :
  0 ≤ k → 0 ≤ b < 2 ^ k → Z.lor (Z.shiftl a k) b = a * 2 ^ k + b.
Proof.
  intros Hk Hb. rewrite <- (Z.shiftl_mul_pow2 a k) by done.
  assert (Z.land (Z.shiftl a k) b = 0) as E.
  { apply Z.bits_inj'. intros n Hn. rewrite Z.land_spec, Z.bits_0.
    destruct (decide (n < k)).
    - by rewrite Z.shiftl_spec_low.
    - rewrite (proj1 (Z.bounded_iff_bits_nonneg k b ltac:(lia) ltac:(lia)) (proj2 Hb) n ltac:(lia)).
      by rewrite andb_false_r. }
  pose proof (Z.add_lor_land (Z.shiftl a k) b). lia.
Qed.

(** One byte of the value, as the code extracts it. *)
Lemma byte_of_shift (v k : Z) : 0 ≤ k → Z.land (Z.shiftr v k) 255 = (v / 2 ^ k) `mod` 256.
Proof.
  intros. rewrite Z.shiftr_div_pow2 by done.
  change 255 with (Z.ones 8). rewrite Z.land_ones; [done|lia].
Qed.

Lemma low_byte (v : Z) : Z.land v 255 = v `mod` 256.
Proof. change 255 with (Z.ones 8). rewrite Z.land_ones; [done|lia]. Qed.

Lemma in_u_land (v : Z) : in_u 8 (Z.land v 255).
Proof. rewrite low_byte. unfold in_u. apply Z.mod_pos_bound. lia. Qed.

(** Splits the first [n] elements off a list that is known to have them. *)
Ltac split_list b :=
  repeat match goal with
  | H : (S _ ≤ length b)%nat |- _ => let x := fresh "x" in destruct b as [|x b]; [simpl in H; lia|];
      simpl in H; apply le_S_n in H
  | H : length b = S _ |- _ => let x := fresh "x" in destruct b as [|x b]; [discriminate H|];
      injection H as H
  | H : length b = 0%nat |- _ => apply nil_length_inv in H; subst b
  end.

Ltac wire_solve :=
  constructor; intros;
  repeat match goal with
  | b : list Z |- _ => progress split_list b
  end; unfold put_uint8, put_uint16, put_uint32, put_uint64; simpl;
  rewrite ?length_insert; try reflexivity;
  try (repeat constructor; try apply in_u_land; by apply wrap_range).

(** Putting one more byte above the [k] low bits of a value. *)
Lemma be_cons (v k : Z) : 0 ≤ k →
  Z.lor (Z.shiftl ((v / 2 ^ k) `mod` 256) k) (v `mod` 2 ^ k) = v `mod` 2 ^ (k + 8).
Proof.
  intros. rewrite lor_shift_add by (try apply Z.mod_pos_bound; lia).
  rewrite Z.pow_add_r by lia. change (2 ^ 8) with 256.
  rewrite Z.rem_mul_r by lia. lia.
Qed.

Ltac wire_value :=
  unfold get_uint16, get_uint32, get_uint64, byte_at; simpl;
  rewrite !byte_of_shift by lia; rewrite low_byte, <- ?Z.lor_assoc;
  match goal with |- context [?v `mod` 256] => change (v `mod` 256) with (v `mod` 2 ^ 8) end;
  rewrite !be_cons by lia; reflexivity.

#[export] Instance wire_uint8 : WireFormat 1 put_uint8 get_uint8.
Proof. wire_solve. Qed.

#[export] Instance wire_uint16 : WireFormat 2 put_uint16 get_uint16.
Proof. wire_solve. wire_value. Qed.

#[export] Instance wire_uint32 : WireFormat 4 put_uint32 get_uint32.
Proof. wire_solve. wire_value. Qed.

#[export] Instance wire_uint64 : WireFormat 8 put_uint64 get_uint64.
Proof. wire_solve. wire_value. Qed.
