(* ===== verification/Atomics.v ===== *)
(** Atomic counter, pointer and bitmap
    ([src/libzmq/zmq/atomic_counter.hpp], [atomic_ptr.hpp],
    [atomic_bitmap.hpp]).  Each class picks one of several bodies per
    platform; [platform] names them.  The SPARC bodies are disabled in the
    source ([#elif 0 && ...]) and are not modelled. *)
From S2P Require Import Prelude.
Local Open Scope Z_scope.

Inductive platform := Windows | Solaris | X86 | Mutex.

(** ** atomic_counter_t: a [uint32_t].  Operations return (result, new value). *)

Definition counter_init (value_ : Z) : Z := u32 value_.
Definition counter_set (value_ : Z) (value : Z) : Z := u32 value_.

Definition counter_add (p : platform) (increment_ value : Z) : Z * Z :=
  match p with
  | Windows => (value, u32 (value + i32 increment_))
  | Solaris => let new_value := u32 (value + increment_) in
               (u32 (new_value - increment_), new_value)
  | X86 => (value, u32 (value + increment_))
  | Mutex => let old_value := value in (old_value, u32 (value + increment_))
  end.

Definition counter_sub (p : platform) (decrement value : Z) : bool * Z :=
  match p with
  | Windows => let delta := - i32 decrement in
               let old := value in
               (negb (u32 (old - decrement) =? 0), u32 (value + delta))
  | Solaris => let delta := - i32 decrement in
               let nv := u32 (value + delta) in (negb (nv =? 0), nv)
  | X86 => let oldval := u32 (- decrement) in
           (negb (value =? decrement), u32 (value + oldval))
  | Mutex => let value := u32 (value - decrement) in (negb (value =? 0), value)
  end.

(** ** atomic_ptr_t.  Every body is one atomic exchange or compare-and-swap. *)

Section atomic_ptr.
Context {P : Type} `{EqDecision P}.

(** [None] is the null pointer. *)
Definition ptr_init : option P := None.
Definition ptr_set (ptr_ ptr : option P) : option P := ptr_.
Definition ptr_xchg (val_ ptr : option P) : option P * option P := (ptr, val_).
Definition ptr_cas (cmp_ val_ ptr : option P) : option P * option P :=
  (ptr, if bool_decide (ptr = cmp_) then val_ else ptr).
End atomic_ptr.

(** ** atomic_bitmap_t: a [w]-bit unsigned integer *)

(** The mutex bodies, executed under the lock. *)
Definition bitmap_btsr (w set_index_ reset_index_ value : Z) : bool * Z :=
  let oldval := value in
  (negb (Z.land oldval (wrap w (Z.shiftl 1 reset_index_)) =? 0),
   Z.land (Z.lor oldval (wrap w (Z.shiftl 1 set_index_))) (wrap w (Z.lnot (Z.shiftl 1 reset_index_)))).

Definition bitmap_xchg (newval_ value : Z) : Z * Z := (value, newval_).

Definition bitmap_izte (thenval_ elseval_ value : Z) : Z * Z :=
  let oldval := value in
  (oldval, if oldval =? 0 then thenval_ else elseval_).

(** The lock-free bodies of btsr and izte are compare-and-swap loops.  Other
    threads may store to the bitmap at any time: a schedule gives, per
    iteration, the value the iteration reads (Windows, Solaris) and the value
    found in memory by the compare-and-swap.  The result is what the call
    returns and the value it has stored, or [None] while the loop has not
    left. *)
Fixpoint bitmap_reread_loop (w set_index_ reset_index_ : Z) (sched : list (Z * Z)) : option (bool * Z) :=
  match sched with
  | [] => None
  | (oldval, memory) :: sched =>
      let newval := Z.land (Z.lor oldval (wrap w (Z.shiftl 1 set_index_))) (wrap w (Z.lnot (Z.shiftl 1 reset_index_))) in
      if memory =? oldval
      then Some (if Z.land oldval (wrap w (Z.shiftl 1 reset_index_)) =? 0 then false else true, newval)
      else bitmap_reread_loop w set_index_ reset_index_ sched
  end.

(** [bts] and [btr] on a register take the index modulo its width. *)
Definition x86_bts (w index x : Z) : Z := Z.setbit x (index `mod` w).
Definition x86_btr (w index x : Z) : Z := Z.clearbit x (index `mod` w).

(** The x86 loop: a failed cmpxchg leaves the current value in the
    accumulator, which the next iteration uses as the old value. *)
Fixpoint bitmap_cmpxchg_loop (w set_index_ reset_index_ oldval : Z) (sched : list Z) : option (bool * Z) :=
  match sched with
  | [] => None
  | memory :: sched =>
      let dummy := x86_btr w reset_index_ (x86_bts w set_index_ oldval) in
      if memory =? oldval then Some (negb (Z.land oldval (wrap w (Z.shiftl 1 reset_index_)) =? 0), dummy)
      else bitmap_cmpxchg_loop w set_index_ reset_index_ memory sched
  end.

Fixpoint izte_reread_loop (thenval_ elseval_ : Z) (sched : list (Z * Z)) : option (Z * Z) :=
  match sched with
  | [] => None
  | (oldval, memory) :: sched =>
      let newval := if oldval =? 0 then thenval_ else elseval_ in
      if memory =? oldval then Some (oldval, newval) else izte_reread_loop thenval_ elseval_ sched
  end.

(** [mov %3, %2; test %1, %1; jz 2f; mov %4, %2; 2:] *)
Fixpoint izte_cmpxchg_loop (thenval_ elseval_ oldval : Z) (sched : list Z) : option (Z * Z) :=
  match sched with
  | [] => None
  | memory :: sched =>
      let dummy := if negb (oldval =? 0) then elseval_ else thenval_ in
      if memory =? oldval then Some (oldval, dummy) else izte_cmpxchg_loop thenval_ elseval_ memory sched
  end.

(** ** Proofs *)

Lemma swrap_wrap (w x : Z) : 0 < w → wrap w (swrap w x) = wrap w x.
Proof.
  intros. unfold swrap. case_match.
  - apply wrap_idemp. lia.
  - unfold wrap. rewrite <- (Z_mod_plus_full (x `mod` 2 ^ w - 2 ^ w) 1).
    rewrite Z.mul_1_l, Z.sub_add. apply Zmod_mod.
Qed.

Lemma wrap_sub_eq_0 (w x y : Z) :
  in_u w x → in_u w y → wrap w (x - y) = 0 ↔ x = y.
Proof.
  unfold in_u, wrap. intros Hx Hy. split; [|intros ->; by rewrite Z.sub_diag].
  intros E. destruct (Z.le_gt_cases y x).
  - rewrite Z.mod_small in E by lia. lia.
  - rewrite <- (Z_mod_plus_full _ 1), Z.mod_small in E by lia. lia.
Qed.

Lemma wrap_add_neg_swrap (w x d : Z) : 0 < w →
  wrap w (x + - swrap w d) = wrap w (x - d).
Proof.
  intros. rewrite Z.add_opp_r, <- wrap_sub_r, swrap_wrap by done. apply wrap_sub_r.
Qed.

Lemma counter_add_eq (p : platform) (increment_ value : Z) :
  in_u 32 value → counter_add p increment_ value = (value, u32 (value + increment_)).
Proof.
  intros Hv. destruct p; simpl; try done.
  - rewrite <- wrap_add_r, swrap_wrap by lia. by rewrite wrap_add_r.
  - rewrite wrap_sub_l, Z.add_simpl_r. by rewrite wrap_small.
Qed.

Lemma counter_sub_eq (p : platform) (decrement value : Z) :
  in_u 32 value → in_u 32 decrement →
  counter_sub p decrement value =
    (negb (u32 (value - decrement) =? 0), u32 (value - decrement)).
Proof.
  intros Hv Hd. pose proof (wrap_sub_eq_0 32 value decrement Hv Hd).
  destruct p; simpl; rewrite ?wrap_add_neg_swrap by lia; try done.
  rewrite wrap_add_r, Z.add_opp_r. f_equal. f_equal.
  destruct (Z.eqb_spec value decrement), (Z.eqb_spec (u32 (value - decrement)) 0); naive_solver.
Qed.

(** C18: on every platform [add] returns the old value and adds modulo 2^32,
    and taking a reference ([add (n)]) and dropping it ([sub (n)]) restores
    the counter, [sub] returning false exactly when that leaves it at zero. *)
Theorem counter_platforms (p q : platform) (n value : Z) :
  in_u 32 value → in_u 32 n →
  counter_add p n value = (value, u32 (value + n)) ∧
  counter_sub q n (counter_add p n value).2 = (negb (value =? 0), value).
Proof.
  intros Hv Hn. rewrite counter_add_eq, counter_sub_eq by eauto with zmq lia. split; [done|].
  simpl. rewrite wrap_sub_l, Z.add_simpl_r. by rewrite (wrap_small 32 value).
Qed.

Lemma counter_platforms_witness :
  counter_add Windows 3 4294967295 = (4294967295, 2) ∧
  counter_sub Solaris 3 (counter_add Windows 3 4294967295).2 = (true, 4294967295).
Proof. apply (counter_platforms Windows Solaris 3 4294967295); unfold in_u; lia. Defined.

(** *** Bits of machine words *)

Lemma testbit_wrap w x i : 0 ≤ i < w → Z.testbit (wrap w x) i = Z.testbit x i.
Proof. intros. unfold wrap. apply Z.mod_pow2_bits_low. lia. Qed.

Lemma testbit_shiftl_1 i j : 0 ≤ i → 0 ≤ j → Z.testbit (Z.shiftl 1 i) j = (j =? i).
Proof.
  intros. rewrite Z.shiftl_spec by done. destruct (Z.eqb_spec j i) as [->|].
  - by rewrite Z.sub_diag.
  - destruct (decide (j < i)); [by rewrite Z.testbit_neg_r by lia|].
    change 1 with (2 ^ 0). rewrite Z.pow2_bits_eqb by lia. destruct (Z.eqb_spec 0 (j - i)); [lia|done].
Qed.

(** A machine word is its bits. *)
Lemma in_u_testbit_inj w x y : in_u w x → in_u w y →
  (∀ i, 0 ≤ i < w → Z.testbit x i = Z.testbit y i) → x = y.
Proof.
  intros Hx Hy E. assert (0 ≤ w) by (destruct (Z.neg_nonneg_cases w); [unfold in_u in Hx; rewrite Z.pow_neg_r in Hx by done; lia|done]).
  rewrite <- (wrap_small w x), <- (wrap_small w y) by done. apply Z.bits_inj'. intros i Hi. unfold wrap.
  destruct (decide (i < w)); [rewrite !Z.mod_pow2_bits_low by lia; apply E; lia|by rewrite !Z.mod_pow2_bits_high by lia].
Qed.

Lemma in_u_bits w x : 0 ≤ w → 0 ≤ x → (∀ i, w ≤ i → Z.testbit x i = false) → in_u w x.
Proof.
  intros Hw Hx Hi. replace x with (wrap w x); [by apply wrap_range|].
  apply Z.bits_inj'. intros i Hi0. unfold wrap. destruct (decide (i < w)).
  - by rewrite Z.mod_pow2_bits_low by lia.
  - rewrite Z.mod_pow2_bits_high by lia. by rewrite Hi by lia.
Qed.

Lemma testbit_above w x i : in_u w x → 0 ≤ w ≤ i → Z.testbit x i = false.
Proof. intros Hx Hi. rewrite <- (wrap_small w x) by done. unfold wrap. by rewrite Z.mod_pow2_bits_high by lia. Qed.

(** [x & (1 << i)] as a condition. *)
Lemma land_bit w x i : 0 ≤ i < w → negb (Z.land x (wrap w (Z.shiftl 1 i)) =? 0) = Z.testbit x i.
Proof.
  intros Hi. assert (∀ j, 0 ≤ j → Z.testbit (Z.land x (wrap w (Z.shiftl 1 i))) j = Z.testbit x j && (j =? i)) as E.
  { intros j Hj. rewrite Z.land_spec. destruct (decide (j < w)).
    - by rewrite testbit_wrap, testbit_shiftl_1 by lia.
    - rewrite (testbit_above w (wrap w _)) by (try apply wrap_range; lia). destruct (Z.eqb_spec j i); [lia|]. by rewrite !andb_false_r. }
  destruct (Z.eqb_spec (Z.land x (wrap w (Z.shiftl 1 i))) 0) as [E0|E0]; simpl.
  - specialize (E i ltac:(lia)). rewrite E0, Z.bits_0, Z.eqb_refl, andb_true_r in E. done.
  - destruct (Z.testbit x i) eqn:Ex; [done|]. destruct E0. apply Z.bits_inj'. intros j Hj. rewrite E, Z.bits_0 by done.
    destruct (Z.eqb_spec j i) as [->|]; [by rewrite Ex|apply andb_false_r].
Qed.

(** *** btsr *)

(** What btsr promises of the old value [v]: it returns the bit that is reset;
    the new value is a machine word whose bits are those of [v], but for the
    one that is set and the one that is reset. *)
Definition btsr_spec (w s r v : Z) (res : bool * Z) : Prop :=
  res.1 = Z.testbit v r ∧ in_u w res.2 ∧
  ∀ i, 0 ≤ i < w → Z.testbit res.2 i = ((i =? s) || Z.testbit v i) && negb (i =? r).

Section btsr.
Context (w s r : Z) (Hs : 0 ≤ s < w) (Hr : 0 ≤ r < w).

Lemma land_masks_spec v b : b = Z.testbit v r →
  btsr_spec w s r v (b, Z.land (Z.lor v (wrap w (Z.shiftl 1 s))) (wrap w (Z.lnot (Z.shiftl 1 r)))).
Proof using Hs Hr.
  intros ->. split; [done|]. simpl. split.
  - set (c := Z.lnot _). set (x := Z.lor _ _).
    replace (Z.land x (wrap w c)) with (wrap w (Z.land x c)); [apply wrap_range; lia|].
    unfold wrap. rewrite <- !Z.land_ones by lia. by rewrite Z.land_assoc.
  - intros i Hi. rewrite Z.land_spec, Z.lor_spec, !testbit_wrap, Z.lnot_spec, !testbit_shiftl_1 by lia.
    by rewrite orb_comm.
Qed.

Lemma bitmap_btsr_spec v : btsr_spec w s r v (bitmap_btsr w s r v).
Proof using Hs Hr. apply land_masks_spec. by apply land_bit. Qed.

Lemma x86_btsr_spec v : in_u w v → btsr_spec w s r v
  (negb (Z.land v (wrap w (Z.shiftl 1 r)) =? 0), x86_btr w r (x86_bts w s v)).
Proof using Hs Hr.
  intros Hv. rewrite land_bit by done. split; [done|]. simpl. unfold x86_btr, x86_bts. rewrite !Z.mod_small by done.
  assert (∀ i, 0 ≤ i → Z.testbit (Z.clearbit (Z.setbit v s) r) i = ((i =? s) || Z.testbit v i) && negb (i =? r)) as E.
  { intros i Hi. rewrite Z.clearbit_eqb, Z.setbit_eqb by lia. by rewrite (Z.eqb_sym s), (Z.eqb_sym r). }
  split; [|intros i Hi; apply E; lia]. apply in_u_bits; [lia| |].
  - unfold Z.clearbit, Z.setbit. apply Z.ldiff_nonneg. left. apply Z.lor_nonneg. unfold in_u in Hv.
    split; [lia|]. apply Z.shiftl_nonneg. lia.
  - intros i Hi. rewrite E by lia. rewrite (testbit_above w) by (done || lia). destruct (Z.eqb_spec i s); [lia|done].
Qed.

Lemma bitmap_reread_loop_some sched res : bitmap_reread_loop w s r sched = Some res →
  ∃ v, (v, v) ∈ sched ∧ btsr_spec w s r v res.
Proof using Hs Hr.
  induction sched as [|[o m] sched IH]; simpl; [done|]. destruct (Z.eqb_spec m o) as [->|].
  - intros [= <-]. exists o. split; [by left|]. apply land_masks_spec.
    rewrite <- (land_bit w) by done. by destruct (Z.land _ _ =? 0).
  - intros (v & ? & ?)%IH. exists v. split; [by right|done].
Qed.

Lemma bitmap_cmpxchg_loop_some sched : ∀ oldval res, Forall (in_u w) sched →
  bitmap_cmpxchg_loop w s r oldval sched = Some res → ∃ v, v ∈ sched ∧ btsr_spec w s r v res.
Proof using Hs Hr.
  induction sched as [|m sched IH]; intros o res Hf; simpl; [done|]. apply Forall_cons in Hf as [Hm Hf].
  destruct (Z.eqb_spec m o) as [->|].
  - intros [= <-]. exists o. split; [by left|]. by apply x86_btsr_spec.
  - intros (v & ? & ?)%IH; [|done]. exists v. split; [by right|done].
Qed.

Lemma bitmap_reread_loop_leaves v sched : is_Some (bitmap_reread_loop w s r (sched ++ [(v, v)])).
Proof using. induction sched as [|[o m] sched IH]; simpl; [by rewrite Z.eqb_refl|]. by destruct (m =? o). Qed.

Lemma bitmap_cmpxchg_loop_leaves v sched : ∀ start, is_Some (bitmap_cmpxchg_loop w s r start (sched ++ [v; v])).
Proof using.
  induction sched as [|m sched IH]; intros start; simpl; [|by destruct (m =? start)].
  destruct (v =? start); [done|]. by rewrite Z.eqb_refl.
Qed.
End btsr.

(** C17: on every platform btsr is one atomic step: the body under a lock, and
    the lock-free loops when they leave, return the bit to be reset as it is
    in a value that is in memory at that moment, and replace that value by the
    one with the first bit set, the second one reset and all others as they
    were.  A loop leaves as soon as it is not disturbed. *)
Theorem btsr_loops_linearizable (w s r : Z) : 0 ≤ s < w → 0 ≤ r < w →
  (∀ v, btsr_spec w s r v (bitmap_btsr w s r v)) ∧
  (∀ sched res, bitmap_reread_loop w s r sched = Some res → ∃ v, (v, v) ∈ sched ∧ btsr_spec w s r v res) ∧
  (∀ start memory res, Forall (in_u w) memory → bitmap_cmpxchg_loop w s r start memory = Some res →
     ∃ v, v ∈ memory ∧ btsr_spec w s r v res) ∧
  ∀ v sched start memory, is_Some (bitmap_reread_loop w s r (sched ++ [(v, v)])) ∧
     is_Some (bitmap_cmpxchg_loop w s r start (memory ++ [v; v])).
Proof.
  intros Hs Hr. split_and!.
  - intros v. by apply bitmap_btsr_spec.
  - intros sched res. by apply bitmap_reread_loop_some.
  - intros start memory res. by apply bitmap_cmpxchg_loop_some.
  - intros v sched start memory. split; [apply bitmap_reread_loop_leaves|apply bitmap_cmpxchg_loop_leaves].
Qed.

(** Signal 0 is set and bit 2, which was set, reset; the values change twice
    before the loops leave. *)
Lemma btsr_loops_linearizable_witness :
  bitmap_reread_loop 32 0 2 [(5, 4); (4, 4)] = Some (true, 1) ∧ (∃ v, (v, v) ∈ [(5, 4); (4, 4)] ∧ btsr_spec 32 0 2 v (true, 1)) ∧
  bitmap_cmpxchg_loop 32 0 2 0 [6; 2; 2] = Some (false, 3) ∧ (∃ v, v ∈ [6; 2; 2] ∧ btsr_spec 32 0 2 v (false, 3)).
Proof.
  destruct (btsr_loops_linearizable 32 0 2) as (_ & H1 & H2 & _); [lia|lia|].
  split; [reflexivity|]. split; [by apply H1|]. split; [reflexivity|]. apply (H2 0); [|reflexivity].
  repeat constructor; unfold in_u; lia.
Defined.

(** The loops of izte act as its locked body does. *)
Lemma izte_loops_linearizable t e sched start memory res1 res2 :
  izte_reread_loop t e sched = Some res1 → izte_cmpxchg_loop t e start memory = Some res2 →
  ∃ v1 v2, (v1, v1) ∈ sched ∧ v2 ∈ memory ∧ res1 = bitmap_izte t e v1 ∧ res2 = bitmap_izte t e v2.
Proof.
  intros H1 H2. assert (∃ v1, (v1, v1) ∈ sched ∧ res1 = bitmap_izte t e v1) as (v1 & Hv1 & ->).
  { clear H2. induction sched as [|[o m] sched IH]; simpl in H1; [done|]. destruct (Z.eqb_spec m o) as [->|].
    - injection H1 as <-. exists o. split; [by left|done].
    - destruct (IH H1) as (v & ? & ?). exists v. split; [by right|done]. }
  assert (∃ v2, v2 ∈ memory ∧ res2 = bitmap_izte t e v2) as (v2 & Hv2 & ->); [|by exists v1, v2].
  clear H1. revert start H2. induction memory as [|m memory IH]; intros o H2; simpl in H2; [done|].
  destruct (Z.eqb_spec m o) as [->|].
  - injection H2 as <-. exists o. split; [by left|]. unfold bitmap_izte. by destruct (o =? 0).
  - destruct (IH _ H2) as (v & ? & ?). exists v. split; [by right|done].
Qed.
