(* ===== verification/YQueue.v ===== *)
(** The chunked queue of [src/libzmq/zmq/yqueue.hpp] and the interface it
    offers to the lock-free pipe: a row of slots, each with an address. *)
From S2P Require Import Prelude.

(** Address of a queue element: the chunk and the index inside it. *)
Definition slot_ptr : Type := positive * nat.

(** ** What a queue of slots promises to its user *)

(** [slots q l]: the queue [q] holds the slots [l], front first; a slot is
    its address and the value last stored there, if any.  [back] is only
    promised to be the last slot when there is one. *)
Class SlotQueue (T Q : Type) := {
  sq_new : Q;
  sq_push : Q → Q;
  sq_pop : Q → res Q;
  sq_front : Q → slot_ptr;
  sq_back : Q → slot_ptr;
  sq_load : Q → slot_ptr → option T;
  sq_store : Q → slot_ptr → T → Q;
}.

Class SlotQueueLaws (T Q : Type) `{SlotQueue T Q} := {
  sq_slots : Q → list (slot_ptr * option T) → Prop;
  sq_slots_new : sq_slots sq_new [];
  sq_slots_nodup q l : sq_slots q l → NoDup l.*1;
  sq_slots_push q l : sq_slots q l →
    ∃ p v, p ∉ l.*1 ∧ sq_slots (sq_push q) (l ++ [(p, v)]) ∧ sq_back (sq_push q) = p;
  sq_slots_pop q p v l : sq_slots q ((p, v) :: l) →
    ∃ q', sq_pop q = Ok q' ∧ sq_slots q' l ∧ sq_back q' = sq_back q;
  sq_slots_front q p v l : sq_slots q ((p, v) :: l) → sq_front q = p;
  sq_slots_load q p v l : sq_slots q l → (p, v) ∈ l → sq_load q p = v;
  sq_slots_store q l1 p v l2 x : sq_slots q (l1 ++ (p, v) :: l2) →
    sq_slots (sq_store q p x) (l1 ++ (p, Some x) :: l2) ∧
    sq_back (sq_store q p x) = sq_back q;
}.

(** ** yqueue_t *)

Section yqueue.
Context {T : Type} (N : nat).

(** [None] stands for memory that was allocated and not yet written. *)
Record chunk := Chunk {
  values : list (option T);
  next : option positive
}.
#[export] Instance eta_chunk : Eta chunk := λ c, Chunk (values c) (next c).

Record yqueue := YQ {
  chunks : gmap positive chunk;
  begin_chunk : positive;
  begin_pos : nat;
  back_chunk : option positive;
  back_pos : nat;
  end_chunk : positive;
  end_pos : nat
}.
#[export] Instance eta_yqueue : Eta yqueue := λ q,
  YQ (chunks q) (begin_chunk q) (begin_pos q) (back_chunk q) (back_pos q)
     (end_chunk q) (end_pos q).

(** [new chunk_t]: an address that is not in use and uninitialised members. *)
Definition new_chunk (h : gmap positive chunk) : positive * gmap positive chunk :=
  let a := fresh (dom h) in (a, <[a := Chunk (replicate N None) None]> h).

Definition yqueue_new : yqueue :=
  let '(b, h) := new_chunk ∅ in YQ h b 0 None 0 b 0.

Definition yqueue_front (q : yqueue) : slot_ptr := (begin_chunk q, begin_pos q).

Definition yqueue_back (q : yqueue) : slot_ptr := (default 1%positive (back_chunk q), back_pos q).

Definition yqueue_push (q : yqueue) : yqueue :=
  let q := q <| back_chunk := Some (end_chunk q) |> <| back_pos := end_pos q |> in
  let q := q <| end_pos := S (end_pos q) |> in
  if bool_decide (end_pos q ≠ N) then q
  else
    let '(c, h) := new_chunk (chunks q) in
    let h := alter (λ k, k <| next := Some c |>) (end_chunk q) h in
    q <| chunks := h |> <| end_chunk := c |> <| end_pos := 0 |>.

Definition yqueue_pop (q : yqueue) : res yqueue :=
  let q := q <| begin_pos := S (begin_pos q) |> in
  if bool_decide (begin_pos q = N) then
    let o := begin_chunk q in
    match chunks q !! o ≫= next with
    | Some c => Ok (q <| begin_chunk := c |> <| begin_pos := 0 |>
                      <| chunks := delete o (chunks q) |>)
    | None => Crash BadAccess
    end
  else Ok q.

(** Reading and writing an element through its address. *)
Definition yqueue_load (q : yqueue) (p : slot_ptr) : option T :=
  chunks q !! p.1 ≫= λ c, mjoin (values c !! p.2).

Definition yqueue_store (q : yqueue) (p : slot_ptr) (x : T) : yqueue :=
  q <| chunks := alter (λ c, c <| values := <[p.2 := Some x]> (values c) |>) p.1 (chunks q) |>.

(** The destructor: frees the chunks from [begin_chunk] to [end_chunk]. *)
Fixpoint yqueue_destroy_loop (fuel : nat) (b e : positive) (h : gmap positive chunk)
    : res (gmap positive chunk) :=
  match fuel with
  | O => Crash OutOfFuel
  | S fuel =>
      match h !! b with
      | None => Crash UseAfterFree
      | Some o =>
          let h := delete b h in
          if bool_decide (b = e) then Ok h
          else match next o with
               | None => Crash BadAccess
               | Some b' => yqueue_destroy_loop fuel b' e h
               end
      end
  end.

Definition yqueue_destroy (q : yqueue) : res (gmap positive chunk) :=
  yqueue_destroy_loop (S (size (chunks q))) (begin_chunk q) (end_chunk q) (chunks q).

#[export] Instance yqueue_slot_queue : SlotQueue T yqueue := {
  sq_new := yqueue_new; sq_push := yqueue_push; sq_pop := yqueue_pop;
  sq_front := yqueue_front; sq_back := yqueue_back;
  sq_load := yqueue_load; sq_store := yqueue_store
}.
End yqueue.

Arguments chunk T : clear implicits.
Arguments yqueue T : clear implicits.

(** ** Representation *)

Section yqueue_proofs.
Context {T : Type} (N : nat).
Implicit Types (q : yqueue T) (c : positive) (cs init : list positive).

(** The addresses of the first [n] elements of a chunk, and of whole chunks. *)
Definition row c (n : nat) : list slot_ptr := pair c <$> seq 0 n.
Definition rows cs : list slot_ptr := cs ≫= λ c, row c N.

(** Consecutive chunks are linked. *)
Fixpoint chain (h : gmap positive (chunk T)) cs : Prop :=
  match cs with
  | c :: ((c' :: _) as cs') => (∃ k, h !! c = Some k ∧ next k = Some c') ∧ chain h cs'
  | _ => True
  end.

(** [q] holds the slots [l] in the chunks [init ++ [end_chunk q]]. *)
Record yq_repr q init (l : list (slot_ptr * option T)) : Prop := {
  repr_nodup : NoDup (init ++ [end_chunk q]);
  repr_dom : dom (chunks q) = list_to_set (init ++ [end_chunk q]);
  repr_chain : chain (chunks q) (init ++ [end_chunk q]);
  repr_len : ∀ c k, chunks q !! c = Some k → length (values k) = N;
  repr_begin : head (init ++ [end_chunk q]) = Some (begin_chunk q);
  repr_pos : begin_pos q < N ∧ end_pos q < N;
  repr_size : begin_pos q ≤ length (rows init ++ row (end_chunk q) (end_pos q));
  repr_slots : l.*1 = drop (begin_pos q) (rows init ++ row (end_chunk q) (end_pos q));
  repr_load : ∀ p v, (p, v) ∈ l → yqueue_load q p = v;
  repr_back : l ≠ [] → last l.*1 = Some (yqueue_back q)
}.

Definition yq_slots q (l : list (slot_ptr * option T)) : Prop := ∃ init, yq_repr q init l.

Lemma row_S c n : row c (S n) = row c n ++ [(c, n)].
Proof. unfold row. by rewrite seq_S, fmap_app. Qed.

Lemma length_row c n : length (row c n) = n.
Proof. unfold row. by rewrite length_fmap, length_seq. Qed.

Lemma elem_of_row p c n : p ∈ row c n ↔ p.1 = c ∧ p.2 < n.
Proof.
  unfold row. rewrite list_elem_of_fmap. destruct p as [c' i]; simpl. split.
  - intros (j & [= -> ->] & Hj%elem_of_seq). lia.
  - intros [-> ?]. exists i. split; [done|]. apply elem_of_seq. lia.
Qed.

Lemma rows_app cs1 cs2 : rows (cs1 ++ cs2) = rows cs1 ++ rows cs2.
Proof. apply bind_app. Qed.

Lemma elem_of_rows p cs : p ∈ rows cs ↔ p.1 ∈ cs ∧ p.2 < N.
Proof.
  unfold rows. rewrite list_elem_of_bind. setoid_rewrite elem_of_row. naive_solver.
Qed.

Lemma NoDup_row c n : NoDup (row c n).
Proof. apply NoDup_fmap_2; [by intros ?? [=]|apply NoDup_seq]. Qed.

Lemma NoDup_rows cs : NoDup cs → NoDup (rows cs).
Proof.
  induction 1 as [|c cs Hc _ IH]; [constructor|].
  unfold rows; simpl. apply NoDup_app. split_and!; [apply NoDup_row| |done].
  intros p [<- ?]%elem_of_row [? ?]%elem_of_rows. done.
Qed.

Lemma chain_ext (h h' : gmap positive (chunk T)) cs e :
  (∀ c k, c ∈ cs → h !! c = Some k → ∃ k', h' !! c = Some k' ∧ next k' = next k) →
  chain h (cs ++ [e]) → chain h' (cs ++ [e]).
Proof.
  induction cs as [|c cs IH]; [done|]. intros Hh.
  assert (∀ h, chain h ((c :: cs) ++ [e]) ↔
    (∃ k, h !! c = Some k ∧ next k = head (cs ++ [e])) ∧ chain h (cs ++ [e])) as Hc
    by (by destruct cs).
  rewrite !Hc. intros [(k & Hk & Hn) ?]. split.
  - destruct (Hh c k) as (k' & ? & ?); [by left|done|]. exists k'. split; [done|congruence].
  - apply IH; [|done]. intros; eapply Hh; [by right|done].
Qed.

Lemma repr_addr q init l p : yq_repr q init l → p ∈ l.*1 → p.1 ∈ init ++ [end_chunk q] ∧ p.2 < N.
Proof.
  intros R. rewrite (repr_slots _ _ _ R). intros Hp%elem_of_drop.
  destruct (repr_pos _ _ _ R). rewrite elem_of_app, elem_of_rows, elem_of_row in Hp.
  rewrite elem_of_app, list_elem_of_singleton. destruct Hp as [[]|[]]; split; eauto; lia.
Qed.

Lemma yq_slots_nodup q l : yq_slots q l → NoDup l.*1.
Proof.
  intros [init R]. rewrite (repr_slots _ _ _ R).
  apply NoDup_drop, NoDup_app. pose proof (repr_nodup _ _ _ R) as [Hi [He _]]%NoDup_app.
  split_and!; [by apply NoDup_rows| |apply NoDup_row].
  intros p [? ?]%elem_of_rows [? ?]%elem_of_row. set_solver.
Qed.
Lemma length_rows_app cs c n : length (rows cs ++ row c n) = length cs * N + n.
Proof.
  rewrite length_app, length_row. f_equal.
  induction cs as [|c' cs IH]; [done|].
  change (rows (c' :: cs)) with (row c' N ++ rows cs).
  by rewrite length_app, length_row, IH.
Qed.

Lemma yq_slots_new : 0 < N → yq_slots (yqueue_new N) [].
Proof.
  intros HN. exists []. unfold yqueue_new, new_chunk. constructor; simpl; try done.
  - apply NoDup_singleton.
  - intros c k. rewrite lookup_insert_Some.
    intros [[_ <-]|[_ H]]; [|by rewrite lookup_empty in H]. simpl. apply length_replicate.
  - intros p v H. by apply elem_of_nil in H.
Qed.

Lemma yq_slots_front q p v l : yq_slots q ((p, v) :: l) → yqueue_front q = p.
Proof.
  intros [init R]. pose proof (repr_slots _ _ _ R) as Hs. pose proof (repr_pos _ _ _ R) as [Hb He].
  pose proof (repr_begin _ _ _ R) as Hh. simpl in Hs.
  assert (p = (begin_chunk q, begin_pos q)); [|done].
  assert ((rows init ++ row (end_chunk q) (end_pos q)) !! begin_pos q = Some p) as Hp.
  { by rewrite <- (Nat.add_0_r (begin_pos q)), <- lookup_drop, <- Hs. }
  assert (∀ c n, begin_pos q < n → row c n !! begin_pos q = Some (c, begin_pos q)) as Hrow.
  { intros. unfold row. by rewrite list_lookup_fmap, lookup_seq_lt. }
  destruct init as [|c init]; simpl in *; simplify_eq.
  - apply lookup_lt_Some in Hp as Hl. rewrite length_row in Hl. rewrite Hrow in Hp by done. congruence.
  - rewrite <- app_assoc, lookup_app_l in Hp by (by rewrite length_row).
    rewrite Hrow in Hp by done. congruence.
Qed.

Lemma yq_slots_load q p v l : yq_slots q l → (p, v) ∈ l → yqueue_load q p = v.
Proof. intros [init R]. apply (repr_load _ _ _ R). Qed.

(** Appending a slot to the representation; [push] does it in both cases. *)
Lemma yq_slots_extend q q' init init' l p :
  yq_repr q init l →
  rows init' ++ row (end_chunk q') (end_pos q') =
    (rows init ++ row (end_chunk q) (end_pos q)) ++ [p] →
  NoDup (init' ++ [end_chunk q']) →
  dom (chunks q') = list_to_set (init' ++ [end_chunk q']) →
  chain (chunks q') (init' ++ [end_chunk q']) →
  (∀ c k, chunks q' !! c = Some k → length (values k) = N) →
  head (init' ++ [end_chunk q']) = Some (begin_chunk q') →
  begin_pos q' = begin_pos q → end_pos q' < N → yqueue_back q' = p →
  (∀ p, p ∈ l.*1 → yqueue_load q' p = yqueue_load q p) →
  yq_repr q' init' (l ++ [(p, yqueue_load q' p)]).
Proof.
  intros R Hr ?? ?? ? Hb ? Hback Hl. pose proof (repr_pos _ _ _ R). pose proof (repr_size _ _ _ R).
  constructor; try done; rewrite ?Hb, ?Hr.
  - lia.
  - rewrite length_app. lia.
  - rewrite drop_app_le by done. by rewrite fmap_app, (repr_slots _ _ _ R).
  - intros p' v [Hp|[= -> ->]%list_elem_of_singleton]%elem_of_app; [|done].
    rewrite Hl; [by apply (repr_load _ _ _ R)|by eapply elem_of_fst].
  - intros _. rewrite fmap_app. simpl. by rewrite last_snoc, Hback.
Qed.

Lemma load_alter_next (h : gmap positive (chunk T)) c n c' i :
  (alter (λ k, Chunk (values k) n) c h !! c' ≫= λ k, mjoin (values k !! i)) =
  (h !! c' ≫= λ k, mjoin (values k !! i)).
Proof.
  destruct (decide (c' = c)) as [->|].
  - rewrite lookup_alter_eq. by destruct (h !! c).
  - by rewrite lookup_alter_ne.
Qed.

Lemma yqueue_load_store q p x p' :
  p.2 < N → (∃ k, chunks q !! p.1 = Some k ∧ length (values k) = N) →
  yqueue_load (yqueue_store q p x) p' = if decide (p' = p) then Some x else yqueue_load q p'.
Proof.
  intros Hp (k & Hk & Hl). unfold yqueue_load, yqueue_store; simpl.
  destruct p as [c i], p' as [c' i']; simpl in *. destruct (decide (c' = c)) as [->|].
  - rewrite lookup_alter_eq, Hk; simpl. destruct (decide (i' = i)) as [->|].
    + rewrite decide_True, list_lookup_insert_eq by (done || lia). done.
    + rewrite decide_False, list_lookup_insert_ne by congruence. done.
  - rewrite lookup_alter_ne, decide_False by congruence. done.
Qed.

Lemma chain_snoc (h : gmap positive (chunk T)) cs c c' :
  chain h (cs ++ [c]) → (∃ k, h !! c = Some k ∧ next k = Some c') → chain h (cs ++ [c; c']).
Proof.
  induction cs as [|c1 [|c2 cs] IH]; simpl; [tauto|tauto|]. intros [? ?] ?. split; [done|by apply IH].
Qed.

Lemma chain_tail (h : gmap positive (chunk T)) c cs : chain h (c :: cs) → chain h cs.
Proof. destruct cs; simpl; tauto. Qed.

Lemma yq_repr_push q init l : yq_repr q init l →
  ∃ init', yq_repr (yqueue_push N q) init'
    (l ++ [((end_chunk q, end_pos q), yqueue_load (yqueue_push N q) (end_chunk q, end_pos q))]).
Proof.
  intros R. pose proof (repr_pos _ _ _ R) as [Hb He].
  pose proof (repr_nodup _ _ _ R) as Hnd. pose proof (repr_dom _ _ _ R) as Hdom.
  unfold yqueue_push; simpl. case_bool_decide as HN.
  - exists init. eapply yq_slots_extend; simpl; try done; try apply R; [|lia].
    by rewrite row_S, app_assoc.
  - exists (init ++ [end_chunk q]). simpl. set (c := fresh (dom (chunks q))).
    assert (c ∉ dom (chunks q)) as Hc by apply is_fresh.
    assert (end_chunk q ∈ dom (chunks q)) as Hec by (rewrite Hdom; set_solver).
    assert (c ≠ end_chunk q) by set_solver. apply elem_of_dom in Hec as [ke Hke].
    assert (∀ c' k, chunks q !! c' = Some k → <[c:=Chunk (replicate N None) None]> (chunks q) !! c' = Some k) as Hins.
    { intros c' k Hk. rewrite lookup_insert_ne; [done|]. intros <-. by apply elem_of_dom_2 in Hk. }
    eapply yq_slots_extend; simpl; try done; try apply R.
    + rewrite rows_app. change (row c 0) with (@nil slot_ptr).
      change (rows [end_chunk q]) with (row (end_chunk q) N ++ []). rewrite !app_nil_r, <- app_assoc.
      by rewrite <- row_S; replace (S (end_pos q)) with N by lia.
    + apply NoDup_app. split_and!; [done| |apply NoDup_singleton].
      intros x Hx ->%list_elem_of_singleton. apply Hc. rewrite Hdom. set_solver.
    + rewrite dom_alter_L, dom_insert_L, Hdom. set_solver.
    + rewrite <- app_assoc. apply chain_snoc.
      * eapply chain_ext; [|apply R]. intros c' k Hc' Hk. exists k.
        rewrite lookup_alter_ne; [by auto|]. intros <-. apply NoDup_app in Hnd. set_solver.
      * exists (ke <| next := Some c |>). rewrite lookup_alter_eq. by rewrite (Hins _ _ Hke).
    + intros c' k. rewrite lookup_alter_Some. setoid_rewrite lookup_insert_Some.
      assert (∀ c k, chunks q !! c = Some k → length (values k) = N) as Hlen by apply R.
      intros [(_ & k' & [[<- <-]|[_ ?]] & ->)|[_ [[<- <-]|[_ ?]]]]; simpl;
        eauto using length_replicate.
    + rewrite <- (repr_begin _ _ _ R). by destruct init.
    + lia.
    + intros p Hp. pose proof (repr_addr _ _ _ _ R Hp) as [Hp1 _].
      unfold yqueue_load; simpl. rewrite load_alter_next, lookup_insert_ne; [done|].
      intros E. apply Hc. rewrite E, Hdom. set_solver.
Qed.

Lemma yq_slots_push q l : yq_slots q l →
  ∃ p v, p ∉ l.*1 ∧ yq_slots (yqueue_push N q) (l ++ [(p, v)]) ∧ yqueue_back (yqueue_push N q) = p.
Proof.
  intros [init R]. apply yq_repr_push in R as [init' R]. eexists _, _. split_and!.
  - assert (yq_slots (yqueue_push N q) (l ++ [(_, _)])) as Hn%yq_slots_nodup by (eexists; exact R).
    rewrite fmap_app in Hn. apply NoDup_app in Hn as (_ & Hn & _). intros Hp. apply (Hn _ Hp). by left.
  - by exists init'.
  - pose proof (repr_back _ _ _ R) as Hb. rewrite fmap_app in Hb; simpl in Hb.
    rewrite last_snoc in Hb. assert (∀ x, l ++ [x] ≠ []) as Hne by (by destruct l).
    symmetry. apply (inj Some), Hb, Hne.
Qed.

(** The front slot's chunk is the first one, and it is not freed before its
    last slot is popped. *)
Lemma yq_slots_pop q p v l : yq_slots q ((p, v) :: l) →
  ∃ q', yqueue_pop N q = Ok q' ∧ yq_slots q' l ∧ yqueue_back q' = yqueue_back q.
Proof.
  intros [init R]. pose proof (repr_pos _ _ _ R) as [Hb He].
  pose proof (repr_nodup _ _ _ R) as Hnd. pose proof (repr_dom _ _ _ R) as Hdom.
  pose proof (repr_slots _ _ _ R) as Hs. pose proof (repr_begin _ _ _ R) as Hh. simpl in Hs.
  assert (begin_pos q < length init * N + end_pos q) as Hlt.
  { rewrite <- length_rows_app with (c := end_chunk q). apply (f_equal length) in Hs.
    rewrite length_drop in Hs. simpl in Hs. lia. }
  assert (l.*1 = drop (S (begin_pos q)) (rows init ++ row (end_chunk q) (end_pos q))) as Hs'.
  { replace (S (begin_pos q)) with (begin_pos q + 1) by lia. by rewrite <- drop_drop, <- Hs. }
  assert (∀ p v, (p, v) ∈ l → yqueue_load q p = v) as Hl.
  { intros ???. apply (repr_load _ _ _ R). by right. }
  assert (l ≠ [] → last l.*1 = Some (yqueue_back q)) as Hbk.
  { intros Hne. rewrite <- (repr_back _ _ _ R) by done. simpl. by destruct l. }
  unfold yqueue_pop; simpl. case_bool_decide as HN.
  - destruct init as [|b init]; simpl in *; [lia|]. simplify_eq.
    assert (∃ k c', chunks q !! begin_chunk q = Some k ∧ next k = Some c' ∧
      head (init ++ [end_chunk q]) = Some c') as (k & c' & Hk & Hn & Hc').
    { pose proof (repr_chain _ _ _ R) as Hc. simpl in Hc. destruct init; simpl in *; naive_solver. }
    rewrite Hk; simpl. rewrite Hn. eexists. split; [done|]. split; [|done].
    assert (∀ p, p ∈ rows init ++ row (end_chunk q) (end_pos q) → p.1 ≠ begin_chunk q) as Hne.
    { intros p'. rewrite elem_of_app, elem_of_rows, elem_of_row.
      apply NoDup_cons in Hnd as [Hb1 _]. rewrite elem_of_app, list_elem_of_singleton in Hb1.
      intros [[]|[]] ?; apply Hb1; [left|right]; congruence. }
    assert (drop N (rows (begin_chunk q :: init) ++ row (end_chunk q) (end_pos q)) =
            rows init ++ row (end_chunk q) (end_pos q)) as Hd.
    { change (rows (begin_chunk q :: init)) with (row (begin_chunk q) N ++ rows init).
      rewrite <- app_assoc, drop_app_length'; [done|]. by rewrite length_row. }
    rewrite HN in Hs'. change (row (begin_chunk q) N ++ rows init) with (rows (begin_chunk q :: init)) in Hs'.
    rewrite Hd in Hs'.
    exists init. apply NoDup_cons in Hnd as [Hb1 Hnd]. constructor; simpl; try done; try lia.
    + rewrite dom_delete_L, Hdom. set_solver.
    + eapply chain_ext; [|eapply chain_tail, R]. intros c k' Hc Hck. exists k'. split; [|done].
      rewrite lookup_delete_ne; [done|]. intros <-. set_solver.
    + intros c k' [_ ?]%lookup_delete_Some. by eapply (repr_len _ _ _ R).
    + intros p' v' Hp. rewrite <- (Hl _ _ Hp). unfold yqueue_load; simpl.
      rewrite lookup_delete_ne; [done|]. apply not_eq_sym, Hne. rewrite Hs' in *.
      apply elem_of_fst in Hp. by rewrite Hs' in Hp.
  - eexists. split; [done|]. split; [|done]. exists init.
    constructor; simpl; try done; try apply R; [lia|]. rewrite length_rows_app. lia.
Qed.

Lemma yq_slots_store q l1 p v l2 x : yq_slots q (l1 ++ (p, v) :: l2) →
  yq_slots (yqueue_store q p x) (l1 ++ (p, Some x) :: l2) ∧
  yqueue_back (yqueue_store q p x) = yqueue_back q.
Proof.
  intros Hq. split; [|done]. pose proof (yq_slots_nodup _ _ Hq) as Hn. destruct Hq as [init R].
  assert (p ∈ (l1 ++ (p, v) :: l2).*1) as Hp by (rewrite fmap_app, elem_of_app; right; by left).
  apply (repr_addr _ _ _ _ R) in Hp as [Hp1 Hp2].
  assert (∃ k, chunks q !! p.1 = Some k ∧ length (values k) = N) as (k & Hk & Hlen).
  { assert (p.1 ∈ dom (chunks q)) as [k Hk]%elem_of_dom.
    { rewrite (repr_dom _ _ _ R). by apply elem_of_list_to_set. }
    exists k. split; [done|]. by eapply (repr_len _ _ _ R). }
  exists init. constructor; try apply R.
  - simpl. rewrite dom_alter_L. apply R.
  - simpl. eapply chain_ext; [|apply R]. intros c k' _ Hc. destruct (decide (c = p.1)) as [->|].
    + rewrite lookup_alter_eq, Hc. simpl. eauto.
    + rewrite lookup_alter_ne by done. eauto.
  - simpl. intros c k'. rewrite lookup_alter_Some. intros [(_ & k1 & Hk1 & ->)|[_ ?]]; simpl.
    + rewrite length_insert. by eapply (repr_len _ _ _ R).
    + by eapply (repr_len _ _ _ R).
  - etrans; [|apply (repr_slots _ _ _ R)]. by rewrite !fmap_app.
  - intros p' v' Hp'. rewrite yqueue_load_store by eauto.
    rewrite fmap_app in Hn. apply NoDup_app in Hn as (_ & Hn1 & Hn2). simpl in *.
    apply NoDup_cons in Hn2 as [Hn2 _].
    rewrite elem_of_app, elem_of_cons in Hp'. case_decide as Hpp; [subst p'|].
    + destruct Hp' as [?%elem_of_fst|[[= ->]|?%elem_of_fst]]; [|done|done]. exfalso. set_solver.
    + apply (repr_load _ _ _ R). rewrite elem_of_app, elem_of_cons. naive_solver.
  - intros _. etrans; [|apply (repr_back _ _ _ R); by destruct l1]. by rewrite !fmap_app.
Qed.

(** ** The destructor *)

Lemma yqueue_destroy_loop_chain cs e : ∀ fuel h b,
  NoDup (cs ++ [e]) → dom h = list_to_set (cs ++ [e]) → chain h (cs ++ [e]) →
  head (cs ++ [e]) = Some b → length cs < fuel →
  yqueue_destroy_loop fuel b e h = Ok ∅.
Proof.
  induction cs as [|c cs IH]; intros [|fuel] h b Hn Hd Hc Hb Hf; simpl in *; try lia; simplify_eq.
  - assert (b ∈ dom h) as [k Hk]%elem_of_dom by (rewrite Hd; set_solver).
    rewrite Hk, bool_decide_true by done. f_equal. apply dom_empty_inv_L.
    rewrite dom_delete_L, Hd. set_solver.
  - apply NoDup_cons in Hn as [Hb1 Hn].
    assert (∃ k c', h !! b = Some k ∧ next k = Some c' ∧ head (cs ++ [e]) = Some c')
      as (k & c' & Hk & Hnx & Hc') by (destruct cs; simpl in *; naive_solver).
    rewrite Hk, bool_decide_false, Hnx by set_solver.
    apply IH; [done| | |done|lia].
    + rewrite dom_delete_L, Hd. set_solver.
    + eapply chain_ext; [|by eapply chain_tail]. intros c k' Hc1 Hck. exists k'. split; [|done].
      rewrite lookup_delete_ne; [done|]. intros <-. set_solver.
Qed.

Lemma yq_slots_destroy q l : yq_slots q l → yqueue_destroy q = Ok ∅.
Proof.
  intros [init R]. eapply yqueue_destroy_loop_chain; try apply R.
  rewrite <- size_dom, (repr_dom _ _ _ R), size_list_to_set by apply R. rewrite length_app. simpl. lia.
Qed.
End yqueue_proofs.

#[export] Instance yqueue_laws {T} (N : nat) (HN : 0 < N) :
  @SlotQueueLaws T (yqueue T) (yqueue_slot_queue N) :=
  @Build_SlotQueueLaws T (yqueue T) (yqueue_slot_queue N) (yq_slots N)
    (yq_slots_new N HN) (yq_slots_nodup N) (yq_slots_push N) (yq_slots_pop N)
    (yq_slots_front N) (yq_slots_load N) (yq_slots_store N).

(** ** The queue against a list *)

(** A client that stores to [back ()] after each [push ()] and reads
    [front ()] before each [pop ()]. *)
Inductive queue_op (T : Type) := QPush (x : T) | QPop.
Arguments QPush {T} x.
Arguments QPop {T}.

Fixpoint yqueue_run {T} (N : nat) (ops : list (queue_op T)) (q : yqueue T) : res (list T * yqueue T) :=
  match ops with
  | [] => Ok ([], q)
  | QPush x :: ops =>
      let q := yqueue_push N q in
      yqueue_run N ops (yqueue_store q (yqueue_back q) x)
  | QPop :: ops =>
      match yqueue_load q (yqueue_front q) with
      | None => Crash BadAccess
      | Some x =>
          q ← yqueue_pop N q;
          '(xs, q) ← yqueue_run N ops q;
          Ok (x :: xs, q)
      end
  end.

(** The same client on a list; it must not pop an empty list. *)
Fixpoint list_run {T} (ops : list (queue_op T)) (l : list T) : option (list T * list T) :=
  match ops, l with
  | [], _ => Some ([], l)
  | QPush x :: ops, _ => list_run ops (l ++ [x])
  | QPop :: ops, [] => None
  | QPop :: ops, x :: l => '(xs, l) ← list_run ops l; Some (x :: xs, l)
  end.

Lemma yqueue_run_list {T} (N : nat) (ops : list (queue_op T)) : ∀ q (l : list (slot_ptr * option T)) xs out rest,
  yq_slots N q l → l.*2 = Some <$> xs → list_run ops xs = Some (out, rest) →
  ∃ q' l', yqueue_run N ops q = Ok (out, q') ∧ yq_slots N q' l' ∧ l'.*2 = Some <$> rest.
Proof.
  induction ops as [|[x|] ops IH]; intros q l xs out rest Hq Hl Hr; simpl in *.
  - simplify_eq. eauto.
  - apply yq_slots_push in Hq as (p & v & _ & Hq & ->).
    apply yq_slots_store with (x := x) in Hq as [Hq _].
    eapply IH; [done| |done]. by rewrite !fmap_app, Hl.
  - destruct xs as [|x xs]; [done|]. destruct l as [|[p v] l]; [done|]. simplify_eq/=.
    erewrite yq_slots_front, yq_slots_load; [|done|by left|done].
    apply yq_slots_pop in Hq as (q' & -> & Hq & _). simpl.
    destruct (list_run ops xs) as [[out' rest']|] eqn:E; simplify_eq/=.
    edestruct IH as (q'' & l' & -> & ? & ?); [done..|]. simpl. eauto.
Qed.

(** C12: a client that pushes, stores and pops, and never pops an empty queue,
    reads from a yqueue what it would read from a list, whatever the chunk
    size; the destructor then frees every chunk exactly once. *)
Theorem yqueue_refines_list {T} (N : nat) (ops : list (queue_op T)) out rest :
  0 < N → list_run ops [] = Some (out, rest) →
  ∃ q, yqueue_run N ops (yqueue_new N) = Ok (out, q) ∧ yqueue_destroy q = Ok ∅.
Proof.
  intros HN Hr.
  destruct (yqueue_run_list N ops (yqueue_new N) [] [] out rest) as (q & l & ? & Hq & _);
    [by apply yq_slots_new|done..|].
  exists q. split; [done|]. by eapply yq_slots_destroy.
Qed.

Lemma yqueue_refines_list_witness :
  ∃ q, yqueue_run 2 [QPush 1; QPush 2; QPush 3; QPop; QPop; QPush 4; QPop] (yqueue_new 2) =
         Ok ([1; 2; 3], q) ∧ yqueue_destroy q = Ok ∅.
Proof. apply (yqueue_refines_list 2 _ _ [4]); [lia|reflexivity]. Defined.
