(* ===== verification/Channel.v ===== *)
(** What a pipe without [D] offers to the objects that use it: an unbounded
    channel from one thread to another, at the level of whole calls. *)
From S2P Require Import Prelude.

Class Channel (T P : Type) := {
  ch_new : bool → P;
  ch_write : P → T → P;
  ch_flush : P → bool * P;
  ch_read : P → res (option T * P)
}.

(** [ch_view p xs n asleep]: the channel holds the items [xs], the first [n]
    of them visible to the reader; [asleep] says that the reader has been
    told there is nothing and that nothing was flushed since. *)
Class ChannelLaws (T P : Type) `{Channel T P} := {
  ch_view : P → list T → nat → bool → Prop;
  ch_view_bound p xs n asleep : ch_view p xs n asleep →
    n ≤ length xs ∧ (asleep = true → n = 0);
  ch_new_law dead : ch_view (ch_new dead) [] 0 dead;
  ch_write_law p xs n asleep x : ch_view p xs n asleep →
    ch_view (ch_write p x) (xs ++ [x]) n asleep;
  ch_flush_law p xs n asleep : ch_view p xs n asleep →
    ∃ p', ch_flush p = (negb (asleep && (n <? length xs)), p') ∧
      ch_view p' xs (length xs) (asleep && (length xs <=? n));
  ch_read_law p x xs n : ch_view p (x :: xs) (S n) false →
    ∃ p', ch_read p = Ok (Some x, p') ∧ ch_view p' xs n false;
  ch_read_none p xs asleep : ch_view p xs 0 asleep →
    ∃ p', ch_read p = Ok (None, p') ∧ (asleep = false → ch_view p' xs 0 true);
}.

