(* ===== verification/YPipe.v ===== *)
(** The lock-free pipe of [src/libzmq/zmq/ypipe.hpp], over any queue of
    slots.  One thread writes and flushes, one thread reads; the pointer [c]
    is all they share.  First the operations, then the two threads as a step
    relation whose steps are the shared accesses, then the channel the pipe
    offers to its users. *)
From S2P Require Import Prelude Atomics YQueue Channel.

(** ** Operations *)

Section ypipe.
Context {T Q : Type} `{!SlotQueue T Q} (D : bool).

Record ypipe := YP {
  queue : Q;
  w : slot_ptr;
  r : option slot_ptr;
  c : option slot_ptr;
  stop : bool
}.
#[export] Instance eta_ypipe : Eta ypipe := λ p, YP (queue p) (w p) (r p) (c p) (stop p).

Definition ypipe_new (dead_ : bool) : ypipe :=
  let q := sq_push sq_new in
  YP q (sq_back q) (Some (sq_back q))
     (ptr_set (if dead_ then None else Some (sq_back q)) ptr_init) false.

Definition ypipe_write (p : ypipe) (value_ : T) : ypipe :=
  let q := sq_store (queue p) (sq_back (queue p)) value_ in
  p <| queue := sq_push q |>.

(** [flush] touches [c] once, or twice when the first access finds that the
    reader sleeps.  [ypipe_flush_cas] ends with its result, or with [None]
    when the second access is still to come. *)
Definition ypipe_flush_cas (p : ypipe) : option bool * ypipe :=
  let back := sq_back (queue p) in
  if bool_decide (w p = back) then (Some true, p)
  else
    let '(old, c') := ptr_cas (Some (w p)) (Some back) (c p) in
    let p := p <| c := c' |> in
    if bool_decide (old ≠ Some (w p)) then (None, p)
    else (Some true, p <| w := back |>).

Definition ypipe_flush_set (p : ypipe) : bool * ypipe :=
  let back := sq_back (queue p) in
  (false, p <| c := ptr_set (Some back) (c p) |> <| w := back |>).

Definition ypipe_flush (p : ypipe) : bool * ypipe :=
  match ypipe_flush_cas p with
  | (Some b, p) => (b, p)
  | (None, p) => ypipe_flush_set p
  end.

(** [*value_ = queue.front (); queue.pop ()]. *)
Definition ypipe_take (p : ypipe) : res (option T * ypipe) :=
  match sq_load (queue p) (sq_front (queue p)) with
  | None => Crash BadAccess
  | Some value => q ← sq_pop (queue p); Ok (Some value, p <| queue := q |>)
  end.

(** The value read, or [None] where the code returns false. *)
Definition ypipe_read (p : ypipe) : res (option T * ypipe) :=
  let front := sq_front (queue p) in
  if bool_decide (Some front ≠ r p) then ypipe_take p
  else if D then
    if stop p then Ok (None, p <| stop := false |>)
    else
      let '(old, c') := ptr_xchg None (c p) in
      let p := p <| r := old |> <| c := c' |> in
      if bool_decide (Some front = r p) || bool_decide (r p = None)
      then Ok (None, p <| stop := false |>)
      else ypipe_take (p <| stop := true |>)
  else
    let '(old, c') := ptr_cas (Some front) None (c p) in
    let p := p <| r := old |> <| c := c' |> in
    if bool_decide (Some front = r p) || bool_decide (r p = None)
    then Ok (None, p)
    else ypipe_take p.

(** [while (pipe.read (&value));]: the values read before the pipe says
    there are none left. *)
Fixpoint ypipe_drain (fuel : nat) (p : ypipe) : res (list T * ypipe) :=
  match fuel with
  | O => Crash OutOfFuel
  | S fuel =>
      '(o, p) ← ypipe_read p;
      match o with
      | None => Ok ([], p)
      | Some x => '(xs, p) ← ypipe_drain fuel p; Ok (x :: xs, p)
      end
  end.
End ypipe.

Arguments ypipe Q : clear implicits.

(** ** Representation *)

Section ypipe_rep.
Context {T Q : Type} `{SlotQueueLaws T Q}.
Implicit Types (p : ypipe Q) (xs : list T).

(** The pipe holds the items [xs] followed by the terminator; the first [wi]
    of them are flushed and the first [ri] prefetched. *)
Record yp_rep p xs (ri wi : nat) : Prop := {
  rep_order : ri ≤ wi ≤ length xs;
  rep_slots : ∃ l, sq_slots (queue p) l ∧
    l.*1 !! ri = r p ∧ l.*1 !! wi = Some (w p) ∧
    l.*1 !! length xs = Some (sq_back (queue p)) ∧
    length l = S (length xs) ∧ take (length xs) l.*2 = Some <$> xs
}.

Lemma yp_rep_new dead_ : yp_rep (ypipe_new dead_) [] 0 0.
Proof.
  constructor; [done|].
  destruct (sq_slots_push sq_new [] sq_slots_new) as (a & v & _ & ? & E).
  exists [(a, v)]. simpl in *. by rewrite E.
Qed.

Lemma yp_rep_write p xs ri wi x :
  yp_rep p xs ri wi → yp_rep (ypipe_write p x) (xs ++ [x]) ri wi.
Proof.
  intros [Ho (l & Hl & Hr & Hw & Hb & Hn & Hv)].
  destruct (exists_last (l := l)) as (l0 & [b v0] & ->); [by destruct l|].
  rewrite length_app in Hn; simpl in Hn. assert (length l0 = length xs) as Hn0 by lia.
  assert (l0.*2 = Some <$> xs) as Hv0.
  { rewrite <- Hv, fmap_app, take_app_length' by (by rewrite length_fmap). done. }
  assert (b = sq_back (queue p)) as ->.
  { rewrite fmap_app in Hb. csimpl in Hb. rewrite <- Hn0, <- (length_fmap fst), list_lookup_middle in Hb by done.
    by simplify_eq. }
  apply (sq_slots_store _ _ _ _ _ x) in Hl as [Hl _].
  apply sq_slots_push in Hl as (a & v & _ & Hl & E).
  constructor; rewrite ?length_app; simpl; [lia|].
  eexists. split; [exact Hl|]. rewrite !fmap_app in *; csimpl in *.
  assert (∀ i z, i ≤ length xs → (l0.*1 ++ [sq_back (queue p)]) !! i = z →
    ((l0.*1 ++ [sq_back (queue p)]) ++ [a]) !! i = z) as Hlk.
  { intros i z Hi <-. rewrite lookup_app_l; [done|]. rewrite length_app, length_fmap. simpl. lia. }
  split_and!; [apply Hlk; [lia|done]|apply Hlk; [lia|done]| | |].
  - rewrite E. apply list_lookup_middle. rewrite length_app, length_fmap. simpl. lia.
  - rewrite !length_app. simpl. lia.
  - rewrite Hv0, take_app_length'; [done|]. rewrite length_app, length_fmap. done.
Qed.

Lemma yp_rep_w_back p xs ri wi :
  yp_rep p xs ri wi → w p = sq_back (queue p) ↔ wi = length xs.
Proof.
  intros [Ho (l & Hl & Hr & Hw & Hb & Hn & Hv)]. split.
  - intros E. rewrite <- E in Hb.
    eapply NoDup_lookup; [by eapply (sq_slots_nodup _ _ Hl)|done..].
  - intros ->. congruence.
Qed.

Lemma yp_rep_front p xs ri wi a :
  yp_rep p xs ri wi → a = sq_front (queue p) →
  (r p = Some a ↔ ri = 0) ∧ (w p = a ↔ wi = 0).
Proof.
  intros [Ho (l & Hl & Hr & Hw & Hb & Hn & Hv)] ->.
  destruct l as [|[f v] l]; [done|]. rewrite (sq_slots_front _ _ _ _ Hl).
  pose proof (sq_slots_nodup _ _ Hl) as Hnd. csimpl in *.
  assert (∀ i, (f :: l.*1) !! i = Some f ↔ i = 0) as Hi.
  { intros i. split; [|by intros ->]. intros Hi. by eapply (NoDup_lookup _ i 0 f Hnd). }
  split; [by rewrite <- Hr, Hi|]. rewrite <- Hi, Hw. naive_solver.
Qed.

(** The flushed index moves to the end when [w] does. *)
Lemma yp_rep_set_w p p' xs ri wi :
  yp_rep p xs ri wi → queue p' = queue p → r p' = r p → w p' = sq_back (queue p) →
  yp_rep p' xs ri (length xs).
Proof.
  intros [Ho (l & Hl & Hr & Hw & Hb & Hn & Hv)] Eq Er Ew.
  constructor; [lia|]. rewrite Eq, Er, Ew. eauto 10.
Qed.

(** Prefetching: [r] becomes [w]. *)
Lemma yp_rep_set_r p p' xs ri wi :
  yp_rep p xs ri wi → queue p' = queue p → w p' = w p → r p' = Some (w p) →
  yp_rep p' xs wi wi.
Proof.
  intros [Ho (l & Hl & Hr & Hw & Hb & Hn & Hv)] Eq Ew Er.
  constructor; [lia|]. rewrite Eq, Er, Ew. eauto 10.
Qed.

Lemma yp_rep_same p p' xs ri wi :
  yp_rep p xs ri wi → queue p' = queue p → w p' = w p → r p' = r p → yp_rep p' xs ri wi.
Proof.
  intros [Ho Hl] Eq Ew Er. constructor; [done|]. by rewrite Eq, Er, Ew.
Qed.

Lemma yp_rep_take p x xs ri wi :
  yp_rep p (x :: xs) (S ri) (S wi) →
  ∃ p', ypipe_take p = Ok (Some x, p') ∧ yp_rep p' xs ri wi ∧
    c p' = c p ∧ stop p' = stop p ∧ w p' = w p.
Proof.
  intros [Ho (l & Hl & Hr & Hw & Hb & Hn & Hv)]. simpl in *.
  destruct l as [|[f v] l]; [done|]. simpl in *. simplify_eq/=.
  unfold ypipe_take. rewrite (sq_slots_front _ _ _ _ Hl).
  rewrite (sq_slots_load _ _ _ _ Hl) by (by left).
  destruct (sq_slots_pop _ _ _ _ Hl) as (q' & -> & Hq' & Eb). simpl.
  eexists. split; [done|]. split; [|done]. constructor; [lia|]. simpl.
  exists l. rewrite Eb. eauto 10.
Qed.

Lemma ypipe_flush_cas_nothing p xs ri :
  yp_rep p xs ri (length xs) → ypipe_flush_cas p = (Some true, p).
Proof.
  intros R. unfold ypipe_flush_cas. rewrite bool_decide_true; [done|]. by apply (yp_rep_w_back _ _ _ _ R).
Qed.

Lemma ypipe_flush_cas_awake p xs ri wi :
  yp_rep p xs ri wi → wi ≠ length xs → c p = Some (w p) →
  ∃ p', ypipe_flush_cas p = (Some true, p') ∧ yp_rep p' xs ri (length xs) ∧
    c p' = Some (w p') ∧ stop p' = stop p.
Proof.
  intros R Hwi Hc. unfold ypipe_flush_cas, ptr_cas.
  rewrite bool_decide_false by (by rewrite (yp_rep_w_back _ _ _ _ R)).
  simpl. rewrite Hc, (bool_decide_true (Some (w p) = Some (w p))), bool_decide_false by naive_solver.
  eexists. split; [done|]. split_and!; [|done..]. by eapply yp_rep_set_w.
Qed.

Lemma ypipe_flush_cas_asleep p xs ri wi :
  yp_rep p xs ri wi → wi ≠ length xs → c p = None →
  ∃ p', ypipe_flush_cas p = (None, p') ∧ yp_rep p' xs ri wi ∧ c p' = None ∧ stop p' = stop p.
Proof.
  intros R Hwi Hc. unfold ypipe_flush_cas, ptr_cas.
  rewrite bool_decide_false by (by rewrite (yp_rep_w_back _ _ _ _ R)).
  simpl. rewrite Hc, (bool_decide_false (None = Some (w p))), bool_decide_true by naive_solver.
  eexists. split; [done|]. split_and!; [|done..]. by eapply yp_rep_same.
Qed.

Lemma ypipe_flush_set_spec p xs ri wi :
  yp_rep p xs ri wi →
  ∃ p', ypipe_flush_set p = (false, p') ∧ yp_rep p' xs ri (length xs) ∧
    c p' = Some (w p') ∧ stop p' = stop p.
Proof.
  intros R. eexists. split; [done|]. split_and!; [|done..]. by eapply yp_rep_set_w.
Qed.

(** [read] while prefetched items are left. *)
Lemma ypipe_read_prefetched D p x xs ri wi :
  yp_rep p (x :: xs) (S ri) (S wi) →
  ∃ p', ypipe_read D p = Ok (Some x, p') ∧ yp_rep p' xs ri wi ∧
    c p' = c p ∧ stop p' = stop p ∧ w p' = w p.
Proof.
  intros R. unfold ypipe_read. rewrite bool_decide_true; [by apply yp_rep_take|].
  pose proof (yp_rep_front _ _ _ _ _ R eq_refl) as [Hr _]. intros E. by apply eq_sym, Hr in E.
Qed.

(** [read] at the end of the prefetched items, [c] in place. *)
Lemma ypipe_read_prefetch D p xs wi :
  yp_rep p xs 0 wi → c p = Some (w p) → stop p = false →
  match xs, wi with
  | x :: xs', S wi' =>
      ∃ p', ypipe_read D p = Ok (Some x, p') ∧ yp_rep p' xs' wi' wi' ∧
        c p' = (if D then None else Some (w p')) ∧ stop p' = D ∧ w p' = w p
  | _, _ =>
      ∃ p', ypipe_read D p = Ok (None, p') ∧ yp_rep p' xs 0 wi ∧ c p' = None ∧ stop p' = false ∧ w p' = w p
  end.
Proof.
  intros R Hc Hs. pose proof (yp_rep_front _ _ _ _ _ R eq_refl) as [Hr Hw].
  pose proof (rep_order _ _ _ _ R) as Ho.
  unfold ypipe_read. rewrite bool_decide_false by (intros E; apply E; symmetry; by apply Hr).
  rewrite Hs, Hc. unfold ptr_cas, ptr_xchg. simpl.
  destruct xs as [|x xs], wi as [|wi]; simpl in *; try lia.
  1, 2: assert (w p = sq_front (queue p)) as Ew by (by apply Hw);
    rewrite Ew; destruct D; rewrite !bool_decide_true by done; simpl; (eexists; split; [done|]);
    simpl; (split_and!; [|done..]);
    (eapply yp_rep_same; [exact R|done|done|symmetry; by apply Hr]).
  assert (w p ≠ sq_front (queue p)) as Ew by (by rewrite Hw).
  assert (Some (sq_front (queue p)) ≠ Some (w p)) as Hne1 by congruence.
  assert (Some (w p) ≠ Some (sq_front (queue p))) as Hne2 by congruence.
  assert (∀ p1, queue p1 = queue p → w p1 = w p → r p1 = Some (w p) →
    ∃ p', ypipe_take p1 = Ok (Some x, p') ∧ yp_rep p' xs wi wi ∧
      c p' = c p1 ∧ stop p' = stop p1 ∧ w p' = w p1) as Ht.
  { intros. eapply yp_rep_take, yp_rep_set_r; [exact R|done..]. }
  destruct D; rewrite ?(bool_decide_false _ Hne1), ?(bool_decide_false _ Hne2); simpl;
    rewrite ?(bool_decide_false _ Hne1); simpl;
    match goal with |- context [ypipe_take ?p1] =>
      destruct (Ht p1 eq_refl eq_refl eq_refl) as (p' & -> & ? & Hc' & Hs' & Hw') end;
    exists p'; simpl in *; split_and!; congruence || done.
Qed.

Lemma ypipe_read_stop p xs wi :
  yp_rep p xs 0 wi → stop p = true →
  ∃ p', ypipe_read true p = Ok (None, p') ∧ yp_rep p' xs 0 wi ∧ c p' = c p ∧ stop p' = false ∧ w p' = w p.
Proof.
  intros R Hs. pose proof (yp_rep_front _ _ _ _ _ R eq_refl) as [Hr Hw].
  unfold ypipe_read. rewrite bool_decide_false by (intros E; apply E; symmetry; by apply Hr).
  rewrite Hs. eexists. split; [done|]. split_and!; [|done..]. by eapply yp_rep_same.
Qed.
End ypipe_rep.

(** ** The channel a pipe without [D] offers to its users *)

Section ypipe_channel.
Context {T Q : Type} `{SlotQueueLaws T Q}.

#[export] Instance ypipe_channel : Channel T (ypipe Q) := {
  ch_new := ypipe_new; ch_write := ypipe_write;
  ch_flush := ypipe_flush; ch_read := ypipe_read false
}.

Definition yp_view (p : ypipe Q) (xs : list T) (n : nat) (asleep : bool) : Prop :=
  (∃ ri, yp_rep p xs ri n) ∧ stop p = false ∧
  (asleep = true → n = 0) ∧ c p = if asleep then None else Some (w p).

Lemma yp_view_bound p xs n asleep : yp_view p xs n asleep →
  n ≤ length xs ∧ (asleep = true → n = 0).
Proof. intros ([ri R] & _ & ? & _). split; [apply (rep_order _ _ _ _ R)|done]. Qed.

Lemma yp_view_new dead : yp_view (ypipe_new dead) [] 0 dead.
Proof. split; [exists 0; apply yp_rep_new|]. by destruct dead. Qed.

Lemma yp_view_write p xs n asleep x : yp_view p xs n asleep →
  yp_view (ypipe_write p x) (xs ++ [x]) n asleep.
Proof. intros ([ri R] & ? & ? & ?). split; [exists ri; by apply yp_rep_write|done]. Qed.

Lemma yp_view_flush p xs n asleep : yp_view p xs n asleep →
  ∃ p', ypipe_flush p = (negb (asleep && (n <? length xs)), p') ∧
    yp_view p' xs (length xs) (asleep && (length xs <=? n)).
Proof.
  intros ([ri R] & Hs & Ha & Hc). pose proof (rep_order _ _ _ _ R) as Ho. unfold ypipe_flush.
  destruct (decide (n = length xs)) as [->|Hn].
  - rewrite (ypipe_flush_cas_nothing _ _ _ R). eexists.
    rewrite Nat.ltb_irrefl, Nat.leb_refl, andb_false_r, andb_true_r. split; [done|]. split; [eauto|done].
  - rewrite (proj2 (Nat.ltb_lt n (length xs))), (proj2 (Nat.leb_gt (length xs) n)), andb_true_r, andb_false_r by lia.
    destruct asleep; simpl.
    + destruct (ypipe_flush_cas_asleep _ _ _ _ R Hn Hc) as (p1 & -> & R1 & Hc1 & Hs1).
      destruct (ypipe_flush_set_spec _ _ _ _ R1) as (p2 & -> & R2 & Hc2 & Hs2).
      eexists. split; [done|]. split; [eauto|]. split_and!; congruence || done.
    + destruct (ypipe_flush_cas_awake _ _ _ _ R Hn Hc) as (p1 & -> & R1 & Hc1 & Hs1).
      eexists. split; [done|]. split; [eauto|]. split_and!; congruence || done.
Qed.

Lemma yp_view_read p x xs n : yp_view p (x :: xs) (S n) false →
  ∃ p', ypipe_read false p = Ok (Some x, p') ∧ yp_view p' xs n false.
Proof.
  intros ([[|ri] R] & Hs & Ha & Hc).
  - destruct (ypipe_read_prefetch false _ _ _ R Hc Hs) as (p' & -> & R' & Hc' & Hs' & Hw').
    eexists. split; [done|]. split; [eauto|done].
  - destruct (ypipe_read_prefetched false _ _ _ _ _ R) as (p' & -> & R' & Hc' & Hs' & Hw').
    eexists. split; [done|]. split; [eauto|]. split_and!; congruence || done.
Qed.

Lemma yp_view_read_none p xs asleep : yp_view p xs 0 asleep →
  ∃ p', ypipe_read false p = Ok (None, p') ∧ (asleep = false → yp_view p' xs 0 true).
Proof.
  intros ([ri R] & Hs & Ha & Hc). pose proof (rep_order _ _ _ _ R) as Ho.
  assert (ri = 0) as -> by lia. destruct asleep.
  - pose proof (yp_rep_front _ _ _ _ _ R eq_refl) as [Hr _].
    unfold ypipe_read. rewrite bool_decide_false by (intros E; apply E; symmetry; by apply Hr).
    rewrite Hc. simpl. eexists. split; [done|]. done.
  - pose proof (ypipe_read_prefetch false _ _ _ R Hc Hs) as Hread.
    destruct xs; destruct Hread as (p' & -> & R' & Hc' & Hs' & Hw');
      (eexists; split; [done|]; intros _; split; [eauto|done]).
Qed.

#[export] Instance ypipe_channel_laws : ChannelLaws T (ypipe Q) :=
  Build_ChannelLaws T (ypipe Q) ypipe_channel yp_view yp_view_bound yp_view_new yp_view_write
    yp_view_flush yp_view_read yp_view_read_none.
End ypipe_channel.

(** ** The two threads *)

(** Where the writer is: between calls, between the two accesses of [flush],
    or back from a [flush] that returned false and obliged to wake the
    reader before it uses the pipe again. *)
Inductive writer_pc := WIdle | WSetting | WWaking.

Section ypipe_threads.
Context {T Q : Type} `{SlotQueueLaws T Q} (D : bool).

(** [written] and [got] list the items written and read so far, [flushed]
    counts those made visible to the reader, [wakes] the wake-ups sent to
    the reader that it has not consumed. *)
Record ysys := YSys {
  ypp : ypipe Q;
  wpc : writer_pc;
  awake : bool;
  wakes : nat;
  written : list T;
  flushed : nat;
  got : list T
}.
#[local] Instance eta_ysys : Eta ysys := λ s,
  YSys (ypp s) (wpc s) (awake s) (wakes s) (written s) (flushed s) (got s).

Definition ysys_new (dead_ : bool) : ysys :=
  YSys (ypipe_new dead_) WIdle (negb dead_) 0 [] 0 [].

(** Each step has at most one access to [c]. *)
Inductive ystep (s : ysys) : ysys → Prop :=
  | step_write x :
      wpc s = WIdle →
      ystep s (s <| ypp := ypipe_write (ypp s) x |> <| written := written s ++ [x] |>)
  | step_flush b p' :
      wpc s = WIdle → ypipe_flush_cas (ypp s) = (Some b, p') →
      ystep s (s <| ypp := p' |> <| flushed := length (written s) |>)
  | step_flush_asleep p' :
      wpc s = WIdle → ypipe_flush_cas (ypp s) = (None, p') →
      ystep s (s <| ypp := p' |> <| wpc := WSetting |>)
  | step_flush_set b p' :
      wpc s = WSetting → ypipe_flush_set (ypp s) = (b, p') →
      ystep s (s <| ypp := p' |> <| flushed := length (written s) |> <| wpc := WWaking |>)
  | step_wake :
      wpc s = WWaking → ystep s (s <| wpc := WIdle |> <| wakes := S (wakes s) |>)
  | step_read x p' :
      awake s = true → ypipe_read D (ypp s) = Ok (Some x, p') →
      ystep s (s <| ypp := p' |> <| got := got s ++ [x] |>)
  | step_sleep p' :
      awake s = true → ypipe_read D (ypp s) = Ok (None, p') →
      ystep s (s <| ypp := p' |> <| awake := false |>)
  | step_awake n :
      awake s = false → wakes s = S n →
      ystep s (s <| awake := true |> <| wakes := n |>).

(** The same steps as a function, to run schedules. *)
Inductive ylabel := LWrite (x : T) | LFlush | LSet | LWake | LRead | LAwake.

Definition yexec (s : ysys) (e : ylabel) : option ysys :=
  match e, wpc s with
  | LWrite x, WIdle => Some (s <| ypp := ypipe_write (ypp s) x |> <| written := written s ++ [x] |>)
  | LFlush, WIdle =>
      match ypipe_flush_cas (ypp s) with
      | (Some _, p') => Some (s <| ypp := p' |> <| flushed := length (written s) |>)
      | (None, p') => Some (s <| ypp := p' |> <| wpc := WSetting |>)
      end
  | LSet, WSetting =>
      Some (s <| ypp := (ypipe_flush_set (ypp s)).2 |> <| flushed := length (written s) |>
              <| wpc := WWaking |>)
  | LWake, WWaking => Some (s <| wpc := WIdle |> <| wakes := S (wakes s) |>)
  | LRead, _ =>
      if awake s then
        match ypipe_read D (ypp s) with
        | Ok (Some x, p') => Some (s <| ypp := p' |> <| got := got s ++ [x] |>)
        | Ok (None, p') => Some (s <| ypp := p' |> <| awake := false |>)
        | Crash _ => None
        end
      else None
  | LAwake, _ =>
      match awake s, wakes s with
      | false, S n => Some (s <| awake := true |> <| wakes := n |>)
      | _, _ => None
      end
  | _, _ => None
  end.

Definition yrun (ls : list ylabel) (s : ysys) : option ysys :=
  foldl (λ o e, s ← o; yexec s e) (Some s) ls.

Lemma yexec_sound s e s' : yexec s e = Some s' → ystep s s'.
Proof.
  intros E. unfold yexec in E. repeat case_match; simplify_eq; by econstructor.
Qed.

Lemma yrun_sound ls s s' : yrun ls s = Some s' → rtc ystep s s'.
Proof.
  revert s. unfold yrun. induction ls as [|e ls IH]; intros s E; simpl in E; [by simplify_eq|].
  destruct (yexec s e) as [s1|] eqn:E1.
  - eapply rtc_l; [by eapply yexec_sound|by apply IH].
  - exfalso. clear -E. by induction ls.
Qed.

(** A schedule during which the reader must not look at [c]. *)
Fixpoint yrun_stop (ls : list ylabel) (s : ysys) : option ysys :=
  match ls with
  | [] => Some s
  | e :: ls => s' ← yexec s e; if stop (ypp s') then yrun_stop ls s' else None
  end.

Lemma yrun_stop_sound ls : ∀ s s',
  yrun_stop ls s = Some s' → rtc (λ a b, ystep a b ∧ stop (ypp b) = true) s s'.
Proof.
  induction ls as [|e ls IH]; intros s s' E; simpl in E; [by simplify_eq|].
  destruct (yexec s e) as [s1|] eqn:E1; simplify_eq/=. case_match eqn:Es; [|done].
  eapply rtc_l; [split; [by eapply yexec_sound|done]|by apply IH].
Qed.

(** A wake-up is on its way to the reader. *)
Definition owed (s : ysys) : Prop :=
  (wakes s = 1 ∧ wpc s = WIdle) ∨ (wakes s = 0 ∧ wpc s = WWaking).

(** A reader about to look at [c]. *)
Definition looking (s : ysys) : bool := awake s && negb (stop (ypp s)).

Record yinv (s : ysys) (xs : list T) (ri wi : nat) : Prop := {
  yinv_rep : yp_rep (ypp s) xs ri wi;
  yinv_written : written s = got s ++ xs;
  yinv_flushed : flushed s = length (got s) + wi;
  yinv_stop : stop (ypp s) = true → D = true ∧ awake s = true;
  yinv_asleep : awake s = false → ri = 0;
  yinv_setting : wpc s = WSetting → c (ypp s) = None ∧ wi ≠ length xs;
  yinv_c : match c (ypp s) with
    | None => ri = wi ∧ wakes s = 0 ∧ wpc s ≠ WWaking ∧ looking s = false
    | Some a => a = w (ypp s) ∧
        if looking s then wakes s = 0 ∧ wpc s = WIdle else owed s
    end
}.

Lemma yinv_new dead_ : yinv (ysys_new dead_) [] 0 0.
Proof. constructor; try done; [apply yp_rep_new|by destruct dead_]. Qed.

(** What a step does to the prefetched items of a reader that must not look
    at [c] again before it sleeps. *)
Definition kept_stop (s s' : ysys) (ri ri' : nat) : Prop :=
  stop (ypp s) = true → stop (ypp s') = true → length (got s') + ri' = length (got s) + ri.

Lemma yinv_flush s b p' xs ri wi :
  yinv s xs ri wi → wpc s = WIdle → ypipe_flush_cas (ypp s) = (b, p') →
  match b with
  | Some _ => yinv (s <| ypp := p' |> <| flushed := length (written s) |>) xs ri (length xs)
  | None => yinv (s <| ypp := p' |> <| wpc := WSetting |>) xs ri wi
  end ∧ stop p' = stop (ypp s).
Proof.
  intros [R Hw Hf Hs Ha Hset Hc] Hpc E. pose proof (rep_order _ _ _ _ R) as Ho.
  assert (length (written s) = length (got s) + length xs) as Hlen by (by rewrite Hw, length_app).
  destruct (decide (wi = length xs)) as [->|Hwi]; [|destruct (c (ypp s)) as [a|] eqn:Ec].
  - rewrite (ypipe_flush_cas_nothing _ _ _ R) in E. simplify_eq.
    split; [|done]. constructor; simpl; rewrite ?Hpc; try done. unfold looking, owed in *; simpl.
    by rewrite Hpc in Hc.
  - destruct Hc as [-> Hc].
    destruct (ypipe_flush_cas_awake _ _ _ _ R Hwi Ec) as (p1 & E1 & R1 & Ec1 & Es1).
    rewrite E1 in E. simplify_eq. split; [|done].
    constructor; simpl; rewrite ?Es1, ?Ec1, ?Hpc; try done. unfold looking, owed in *; simpl.
    rewrite Hpc in Hc. by rewrite Es1.
  - destruct (ypipe_flush_cas_asleep _ _ _ _ R Hwi Ec) as (p1 & E1 & R1 & Ec1 & Es1).
    rewrite E1 in E. simplify_eq. split; [|done].
    constructor; simpl; rewrite ?Es1, ?Ec1; try done. unfold looking in *; simpl. rewrite Es1. naive_solver.
Qed.

Lemma yinv_flush_set s b p' xs ri wi :
  yinv s xs ri wi → wpc s = WSetting → ypipe_flush_set (ypp s) = (b, p') →
  yinv (s <| ypp := p' |> <| flushed := length (written s) |> <| wpc := WWaking |>)
    xs ri (length xs) ∧ stop p' = stop (ypp s).
Proof.
  intros [R Hw Hf Hs Ha Hset Hc] Hpc E.
  destruct (Hset Hpc) as [Ec Hwi]. rewrite Ec in Hc. destruct Hc as (-> & Hwk & _ & Hl).
  destruct (ypipe_flush_set_spec _ _ _ _ R) as (p1 & E1 & R1 & Ec1 & Es1).
  rewrite E1 in E. simplify_eq. split; [|done].
  constructor; simpl; rewrite ?Es1, ?Ec1, ?Hw, ?length_app; try done.
  unfold looking, owed in *; simpl. rewrite Es1, Hl. auto.
Qed.

(** The outcome of a read by a reader that is awake. *)
Lemma yinv_read s xs ri wi : yinv s xs ri wi → awake s = true →
  ∃ o p', ypipe_read D (ypp s) = Ok (o, p') ∧
  match o with
  | Some x => ∃ xs' ri' wi', xs = x :: xs' ∧ wi = S wi' ∧
      yinv (s <| ypp := p' |> <| got := got s ++ [x] |>) xs' ri' wi' ∧
      kept_stop s (s <| ypp := p' |> <| got := got s ++ [x] |>) ri ri'
  | None => yinv (s <| ypp := p' |> <| awake := false |>) xs 0 wi ∧ stop p' = false ∧
      ri = 0 ∧ (D = false → wi = 0)
  end.
Proof.
  intros [R Hw Hf Hs Ha Hset Hc] Haw. pose proof (rep_order _ _ _ _ R) as Ho.
  destruct ri as [|ri].
  - destruct (stop (ypp s)) eqn:Es.
    + destruct Hs as [-> _]; [done|].
      destruct (ypipe_read_stop _ _ _ R Es) as (p' & -> & R' & Ec' & Es' & Ew').
      eexists _, _. split; [done|]. split_and!; [|done..].
      constructor; simpl; rewrite ?Ec', ?Ew', ?Es'; try done.
      unfold looking, owed in *; simpl. rewrite Haw, Es in Hc. by destruct (c (ypp s)).
    + assert (looking s = true) as Hl by (unfold looking; by rewrite Haw, Es).
      rewrite Hl in Hc. destruct (c (ypp s)) as [a|] eqn:Ec; [|naive_solver].
      destruct Hc as (-> & Hwk & Hpc).
      pose proof (ypipe_read_prefetch D _ _ _ R Ec Es) as Hread.
      destruct xs as [|x xs], wi as [|wi]; simpl in Ho; try lia;
        destruct Hread as (p' & -> & R' & Ec' & Es' & Ew'); eexists _, _; (split; [done|]).
      1, 2: split_and!; [|done..]; constructor; simpl; rewrite ?Ec', ?Es', ?Hpc; done.
      exists xs, wi, wi. split_and!; [done..| |unfold kept_stop; simpl; congruence].
      constructor; simpl; rewrite ?Ec', ?Es', ?Hpc, ?length_app, <- ?app_assoc; simpl; try done.
      * lia.
      * congruence.
      * unfold looking, owed; simpl. rewrite Haw, Es', Ew'. destruct D; simpl; naive_solver.
  - destruct wi as [|wi]; [lia|]. destruct xs as [|x xs]; [simpl in Ho; lia|].
    destruct (ypipe_read_prefetched D _ _ _ _ _ R) as (p' & -> & R' & Ec' & Es' & Ew').
    eexists _, _. split; [done|]. exists xs, ri, wi.
    split_and!; [done..| |unfold kept_stop; simpl; rewrite length_app; simpl; lia].
    constructor; simpl; rewrite ?Ec', ?Es', ?Ew', ?length_app, <- ?app_assoc; simpl; try done.
    + lia.
    + congruence.
    + intros [? Hne]%Hset. simpl in Hne. naive_solver lia.
    + unfold looking, owed in *; simpl. rewrite Es'. destruct (c (ypp s)); naive_solver lia.
Qed.

Lemma ystep_inv s s' xs ri wi :
  yinv s xs ri wi → ystep s s' →
  ∃ xs' ri' wi', yinv s' xs' ri' wi' ∧ kept_stop s s' ri ri'.
Proof.
  intros Hi Hst. pose proof Hi as [R Hw Hf Hs Ha Hset Hc].
  destruct Hst as [x Hpc|b p' Hpc E|p' Hpc E|b p' Hpc E|Hpc|x p' Haw E|p' Haw E|n Haw Hwk].
  - exists (xs ++ [x]), ri, wi. split; [|done].
    constructor; simpl; rewrite ?Hw, <- ?app_assoc; try done; [by apply yp_rep_write|].
    intros ?. congruence.
  - destruct (yinv_flush _ _ _ _ _ _ Hi Hpc E). eexists _, _, _. done.
  - destruct (yinv_flush _ _ _ _ _ _ Hi Hpc E). eexists _, _, _. done.
  - destruct (yinv_flush_set _ _ _ _ _ _ Hi Hpc E). eexists _, _, _. done.
  - exists xs, ri, wi. split; [|done]. constructor; simpl; try done.
    unfold looking, owed in *; simpl. rewrite Hpc in Hc.
    destruct (c (ypp s)); [|naive_solver].
    destruct (awake s && negb (stop (ypp s))); naive_solver.
  - destruct (yinv_read _ _ _ _ Hi Haw) as (o & p1 & E1 & Ho). rewrite E1 in E. simplify_eq.
    destruct Ho as (xs' & ri' & wi' & _ & _ & ? & ?). eauto.
  - destruct (yinv_read _ _ _ _ Hi Haw) as (o & p1 & E1 & Ho). rewrite E1 in E. simplify_eq.
    destruct Ho as (? & Hs1 & _). exists xs, 0, wi. split; [done|]. unfold kept_stop; simpl. congruence.
  - exists xs, ri, wi. split; [|done].
    assert (stop (ypp s) = false) as Es.
    { destruct (stop (ypp s)); [|done]. destruct Hs; [done|congruence]. }
    constructor; simpl; rewrite ?Es; try done.
    unfold looking, owed in *; simpl. rewrite Haw, Hwk, Es in *.
    destruct (c (ypp s)); simpl in *; naive_solver.
Qed.

Lemma yreachable_inv dead_ s :
  rtc ystep (ysys_new dead_) s → ∃ xs ri wi, yinv s xs ri wi.
Proof.
  intros Hr. assert (∃ xs ri wi, yinv (ysys_new dead_) xs ri wi) as Hi by eauto using yinv_new.
  induction Hr as [s|s1 s2 s3 Hst _ IH]; [done|]. destruct Hi as (? & ? & ? & Hi).
  apply IH. destruct (ystep_inv _ _ _ _ _ Hi Hst) as (? & ? & ? & ? & _). eauto.
Qed.

(** What the invariant says to a user of the pipe. *)
Lemma yreachable_waking dead_ s : rtc ystep (ysys_new dead_) s → wpc s = WWaking → wakes s = 0.
Proof.
  intros (xs & ri & wi & [R Hw Hf Hs Ha Hset Hc])%yreachable_inv Hpc.
  unfold owed in Hc. rewrite Hpc in Hc.
  destruct (c (ypp s)); [destruct (looking s)|]; naive_solver.
Qed.

Lemma yreachable_prefix dead_ s : rtc ystep (ysys_new dead_) s → got s `prefix_of` written s.
Proof. intros (xs & ri & wi & [R Hw _ _ _ _ _])%yreachable_inv. rewrite Hw. by apply prefix_app_r. Qed.

Lemma yreachable_read dead_ s : rtc ystep (ysys_new dead_) s → awake s = true →
  ∃ o p', ypipe_read D (ypp s) = Ok (o, p').
Proof.
  intros (xs & ri & wi & Hi)%yreachable_inv Haw.
  destruct (yinv_read _ _ _ _ Hi Haw) as (o & p' & E & _). eauto.
Qed.

Lemma yreachable_asleep dead_ s : rtc ystep (ysys_new dead_) s →
  awake s = false → wakes s = 0 → wpc s = WIdle → length (got s) = flushed s.
Proof.
  intros (xs & ri & wi & [R Hw Hf Hs Ha Hset Hc])%yreachable_inv Haw Hwk Hpc.
  unfold looking, owed in Hc. rewrite Haw, Hwk, Hpc in Hc; simpl in Hc.
  destruct (c (ypp s)); [naive_solver lia|]. destruct Hc as (-> & _). rewrite (Ha Haw) in *. lia.
Qed.

Lemma ypipe_drain_flushed p xs ri wi n :
  yp_rep p xs ri wi → c p = Some (w p) → stop p = false → wi < n →
  ∃ p', ypipe_drain false n p = Ok (take wi xs, p').
Proof.
  revert p xs ri wi. induction n as [|n IH]; intros p xs ri wi R Hc Hs Hn; [lia|].
  pose proof (rep_order _ _ _ _ R) as Ho. simpl. destruct ri as [|ri].
  - pose proof (ypipe_read_prefetch false _ _ _ R Hc Hs) as Hread.
    destruct xs as [|x xs], wi as [|wi]; simpl in Ho; try lia;
      destruct Hread as (p' & -> & R' & Hc' & Hs' & Hw'); simpl; [eauto..|].
    destruct (IH p' xs wi wi R') as (p2 & ->); [done..|lia|]. simpl. eauto.
  - destruct wi as [|wi]; [lia|]. destruct xs as [|x xs]; [simpl in Ho; lia|].
    destruct (ypipe_read_prefetched false _ _ _ _ _ R) as (p' & -> & R' & Hc' & Hs' & Hw'). simpl.
    destruct (IH p' xs ri wi R') as (p2 & ->); [congruence|congruence|lia|]. simpl. eauto.
Qed.

(** *** Properties *)

(** C1: whatever the interleaving of the two threads, a read never touches a
    slot that is not written and flushed, and returns the items in the order
    in which they were written, each once; without [D] it returns false only
    when all flushed items have been read. *)
Theorem ypipe_fifo dead_ s :
  rtc ystep (ysys_new dead_) s → awake s = true →
  got s `prefix_of` written s ∧ flushed s ≤ length (written s) ∧
  ∃ o p', ypipe_read D (ypp s) = Ok (o, p') ∧
    match o with
    | Some x => written s !! length (got s) = Some x ∧ length (got s) < flushed s
    | None => D = false → length (got s) = flushed s
    end.
Proof.
  intros (xs & ri & wi & Hi)%yreachable_inv Haw. pose proof Hi as [R Hw Hf Hs Ha Hset Hc].
  pose proof (rep_order _ _ _ _ R) as Ho. split_and!.
  - rewrite Hw. by apply prefix_app_r.
  - rewrite Hw, Hf, length_app. lia.
  - destruct (yinv_read _ _ _ _ Hi Haw) as (o & p' & E & Hr). eexists _, _. split; [done|].
    destruct o as [x|].
    + destruct Hr as (xs' & ri' & wi' & -> & -> & _). rewrite Hw, Hf. split; [|lia].
      by apply list_lookup_middle.
    + destruct Hr as (_ & _ & _ & HD). intros ->. rewrite HD in Hf by done. lia.
Qed.

(** C2: no wake-up is lost and none is superfluous: a reader asleep with no
    wake-up on its way has read all that was flushed, and the next flush of
    anything tells the writer to wake it; at most one wake-up is ever
    outstanding, and without [D] only a sleeping reader has one. *)
Theorem ypipe_no_lost_wakeup dead_ s :
  rtc ystep (ysys_new dead_) s →
  (awake s = false → wakes s = 0 → wpc s = WIdle →
     length (got s) = flushed s ∧
     (flushed s < length (written s) → (ypipe_flush (ypp s)).1 = false)) ∧
  wakes s ≤ 1 ∧ (D = false → wakes s = 1 → awake s = false).
Proof.
  intros (xs & ri & wi & Hi)%yreachable_inv. pose proof Hi as [R Hw Hf Hs Ha Hset Hc].
  unfold looking, owed in Hc. split_and!.
  - intros Haw Hwk Hpc. rewrite Haw, Hwk, Hpc in Hc; simpl in Hc.
    destruct (c (ypp s)) eqn:Ec; [naive_solver lia|]. destruct Hc as (-> & _).
    rewrite (Ha Haw) in *. split; [lia|]. intros Hlt.
    destruct (ypipe_flush_cas_asleep _ _ _ _ R) as (p' & E & _); [|done|].
    { rewrite Hw, length_app in Hlt. lia. }
    unfold ypipe_flush. by rewrite E.
  - destruct (c (ypp s)); [|lia]. destruct (awake s && negb (stop (ypp s))); lia.
  - intros HD Hwk. apply not_true_is_false. intros Haw. rewrite Haw in Hc.
    destruct (stop (ypp s)); [destruct Hs as [-> _]; done|]. simpl in Hc.
    destruct (c (ypp s)); lia.
Qed.

(** C10: with [D] the reader goes to sleep however fast the writer feeds it:
    once it has prefetched, it reads at most the items flushed by then before
    it goes to sleep. *)
Theorem ypipe_dies dead_ s s' :
  rtc ystep (ysys_new dead_) s → stop (ypp s) = true →
  rtc (λ a b, ystep a b ∧ stop (ypp b) = true) s s' →
  length (got s') ≤ flushed s.
Proof.
  intros (xs & ri & wi & Hi)%yreachable_inv Hs Hr.
  assert (∃ xs' ri' wi', yinv s' xs' ri' wi' ∧ length (got s') + ri' = length (got s) + ri)
    as (_ & ri' & _ & _ & E).
  { clear dead_. revert xs ri wi Hs Hi. induction Hr as [s|s1 s2 s3 [Hst Hs2] _ IH]; intros xs ri wi Hs Hi;
      [by eauto|].
    destruct (ystep_inv _ _ _ _ _ Hi Hst) as (xs2 & ri2 & wi2 & Hi2 & Hk).
    destruct (IH _ _ _ Hs2 Hi2) as (xs' & ri' & wi' & ? & ?). specialize (Hk Hs Hs2).
    exists xs', ri', wi'. split; [done|lia]. }
  pose proof (yinv_flushed _ _ _ _ Hi). pose proof (rep_order _ _ _ _ (yinv_rep _ _ _ _ Hi)). lia.
Qed.

(** C11: without [D] a reader that is awake and left alone reads everything
    that was flushed, in order, and then goes to sleep. *)
Theorem ypipe_drains dead_ s :
  D = false → rtc ystep (ysys_new dead_) s → awake s = true →
  ∃ p', ypipe_drain D (S (flushed s - length (got s))) (ypp s) =
    Ok (drop (length (got s)) (take (flushed s) (written s)), p').
Proof.
  intros HD (xs & ri & wi & Hi)%yreachable_inv Haw. pose proof Hi as [R Hw Hf Hs Ha Hset Hc].
  assert (stop (ypp s) = false) as Es by (apply not_true_is_false; intros [? _]%Hs; congruence).
  unfold looking in Hc. rewrite Haw, Es in Hc. destruct (c (ypp s)) as [a|] eqn:Ec; [|by destruct Hc as (_ & _ & _ & ?)].
  destruct Hc as [-> _].
  destruct (ypipe_drain_flushed (ypp s) xs ri wi (S (flushed s - length (got s))) R) as (p' & E);
    [done..|lia|].
  exists p'. rewrite HD, E. do 2 f_equal. rewrite Hw, Hf, take_app_add, drop_app_length. done.
Qed.
End ypipe_threads.

Arguments LWrite {T} x.
Arguments LFlush {T}.
Arguments LSet {T}.
Arguments LWake {T}.
Arguments LRead {T}.
Arguments LAwake {T}.

(** Runs of the two threads on a queue with chunks of two slots. *)
#[local] Instance yqueue2 : SlotQueue nat (yqueue nat) := yqueue_slot_queue 2.
#[local] Instance yqueue2_laws : SlotQueueLaws nat (yqueue nat) := yqueue_laws 2 ltac:(lia).

Definition yrun2 (D dead_ : bool) (ls : list (ylabel (T := nat))) : option (ysys (T := nat) (Q := yqueue nat)) :=
  yrun D ls (ysys_new dead_).

Lemma yrun2_sound D dead_ ls s :
  yrun2 D dead_ ls = Some s → rtc (ystep D) (ysys_new dead_) s.
Proof. apply yrun_sound. Qed.

(** A sleeping reader is woken and has read one of two items. *)
Definition demo_wake : list (ylabel (T := nat)) :=
  [LWrite 5; LWrite 6; LFlush; LSet; LWake; LAwake; LRead].

Lemma demo_wake_runs : ∃ s, yrun2 false true demo_wake = Some s ∧ awake s = true.
Proof. apply option_computes. vm_compute. reflexivity. Qed.

Definition demo_sleep : list (ylabel (T := nat)) := demo_wake ++ [LRead; LRead; LWrite 7].

Lemma demo_sleep_runs : ∃ s, yrun2 false true demo_sleep = Some s ∧
  negb (awake s) && (flushed s <? length (written s)) = true.
Proof.
  apply (option_computes (λ s, negb (awake s) && (flushed s <? length (written s)))).
  vm_compute. reflexivity.
Qed.

Definition demo_stop : list (ylabel (T := nat)) := [LWrite 8; LFlush; LSet; LRead].

Lemma demo_stop_runs : ∃ s s', yrun2 true true demo_wake = Some s ∧ stop (ypp s) = true ∧
  yrun_stop true demo_stop s = Some s'.
Proof.
  destruct (option_computes (λ s, stop (ypp s) && bool_decide (is_Some (yrun_stop true demo_stop s)))
    (yrun2 true true demo_wake)) as (s & E & [A [s' B]%bool_decide_eq_true]%andb_true_iff);
    [vm_compute; reflexivity|eauto].
Qed.

Lemma ypipe_fifo_witness :
  ∃ s, yrun2 false true demo_wake = Some s ∧
    got s `prefix_of` written s ∧ flushed s ≤ length (written s) ∧
    ∃ o p', ypipe_read false (ypp s) = Ok (o, p') ∧
      match o with
      | Some x => written s !! length (got s) = Some x ∧ length (got s) < flushed s
      | None => false = false → length (got s) = flushed s
      end.
Proof.
  destruct demo_wake_runs as (s & E & A).
  exists s. split; [exact E|]. exact (ypipe_fifo false true s (yrun2_sound _ _ _ _ E) A).
Defined.

Lemma ypipe_no_lost_wakeup_witness :
  ∃ s, yrun2 false true demo_sleep = Some s ∧
    ((awake s = false → wakes s = 0 → wpc s = WIdle →
     length (got s) = flushed s ∧
     (flushed s < length (written s) → (ypipe_flush (ypp s)).1 = false)) ∧
    wakes s ≤ 1 ∧ (false = false → wakes s = 1 → awake s = false)) ∧
    negb (awake s) && (flushed s <? length (written s)) = true.
Proof.
  destruct demo_sleep_runs as (s & E & A).
  exists s. split; [exact E|]. split; [|exact A].
  exact (ypipe_no_lost_wakeup false true s (yrun2_sound _ _ _ _ E)).
Defined.

Lemma ypipe_dies_witness :
  ∃ s s', yrun2 true true demo_wake = Some s ∧
    yrun_stop true demo_stop s = Some s' ∧
    length (got s') ≤ flushed s.
Proof.
  destruct demo_stop_runs as (s & s' & E & A & B).
  exists s, s'. split; [exact E|]. split; [exact B|].
  exact (ypipe_dies true true s s' (yrun2_sound _ _ _ _ E) A (yrun_stop_sound _ _ _ _ B)).
Defined.

Lemma ypipe_drains_witness :
  ∃ s p', yrun2 false true demo_wake = Some s ∧
    ypipe_drain false (S (flushed s - length (got s))) (ypp s) =
    Ok (drop (length (got s)) (take (flushed s) (written s)), p').
Proof.
  destruct demo_wake_runs as (s & E & A).
  destruct (ypipe_drains false true s eq_refl (yrun2_sound _ _ _ _ E) A) as [p' Hp'].
  exists s, p'. split; [exact E|exact Hp'].
Defined.
