(* ===== verification/Message.v ===== *)
(** Messages ([src/libzmq/zmq/raw_message.hpp], [message.hpp]): small bodies
    inside the structure, large ones in reference-counted blocks.
    [raw_message_t] is plain data that the code copies freely, so a message
    here is a value that may name a block of the heap.  The functions that
    take two messages are given for distinct objects; [Module Cells] has the
    message objects of a program, which may be passed twice. *)
From S2P Require Import Prelude Config Atomics.
Local Open Scope Z_scope.

(** ** Data *)

(** A [free_fn], known by its name. *)
Abbreviation free_fn := positive.

(** [data] of a content: the bytes after the structure, or a user's buffer. *)
Inductive data_ptr := Inline | User (p : positive).

#[export] Instance data_ptr_eq_dec : EqDecision data_ptr.
Proof. solve_decision. Defined.

(** A [message_content_t] with the bytes its [data] points to. *)
Record message_content := Content {
  data : data_ptr;
  size : Z;
  ffn : option free_fn;
  refcount : Z;
  bytes : list Z
}.
#[export] Instance eta_content : Eta message_content := λ c,
  Content (data c) (size c) (ffn c) (refcount c) (bytes c).

Definition gap_tag : Z := 1.
Definition delimiter_tag : Z := 31.
Definition vsm_tag : Z := 32.

(** [content]: a small integer in disguise, or a block. *)
Inductive content_ptr := Tag (t : Z) | Ptr (l : positive).

#[export] Instance content_ptr_eq_dec : EqDecision content_ptr.
Proof. solve_decision. Defined.

Record raw_message := RawMessage {
  content : content_ptr;
  shared : bool;
  vsm_size : Z;
  vsm_data : list Z
}.
#[export] Instance eta_raw_message : Eta raw_message := λ m,
  RawMessage (content m) (shared m) (vsm_size m) (vsm_data m).

(** The heap of contents, the largest block [malloc] will give, and the
    calls made to deallocation functions, latest first. *)
Record mheap := MHeap {
  contents : gmap positive message_content;
  avail : Z;
  freed : list (free_fn * positive)
}.
#[export] Instance eta_mheap : Eta mheap := λ h, MHeap (contents h) (avail h) (freed h).

(** [sizeof (message_content_t)] on the 64-bit platforms. *)
Definition sizeof_content : Z := 32.

(** [malloc] of a [size_t] count; [None] is NULL. *)
Definition malloc (n : Z) (c : message_content) (h : mheap) : option (positive * mheap) :=
  if u64 n <=? avail h then
    let l := fresh (dom (contents h)) in
    Some (l, h <| contents := <[l := c]> (contents h) |>)
  else None.

(** [malloc] and the [errno_assert] that follows it. *)
Definition new_content (n : Z) (c : message_content) : ST mheap positive :=
  λ h, match malloc n c h with
       | Some (l, h) => Ok (l, h)
       | None => Crash AssertFailed
       end.

(** [msg_->content->...]. *)
Definition deref (p : content_ptr) : ST mheap (positive * message_content) :=
  λ h, match p with
       | Tag _ => Crash BadAccess
       | Ptr l => match contents h !! l with
                  | Some c => Ok ((l, c), h)
                  | None => Crash UseAfterFree
                  end
       end.

Definition set_content (l : positive) (c : message_content) : ST mheap unit :=
  st_modify (λ h, h <| contents := <[l := c]> (contents h) |>).

(** ** Operations *)

(** The bytes of a block are as many as [malloc] was asked for: the sum is a
    [size_t] and may wrap. *)
Definition raw_message_init (msg_ : raw_message) (size_ : Z) : ST mheap raw_message :=
  if size_ <=? max_vsm_size then
    mret (msg_ <| content := Tag vsm_tag |> <| vsm_size := u16 size_ |>)
  else
    let n := u64 (sizeof_content + size_) in
    l ← new_content n (Content Inline size_ None (counter_init 0)
                         (replicate (Z.to_nat (n - sizeof_content)) 0));
    mret (msg_ <| shared := false |> <| content := Ptr l |>).

Definition raw_message_init_data (msg_ : raw_message) (data_ : positive) (buf : list Z) (size_ : Z)
    (ffn_ : option free_fn) : ST mheap raw_message :=
  l ← new_content sizeof_content (Content (User data_) size_ ffn_ (counter_init 0) buf);
  mret (msg_ <| shared := false |> <| content := Ptr l |>).

Definition raw_message_init_notification (msg_ : raw_message) (tag_ : Z) : raw_message :=
  msg_ <| shared := false |> <| content := Tag tag_ |>.

(** The three tags that need no deallocation. *)
Definition is_plain (m : raw_message) : bool :=
  bool_decide (content m = Tag delimiter_tag) || bool_decide (content m = Tag vsm_tag) ||
  bool_decide (content m = Tag gap_tag).

(** [ffn (data)] where there is one, and [free (content)]. *)
Definition content_free (l : positive) (c : message_content) : ST mheap unit :=
  st_modify (λ h, match ffn c, data c with
    | Some f, User d => h <| freed := (f, d) :: freed h |>
    | _, _ => h
    end) ;;
  st_modify (λ h, h <| contents := delete l (contents h) |>).

Definition raw_message_destroy (msg_ : raw_message) : ST mheap unit :=
  if is_plain msg_ then mret tt
  else
    '(l, c) ← deref (content msg_);
    let '(more, c) :=
      if shared msg_
      then let '(more, n) := counter_sub X86 1 (refcount c) in (more, c <| refcount := n |>)
      else (false, c) in
    if more then set_content l c else content_free l c.

(** The source and destination after the move. *)
Definition raw_message_move (src_ dest_ : raw_message) : ST mheap (raw_message * raw_message) :=
  raw_message_destroy dest_ ;;
  src' ← raw_message_init src_ 0;
  mret (src', src_).

(** The part of a copy that adds a reference to the source. *)
Definition raw_message_share (src_ : raw_message) : ST mheap raw_message :=
  if is_plain src_ then mret src_
  else
    '(l, c) ← deref (content src_);
    if shared src_ then
      set_content l (c <| refcount := (counter_add X86 1 (refcount c)).2 |>) ;;
      mret src_
    else
      set_content l (c <| refcount := counter_set 2 (refcount c) |>) ;;
      mret (src_ <| shared := true |>).

Definition raw_message_copy (src_ dest_ : raw_message) : ST mheap (raw_message * raw_message) :=
  raw_message_destroy dest_ ;;
  src' ← raw_message_share src_;
  mret (src', src').

(** Where [raw_message_data] points. *)
Inductive body_ptr := VsmBody | NullBody | BlockBody (l : positive) (d : data_ptr).

Definition raw_message_data (msg_ : raw_message) : ST mheap body_ptr :=
  if bool_decide (content msg_ = Tag vsm_tag) then mret VsmBody
  else if bool_decide (content msg_ = Tag delimiter_tag) || bool_decide (content msg_ = Tag gap_tag)
  then mret NullBody
  else '(l, c) ← deref (content msg_); mret (BlockBody l (data c)).

Definition raw_message_size (msg_ : raw_message) : ST mheap Z :=
  if bool_decide (content msg_ = Tag vsm_tag) then mret (vsm_size msg_)
  else if bool_decide (content msg_ = Tag delimiter_tag) || bool_decide (content msg_ = Tag gap_tag)
  then mret 0
  else '(_, c) ← deref (content msg_); mret (size c).

(** Blocks lie above the tags. *)
Definition raw_message_type (msg_ : raw_message) : Z :=
  match content msg_ with
  | Ptr _ => 0
  | Tag t => if vsm_tag <=? t then 0 else t
  end.

(** The bytes between [raw_message_data] and [+ raw_message_size]; [None]
    when some of them lie outside the memory the message owns. *)
Definition raw_message_bytes (h : mheap) (m : raw_message) : option (list Z) :=
  match content m with
  | Tag t =>
      if bool_decide (t = vsm_tag) then
        if vsm_size m <=? Z.of_nat (length (vsm_data m))
        then Some (take (Z.to_nat (vsm_size m)) (vsm_data m)) else None
      else Some []
  | Ptr l =>
      c ← contents h !! l;
      if size c <=? Z.of_nat (length (bytes c)) then Some (take (Z.to_nat (size c)) (bytes c)) else None
  end.

(** ** message_t *)

Definition message_data : Z := Z.shiftl 1 0.
Definition message_gap : Z := Z.shiftl 1 gap_tag.
Definition message_delimiter : Z := Z.shiftl 1 delimiter_tag.

Definition message_type (m : raw_message) : Z := Z.shiftl 1 (raw_message_type m).

(** Memory in which a message object is constructed. *)
Definition no_message : raw_message :=
  RawMessage (Tag vsm_tag) false 0 (replicate (Z.to_nat max_vsm_size) 0).

(** ** Ownership *)

Definition refers (l : positive) (m : raw_message) : Prop := content m = Ptr l.
#[export] Instance refers_dec l m : Decision (refers l m) := decide (content m = Ptr l).

(** The live messages that name the block [l]. *)
Definition refs (l : positive) (ms : list raw_message) : list raw_message := filter (refers l) ms.

(** A block is named by one message that is not shared, or by as many shared
    messages as it counts. *)
Definition count_ok (c : message_content) (ms : list raw_message) : Prop :=
  (length ms = 1%nat ∧ Forall (λ m, shared m = false) ms) ∨
  ((0 < length ms)%nat ∧ Forall (λ m, shared m = true) ms ∧ refcount c = Z.of_nat (length ms)).

Definition message_wf (m : raw_message) : Prop :=
  match content m with Tag _ => is_plain m = true | Ptr _ => True end.

(** [ms] are all the messages alive, and nothing leaks or dangles. *)
Record heap_ok (h : mheap) (ms : list raw_message) : Prop := {
  heap_counts : ∀ l, match contents h !! l with
    | Some c => count_ok c (refs l ms)
    | None => refs l ms = []
    end;
  heap_wf : Forall message_wf ms;
  heap_few : Z.of_nat (length ms) < 2 ^ 32
}.

(** The user's buffers: those handed to their deallocation function and
    those a block still holds. *)
Definition pending (c : message_content) : option (free_fn * positive) :=
  match ffn c, data c with Some f, User d => Some (f, d) | _, _ => None end.

Definition pendings (m : gmap positive message_content) : list (free_fn * positive) :=
  omap (λ lc, pending lc.2) (map_to_list m).

Definition buffers (h : mheap) : list (free_fn * positive) := freed h ++ pendings (contents h).

(** What no operation changes about a block that stays. *)
Definition same_body (c c' : message_content) : Prop :=
  data c' = data c ∧ size c' = size c ∧ ffn c' = ffn c ∧ bytes c' = bytes c.

Definition bodies_kept (h h' : mheap) : Prop :=
  ∀ l c', contents h' !! l = Some c' → ∃ c, contents h !! l = Some c ∧ same_body c c'.

Lemma omap_perm {A B} (f : A → option B) l l' : l ≡ₚ l' → omap f l ≡ₚ omap f l'.
Proof. apply omap_Permutation. Qed.

Lemma pendings_delete m l c : m !! l = Some c →
  pendings m ≡ₚ option_list (pending c) ++ pendings (delete l m).
Proof.
  intros Hl. unfold pendings. rewrite <- (map_to_list_delete m l c Hl). simpl.
  by destruct (pending c).
Qed.

Lemma pendings_insert m l c : m !! l = None →
  pendings (<[l := c]> m) ≡ₚ option_list (pending c) ++ pendings m.
Proof.
  intros Hl. unfold pendings. rewrite map_to_list_insert by done. simpl. by destruct (pending c).
Qed.

Lemma pendings_update m l c c' : m !! l = Some c → pending c' = pending c →
  pendings (<[l := c']> m) ≡ₚ pendings m.
Proof.
  intros Hl Hp. rewrite (pendings_delete m l c Hl), <- Hp, <- insert_delete_eq.
  apply pendings_insert. apply lookup_delete_eq.
Qed.

Lemma refs_cons l m ms : refs l (m :: ms) = if decide (refers l m) then m :: refs l ms else refs l ms.
Proof. unfold refs. by rewrite filter_cons. Qed.

Lemma refs_perm l ms ms' : ms ≡ₚ ms' → refs l ms ≡ₚ refs l ms'.
Proof. intros E. unfold refs. by rewrite E. Qed.

#[export] Instance count_ok_perm c : Proper ((≡ₚ) ==> iff) (count_ok c).
Proof.
  assert (∀ ms ms', ms ≡ₚ ms' → count_ok c ms → count_ok c ms') as Hp; [|intros ms ms' E; split; by apply Hp].
  intros ms ms' E. unfold count_ok. rewrite <- (Permutation_length E).
  intros [[? H]|(? & H & ?)]; [left|right]; split_and!; try done; by rewrite <- E.
Qed.

#[export] Instance heap_ok_perm h : Proper ((≡ₚ) ==> iff) (heap_ok h).
Proof.
  assert (∀ ms ms', ms ≡ₚ ms' → heap_ok h ms → heap_ok h ms') as Hp.
  { intros ms ms' E [H1 H2 H3]. constructor; [|by rewrite <- E..].
    intros l. specialize (H1 l). pose proof (refs_perm l _ _ E) as El.
    destruct (contents h !! l); [by rewrite <- El|]. rewrite H1 in El. by apply Permutation_nil_l in El. }
  intros ms ms' E. split; by apply Hp.
Qed.

Lemma heap_ok_empty limit log : heap_ok (MHeap ∅ limit log) [].
Proof. by constructor. Qed.

(** *** The operations keep the heap *)

Lemma is_plain_ptr m l : content m = Ptr l → is_plain m = false.
Proof. intros E. unfold is_plain. by rewrite E. Qed.

Lemma plain_refs l m ms : is_plain m = true → refs l (m :: ms) = refs l ms.
Proof.
  intros Hp. rewrite refs_cons, decide_False; [done|]. intros E.
  by rewrite (is_plain_ptr _ _ E) in Hp.
Qed.

Lemma heap_ok_plain h m ms : heap_ok h (m :: ms) → is_plain m = true → heap_ok h ms.
Proof.
  intros [H1 H2 H3] Hp. simpl in H3. constructor; [|by inversion H2|lia].
  intros l. specialize (H1 l). by rewrite plain_refs in H1.
Qed.

Lemma heap_ok_plain_cons h m ms : heap_ok h ms → is_plain m = true →
  Z.of_nat (S (length ms)) < 2 ^ 32 → heap_ok h (m :: ms).
Proof.
  intros [H1 H2 H3] Hp Hn. constructor; [|constructor; [|done]|done].
  - intros l. specialize (H1 l). by rewrite plain_refs.
  - unfold message_wf. by destruct (content m).
Qed.

(** Changing one block and the messages that name it. *)
Lemma heap_ok_update h h' ms ms' l :
  heap_ok h ms → Forall message_wf ms' → Z.of_nat (length ms') < 2 ^ 32 →
  (∀ l', l' ≠ l → contents h' !! l' = contents h !! l' ∧ refs l' ms' = refs l' ms) →
  match contents h' !! l with
  | Some c => count_ok c (refs l ms') | None => refs l ms' = []
  end → heap_ok h' ms'.
Proof.
  intros [H1 H2 H3] Hw Hn Ho Hl. constructor; [|done..]. intros l'.
  destruct (decide (l' = l)) as [->|Hne]; [done|].
  destruct (Ho l' Hne) as [-> ->]. apply H1.
Qed.

Lemma heap_ok_ptr h m ms l : heap_ok h (m :: ms) → content m = Ptr l →
  ∃ c, contents h !! l = Some c ∧ count_ok c (m :: refs l ms) ∧ Forall message_wf ms ∧
    (∀ l', l' ≠ l → refs l' (m :: ms) = refs l' ms).
Proof.
  intros [H1 H2 H3] E. specialize (H1 l). rewrite refs_cons, decide_True in H1 by done.
  destruct (contents h !! l) as [c|]; [|done]. exists c. split_and!; [done..|by inversion H2|].
  intros l' Hl'. rewrite refs_cons, decide_False; [done|]. unfold refers. rewrite E. congruence.
Qed.

Lemma bodies_kept_refl h : bodies_kept h h.
Proof. intros l c Hl. exists c. done. Qed.

Lemma bodies_kept_trans h1 h2 h3 : bodies_kept h1 h2 → bodies_kept h2 h3 → bodies_kept h1 h3.
Proof.
  intros H1 H2 l c (c2 & (c1 & Hc1 & Hs1)%H1 & Hs2)%H2. exists c1. split; [done|].
  unfold same_body in *. intuition congruence.
Qed.

Lemma content_free_ok h m ms l c : heap_ok h (m :: ms) → content m = Ptr l →
  contents h !! l = Some c → refs l ms = [] →
  ∀ c', same_body c c' →
  ∃ h', runs (content_free l c') h tt h' ∧ heap_ok h' ms ∧
    avail h' = avail h ∧ buffers h' ≡ₚ buffers h ∧ bodies_kept h h'.
Proof.
  intros Hh El Hc Hr c' (Ed & Es & Ef & Eb).
  destruct (heap_ok_ptr _ _ _ _ Hh El) as (c1 & Hc1 & _ & Hw & Ho).
  pose proof (heap_few _ _ Hh) as Hn. simpl in Hn.
  set (h' := MHeap (delete l (contents h)) (avail h)
                   (option_list (pending c) ++ freed h)).
  exists h'. split_and!; [|eapply (heap_ok_update _ _ _ _ l Hh)|..]; try done; simpl.
  - unfold runs, content_free, mbind, st_bind, st_modify, h', pending. rewrite Ed, Ef.
    by destruct (ffn c), (data c).
  - lia.
  - intros l' Hne. rewrite lookup_delete_ne by done. by rewrite Ho.
  - by rewrite lookup_delete_eq.
  - unfold buffers. simpl. rewrite (pendings_delete (contents h) l c Hc).
    rewrite <- app_assoc. apply Permutation_app_swap_app.
  - intros l' c2 H2. subst h'. simpl in H2. apply lookup_delete_Some in H2 as [_ ?]. exists c2. done.
Qed.

Lemma set_content_ok h ms ms' l c c' : heap_ok h ms → contents h !! l = Some c →
  same_body c c' → Forall message_wf ms' → Z.of_nat (length ms') < 2 ^ 32 →
  (∀ l', l' ≠ l → refs l' ms' = refs l' ms) → count_ok c' (refs l ms') →
  ∃ h', runs (set_content l c') h tt h' ∧ heap_ok h' ms' ∧
    avail h' = avail h ∧ buffers h' ≡ₚ buffers h ∧ bodies_kept h h'.
Proof.
  intros Hh Hc Hb Hw Hn Ho Hcnt. eexists. split; [done|]. split_and!.
  - eapply (heap_ok_update _ _ _ _ l Hh); [done..| |].
    + intros l' Hne. simpl. by rewrite lookup_insert_ne, Ho.
    + simpl. by rewrite lookup_insert_eq.
  - done.
  - unfold buffers. simpl. rewrite (pendings_update _ _ _ c' Hc); [done|].
    destruct Hb as (Ed & _ & Ef & _). unfold pending. by rewrite Ed, Ef.
  - intros l' c2. simpl. rewrite lookup_insert_Some. intros [[<- <-]|[_ ?]]; eauto.
    by exists c2.
Qed.

Lemma message_ptr m ms h : heap_ok h (m :: ms) → is_plain m = false → ∃ l, content m = Ptr l.
Proof.
  intros Hh Hp. pose proof (heap_wf _ _ Hh) as Hw. inversion Hw as [|?? Hm]; subst.
  unfold message_wf in Hm. destruct (content m); [congruence|eauto].
Qed.

Lemma destroy_ok h m ms : heap_ok h (m :: ms) →
  ∃ h', runs (raw_message_destroy m) h tt h' ∧ heap_ok h' ms ∧
    avail h' = avail h ∧ buffers h' ≡ₚ buffers h ∧ bodies_kept h h'.
Proof.
  intros Hh. unfold raw_message_destroy. destruct (is_plain m) eqn:Hp.
  { exists h. split; [done|]. split; [by eapply heap_ok_plain|]. eauto using bodies_kept_refl. }
  destruct (message_ptr _ _ _ Hh Hp) as [l El].
  destruct (heap_ok_ptr _ _ _ _ Hh El) as (c & Hc & Hcnt & Hw & Ho).
  pose proof (heap_few _ _ Hh) as Hn. simpl in Hn.
  pose proof (content_free_ok _ _ _ _ _ Hh El Hc) as Hfree.
  assert (length (refs l ms) ≤ length ms)%nat as Hle by apply length_filter.
  unfold runs, mbind, st_bind, deref. rewrite El, Hc.
  destruct Hcnt as [[H1 H2]|(H0 & H1 & H2)].
  - inversion H2 as [|?? Hs _]; subst. rewrite Hs. apply Hfree; [|done].
    apply nil_length_inv. simpl in H1. lia.
  - inversion H1 as [|?? Hs Hall]; subst. rewrite Hs. simpl in H2.
    rewrite counter_sub_eq by (unfold in_u; lia). rewrite wrap_small by (unfold in_u; lia).
    destruct (Z.eqb_spec (refcount c - 1) 0) as [E|E]; simpl.
    + apply Hfree; [|done]. apply nil_length_inv. lia.
    + eapply set_content_ok; [exact Hh|exact Hc|done|done|lia| |].
      * intros l' Hne. by rewrite Ho.
      * right. simpl. split_and!; [|done|]; lia.
Qed.

Lemma share_ok h m ms : heap_ok h (m :: ms) → Z.of_nat (2 + length ms) < 2 ^ 32 →
  ∃ m' h', runs (raw_message_share m) h m' h' ∧ heap_ok h' (m' :: m' :: ms) ∧
    avail h' = avail h ∧ buffers h' ≡ₚ buffers h ∧ bodies_kept h h' ∧
    bodies_kept h' h ∧ content m' = content m ∧ vsm_size m' = vsm_size m ∧ vsm_data m' = vsm_data m.
Proof.
  intros Hh Hn. unfold raw_message_share. destruct (is_plain m) eqn:Hp.
  { exists m, h. split; [done|]. split; [by apply heap_ok_plain_cons|]. eauto 10 using bodies_kept_refl. }
  destruct (message_ptr _ _ _ Hh Hp) as [l El].
  destruct (heap_ok_ptr _ _ _ _ Hh El) as (c & Hc & Hcnt & Hw & Ho).
  assert (length (refs l ms) ≤ length ms)%nat as Hle by apply length_filter.
  assert (∀ m' n, content m' = content m → vsm_size m' = vsm_size m → vsm_data m' = vsm_data m →
    count_ok (c <| refcount := n |>) (m' :: m' :: refs l ms) →
    ∃ h', runs (set_content l (c <| refcount := n |>)) h tt h' ∧ heap_ok h' (m' :: m' :: ms) ∧
    avail h' = avail h ∧ buffers h' ≡ₚ buffers h ∧ bodies_kept h h' ∧
    bodies_kept h' h ∧ content m' = content m ∧ vsm_size m' = vsm_size m ∧ vsm_data m' = vsm_data m) as Hset.
  { intros m' n Em Es Ed Hct.
    destruct (set_content_ok h (m :: ms) (m' :: m' :: ms) l c (c <| refcount := n |>))
      as (h' & Hrun & ? & ? & ? & ?); [done|done|done| |done| | |].
    - assert (message_wf m') by (unfold message_wf; by rewrite Em, El). by repeat constructor.
    - intros l' Hne. rewrite Ho by done. unfold refs, refers.
      rewrite !filter_cons_False by (rewrite Em, El; congruence). done.
    - rewrite !refs_cons, !decide_True; [done|..]; unfold refers; by rewrite Em, El.
    - exists h'. split_and!; try done. unfold runs, set_content, st_modify in Hrun. simplify_eq.
      intros l' c2 Hl'. simpl. destruct (decide (l' = l)) as [->|].
      + rewrite lookup_insert_eq. eexists. split; [done|]. by rewrite Hc in Hl'; simplify_eq.
      + rewrite lookup_insert_ne by done. by exists c2. }
  assert (deref (content m) h = Ok ((l, c), h)) as Hd by (unfold deref; by rewrite El, Hc).
  unfold runs, mbind, st_bind in *. rewrite Hd. destruct Hcnt as [[H1 H2]|(H0 & H1 & H2)].
  - inversion H2 as [|?? Hs Hall]; subst. rewrite Hs.
    destruct (Hset (m <| shared := true |>) (counter_set 2 (refcount c))) as (h' & -> & H'); [done..| |by exists (m <| shared := true |>), h'].
    right. simpl in H1. assert (refs l ms = []) as -> by (apply nil_length_inv; lia).
    split; [simpl; lia|]. split; [by repeat constructor|done].
  - inversion H1 as [|?? Hs Hall]; subst. rewrite Hs. simpl in H2.
    destruct (Hset m (counter_add X86 1 (refcount c)).2) as (h' & -> & H'); [done..| |by exists m, h'].
    right. split; [simpl; lia|]. split; [by repeat constructor|].
    rewrite counter_add_eq by (unfold in_u; lia). simpl. rewrite wrap_small by (unfold in_u; lia). lia.
Qed.

Lemma new_content_ok h ms n c m :
  heap_ok h ms → Z.of_nat (S (length ms)) < 2 ^ 32 → u64 n ≤ avail h →
  let l := fresh (dom (contents h)) in
  let h' := h <| contents := <[l := c]> (contents h) |> in
  new_content n c h = Ok (l, h') ∧
  heap_ok h' ((m <| shared := false |> <| content := Ptr l |>) :: ms) ∧
  buffers h' ≡ₚ option_list (pending c) ++ buffers h ∧
  (∀ l' c', contents h !! l' = Some c' → contents h' !! l' = Some c').
Proof.
  intros Hh Hn Hav l h'.
  assert (contents h !! l = None) as Hl by (apply not_elem_of_dom, is_fresh).
  pose proof (heap_counts _ _ Hh l) as Hr. rewrite Hl in Hr. split_and!.
  - unfold new_content, malloc. destruct (Z.leb_spec (u64 n) (avail h)); [done|lia].
  - eapply (heap_ok_update h h' ms _ l Hh); [|done|..].
    + constructor; [done|apply Hh].
    + intros l' Hne. simpl. rewrite lookup_insert_ne by done. split; [done|].
      rewrite refs_cons, decide_False; [done|]. unfold refers. simpl. congruence.
    + simpl. rewrite lookup_insert_eq. rewrite refs_cons, decide_True by done.
      rewrite Hr. left. split; [done|]. by repeat constructor.
  - unfold buffers. simpl. rewrite pendings_insert by done. apply Permutation_app_swap_app.
  - intros l' c' Hc'. simpl. rewrite lookup_insert_ne; [done|]. intros <-. congruence.
Qed.

(** The bytes a live message shows depend on its block alone. *)
Lemma bytes_kept h h' m : bodies_kept h h' →
  (∀ l, content m = Ptr l → is_Some (contents h' !! l)) →
  raw_message_bytes h' m = raw_message_bytes h m.
Proof.
  intros Hk Hl. unfold raw_message_bytes. destruct (content m) as [t|l]; [done|].
  destruct (Hl l eq_refl) as [c' Hc']. destruct (Hk _ _ Hc') as (c & Hc & _ & Es & _ & Eb).
  by rewrite Hc', Hc; simpl; rewrite Es, Eb.
Qed.

Lemma live_block h m ms l : heap_ok h ms → m ∈ ms → content m = Ptr l → is_Some (contents h !! l).
Proof.
  intros Hh Hm El. pose proof (heap_counts _ _ Hh l) as Hr.
  destruct (contents h !! l); [done|]. assert (m ∈ refs l ms) as Hin by by apply list_elem_of_filter.
  rewrite Hr in Hin. by apply elem_of_nil in Hin.
Qed.

(** C13: copying a message destroys the old content of the destination and
    makes both messages show the bytes of the source; no other live message
    changes, and the reference counts stay right. *)
Theorem message_copy_spec h src dest ms :
  heap_ok h (dest :: src :: ms) →
  ∃ m h', runs (raw_message_copy src dest) h (m, m) h' ∧ heap_ok h' (m :: m :: ms) ∧
    raw_message_bytes h' m = raw_message_bytes h src ∧ message_type m = message_type src ∧
    ∀ m', m' ∈ ms → raw_message_bytes h' m' = raw_message_bytes h m'.
Proof.
  intros Hh. pose proof (heap_few _ _ Hh) as Hn. simpl in Hn.
  destruct (destroy_ok _ _ _ Hh) as (h1 & R1 & Hh1 & _ & _ & Hk1).
  destruct (share_ok _ _ _ Hh1) as (m & h2 & R2 & Hh2 & _ & _ & Hk2 & Hk2' & Ec & Es & Ed); [lia|].
  assert (∀ m', m' ∈ src :: ms → raw_message_bytes h2 m' = raw_message_bytes h m') as Hb.
  { intros m' Hm'. apply bytes_kept; [by eapply bodies_kept_trans|]. intros l El.
    destruct (live_block _ _ _ _ Hh1 Hm' El) as [c Hc]. destruct (Hk2' _ _ Hc) as (? & ? & _). eauto. }
  exists m, h2. split_and!; [|done|..].
  - eapply runs_bind; [done|]. eapply runs_bind; [done|done].
  - rewrite <- Hb by (by left). unfold raw_message_bytes. by rewrite Ec, Es, Ed.
  - unfold message_type, raw_message_type. by rewrite Ec.
  - intros m' Hm'. apply Hb. by right.
Qed.

(** The state in which [src] is one of two messages sharing a block. *)
Lemma message_copy_spec_witness :
  let h := MHeap {[1%positive := Content Inline 40 None 2 (replicate 40 7)]} 1000 [] in
  let src := RawMessage (Ptr 1) true 0 [] in
  ∃ m h', runs (raw_message_copy src no_message) h (m, m) h' ∧ heap_ok h' (m :: m :: [src]) ∧
    raw_message_bytes h' m = raw_message_bytes h src ∧ message_type m = message_type src ∧
    ∀ m', m' ∈ [src] → raw_message_bytes h' m' = raw_message_bytes h m'.
Proof.
  intros h src. apply (message_copy_spec h src no_message [src]). constructor.
  - intros l. destruct (decide (l = 1%positive)) as [->|Hl].
    + right. simpl. split; [lia|]. split; [by repeat constructor|done].
    + simpl. rewrite lookup_singleton_ne by done. unfold refs.
      rewrite !filter_cons_False by (unfold refers; simpl; congruence). done.
  - by repeat constructor.
  - simpl. lia.
Defined.

(** C16: a message is made with exactly the number of bytes asked for, in the
    object itself up to [max_vsm_size] and in a block above it, as long as
    header and body together fit a [size_t]; a larger request is answered
    with a block that is too small for the size the message reports.  Where
    there is no memory for the block the call fails its assertion. *)
Theorem message_init_bounds h m size_ : in_u 64 size_ → Z.of_nat (length (vsm_data m)) = max_vsm_size →
  if size_ <=? max_vsm_size
  then ∃ m' b, runs (raw_message_init m size_) h m' h ∧ runs (raw_message_size m') h size_ h ∧
    raw_message_bytes h m' = Some b ∧ Z.of_nat (length b) = size_
  else if avail h <? u64 (sizeof_content + size_) then raw_message_init m size_ h = Crash AssertFailed
  else ∃ m' h', runs (raw_message_init m size_) h m' h' ∧ runs (raw_message_size m') h' size_ h' ∧
    if size_ <? 2 ^ 64 - sizeof_content
    then ∃ b, raw_message_bytes h' m' = Some b ∧ Z.of_nat (length b) = size_
    else raw_message_bytes h' m' = None.
Proof.
  unfold in_u. intros Hs Hd. unfold raw_message_init. destruct (Z.leb_spec size_ max_vsm_size) as [Hv|Hv].
  { unfold max_vsm_size in *. assert (u16 size_ = size_) as Eu by (apply wrap_small; unfold in_u; lia).
    eexists _, (take (Z.to_nat size_) (vsm_data m)). split; [apply runs_ret|].
    unfold raw_message_size, raw_message_bytes. simpl. rewrite Eu. split; [apply runs_ret|].
    destruct (Z.leb_spec size_ (Z.of_nat (length (vsm_data m)))); [|lia]. split; [done|]. rewrite length_take. lia. }
  unfold runs, mbind, st_bind, new_content, malloc.
  set (n := u64 (sizeof_content + size_)) in *.
  assert (in_u 64 n) as Hn by (by apply wrap_range).
  rewrite wrap_small by done. destruct (Z.ltb_spec (avail h) n), (Z.leb_spec n (avail h)); [lia|done| |lia].
  eexists _, _. split; [done|]. unfold raw_message_size, raw_message_bytes, deref; simpl.
  unfold mbind, st_bind. simpl. rewrite !lookup_insert_eq. split; [done|].
  simpl. rewrite length_replicate. unfold sizeof_content, max_vsm_size in *. simpl.
  assert (n = (32 + size_) `mod` 2 ^ 64) as En by done.
  destruct (Z.ltb_spec size_ (2 ^ 64 - 32)).
  - rewrite Z.mod_small in En by lia. destruct (Z.leb_spec size_ (Z.of_nat (Z.to_nat (n - 32)))); [|lia].
    eexists. split; [done|]. rewrite length_take, length_replicate. lia.
  - assert (n = 32 + size_ - 2 ^ 64) as En'.
    { rewrite En. symmetry. apply (Z.mod_unique _ _ 1); lia. }
    destruct (Z.leb_spec size_ (Z.of_nat (Z.to_nat (n - 32)))); [lia|done].
Qed.

(** In the object, in a block, and in a block that is too small. *)
Lemma message_init_bounds_witness :
  let h := MHeap ∅ 1000 [] in let m := RawMessage (Tag vsm_tag) false 0 (replicate (Z.to_nat max_vsm_size) 0) in
  (∃ m' b, runs (raw_message_init m 20) h m' h ∧ runs (raw_message_size m') h 20 h ∧
    raw_message_bytes h m' = Some b ∧ Z.of_nat (length b) = 20) ∧
  (∃ m' h', runs (raw_message_init m 40) h m' h' ∧ runs (raw_message_size m') h' 40 h' ∧
    ∃ b, raw_message_bytes h' m' = Some b ∧ Z.of_nat (length b) = 40) ∧
  (∃ m' h', runs (raw_message_init m (2 ^ 64 - 10)) h m' h' ∧ runs (raw_message_size m') h' (2 ^ 64 - 10) h' ∧
    raw_message_bytes h' m' = None) ∧
  raw_message_init m 5000 h = Crash AssertFailed.
Proof.
  intros h m. split; [|split; [|split]].
  - apply (message_init_bounds h m 20); [unfold in_u; lia|reflexivity].
  - apply (message_init_bounds h m 40); [unfold in_u; lia|reflexivity].
  - apply (message_init_bounds h m (2 ^ 64 - 10)); [unfold in_u; lia|reflexivity].
  - apply (message_init_bounds h m 5000); [unfold in_u; lia|reflexivity].
Defined.

(** ** Message objects *)

Module Cells.

(** The objects alive in a program, by address. *)
Record mstate := MState {
  cells : gmap positive raw_message;
  heap : mheap
}.
#[export] Instance eta_mstate : Eta mstate := λ s, MState (cells s) (heap s).

Definition on_heap {A} : ST mheap A → ST mstate A := st_lift heap (λ h s, s <| heap := h |>).

Definition load (a : positive) : ST mstate raw_message :=
  λ s, match cells s !! a with Some m => Ok (m, s) | None => Crash UseAfterFree end.

Definition store (a : positive) (m : raw_message) : ST mstate unit :=
  st_modify (λ s, s <| cells := <[a := m]> (cells s) |>).

Definition message_new (a : positive) (size_ : Z) : ST mstate unit :=
  m ← on_heap (raw_message_init no_message size_); store a m.

Definition message_new_data (a data_ : positive) (buf : list Z) (size_ : Z) (ffn_ : option free_fn) : ST mstate unit :=
  m ← on_heap (raw_message_init_data no_message data_ buf size_ ffn_); store a m.

Definition message_delete (a : positive) : ST mstate unit :=
  m ← load a; on_heap (raw_message_destroy m) ;;
  st_modify (λ s, s <| cells := delete a (cells s) |>).

Definition message_rebuild (a : positive) (size_ : Z) : ST mstate unit :=
  m ← load a; on_heap (raw_message_destroy m) ;;
  m ← on_heap (raw_message_init m size_); store a m.

Definition message_rebuild_data (a data_ : positive) (buf : list Z) (size_ : Z) (ffn_ : option free_fn) : ST mstate unit :=
  m ← load a; on_heap (raw_message_destroy m) ;;
  m ← on_heap (raw_message_init_data m data_ buf size_ ffn_); store a m.

(** The two objects may be one: every access goes through the address. *)
Definition message_move_to (this msg_ : positive) : ST mstate unit :=
  d ← load msg_; on_heap (raw_message_destroy d) ;;
  m ← load this; store msg_ m ;;
  m ← load this; m ← on_heap (raw_message_init m 0); store this m.

Definition message_copy_to (this msg_ : positive) : ST mstate unit :=
  d ← load msg_; on_heap (raw_message_destroy d) ;;
  m ← load this; m ← on_heap (raw_message_share m); store this m ;;
  m ← load this; store msg_ m.

Inductive message_op :=
  | New (a : positive) (size_ : Z)
  | NewData (a data_ : positive) (buf : list Z) (size_ : Z) (ffn_ : option free_fn)
  | Rebuild (a : positive) (size_ : Z)
  | RebuildData (a data_ : positive) (buf : list Z) (size_ : Z) (ffn_ : option free_fn)
  | Move (a b : positive)
  | Copy (a b : positive)
  | Delete (a : positive).

Definition exec_op (o : message_op) : ST mstate unit :=
  match o with
  | New a n => message_new a n
  | NewData a d buf n f => message_new_data a d buf n f
  | Rebuild a n => message_rebuild a n
  | RebuildData a d buf n f => message_rebuild_data a d buf n f
  | Move a b => message_move_to a b
  | Copy a b => message_copy_to a b
  | Delete a => message_delete a
  end.

(** The objects alive after an operation of a program that constructs
    objects before it uses them and does not copy an object to itself. *)
Definition legal_op (live : gset positive) (o : message_op) : option (gset positive) :=
  match o with
  | New a _ | NewData a _ _ _ _ => guard (a ∉ live);; Some ({[a]} ∪ live)
  | Rebuild a _ | RebuildData a _ _ _ _ => guard (a ∈ live);; Some live
  | Move a b => guard (a ∈ live ∧ b ∈ live);; Some live
  | Copy a b => guard (a ∈ live ∧ b ∈ live ∧ a ≠ b);; Some live
  | Delete a => guard (a ∈ live);; Some (live ∖ {[a]})
  end.

Definition legal (ops : list message_op) (live : gset positive) : option (gset positive) :=
  foldl (λ o op, live ← o; legal_op live op) (Some live) ops.

(** The user buffers handed over with a deallocation function. *)
Definition supplied (o : message_op) : option (free_fn * positive) :=
  match o with
  | NewData _ d _ _ (Some f) | RebuildData _ d _ _ (Some f) => Some (f, d)
  | _ => None
  end.

Definition mstate_new (limit : Z) : mstate := MState ∅ (MHeap ∅ limit []).

Record mstate_ok (live : gset positive) (s : mstate) (out : list (free_fn * positive)) : Prop := {
  ms_dom : dom (cells s) = live;
  ms_heap : heap_ok (heap s) (map_to_list (cells s)).*2;
  ms_out : buffers (heap s) ≡ₚ out
}.

(** What the two ways of filling a message promise. *)
Definition init_spec (ini : ST mheap raw_message) (o : option (free_fn * positive)) : Prop :=
  ∀ h ms, heap_ok h ms → Z.of_nat (S (length ms)) < 2 ^ 32 →
    ini h = Crash AssertFailed ∨
    ∃ m h', ini h = Ok (m, h') ∧ heap_ok h' (m :: ms) ∧ buffers h' ≡ₚ option_list o ++ buffers h.

Lemma new_content_spec (n : Z) c m o : pending c = o →
  init_spec (l ← new_content n c; mret (m <| shared := false |> <| content := Ptr l |>)) o.
Proof.
  intros <- h ms Hh Hn. unfold mbind, st_bind. destruct (Z.le_gt_cases (u64 n) (avail h)) as [Hle|Hgt].
  - right. destruct (new_content_ok h ms n c m Hh Hn Hle) as (-> & ? & ? & _).
    eexists _, _. done.
  - left. unfold new_content, malloc. destruct (Z.leb_spec (u64 n) (avail h)); [lia|done].
Qed.

Lemma raw_message_init_spec m n : init_spec (raw_message_init m n) None.
Proof.
  unfold raw_message_init. case_match; [|by apply new_content_spec].
  intros h ms Hh Hn. right. eexists _, h. split; [done|]. split; [|done]. by apply heap_ok_plain_cons.
Qed.

Lemma raw_message_init_data_spec m d buf n f :
  init_spec (raw_message_init_data m d buf n f) ((λ f, (f, d)) <$> f).
Proof. apply new_content_spec. by destruct f. Qed.

Lemma values_delete (g : gmap positive raw_message) a m : g !! a = Some m →
  (map_to_list g).*2 ≡ₚ m :: (map_to_list (delete a g)).*2.
Proof. intros Ha. by rewrite <- (map_to_list_delete g a m Ha). Qed.

Lemma values_insert (g : gmap positive raw_message) a m :
  (map_to_list (<[a := m]> g)).*2 ≡ₚ m :: (map_to_list (delete a g)).*2.
Proof.
  rewrite (values_delete _ a m) by apply lookup_insert_eq. by rewrite delete_insert_eq.
Qed.

Lemma values_length (g : gmap positive raw_message) : length (map_to_list g).*2 = base.size (dom g).
Proof. by rewrite length_fmap, length_map_to_list, size_dom. Qed.

(** An operation either fails its assertion or goes through. *)
Definition op_ok (m : ST mstate unit) (s : mstate) (live : gset positive) out : Prop :=
  m s = Crash AssertFailed ∨ ∃ s', m s = Ok (tt, s') ∧ mstate_ok live s' out.

Lemma init_cell_ok ini o s live a out :
  init_spec ini o →
  heap_ok (heap s) (map_to_list (delete a (cells s))).*2 →
  Z.of_nat (S (length (map_to_list (delete a (cells s))))) < 2 ^ 32 →
  {[a]} ∪ dom (cells s) = live → buffers (heap s) ≡ₚ out →
  op_ok (m ← on_heap ini; store a m) s live (option_list o ++ out).
Proof.
  intros Hini Hh Hn Hd Hout. unfold op_ok, on_heap, st_lift, mbind, st_bind.
  destruct (Hini _ _ Hh) as [E|(m & h' & E & Hh' & Hb)]; [by rewrite length_fmap|rewrite E; by left|].
  right. rewrite E. eexists. split; [done|]. constructor; simpl.
  - by rewrite dom_insert_L.
  - by rewrite values_insert.
  - by rewrite Hb, Hout.
Qed.

Lemma destroy_cell_ok s live out a m (k : raw_message → ST mstate unit) live' out' :
  mstate_ok live s out → cells s !! a = Some m →
  (∀ h', heap_ok h' (map_to_list (delete a (cells s))).*2 → buffers h' ≡ₚ out →
    op_ok (k m) (s <| heap := h' |>) live' out') →
  op_ok (d ← load a; on_heap (raw_message_destroy d) ;; k d) s live' out'.
Proof.
  intros [Hd Hh Hout] Ha Hk. rewrite (values_delete _ _ _ Ha) in Hh.
  destruct (destroy_ok _ _ _ Hh) as (h' & R & Hh' & _ & Hb & _).
  unfold op_ok, load, on_heap, st_lift, mbind, st_bind. unfold runs in R. rewrite Ha, R.
  apply Hk; [done|]. by rewrite Hb.
Qed.


Lemma move_op_ok s live out a b : mstate_ok live s out → a ∈ live ∧ b ∈ live →
  Z.of_nat (S (base.size live)) < 2 ^ 32 → op_ok (message_move_to a b) s live out.
Proof.
  intros Hs [Ha Hb] Hn. pose proof Hs as [Hd Hh Hout].
  rewrite <- Hd in Ha, Hb. apply elem_of_dom in Ha as [ma Ha], Hb as [mb Hb].
  apply (destroy_cell_ok s live out b mb (λ _, m ← load a; store b m ;;
    m ← load a; m ← on_heap (raw_message_init m 0); store a m)); [done..|].
  intros h' Hh' Hb'. right. unfold load, store, on_heap, st_lift, st_modify, mbind, st_bind. simpl.
  rewrite Ha. simpl.
  assert (∃ m, <[b:=ma]> (cells s) !! a = Some m ∧ (a ≠ b → m = ma)) as (m & Hm & Hmab).
  { destruct (decide (a = b)) as [->|]; [rewrite lookup_insert_eq|rewrite lookup_insert_ne by done]; eauto. }
  rewrite Hm. unfold raw_message_init. simpl. eexists. split; [done|]. constructor; simpl.
  - rewrite !dom_insert_L, Hd. apply elem_of_dom_2 in Ha, Hb. set_solver.
  - rewrite values_insert. apply heap_ok_plain_cons; [|done|].
    + destruct (decide (a = b)) as [->|Hab].
      * by rewrite delete_insert_eq.
      * rewrite delete_insert_ne, values_insert, delete_delete by done.
        by rewrite (values_delete (delete b (cells s)) a ma) in Hh' by (by rewrite lookup_delete_ne).
    + rewrite values_length. eapply Z.le_lt_trans; [|exact Hn]. apply inj_le, le_n_S, subseteq_size.
      apply elem_of_dom_2 in Hb. set_solver.
  - done.
Qed.

Lemma copy_op_ok s live out a b : mstate_ok live s out → a ∈ live ∧ b ∈ live ∧ a ≠ b →
  Z.of_nat (S (base.size live)) < 2 ^ 32 → op_ok (message_copy_to a b) s live out.
Proof.
  intros Hs (Ha & Hb & Hab) Hn. pose proof Hs as [Hd Hh Hout].
  assert (base.size live = S (S (length (map_to_list (delete a (delete b (cells s))))))) as Hsz.
  { rewrite <- Hd in Ha, Hb |- *. apply elem_of_dom in Ha as [ma Ha], Hb as [mb Hb].
    rewrite <- values_length, (values_delete _ b mb), (values_delete _ a ma); [|by rewrite ?lookup_delete_ne..].
    simpl. by rewrite length_fmap. }
  rewrite <- Hd in Ha, Hb. apply elem_of_dom in Ha as [ma Ha], Hb as [mb Hb].
  apply (destroy_cell_ok s live out b mb (λ _, m ← load a; m ← on_heap (raw_message_share m);
    store a m ;; m ← load a; store b m)); [done..|].
  intros h' Hh' Hb'. right.
  rewrite (values_delete _ a ma) in Hh' by (by rewrite lookup_delete_ne).
  destruct (share_ok _ _ _ Hh') as (m & h2 & R & Hh2 & _ & Hb2 & _); [rewrite length_fmap; lia|].
  unfold runs in R. unfold load, store, on_heap, st_lift, st_modify, mbind, st_bind. simpl.
  rewrite Ha; simpl. rewrite R; simpl. rewrite lookup_insert_eq. eexists. split; [done|].
  constructor; simpl.
  - rewrite !dom_insert_L, Hd. apply elem_of_dom_2 in Ha, Hb. set_solver.
  - rewrite values_insert, delete_insert_ne, values_insert by done. done.
  - by rewrite Hb2.
Qed.
(** Room for one more reference than there are objects. *)
Lemma exec_op_ok o s live live' out : mstate_ok live s out → legal_op live o = Some live' →
  Z.of_nat (S (base.size live)) < 2 ^ 32 →
  op_ok (exec_op o) s live' (option_list (supplied o) ++ out).
Proof.
  intros Hs Hl Hn. pose proof Hs as [Hd Hh Hout].
  assert (∀ a, a ∈ live → ∃ m, cells s !! a = Some m) as Hin.
  { intros a Ha. rewrite <- Hd in Ha. by apply elem_of_dom in Ha as [m ?]; exists m. }
  assert (∀ a, (length (map_to_list (delete a (cells s))) ≤ base.size live)%nat) as Hdel.
  { intros a. rewrite length_map_to_list, <- Hd, <- size_dom, dom_delete_L.
    apply subseteq_size. set_solver. }
  assert (∀ a ini b, init_spec ini b → a ∉ live →
    op_ok (m ← on_heap ini; store a m) s ({[a]} ∪ live) (option_list b ++ out)) as Hnew.
  { intros a ini b Hini Ha. apply init_cell_ok; [done| |specialize (Hdel a); lia|by rewrite Hd|done].
    rewrite delete_id; [done|]. apply not_elem_of_dom. by rewrite Hd. }
  assert (∀ a ini b, (∀ m, init_spec (ini m) b) → a ∈ live →
    op_ok (m ← load a; on_heap (raw_message_destroy m) ;; m ← on_heap (ini m); store a m)
      s live (option_list b ++ out)) as Hre.
  { intros a ini b Hini Ha. destruct (Hin a Ha) as [m Hm].
    apply (destroy_cell_ok s live out a m (λ m, m ← on_heap (ini m); store a m)); [done..|].
    intros h' Hh' Hb. apply init_cell_ok; simpl; [done|done|specialize (Hdel a); lia|set_solver|done]. }
  destruct o as [a n|a d buf n f|a n|a d buf n f|a b|a b|a]; simpl in Hl;
    case_guard as Hg; simplify_eq/=.
  - apply (Hnew a _ None); [apply raw_message_init_spec|done].
  - replace (option_list _) with (option_list ((λ f, (f, d)) <$> f)) by (by destruct f).
    apply Hnew; [apply raw_message_init_data_spec|done].
  - apply (Hre a _ None); [intros m; apply raw_message_init_spec|done].
  - replace (option_list _) with (option_list ((λ f, (f, d)) <$> f)) by (by destruct f).
    apply (Hre a (λ m, raw_message_init_data m d buf n f)); [intros m; apply raw_message_init_data_spec|done].
  - by apply move_op_ok.
  - by apply copy_op_ok.
  - destruct (Hin a) as [m Hm]; [done|].
    eapply (destroy_cell_ok s _ out a m (λ _, st_modify (λ s, s <| cells := delete a (cells s) |>)));
      [done..|].
    intros h' Hh' Hb. right. eexists. split; [done|]. constructor; simpl; [|done..].
    rewrite dom_delete_L. set_solver.
Qed.

Lemma legal_op_size live o live' : legal_op live o = Some live' →
  (base.size live' ≤ S (base.size live))%nat.
Proof.
  assert (∀ a : positive, base.size ({[a]} ∪ live) ≤ S (base.size live))%nat as Hu.
  { intros a. rewrite size_union_alt, size_singleton. simpl. apply le_n_S, subseteq_size. set_solver. }
  destruct o; simpl; intros E; case_guard; simplify_eq/=; auto.
  etrans; [apply subseteq_size|apply Nat.le_succ_diag_r]. set_solver.
Qed.

Lemma legal_cons o ops live live' : legal (o :: ops) live = Some live' →
  ∃ live1, legal_op live o = Some live1 ∧ legal ops live1 = Some live'.
Proof.
  unfold legal. simpl. destruct (legal_op live o) as [live1|]; [eauto|].
  intros E. exfalso. by induction ops.
Qed.

Lemma run_ops_ok ops : ∀ s live live' out, mstate_ok live s out →
  legal ops live = Some live' → Z.of_nat (S (base.size live + length ops)) < 2 ^ 32 →
  op_ok (st_for ops exec_op) s live' (rev (omap supplied ops) ++ out).
Proof.
  induction ops as [|o ops IH]; intros s live live' out Hs Hl Hn.
  { injection Hl as <-. right. by exists s. }
  apply legal_cons in Hl as (live1 & Hl1 & Hl). pose proof (legal_op_size _ _ _ Hl1) as Hsz.
  simpl in Hn. destruct (exec_op_ok o s live live1 out Hs Hl1) as [E|(s1 & E & Hs1)]; [lia| |].
  - left. simpl. unfold mbind, st_bind. by rewrite E.
  - unfold op_ok. simpl. unfold mbind, st_bind. rewrite E.
    assert (rev (omap supplied (o :: ops)) ++ out ≡ₚ rev (omap supplied ops) ++ option_list (supplied o) ++ out) as Ep.
    { simpl. destruct (supplied o); simpl; [by rewrite <- app_assoc|done]. }
    destruct (IH s1 live1 live' (option_list (supplied o) ++ out) Hs1 Hl) as [E1|(s2 & E1 & [? ? Ho])];
      [lia|by left|right]. exists s2. split; [done|]. constructor; [done..|]. by rewrite Ep.
Qed.

(** C5: a program that constructs its messages before it uses them, and does
    not copy a message to itself, never touches freed memory and never frees
    twice: it can only fail for want of memory.  Each buffer it supplied is
    handed to its deallocation function at most once, and once all messages
    are destroyed, every block is freed and every buffer handed back. *)
Theorem message_programs_safe limit ops live :
  legal ops ∅ = Some live → Z.of_nat (S (length ops)) < 2 ^ 32 →
  match st_for ops exec_op (mstate_new limit) with
  | Crash f => f = AssertFailed
  | Ok (_, s) =>
      dom (cells s) = live ∧
      freed (heap s) ++ pendings (contents (heap s)) ≡ₚ omap supplied ops ∧
      (live = ∅ → contents (heap s) = ∅ ∧ freed (heap s) ≡ₚ omap supplied ops)
  end.
Proof.
  intros Hl Hn.
  destruct (run_ops_ok ops (mstate_new limit) ∅ live []) as [E|(s & E & [Hd Hh Hb])];
    [|exact Hl|rewrite size_empty; lia|by rewrite E|].
  { constructor; simpl; [by rewrite dom_empty_L| |done]. rewrite map_to_list_empty.
    constructor; simpl; [intros l; by rewrite lookup_empty|constructor|lia]. }
  rewrite E. rewrite app_nil_r, <- Permutation_rev in Hb. split_and!; [done..|]. intros ->.
  apply dom_empty_inv_L in Hd. rewrite Hd, map_to_list_empty in Hh.
  assert (contents (heap s) = ∅) as Hc.
  { apply map_empty. intros l. pose proof (heap_counts _ _ Hh l) as Hr.
    destruct (contents (heap s) !! l) as [c|]; [|done]. destruct Hr as [[Hr _]|[Hr _]]; simpl in Hr; lia. }
  split; [done|]. unfold buffers in Hb. by rewrite Hc, app_nil_r in Hb.
Qed.

Lemma message_programs_safe_witness :
  let ops := [New 1 100; NewData 2 7 [1; 2] 2 (Some 9%positive); Copy 2 1; Delete 2;
              New 3 5; Move 1 3; Rebuild 1 40; Delete 3; Delete 1] in
  match st_for ops exec_op (mstate_new 1000) with
  | Crash f => f = AssertFailed
  | Ok (_, s) =>
      dom (cells s) = ∅ ∧
      freed (heap s) ++ pendings (contents (heap s)) ≡ₚ omap supplied ops ∧
      (∅ = (∅ : gset positive) → contents (heap s) = ∅ ∧ freed (heap s) ≡ₚ omap supplied ops)
  end.
Proof.
  apply (message_programs_safe 1000 _ ∅); [vm_compute; reflexivity|simpl; lia].
Defined.

(** Copying a message to itself frees a block nobody else names before it is
    used again. *)
Lemma message_copy_self s a m l c :
  cells s !! a = Some m → content m = Ptr l → contents (heap s) !! l = Some c →
  shared m = false → message_copy_to a a s = Crash UseAfterFree.
Proof.
  intros Ha El Hc Hs.
  unfold message_copy_to, on_heap, st_lift, load, mbind, st_bind. rewrite Ha.
  unfold raw_message_destroy. rewrite (is_plain_ptr _ _ El), Hs.
  assert (deref (content m) (heap s) = Ok ((l, c), heap s)) as Hd by (unfold deref; by rewrite El, Hc).
  unfold mbind, st_bind. rewrite Hd. unfold content_free, mbind, st_bind, st_modify. simpl. rewrite Ha.
  unfold raw_message_share. rewrite (is_plain_ptr _ _ El). unfold mbind, st_bind, deref. rewrite El. simpl.
  by destruct (ffn c), (data c); simpl; rewrite lookup_delete_eq.
Qed.
End Cells.
