(* ===== verification/MessageBody.v ===== *)
(** Filling the body of a message piece by piece, as the code does through
    the pointer [raw_message_data] gives ([src/libzmq/zmq/raw_message.hpp]). *)
From S2P Require Import Prelude Config Atomics Message.
Local Open Scope Z_scope.

#[local] Arguments raw_message_init : simpl never.

Definition raw_message_poke (m : raw_message) (o : nat) (b : list Z) : ST mheap raw_message :=
  match content m with
  | Tag _ => l ← st_of_option BadAccess (overwrite o b (vsm_data m)); mret (m <| vsm_data := l |>)
  | Ptr _ =>
      '(p, c) ← deref (content m);
      l ← st_of_option BadAccess (overwrite o b (bytes c));
      set_content p (c <| bytes := l |>) ;;
      mret m
  end.

(** The size and the bytes the accessors of a message give. *)
Definition body_of (h : mheap) (m : raw_message) (b : list Z) : Prop :=
  raw_message_bytes h m = Some b ∧ raw_message_size m h = Ok (Z.of_nat (length b), h) ∧ message_wf m.

(** ** A message that is being filled *)

(** [m] has room for [n] bytes, the first of which are [q], and is the only
    message that names its block. *)
Definition holds (h : mheap) (m : raw_message) (q : list Z) (n : nat) : Prop :=
  match content m with
  | Tag t => t = vsm_tag ∧ vsm_size m = Z.of_nat n ∧ (n ≤ length (vsm_data m))%nat ∧
      take (length q) (vsm_data m) = q
  | Ptr l => shared m = false ∧ ∃ c, contents h !! l = Some c ∧ size c = Z.of_nat n ∧
      length (bytes c) = n ∧ take (length q) (bytes c) = q
  end.

Lemma holds_body h m q : holds h m q (length q) → body_of h m q ∧ (shared m = false ∨ is_plain m = true).
Proof.
  unfold holds, body_of, raw_message_bytes, raw_message_size, message_wf. destruct (content m) as [t|l] eqn:Ec.
  - intros (-> & Hs & Hl & Ht). rewrite !bool_decide_true by done. rewrite Hs.
    assert (is_plain m = true) as Hp by (unfold is_plain; by rewrite Ec).
    destruct (Z.leb_spec (Z.of_nat (length q)) (Z.of_nat (length (vsm_data m)))); [|lia].
    rewrite Nat2Z.id, Ht. split_and!; [done..|by right].
  - intros (Hsh & c & Hc & Hs & Hl & Ht). rewrite !bool_decide_false by done. simpl.
    unfold mbind, st_bind. simpl. rewrite Hc. simpl. rewrite Hs, Hl.
    destruct (Z.leb_spec (Z.of_nat (length q)) (Z.of_nat (length q))); [|lia].
    rewrite Nat2Z.id, Ht. split_and!; [done..|by left].
Qed.

Lemma poke_ok h m ms q n b : heap_ok h (m :: ms) → holds h m q n → (length q + length b ≤ n)%nat →
  ∃ m' h', runs (raw_message_poke m (length q) b) h m' h' ∧ heap_ok h' (m' :: ms) ∧ holds h' m' (q ++ b) n ∧
    length (vsm_data m') = length (vsm_data m) ∧
    ∀ m2, m2 ∈ ms → raw_message_bytes h' m2 = raw_message_bytes h m2.
Proof.
  intros Hh Hq Hn. unfold holds in *. unfold raw_message_poke. destruct (content m) as [t|l] eqn:Ec.
  - destruct Hq as (-> & Hs & Hl & Ht).
    destruct (overwrite_spec (length q) b (vsm_data m)) as (l' & E & El & Et); [lia|].
    exists (m <| vsm_data := l' |>), h. unfold runs, mbind, st_bind. rewrite E. split; [done|].
    assert (is_plain m = true) as Hp by (unfold is_plain; by rewrite Ec).
    assert (is_plain (m <| vsm_data := l' |>) = true) as Hp' by done.
    pose proof (heap_few _ _ Hh). split; [|split].
    + apply heap_ok_plain_cons; [by eapply heap_ok_plain|done|done].
    + simpl. rewrite Ec, El, length_app, Et, Ht. done.
    + done.
  - destruct Hq as (Hsh & c & Hc & Hs & Hl & Ht).
    destruct (overwrite_spec (length q) b (bytes c)) as (l' & E & El & Et); [lia|].
    destruct (heap_ok_ptr _ _ _ _ Hh Ec) as (c1 & Hc1 & Hcnt & Hw & Ho).
    assert (c1 = c) as -> by congruence.
    assert (refs l ms = []) as Hr.
    { destruct Hcnt as [[H1 _]|(_ & H1 & _)]; [by apply nil_length_inv; simpl in H1; lia|].
      inversion H1; congruence. }
    exists m, (h <| contents := <[l := c <| bytes := l' |>]> (contents h) |>).
    split_and!; [| | |done|].
    + unfold runs, mbind, st_bind. simpl. rewrite Hc. by rewrite E.
    + pose proof (heap_wf _ _ Hh). pose proof (heap_few _ _ Hh).
      eapply (heap_ok_update h _ (m :: ms) _ l Hh); [done..| |].
      * intros l2 Hne. simpl. by rewrite lookup_insert_ne.
      * simpl. rewrite lookup_insert_eq, refs_cons, decide_True by done. destruct Hcnt; [by left|by right].
    + rewrite Ec. split; [done|]. exists (c <| bytes := l' |>). simpl. rewrite lookup_insert_eq.
      rewrite length_app, Et, Ht, El. done.
    + intros m2 Hm2. unfold raw_message_bytes. destruct (content m2) as [|l2] eqn:E2; [done|]. simpl.
      rewrite lookup_insert_ne; [done|]. intros ->. assert (m2 ∈ refs l2 ms) as Hin by by apply list_elem_of_filter.
      rewrite Hr in Hin. by apply elem_of_nil in Hin.
Qed.

Lemma init_holds h m ms (n : nat) : heap_ok h ms → Z.of_nat (S (length ms)) < 2 ^ 32 →
  Z.of_nat n + sizeof_content < 2 ^ 64 → length (vsm_data m) = Z.to_nat max_vsm_size →
  wp (raw_message_init m (Z.of_nat n)) only_assert (λ m' h', heap_ok h' (m' :: ms) ∧ holds h' m' [] n ∧
    length (vsm_data m') = length (vsm_data m) ∧
    ∀ m2, m2 ∈ ms → raw_message_bytes h' m2 = raw_message_bytes h m2) h.
Proof.
  intros Hh Hms Hn Hv. unfold raw_message_init, sizeof_content, max_vsm_size in *.
  destruct (Z.leb_spec (Z.of_nat n) 30).
  - apply wp_ret. split_and!; [by apply heap_ok_plain_cons| |done..].
    unfold holds. simpl. rewrite wrap_small by (unfold in_u; lia). split_and!; [done..|lia|done].
  - assert (u64 (32 + Z.of_nat n) = 32 + Z.of_nat n) as En by (apply wrap_small; unfold in_u; lia).
    rewrite En. replace (Z.to_nat (32 + Z.of_nat n - 32)) with n by lia.
    set (c := Content Inline (Z.of_nat n) None (counter_init 0) (replicate n 0)).
    wp_steps. destruct (Z.le_gt_cases (u64 (32 + Z.of_nat n)) (avail h)) as [Hle|Hgt].
    + destruct (new_content_ok h ms _ c m Hh Hms Hle) as (E & Hok & _ & Hold).
      eapply runs_wp; [exact E|]. wp_steps. split_and!; [exact Hok| |done|].
      * unfold holds. simpl. split; [done|]. exists c. rewrite lookup_insert_eq. split; [done|].
        split; [done|]. split; [apply length_replicate|done].
      * intros m2 Hm2. unfold raw_message_bytes. destruct (content m2) as [|l2] eqn:E2; [done|].
        destruct (live_block _ _ _ _ Hh Hm2 E2) as [c2 Hc2]. by rewrite (Hold _ _ Hc2), Hc2.
    + unfold wp, new_content, malloc. destruct (Z.leb_spec (u64 (32 + Z.of_nat n)) (avail h)); [lia|done].
Qed.
