(* ===== verification/Command.v ===== *)
(** Commands ([src/libzmq/zmq/command.hpp]): what threads and engines tell
    each other.  Threads, engines and pipes are known by their address. *)
From S2P Require Import Prelude.
Local Open Scope Z_scope.

Abbreviation thread_id := positive.
Abbreviation engine_id := positive.
Abbreviation pipe_id := positive.

Inductive engine_command_t :=
  | ec_revive (pipe : pipe_id)
  | ec_head (pipe : pipe_id) (position : Z)
  | ec_send_to (pipe : pipe_id)
  | ec_receive_from (pipe : pipe_id)
  | ec_terminate_pipe (pipe : pipe_id)
  | ec_terminate_pipe_ack (pipe : pipe_id).

(** An engine pointer may be NULL. *)
Inductive command_t :=
  | c_stop
  | c_register_engine (engine : option engine_id)
  | c_unregister_engine (engine : option engine_id)
  | c_engine_command (engine : option engine_id) (command : engine_command_t).

Definition init_stop : command_t := c_stop.
Definition init_register_engine (engine_ : option engine_id) : command_t := c_register_engine engine_.
Definition init_unregister_engine (engine_ : option engine_id) : command_t := c_unregister_engine engine_.
Definition init_engine_send_to (engine_ : option engine_id) (pipe_ : pipe_id) : command_t :=
  c_engine_command engine_ (ec_send_to pipe_).
Definition init_engine_receive_from (engine_ : option engine_id) (pipe_ : pipe_id) : command_t :=
  c_engine_command engine_ (ec_receive_from pipe_).
Definition init_engine_revive (engine_ : option engine_id) (pipe_ : pipe_id) : command_t :=
  c_engine_command engine_ (ec_revive pipe_).
Definition init_engine_head (engine_ : option engine_id) (pipe_ : pipe_id) (position_ : Z) : command_t :=
  c_engine_command engine_ (ec_head pipe_ position_).
Definition init_engine_terminate_pipe (engine_ : option engine_id) (pipe_ : pipe_id) : command_t :=
  c_engine_command engine_ (ec_terminate_pipe pipe_).
Definition init_engine_terminate_pipe_ack (engine_ : option engine_id) (pipe_ : pipe_id) : command_t :=
  c_engine_command engine_ (ec_terminate_pipe_ack pipe_).

#[export] Instance engine_command_eq_dec : EqDecision engine_command_t.
Proof. solve_decision. Defined.

#[export] Instance command_eq_dec : EqDecision command_t.
Proof. solve_decision. Defined.

(** The pipe a command is about. *)
Definition command_pipe (c : engine_command_t) : pipe_id :=
  match c with
  | ec_revive p | ec_head p _ | ec_send_to p | ec_receive_from p | ec_terminate_pipe p
  | ec_terminate_pipe_ack p => p
  end.

(** A command on its way from one thread to another
    ([source_thread->send_command (destination_thread, cmd)]). *)
Record sent := Sent { from : thread_id; to : thread_id; cmd : command_t }.
