(* ===== verification/Swap.v ===== *)
(** What a pipe expects of the store that takes messages when memory is full
    ([data_dam_t] implements it): the oldest message comes back first. *)
From S2P Require Import Prelude Message.
Local Open Scope Z_scope.

(** The type and bytes of a message, which survive a stay in the store. *)
Definition body (h : mheap) (m : raw_message) : option (Z * list Z) :=
  pair (raw_message_type m) <$> raw_message_bytes h m.

Lemma body_kept h h' m ms : bodies_kept h h' → heap_ok h' ms → m ∈ ms → body h' m = body h m.
Proof.
  intros Hk Hh Hm. unfold body. rewrite (bytes_kept h h'); [done..|].
  intros l El. by eapply live_block.
Qed.

Lemma bodies_ext h h' (ms : list raw_message) : (∀ m, m ∈ ms → body h' m = body h m) → body h' <$> ms = body h <$> ms.
Proof. intros Hb. apply list_fmap_ext. intros i m Hi. apply Hb. by eapply list_elem_of_lookup_2. Qed.

Class Swap (S : Type) := {
  sw_new : Z → S;
  sw_store : raw_message → ST (S * mheap) bool;
  sw_fetch : ST (S * mheap) raw_message;
  sw_empty : S → bool
}.

(** The store makes no promise for messages without a body, and none of a
    program's memory is as large as this. *)
Definition swappable (b : Z * list Z) : Prop := b.2 ≠ [] ∧ Z.of_nat (length b.2) < 2 ^ 62.

Class SwapLaws (S : Type) `{Swap S} := {
  sw_view : S → list (Z * list Z) → Prop;
  sw_new_law size : 0 < size < 2 ^ 63 → sw_view (sw_new size) [];
  sw_store_law s l h m ms b : sw_view s l → heap_ok h (m :: ms) →
    body h m = Some b → swappable b →
    ∃ ok s' h', runs (sw_store m) (s, h) ok (s', h') ∧ bodies_kept h h' ∧
      if ok then sw_view s' (l ++ [b]) ∧ heap_ok h' ms
      else sw_view s' l ∧ heap_ok h' (m :: ms);
  sw_fetch_law s b l h ms : sw_view s (b :: l) → heap_ok h ms →
    Z.of_nat (Datatypes.S (length ms)) < 2 ^ 32 →
    sw_fetch (s, h) = Crash AssertFailed ∨
    ∃ m s' h', runs sw_fetch (s, h) m (s', h') ∧ sw_view s' l ∧ heap_ok h' (m :: ms) ∧
      body h' m = Some b ∧ ∀ m', m' ∈ ms → body h' m' = body h m';
  sw_empty_law s l : sw_view s l → sw_empty s = bool_decide (l = [])
}.
