(* ===== verification/DataDam.v ===== *)
(** The store that takes messages when memory is full
    ([src/libzmq/data_dam.cpp], [zmq/data_dam.hpp]): a ring of bytes in a
    file, of which the block being read and the block being written are kept
    in two buffers, or in one when they are the same block. *)
From S2P Require Import Prelude Atomics Message MessageBody.
Local Open Scope Z_scope.

(** The file, through the calls of the operating system: [f_read n] gives at
    most [n] bytes and none at the end of the file, [f_write] the number of
    bytes it took. *)
Class Disk (F : Type) := {
  f_open : F;
  f_seek : Z → ST F Z;
  f_read : nat → ST F (list Z);
  f_write : list Z → ST F Z
}.

(** The bytes a write puts over those that are known of a file. *)
Definition written (c : Z → option Z) (off : Z) (bs : list Z) : Z → option Z := λ p,
  if (off <=? p) && (p <? off + Z.of_nat (length bs)) then bs !! Z.to_nat (p - off) else c p.

(** [f_view f c off]: the file has the bytes [c] and its offset is [off].
    Reads and writes may be short but move something. *)
Class DiskLaws (F : Type) `{Disk F} := {
  f_view : F → (Z → option Z) → Z → Prop;
  f_open_law : f_view f_open (λ _, None) 0;
  f_seek_law f c off p : f_view f c off → 0 ≤ p → ∃ f', runs (f_seek p) f p f' ∧ f_view f' c p;
  f_read_law f c off bs : f_view f c off → bs ≠ [] →
    (∀ i b, bs !! i = Some b → c (off + Z.of_nat i) = Some b) →
    ∃ k f', (0 < k ≤ length bs)%nat ∧ runs (f_read (length bs)) f (take k bs) f' ∧
      f_view f' c (off + Z.of_nat k);
  f_write_law f c off bs : f_view f c off → bs ≠ [] →
    ∃ k f', (0 < k ≤ length bs)%nat ∧ runs (f_write bs) f (Z.of_nat k) f' ∧
      f_view f' (written c off (take k bs)) (off + Z.of_nat k)
}.

(** Objects of [n] bytes in memory: the host is little-endian. *)
Definition native (n : Z) (v : Z) : list Z := Z_to_little_endian n 8 v.
Definition of_native (b : list Z) : Z := little_endian_to_Z 8 b.

Section data_dam.
Context {F : Type} `{!Disk F}.

Inductive block_buf := Buf1 | Buf2.
#[export] Instance block_buf_eq_dec : EqDecision block_buf.
Proof. solve_decision. Defined.

(** The positions stay between 0 and [filesize], so no conversion between
    [int64_t] and [size_t] changes one. *)
Record data_dam_t := DataDam {
  fd : F;
  filesize : Z;
  file_pos : Z;
  write_pos : Z;
  read_pos : Z;
  n_msgs : Z;
  block_size : Z;
  buf1 : list Z;
  buf2 : list Z;
  read_buf : block_buf;
  write_buf : block_buf;
  write_buf_start_addr : Z
}.
#[export] Instance eta_data_dam : Eta data_dam_t := λ d,
  DataDam (fd d) (filesize d) (file_pos d) (write_pos d) (read_pos d) (n_msgs d) (block_size d)
    (buf1 d) (buf2 d) (read_buf d) (write_buf d) (write_buf_start_addr d).

Definition buf_of (d : data_dam_t) (b : block_buf) : list Z :=
  match b with Buf1 => buf1 d | Buf2 => buf2 d end.
Definition set_buf (b : block_buf) (l : list Z) (d : data_dam_t) : data_dam_t :=
  match b with Buf1 => d <| buf1 := l |> | Buf2 => d <| buf2 := l |> end.

Definition default_block_size : Z := 8192.

(** The constructor after its assertions. *)
Definition data_dam_init (filesize_ block_size_ : Z) : data_dam_t :=
  DataDam f_open filesize_ 0 0 0 0 block_size_
    (replicate (Z.to_nat block_size_) 0) (replicate (Z.to_nat block_size_) 0) Buf1 Buf1 0.

Definition data_dam_new (filesize_ block_size_ : Z) : res data_dam_t :=
  if (0 <? filesize_) && (0 <? block_size_) then Ok (data_dam_init filesize_ block_size_)
  else Crash AssertFailed.

Definition on_fd {A} : ST F A → ST data_dam_t A := st_lift fd (λ f d, d <| fd := f |>).

(** [lseek] where the file is not yet at [pos]. *)
Definition seek_to (pos : Z) : ST data_dam_t unit :=
  d ← st_get;
  st_when (negb (file_pos d =? pos))
    (offset ← on_fd (f_seek pos);
     st_assert (offset =? pos) ;;
     st_modify (λ d, d <| file_pos := pos |>)).

(** [while (i < n)] over [read] and [write]; [bs] are the bytes left. *)
Fixpoint fill_loop (fuel : nat) (i n : nat) : ST data_dam_t unit :=
  if bool_decide (i < n)%nat then
    match fuel with
    | O => st_crash OutOfFuel
    | S fuel =>
        bs ← on_fd (f_read (n - i));
        st_assert (bool_decide (0 < length bs)%nat) ;;
        d ← st_get;
        l ← st_of_option BadAccess (overwrite i bs (buf_of d (read_buf d)));
        st_modify (set_buf (read_buf d) l) ;;
        fill_loop fuel (i + length bs) n
    end
  else mret tt.

Definition fill_read_buf : ST data_dam_t unit :=
  d ← st_get;
  seek_to (read_pos d) ;;
  let n := block_size d `min` (filesize d - read_pos d) in
  fill_loop (Z.to_nat n) 0 (Z.to_nat n) ;;
  st_modify (λ d, d <| file_pos := file_pos d + n |>).

Fixpoint save_loop (fuel : nat) (bs : list Z) : ST data_dam_t unit :=
  if bool_decide (bs ≠ []) then
    match fuel with
    | O => st_crash OutOfFuel
    | S fuel =>
        rc ← on_fd (f_write bs);
        st_assert (0 <? rc) ;;
        save_loop fuel (drop (Z.to_nat rc) bs)
    end
  else mret tt.

Definition save_write_buf : ST data_dam_t unit :=
  d ← st_get;
  seek_to (write_buf_start_addr d) ;;
  let n := block_size d `min` (filesize d - write_buf_start_addr d) in
  let buf := buf_of d (write_buf d) in
  st_of_option BadAccess (guard (Z.to_nat n ≤ length buf)%nat) ;;
  save_loop (Z.to_nat n) (take (Z.to_nat n) buf) ;;
  st_modify (λ d, d <| file_pos := file_pos d + n |>).

(** How far a copy goes at once: to the end of the block and of the file. *)
Definition span (d : data_dam_t) (pos n_left : Z) : Z :=
  n_left `min` ((filesize d - pos) `min` (block_size d - pos `mod` block_size d)).

Definition write_block (bs : list Z) : ST data_dam_t unit :=
  d ← st_get;
  l ← st_of_option BadAccess
    (overwrite (Z.to_nat (write_pos d `mod` block_size d)) bs (buf_of d (write_buf d)));
  st_modify (set_buf (write_buf d) l) ;;
  st_modify (λ d, d <| write_pos := (write_pos d + Z.of_nat (length bs)) `mod` filesize d |>) ;;
  d ← st_get;
  st_when (write_pos d `mod` block_size d =? 0)
    (save_write_buf ;;
     st_modify (λ d, d <| write_buf_start_addr := write_pos d |>) ;;
     d ← st_get;
     st_when (bool_decide (write_buf d = read_buf d))
       (st_modify (λ d, d <| write_buf := if bool_decide (read_buf d = Buf2) then Buf1 else Buf2 |>))).

Fixpoint copy_to_loop (fuel : nat) (data : list Z) : ST data_dam_t unit :=
  if bool_decide (data ≠ []) then
    match fuel with
    | O => st_crash OutOfFuel
    | S fuel =>
        d ← st_get;
        let n := Z.to_nat (span d (write_pos d) (Z.of_nat (length data))) in
        write_block (take n data) ;;
        copy_to_loop fuel (drop n data)
    end
  else mret tt.

Definition copy_to_file (data : list Z) : ST data_dam_t unit := copy_to_loop (length data) data.

Definition read_block (n : nat) : ST data_dam_t (list Z) :=
  d ← st_get;
  let o := Z.to_nat (read_pos d `mod` block_size d) in
  let buf := buf_of d (read_buf d) in
  st_of_option BadAccess (guard (o + n ≤ length buf)%nat) ;;
  st_modify (λ d, d <| read_pos := (read_pos d + Z.of_nat n) `mod` filesize d |>) ;;
  d ← st_get;
  st_when (read_pos d `mod` block_size d =? 0)
    (if read_pos d `div` block_size d =? write_pos d `div` block_size d
     then st_modify (λ d, d <| read_buf := write_buf d |>)
     else fill_read_buf) ;;
  mret (take n (drop o buf)).

Fixpoint copy_from_loop (fuel : nat) (n_left : nat) : ST data_dam_t (list Z) :=
  if bool_decide (n_left ≠ 0%nat) then
    match fuel with
    | O => st_crash OutOfFuel
    | S fuel =>
        d ← st_get;
        let n := Z.to_nat (span d (read_pos d) (Z.of_nat n_left)) in
        bs ← read_block n;
        rest ← copy_from_loop fuel (n_left - n);
        mret (bs ++ rest)
    end
  else mret [].

Definition copy_from_file (count : nat) : ST data_dam_t (list Z) := copy_from_loop count count.

Definition buffer_space (d : data_dam_t) : Z :=
  if write_pos d <? read_pos d then read_pos d - write_pos d
  else filesize d - (write_pos d - read_pos d).

Definition dam_empty (d : data_dam_t) : bool := n_msgs d =? 0.
Definition dam_size (d : data_dam_t) : Z := n_msgs d.

Definition on_dam {A} : ST data_dam_t A → ST (data_dam_t * mheap) A := st_lift fst (λ d s, (d, s.2)).
Definition on_heap {A} : ST mheap A → ST (data_dam_t * mheap) A := st_lift snd (λ h s, (s.1, h)).

(** [sizeof (size_t)] and [sizeof (int)]. *)
Definition sizeof_size : Z := 8.
Definition sizeof_int : Z := 4.

Definition dam_store (msg_ : raw_message) : ST (data_dam_t * mheap) bool :=
  msg_size ← on_heap (raw_message_size msg_);
  s ← st_get;
  if buffer_space s.1 <=? i64 (u64 (sizeof_size + msg_size)) then mret false
  else
    on_dam (copy_to_file (native sizeof_size msg_size)) ;;
    (if 0 <? msg_size then
       s ← st_get;
       data ← st_of_option BadAccess (raw_message_bytes s.2 msg_);
       on_dam (copy_to_file data) ;;
       on_heap (raw_message_destroy msg_)
     else on_dam (copy_to_file (native sizeof_int (raw_message_type msg_)))) ;;
    on_dam (st_modify (λ d, d <| n_msgs := u64 (n_msgs d + 1) |>)) ;;
    mret true.

(** The message that is built, in memory for a new one. *)
Definition dam_fetch : ST (data_dam_t * mheap) raw_message :=
  s ← st_get;
  st_assert (0 <? n_msgs s.1) ;;
  size ← on_dam (copy_from_file (Z.to_nat sizeof_size));
  let msg_size := of_native size in
  msg ← (if 0 <? msg_size then
           msg ← on_heap (raw_message_init no_message msg_size);
           data ← on_dam (copy_from_file (Z.to_nat msg_size));
           on_heap (raw_message_poke msg 0 data)
         else
           tag ← on_dam (copy_from_file (Z.to_nat sizeof_int));
           if of_native tag =? 0 then on_heap (raw_message_init no_message 0)
           else mret (raw_message_init_notification no_message (of_native tag)));
  on_dam (st_modify (λ d, d <| n_msgs := u64 (n_msgs d - 1) |>)) ;;
  mret msg.

End data_dam.
Arguments data_dam_t F : clear implicits.
