(* ===== verification/DataDamFifo.v ===== *)
(** The ring of [data_dam_t] is a queue: whatever the sizes of the file and
    of its blocks, and however short the transfers, what is fetched is what
    was stored, oldest first. *)
From S2P Require Import Prelude Atomics Message MessageBody Swap DataDam.
Local Open Scope Z_scope.

#[local] Arguments raw_message_init : simpl never.

(** ** Lists *)

Lemma overwrite_lookup o b (l l' : list Z) : overwrite o b l = Some l' →
  length l' = length l ∧ ∀ j, l' !! j =
    if decide (o ≤ j < o + length b)%nat then b !! (j - o)%nat else l !! j.
Proof.
  unfold overwrite. case_guard as Hg; [|done]. intros [= <-].
  split; [rewrite !length_app, length_take, length_drop; lia|]. intros j.
  destruct (decide (j < o)%nat).
  { rewrite decide_False by lia. rewrite lookup_app_l by (rewrite length_take; lia). by rewrite lookup_take_lt. }
  assert (length (take o l) = o) as Ho by (rewrite length_take; lia).
  rewrite lookup_app_r, Ho by lia.
  destruct (decide (j < o + length b)%nat).
  - rewrite decide_True by lia. apply lookup_app_l. lia.
  - rewrite decide_False, lookup_app_r, lookup_drop by lia. f_equal. lia.
Qed.

Lemma overwrite_fits o b (l : list Z) : (o + length b ≤ length l)%nat → ∃ l', overwrite o b l = Some l'.
Proof. intros Hl. unfold overwrite. rewrite option_guard_True by done. eauto. Qed.

(** Multiples of the block size are equal or a block apart. *)
Lemma blocks_apart B a b : 0 < B → a `mod` B = 0 → b `mod` B = 0 → a = b ∨ a + B ≤ b ∨ b + B ≤ a.
Proof.
  intros HB Ha Hb. rewrite (Z.div_mod a B), (Z.div_mod b B), Ha, Hb, !Z.add_0_r by lia.
  destruct (Ztrichotomy (a / B) (b / B)) as [?|[->|?]]; [right; left|by left|right; right]; nia.
Qed.

Lemma block_start B p : 0 < B → (p - p `mod` B) `mod` B = 0.
Proof. intros. rewrite Zminus_mod_idemp_r, Z.sub_diag. by apply Zmod_0_l. Qed.

Lemma block_of B s p : 0 < B → s `mod` B = 0 → s ≤ p < s + B → p `mod` B = p - s ∧ p `div` B = s `div` B.
Proof.
  intros HB Hs Hp. pose proof (Z.div_mod s B). split; [symmetry; apply (Z.mod_unique _ _ (s / B))|symmetry; apply (Z.div_unique _ _ _ (p - s))]; lia.
Qed.

Ltac ring_cases := repeat match goal with
  | |- context [Z.leb ?a ?b] => destruct (Z.leb_spec a b)
  | |- context [Z.ltb ?a ?b] => destruct (Z.ltb_spec a b)
  | H : context [Z.leb ?a ?b] |- _ => destruct (Z.leb_spec a b)
  | H : context [Z.ltb ?a ?b] |- _ => destruct (Z.ltb_spec a b)
  end; simpl in *; try lia.

Section fifo.
Context {F : Type} `{!Disk F, !DiskLaws F}.
Implicit Types d : data_dam_t F.

(** ** The bytes in the ring *)

(** The place of the [i]-th byte of a ring that starts at [r]. *)
Definition place (fs r i : Z) : Z := if r + i <? fs then r + i else r + i - fs.

(** Where the byte at [p] is: in the block that is written up to [w], in the
    block at [rs] that is read from [r] on, or in the file. *)
Definition byte_of d (c : Z → option Z) (rs r w p : Z) : option Z :=
  if (write_buf_start_addr d <=? p) && (p <? w)
  then buf_of d (write_buf d) !! Z.to_nat (p - write_buf_start_addr d)
  else if (r <=? p) && (p <? rs + block_size d)
  then buf_of d (read_buf d) !! Z.to_nat (p - rs)
  else c p.

(** The ring [q] from [r] to [w]; both may be at the end of their block. *)
Record ring d (c : Z → option Z) (rs r w : Z) (q : list Z) : Prop := {
  ring_sizes : 0 < filesize d < 2 ^ 63 ∧ 0 < block_size d;
  ring_buf b : Z.of_nat (length (buf_of d b)) = block_size d;
  ring_file : f_view (fd d) c (file_pos d);
  ring_read : 0 ≤ rs ∧ rs ≤ r ≤ rs + block_size d ∧ r ≤ filesize d ∧ rs `mod` block_size d = 0;
  ring_write : 0 ≤ write_buf_start_addr d ≤ w ∧ w ≤ write_buf_start_addr d + block_size d ∧ w ≤ filesize d ∧
    write_buf_start_addr d < filesize d ∧ write_buf_start_addr d `mod` block_size d = 0;
  ring_length : Z.of_nat (length q) < filesize d ∧
    (r + Z.of_nat (length q) = w ∨ r + Z.of_nat (length q) = w + filesize d);
  ring_one : read_buf d = write_buf d ↔ rs = write_buf_start_addr d ∧ r ≤ w;
  ring_bytes i x : q !! i = Some x → byte_of d c rs r w (place (filesize d) r (Z.of_nat i)) = Some x
}.

(** The bytes [q] are in the ring, between two calls. *)
Definition dam_bytes d (q : list Z) : Prop :=
  let rs := read_pos d - read_pos d `mod` block_size d in
  ∃ c, ring d c rs (read_pos d) (write_pos d) q ∧
    read_pos d < filesize d ∧ write_pos d < filesize d ∧
    write_pos d < write_buf_start_addr d + block_size d.

Lemma place_cases fs r i : r ≤ fs → 0 ≤ i < fs → 0 ≤ r →
  0 ≤ place fs r i < fs ∧ (place fs r i = r + i ∨ place fs r i = r + i - fs).
Proof. unfold place. intros. ring_cases. Qed.

(** What the copying of bytes does not change. *)
Definition kept d d' : Prop :=
  n_msgs d' = n_msgs d ∧ filesize d' = filesize d ∧ block_size d' = block_size d.

Lemma buf_of_set d b b' l : buf_of (set_buf b l d) b' = if decide (b = b') then l else buf_of d b'.
Proof. by destruct b, b'. Qed.

Lemma set_buf_same d b l :
  fd (set_buf b l d) = fd d ∧ kept d (set_buf b l d) ∧ file_pos (set_buf b l d) = file_pos d ∧
  read_pos (set_buf b l d) = read_pos d ∧ write_pos (set_buf b l d) = write_pos d ∧
  read_buf (set_buf b l d) = read_buf d ∧ write_buf (set_buf b l d) = write_buf d ∧
  write_buf_start_addr (set_buf b l d) = write_buf_start_addr d.
Proof. by destruct b. Qed.

(** ** The file *)

Lemma seek_to_ok d c pos : f_view (fd d) c (file_pos d) → 0 ≤ pos →
  wp (seek_to pos) no_fault (λ _ d', ∃ f, d' = d <| fd := f |> <| file_pos := pos |> ∧ f_view f c pos) d.
Proof.
  intros Hv Hp. unfold seek_to. wp_steps. apply wp_when.
  - intros _. wp_steps. apply wp_lift. destruct (f_seek_law _ _ _ _ Hv Hp) as (f & Hr & Hv').
    eapply runs_wp; [exact Hr|]. apply wp_bind, wp_assert; [apply Z.eqb_refl|]. apply wp_modify. by exists f.
  - intros E%negb_false_iff%Z.eqb_eq. exists (fd d). split; [by destruct d; simpl in *; subst|by subst].
Qed.

Lemma written_app c off a b p :
  written c off (a ++ b) p = written (written c off a) (off + Z.of_nat (length a)) b p.
Proof.
  unfold written. rewrite length_app. ring_cases; rewrite ?lookup_app_l, ?lookup_app_r by lia; try done.
  f_equal. lia.
Qed.

Lemma save_loop_ok fuel : ∀ d c off bs, f_view (fd d) c off → (length bs ≤ fuel)%nat →
  wp (save_loop fuel bs) no_fault (λ _ d', ∃ f c', d' = d <| fd := f |> ∧
    f_view f c' (off + Z.of_nat (length bs)) ∧ ∀ p, c' p = written c off bs p) d.
Proof.
  induction fuel as [|fuel IH]; intros d c off bs Hv Hl; simpl; case_bool_decide as Hb.
  - destruct bs; [done|simpl in Hl; lia].
  - subst bs. apply wp_ret. exists (fd d), c. split; [by destruct d|].
    rewrite Z.add_0_r. split; [done|]. intros p. unfold written. simpl. by ring_cases.
  - wp_steps. apply wp_lift. destruct (f_write_law _ _ _ _ Hv Hb) as (k & f & Hk & Hr & Hv').
    eapply runs_wp; [exact Hr|]. apply wp_bind, wp_assert; [by apply Z.ltb_lt; lia|]. rewrite Nat2Z.id.
    eapply wp_mono; [eapply (IH _ _ (off + Z.of_nat k)); [exact Hv'|rewrite length_drop; lia]|].
    intros _ d' (f2 & c2 & -> & Hv2 & Hc2). exists f2, c2. split; [done|]. rewrite length_drop in Hv2.
    split; [by replace (off + Z.of_nat (length bs)) with (off + Z.of_nat k + Z.of_nat (length bs - k)) by lia|].
    intros p. rewrite Hc2. trans (written c off (take k bs ++ drop k bs) p); [|by rewrite take_drop].
    rewrite written_app, length_take, Nat.min_l by lia. done.
  - subst bs. apply wp_ret. exists (fd d), c. split; [by destruct d|].
    rewrite Z.add_0_r. split; [done|]. intros p. unfold written. simpl. by ring_cases.
Qed.

Lemma fill_loop_ok fuel : ∀ d c off bs i, f_view (fd d) c off → (length bs ≤ fuel)%nat →
  (i + length bs ≤ length (buf_of d (read_buf d)))%nat →
  (∀ j b, bs !! j = Some b → c (off + Z.of_nat j) = Some b) →
  wp (fill_loop fuel i (i + length bs)) no_fault (λ _ d', ∃ f l, d' = set_buf (read_buf d) l (d <| fd := f |>) ∧
    f_view f c (off + Z.of_nat (length bs)) ∧ length l = length (buf_of d (read_buf d)) ∧
    ∀ j, l !! j = if decide (i ≤ j < i + length bs)%nat then bs !! (j - i)%nat else buf_of d (read_buf d) !! j) d.
Proof.
  assert (∀ d c off (bs : list Z) i, bs = [] → f_view (fd d) c off → wp (mret tt) no_fault (λ _ d', ∃ f l,
    d' = set_buf (read_buf d) l (d <| fd := f |>) ∧ f_view f c (off + Z.of_nat (length bs)) ∧
    length l = length (buf_of d (read_buf d)) ∧
    ∀ j, l !! j = if decide (i ≤ j < i + length bs)%nat then bs !! (j - i)%nat else buf_of d (read_buf d) !! j) d) as Hnil.
  { intros d c off bs i -> Hv. apply wp_ret. exists (fd d), (buf_of d (read_buf d)).
    rewrite Z.add_0_r. split_and!; [by destruct d as [????????? []]|done..|]. intros j. by rewrite decide_False by (simpl; lia). }
  induction fuel as [|fuel IH]; intros d c off bs i Hv Hl Hb Hc; simpl; case_bool_decide as Hn; try lia.
  - apply Hnil; [|done]. by apply nil_length_inv; lia.
  - wp_steps. apply wp_lift. replace (i + length bs - i)%nat with (length bs) by lia.
    assert (bs ≠ []) as Hne by (intros ->; simpl in Hn; lia).
    destruct (f_read_law _ _ _ _ Hv Hne Hc) as (k & f & Hk & Hr & Hv').
    eapply runs_wp; [exact Hr|]. rewrite length_take, Nat.min_l by lia.
    apply wp_bind, wp_assert; [by apply bool_decide_eq_true; lia|]. wp_steps.
    destruct (overwrite_fits i (take k bs) (buf_of (d <| fd := f |>) (read_buf d))) as [l El];
      [rewrite length_take; simpl; destruct d as [????????? []]; simpl in *; lia|].
    eapply wp_of_option; [exact El|]. wp_steps.
    apply overwrite_lookup in El as [Ell Elj]. rewrite length_take, Nat.min_l in Elj by lia.
    replace (i + length bs)%nat with (i + k + length (drop k bs))%nat by (rewrite length_drop; lia).
    eapply wp_mono; [apply (IH _ c (off + Z.of_nat k))|].
    + simpl. by destruct (read_buf d).
    + rewrite length_drop. lia.
    + rewrite length_drop. simpl in *. destruct (read_buf d); simpl in *; lia.
    + intros j b Hj. rewrite lookup_drop in Hj. apply Hc in Hj. rewrite <- Hj. f_equal. lia.
    + intros _ d' (f2 & l2 & -> & Hv2 & Hl2 & Hj2). exists f2, l2. rewrite length_drop in Hv2, Hj2.
      replace (off + Z.of_nat (length bs)) with (off + Z.of_nat k + Z.of_nat (length bs - k)) by lia.
      rewrite length_drop. simpl in *. split_and!; [by destruct (read_buf d)|done|destruct (read_buf d); simpl in *; congruence|].
      intros j. rewrite Hj2, lookup_drop.
      assert (buf_of (set_buf (read_buf d) l (d <| fd := f |>)) (read_buf d) = l) as E by by destruct (read_buf d).
      destruct (decide (i + k ≤ j < i + k + (length bs - k))%nat).
      * rewrite decide_True by lia. f_equal. lia.
      * replace (buf_of _ _ !! j) with (l !! j) by (by destruct (read_buf d)). rewrite Elj.
        destruct (decide (i ≤ j < i + k)%nat).
        -- rewrite decide_True by lia. apply lookup_take_lt. lia.
        -- rewrite decide_False by lia. by destruct (read_buf d).
  - apply Hnil; [|done]. by apply nil_length_inv; lia.
Qed.

(** ** The ring moves *)

Lemma ring_put d c rs r w q bs l : ring d c rs r w q →
  w + Z.of_nat (length bs) ≤ filesize d →
  w - write_buf_start_addr d + Z.of_nat (length bs) ≤ block_size d →
  Z.of_nat (length q + length bs) < filesize d →
  overwrite (Z.to_nat (w - write_buf_start_addr d)) bs (buf_of d (write_buf d)) = Some l →
  ring (set_buf (write_buf d) l d) c rs r (w + Z.of_nat (length bs)) (q ++ bs).
Proof.
  intros [] Hw Hb Hn [Hll Hl]%overwrite_lookup.
  destruct (set_buf_same d (write_buf d) l) as (Ef & (_ & Es & Eb) & Ep & _ & _ & Erb & Ewb & Ews).
  constructor; rewrite ?Ef, ?Es, ?Eb, ?Ep, ?Erb, ?Ewb, ?Ews, ?length_app; try done; try lia.
  - intros b. rewrite buf_of_set. case_decide; [subst b; rewrite Hll|]; apply ring_buf0.
  - rewrite ring_one0. lia.
  - intros i x Hi. unfold byte_of, place in *. rewrite ?Es, ?Eb, ?Erb, ?Ewb, ?Ews.
    rewrite !buf_of_set, decide_True by done.
    destruct (decide (i < length q)%nat) as [Hiq|Hiq].
    + rewrite lookup_app_l in Hi by lia. apply ring_bytes0 in Hi.
      ring_cases; rewrite ?Hl, ?decide_False by lia; try done; case_decide; try done;
        (destruct ring_one0 as [Ho _]; destruct Ho; [congruence|lia]).
    + rewrite lookup_app_r in Hi by lia. pose proof (lookup_lt_Some _ _ _ Hi).
      ring_cases; rewrite Hl, decide_True by lia; rewrite <- Hi; f_equal; lia.
Qed.

Lemma ring_get d c rs r w q n : ring d c rs r w q → (n ≤ length q)%nat →
  r + Z.of_nat n ≤ filesize d → r - rs + Z.of_nat n ≤ block_size d →
  take n (drop (Z.to_nat (r - rs)) (buf_of d (read_buf d))) = take n q ∧
  ring d c rs (r + Z.of_nat n) w (drop n q).
Proof.
  intros [] Hn Hr Hb. split.
  - apply list_eq. intros j. destruct (decide (j < n)%nat); [|by rewrite !lookup_take_ge by lia].
    rewrite !lookup_take_lt, lookup_drop by lia.
    destruct (lookup_lt_is_Some_2 q j) as [x Hx]; [lia|]. rewrite Hx. apply ring_bytes0 in Hx.
    unfold byte_of, place in Hx. ring_cases; try (rewrite <- Hx; f_equal; lia).
    destruct (blocks_apart (block_size d) rs (write_buf_start_addr d)) as [E|]; [lia..| |lia].
    destruct ring_one0 as [_ ->]; [|lia]. rewrite <- Hx. f_equal. lia.
  - constructor; rewrite ?length_drop; try done; try lia.
    + rewrite ring_one0. lia.
    + intros i x Hi. rewrite lookup_drop in Hi. pose proof (lookup_lt_Some _ _ _ Hi). apply ring_bytes0 in Hi.
      assert (place (filesize d) (r + Z.of_nat n) (Z.of_nat i) = place (filesize d) r (Z.of_nat (n + i))) as Ep by (unfold place; ring_cases).
      assert (place (filesize d) r (Z.of_nat (n + i)) < r ∨ r + Z.of_nat n ≤ place (filesize d) r (Z.of_nat (n + i))) by (unfold place; ring_cases).
      rewrite Ep, <- Hi. unfold byte_of. by ring_cases.
Qed.

(** The reader's buffer has been filled with the block at [read_pos]. *)
Lemma ring_filled d c rs r w q f l :
  let n := block_size d `min` (filesize d - read_pos d) in
  let d' := set_buf (read_buf d) l (d <| fd := f |> <| file_pos := read_pos d + n |>) in
  ring d c rs r w q → r = rs + block_size d ∨ r = filesize d → f_view f c (read_pos d + n) → read_buf d ≠ write_buf d →
  Z.of_nat (length l) = block_size d →
  (∀ j, l !! j = if decide (0 ≤ j < Z.to_nat n)%nat then take (Z.to_nat n) q !! j else buf_of d (read_buf d) !! j) →
  0 ≤ read_pos d < filesize d → read_pos d `mod` block_size d = 0 →
  (read_pos d + Z.of_nat (length q) = w ∨ read_pos d + Z.of_nat (length q) = w + filesize d) →
  (∀ i x, q !! i = Some x → place (filesize d) r (Z.of_nat i) = place (filesize d) (read_pos d) (Z.of_nat i)) →
  (read_pos d = write_buf_start_addr d → False) →
  ring d' c (read_pos d) (read_pos d) w q.
Proof.
  intros n d' [] Hend Hf Hrw Hll Hl Hr Hrb Hlen Hplace Hne. subst d'.
  destruct (set_buf_same (d <| fd := f |> <| file_pos := read_pos d + n |>) (read_buf d) l)
    as (Ef & (_ & Es & Eb) & Ep & _ & _ & Erb & Ewb & Ews).
  simpl in Ef, Es, Eb, Ep, Erb, Ewb, Ews.
  constructor; simpl; rewrite ?Ef, ?Es, ?Eb, ?Ep, ?Erb, ?Ewb, ?Ews; simpl; try done; try lia.
  - intros b. rewrite buf_of_set. case_decide; [done|]. destruct b; [apply (ring_buf0 Buf1)|apply (ring_buf0 Buf2)].
  - split; [done|]. by intros [? _].
  - intros i x Hi. apply lookup_lt_Some in Hi as Hil. rewrite <- (Hplace i x Hi).
    apply ring_bytes0 in Hi as Hb. revert Hb. rewrite (Hplace i x Hi).
    destruct (place_cases (filesize d) (read_pos d) (Z.of_nat i)) as [Hp1 Hp2]; [lia..|].
    set (p := place _ _ _) in *. unfold byte_of. rewrite ?Es, ?Eb, ?Erb, ?Ewb, ?Ews, !buf_of_set.
    rewrite (decide_False (P := read_buf d = write_buf d)), (decide_True (P := read_buf d = read_buf d)) by done.
    simpl. destruct (decide (read_pos d ≤ p < read_pos d + block_size d)) as [Hin|Hout].
    + intros _. assert (p = read_pos d + Z.of_nat i) as Epi by lia.
      assert ((write_buf_start_addr d <=? p) && (p <? w) = false) as ->.
      { destruct (blocks_apart (block_size d) (read_pos d) (write_buf_start_addr d)) as [|Hap]; [lia..|]. by ring_cases. }
      assert ((read_pos d <=? p) && (p <? read_pos d + block_size d) = true) as -> by ring_cases.
      rewrite Hl, decide_True by lia. rewrite lookup_take_lt by lia. rewrite <- Hi. f_equal. lia.
    + ring_cases; done.
Qed.

(** The reader moves to its next block. *)
Lemma ring_turn d c rs r w q : ring d c rs r w q → read_pos d = r `mod` filesize d →
  r = rs + block_size d ∨ r = filesize d → write_pos d = w → w < filesize d →
  w < write_buf_start_addr d + block_size d →
  wp (if read_pos d `div` block_size d =? write_pos d `div` block_size d
      then st_modify (λ d, d <| read_buf := write_buf d |>) else fill_read_buf) no_fault
    (λ _ d', kept d d' ∧ read_pos d' = read_pos d ∧ write_pos d' = write_pos d ∧
      write_buf_start_addr d' = write_buf_start_addr d ∧ ring d' c (read_pos d) (read_pos d) w q) d.
Proof.
  intros R Hr Hend Hw Hwf Hwb. pose proof R as [].
  assert (read_pos d = if r =? filesize d then 0 else r) as Hr'.
  { rewrite Hr. destruct (Z.eqb_spec r (filesize d)) as [->|]; [apply Z_mod_same_full|apply Z.mod_small; lia]. }
  assert (read_pos d `mod` block_size d = 0) as Hrb.
  { rewrite Hr'. destruct (Z.eqb_spec r (filesize d)); [by apply Zmod_0_l|].
    destruct Hend as [->|]; [|lia]. by rewrite <- Zplus_mod_idemp_r, Z_mod_same_full, Z.add_0_r; apply ring_read0. }
  assert (0 ≤ read_pos d < filesize d) as Hrr by (destruct (Z.eqb_spec r (filesize d)); lia).
  assert (∀ i x, q !! i = Some x → place (filesize d) (read_pos d) (Z.of_nat i) = place (filesize d) r (Z.of_nat i)) as Hplace.
  { intros i x Hi%lookup_lt_Some. rewrite Hr'. unfold place. destruct (Z.eqb_spec r (filesize d)); ring_cases. }
  assert (read_pos d `div` block_size d = write_pos d `div` block_size d ↔ read_pos d = write_buf_start_addr d) as Hsame.
  { destruct (block_of (block_size d) (write_buf_start_addr d) w) as [_ Ew]; [lia..|]. rewrite Hw, Ew. split.
    - intros E. rewrite (Z.div_mod (read_pos d) (block_size d)), (Z.div_mod (write_buf_start_addr d) (block_size d)) by lia.
      rewrite E, Hrb. lia.
    - by intros ->. }
  assert (read_pos d + Z.of_nat (length q) = w ∨ read_pos d + Z.of_nat (length q) = w + filesize d) as Hlen.
  { rewrite Hr'. destruct (Z.eqb_spec r (filesize d)); lia. }
  destruct (Z.eqb_spec (read_pos d `div` block_size d) (write_pos d `div` block_size d)) as [Hb%Hsame|Hb].
  - apply wp_modify. split; [done|]. split_and!; [done..|]. constructor; simpl; try done; try lia.
    + split; [intros _; lia|done].
    + intros i x Hi. pose proof (lookup_lt_Some _ _ _ Hi). apply ring_bytes0 in Hi as Hb'. revert Hb'.
      rewrite <- (Hplace i x Hi). destruct (place_cases (filesize d) (read_pos d) (Z.of_nat i)); [lia..|].
      simpl. unfold byte_of; simpl. by ring_cases.
  - assert (read_pos d ≠ write_buf_start_addr d) as Hne by tauto. clear Hb Hsame.
    destruct (blocks_apart (block_size d) (read_pos d) (write_buf_start_addr d)) as [|Hap]; [lia..|].
    assert (read_buf d ≠ write_buf d) as Hrw by (intros [? ?]%ring_one0; lia).
    unfold fill_read_buf. wp_steps. eapply wp_mono; [apply (seek_to_ok d c); [done|lia]|].
    intros _ d1 (f & -> & Hf). wp_steps.
    set (n := block_size d `min` (filesize d - read_pos d)).
    assert (n ≤ Z.of_nat (length q)) as Hn by lia.
    assert (length (take (Z.to_nat n) q) = Z.to_nat n) as Hln by (rewrite length_take; lia).
    pose proof (ring_buf0 (read_buf d)) as Hrbuf.
    pose proof (fill_loop_ok (Z.to_nat n) (d <| fd := f |> <| file_pos := read_pos d |>) c (read_pos d)
      (take (Z.to_nat n) q) 0) as Hfill. rewrite Hln in Hfill.
    eapply wp_mono; [apply Hfill; [done|lia|destruct d as [????????? []]; simpl in *; lia|]|].
    + intros j x Hj. assert (q !! j = Some x) as Hq.
      { apply lookup_lt_Some in Hj as Hjl. rewrite <- Hj. symmetry. apply lookup_take_lt. lia. }
      apply lookup_lt_Some in Hj. apply ring_bytes0 in Hq as Hb. revert Hb. rewrite <- (Hplace j x Hq).
      unfold byte_of, place. ring_cases; done.
    + intros _ d2 (f2 & l & -> & Hf2 & Hl & Hj). wp_steps.
      match goal with |- kept _ ?d' ∧ _ => assert (d' =
        set_buf (read_buf d) l (d <| fd := f2 |> <| file_pos := read_pos d + n |>)) as -> by (simpl; by destruct (read_buf d)) end.
      destruct (set_buf_same (d <| fd := f2 |> <| file_pos := read_pos d + n |>) (read_buf d) l)
        as (_ & Hk & _ & -> & -> & _ & _ & ->).
      split; [exact Hk|]. split_and!; [done..|]. apply (ring_filled d c rs r w q f2 l); try done.
      * by rewrite Z2Nat.id in Hf2 by lia.
      * rewrite Hl. apply ring_buf0.
      * intros j. rewrite Hj. simpl. by rewrite Nat.sub_0_r.
      * intros i x Hi. symmetry. by eapply Hplace.
Qed.

(** The writer moves to its next block. *)
Lemma ring_save d c rs r w q : ring d c rs r w q → q ≠ [] → write_pos d = w `mod` filesize d →
  w = write_buf_start_addr d + block_size d ∨ w = filesize d →
  read_pos d = r → r < filesize d → r < rs + block_size d →
  wp (save_write_buf ;;
      st_modify (λ d, d <| write_buf_start_addr := write_pos d |>) ;;
      d ← st_get;
      st_when (bool_decide (write_buf d = read_buf d))
        (st_modify (λ d, d <| write_buf := if bool_decide (read_buf d = Buf2) then Buf1 else Buf2 |>))) no_fault
    (λ _ d', kept d d' ∧ read_pos d' = r ∧ write_pos d' = write_pos d ∧ write_buf_start_addr d' = write_pos d ∧
      ∃ c', ring d' c' rs r (write_pos d) q) d.
Proof.
  intros R Hq Hw Hend Hr Hrf Hrb. pose proof R as [].
  assert (0 < Z.of_nat (length q)) as Hq0 by (destruct q; [done|simpl; lia]).
  assert (write_pos d = if w =? filesize d then 0 else w) as Hw'.
  { rewrite Hw. destruct (Z.eqb_spec w (filesize d)) as [->|]; [apply Z_mod_same_full|apply Z.mod_small; lia]. }
  assert (write_pos d `mod` block_size d = 0) as Hwb.
  { rewrite Hw'. destruct (Z.eqb_spec w (filesize d)); [by apply Zmod_0_l|].
    destruct Hend as [->|]; [|lia]. by rewrite <- Zplus_mod_idemp_r, Z_mod_same_full, Z.add_0_r; apply ring_write0. }
  set (n := block_size d `min` (filesize d - write_buf_start_addr d)).
  assert (n = w - write_buf_start_addr d) as En by lia.
  pose proof (ring_buf0 (write_buf d)) as Hbuf.
  unfold save_write_buf. wp_steps. eapply wp_mono; [apply (seek_to_ok d c); [done|lia]|].
  intros _ d1 (f & -> & Hf). wp_steps. simpl. fold n. apply wp_guard; [lia|]. intros _. wp_steps.
  eapply wp_mono; [apply (save_loop_ok _ _ c (write_buf_start_addr d)); [done|rewrite length_take; lia]|].
  intros _ d2 (f2 & c' & -> & Hf2 & Hc'). wp_steps. simpl in *.
  rewrite length_take, Nat.min_l in Hf2 by lia. rewrite Z2Nat.id in Hf2 by lia.
  set (d3 := DataDam f2 _ _ _ _ _ _ _ _ _ _ _).
  assert (∀ b, b ≠ read_buf d → ring (d3 <| write_buf := b |>) c' rs r (write_pos d) q) as Hring.
  { intros b Hb. subst d3.
    assert (∀ y, buf_of (DataDam f2 (filesize d) (write_buf_start_addr d + n) (write_pos d) (read_pos d) (n_msgs d)
      (block_size d) (buf1 d) (buf2 d) (read_buf d) b (write_pos d)) y = buf_of d y) as Ebuf by by intros [].
    assert (0 ≤ write_pos d < filesize d ∧ (r + Z.of_nat (length q) = write_pos d ∨
      r + Z.of_nat (length q) = write_pos d + filesize d) ∧ ¬ (rs = write_pos d ∧ r ≤ write_pos d)) as (Hwr & Hlen & Hno).
    { rewrite Hw'. destruct (Z.eqb_spec w (filesize d)); lia. }
    constructor; simpl; try done; try lia.
    - intros i x Hi. apply lookup_lt_Some in Hi as Hil. apply ring_bytes0 in Hi as Hx. revert Hx.
      destruct (place_cases (filesize d) r (Z.of_nat i)) as [Hp1 Hp2]; [lia..|].
      set (p := place _ _ _) in *. unfold byte_of. simpl. rewrite !Ebuf, Hc'. unfold written.
      rewrite length_take, Nat.min_l, Z2Nat.id by lia. clear Hlen Hno Hwr.
      destruct (decide (write_buf_start_addr d ≤ p < w)) as [Hin|Hout]; [|ring_cases; done].
      destruct (decide (r ≤ p < rs + block_size d)) as [Hin2|Hout2].
      + destruct (blocks_apart (block_size d) rs (write_buf_start_addr d)) as [Ers|]; [lia..| |lia].
        rewrite (proj2 ring_one0), Ers by lia. by ring_cases.
      + ring_cases; rewrite ?lookup_take_lt by lia; done. }
  apply wp_when.
  - intros E%bool_decide_eq_true. wp_steps. subst d3. simpl. split_and!; [done..|].
    exists c'. apply (Hring (if bool_decide (read_buf d = Buf2) then Buf1 else Buf2)).
    case_bool_decide; congruence.
  - intros E%bool_decide_eq_false. split_and!; [done..|]. exists c'. apply (Hring (write_buf d)). congruence.
Qed.

(** ** Copying bytes in and out *)

#[export] Instance kept_preorder : PreOrder kept.
Proof. split; [by intros ?|]. intros a b c (? & ? & ?) (? & ? & ?). unfold kept. split_and!; congruence. Qed.

Lemma dam_bytes_places d q : dam_bytes d q → ∃ c rs, ring d c rs (read_pos d) (write_pos d) q ∧
  0 < filesize d ∧ 0 < block_size d ∧ 0 ≤ read_pos d < filesize d ∧ 0 ≤ write_pos d < filesize d ∧
  read_pos d `mod` block_size d = read_pos d - rs ∧ read_pos d < rs + block_size d ∧
  write_pos d `mod` block_size d = write_pos d - write_buf_start_addr d ∧
  write_pos d < write_buf_start_addr d + block_size d.
Proof.
  intros (c & R & Hr & Hw & Hb). exists c, (read_pos d - read_pos d `mod` block_size d).
  split; [exact R|]. destruct R. pose proof (Z.mod_pos_bound (read_pos d) (block_size d)).
  split_and!; try lia. apply (block_of (block_size d) (write_buf_start_addr d)); lia.
Qed.

(** A ring whose ends are inside the file and inside their blocks. *)
Lemma ring_dam_bytes d c rs r w q : ring d c rs r w q → r = read_pos d → w = write_pos d →
  r < filesize d → w < filesize d → r < rs + block_size d → w < write_buf_start_addr d + block_size d →
  dam_bytes d q.
Proof.
  intros R -> -> Hr Hw Hrs Hws. exists c. split_and!; [|done..].
  replace (read_pos d - read_pos d `mod` block_size d) with rs; [done|].
  destruct R. destruct (block_of (block_size d) rs (read_pos d)); lia.
Qed.

Lemma mod_end B s p fs : 0 < B → 0 ≤ s → s `mod` B = 0 → s ≤ p ≤ s + B → s < p → p ≤ fs → 0 < fs →
  (p `mod` fs) `mod` B = 0 ↔ p = s + B ∨ p = fs.
Proof.
  intros HB Hs0 Hs Hp Hsp Hf Hfs. destruct (decide (p = fs)) as [->|Hne].
  { rewrite Z_mod_same_full, Zmod_0_l by lia. tauto. }
  rewrite (Z.mod_small p fs) by lia.
  assert (p `mod` B = 0 ↔ p = s + B); [|tauto].
  destruct (decide (p = s + B)) as [->|Hn]; [rewrite <- Zplus_mod_idemp_r, Z_mod_same_full, Z.add_0_r; tauto|].
  destruct (block_of B s p) as [-> _]; lia.
Qed.

Lemma write_block_ok d q bs : dam_bytes d q → bs ≠ [] →
  Z.of_nat (length bs) ≤ span d (write_pos d) (Z.of_nat (length bs)) →
  Z.of_nat (length q + length bs) < filesize d →
  wp (write_block bs) no_fault (λ _ d', dam_bytes d' (q ++ bs) ∧ kept d d') d.
Proof.
  intros Hd Hbs Hspan Hn. unfold span in Hspan.
  destruct (dam_bytes_places _ _ Hd) as (c & rs & R & Hf & HB & Hr & Hw & Hrm & Hrs & Hwm & Hws).
  pose proof R as []. unfold write_block. wp_steps. rewrite Hwm in *.
  pose proof (ring_buf0 (write_buf d)). assert (0 < length bs)%nat by (destruct bs; [done|simpl; lia]).
  destruct (overwrite_fits (Z.to_nat (write_pos d - write_buf_start_addr d)) bs (buf_of d (write_buf d))) as [l El]; [lia|].
  eapply wp_of_option; [exact El|]. wp_steps.
  pose proof (ring_put _ _ _ _ _ _ bs l R ltac:(lia) ltac:(lia) Hn El) as R1.
  destruct (set_buf_same d (write_buf d) l) as (Ef & Hk & Ep & Er & Ew & Erb & Ewb & Ews).
  set (d1 := set_buf (write_buf d) l d) in *. clearbody d1. pose proof Hk as (_ & Es & Eb).
  rewrite <- Es, <- Eb, <- Er, <- Ew, <- Ews in *.
  pose proof (mod_end (block_size d1) (write_buf_start_addr d1) (write_pos d1 + Z.of_nat (length bs)) (filesize d1)) as Hend.
  set (w := write_pos d1 + Z.of_nat (length bs)) in *.
  set (d2 := d1 <| write_pos := w `mod` filesize d1 |>).
  assert (ring d2 c rs (read_pos d2) w (q ++ bs)) as R2 by (destruct R1; constructor; done).
  assert (kept d d2) as Hk2 by (trans d1; done).
  assert (q ++ bs ≠ []) as Hne by (destruct q; [by destruct bs|done]).
  apply wp_when.
  - intros Hb%Z.eqb_eq%Hend; [|lia..]. eapply wp_mono; [apply (ring_save d2 c rs _ w (q ++ bs) R2); simpl; done || lia|].
    intros _ d' (Hk' & Hr' & Hw' & Hs' & c' & R'). pose proof Hk' as (_ & Es' & Eb').
    split; [|by trans d2].
    pose proof (Z.mod_pos_bound w (filesize d1)). change (write_pos d2) with (w `mod` filesize d1) in *.
    change (filesize d2) with (filesize d1) in *. change (block_size d2) with (block_size d1) in *.
    change (read_pos d2) with (read_pos d1) in *.
    apply (ring_dam_bytes d' c' rs (read_pos d1) (w `mod` filesize d1)); try done; rewrite ?Es', ?Eb', ?Hs'; lia.
  - intros Hb%Z.eqb_neq. split; [|done].
    assert (¬ (w = write_buf_start_addr d1 + block_size d1 ∨ w = filesize d1)) as Hb' by (rewrite <- Hend by lia; exact Hb).
    assert (w `mod` filesize d1 = w) as Ewm by (apply Z.mod_small; lia).
    apply (ring_dam_bytes d2 c rs (read_pos d1) w); try done; simpl; lia.
Qed.

Lemma copy_to_loop_ok fuel : ∀ d q data, dam_bytes d q → (length data ≤ fuel)%nat →
  Z.of_nat (length q + length data) < filesize d →
  wp (copy_to_loop fuel data) no_fault (λ _ d', dam_bytes d' (q ++ data) ∧ kept d d') d.
Proof.
  induction fuel as [|fuel IH]; intros d q data Hd Hl Hn; simpl; case_bool_decide as Hb.
  - destruct data; [done|simpl in Hl; lia].
  - subst data. apply wp_ret. by rewrite app_nil_r.
  - wp_steps. destruct (dam_bytes_places _ _ Hd) as (c & rs & R & Hf & HB & Hr & Hw & Hrm & Hrs & Hwm & Hws).
    pose proof R as []. set (n := span d (write_pos d) (Z.of_nat (length data))).
    assert (0 < length data)%nat by (destruct data; [done|simpl; lia]).
    assert (0 < n ≤ Z.of_nat (length data)) as Hnn by (unfold n, span; lia).
    assert (length (take (Z.to_nat n) data) = Z.to_nat n) as Hln by (rewrite length_take; lia).
    eapply wp_mono; [apply (write_block_ok d q); [done| | |rewrite Hln; lia]|].
    + intros E. rewrite E in Hln. simpl in Hln. lia.
    + rewrite Hln. unfold n, span. lia.
    + intros _ d1 [Hd1 Hk]. pose proof Hk as (_ & Es & _).
      eapply wp_mono; [apply (IH d1); [done|rewrite length_drop; lia|]|].
      * rewrite Es, length_app, length_take, length_drop. lia.
      * intros _ d2 [Hd2 Hk2]. rewrite <- app_assoc, take_drop in Hd2. split; [done|by trans d1].
  - subst data. apply wp_ret. by rewrite app_nil_r.
Qed.

Lemma copy_to_ok d q data : dam_bytes d q → Z.of_nat (length q + length data) < filesize d →
  wp (copy_to_file data) no_fault (λ _ d', dam_bytes d' (q ++ data) ∧ kept d d') d.
Proof. intros. by apply copy_to_loop_ok. Qed.

Lemma read_block_ok d q n : dam_bytes d q → (0 < n ≤ length q)%nat →
  Z.of_nat n ≤ span d (read_pos d) (Z.of_nat n) →
  wp (read_block n) no_fault (λ bs d', bs = take n q ∧ dam_bytes d' (drop n q) ∧ kept d d') d.
Proof.
  intros Hd Hn Hspan. unfold span in Hspan.
  destruct (dam_bytes_places _ _ Hd) as (c & rs & R & Hf & HB & Hr & Hw & Hrm & Hrs & Hwm & Hws).
  pose proof R as []. unfold read_block. wp_steps. rewrite Hrm in *. pose proof (ring_buf0 (read_buf d)).
  apply wp_guard; [lia|]. intros _. wp_steps.
  destruct (ring_get _ _ _ _ _ _ n R) as [Hbs R1]; [lia..|]. rewrite Hbs.
  pose proof (mod_end (block_size d) rs (read_pos d + Z.of_nat n) (filesize d)) as Hend.
  set (r := read_pos d + Z.of_nat n) in *. set (d2 := d <| read_pos := r `mod` filesize d |>).
  assert (ring d2 c rs r (write_pos d2) (drop n q)) as R2 by (destruct R1; constructor; done).
  apply wp_when.
  - intros Hb%Z.eqb_eq%Hend; [|lia..].
    eapply wp_mono; [apply (ring_turn d2 c rs r (write_pos d2) (drop n q) R2); simpl; done || lia|].
    intros _ d' (Hk & Hr' & Hw' & Hs' & R'). wp_steps. split; [done|]. split; [|done]. pose proof Hk as (_ & Es & Eb).
    pose proof (Z.mod_pos_bound r (filesize d)). simpl in *.
    apply (ring_dam_bytes d' c _ _ _ _ R'); rewrite ?Es, ?Eb, ?Hs', ?Hw', ?Hr'; simpl; try done; lia.
  - intros Hb%Z.eqb_neq. wp_steps. split; [done|]. split; [|done].
    assert (¬ (r = rs + block_size d ∨ r = filesize d)) as Hb' by (rewrite <- Hend by lia; exact Hb).
    assert (r `mod` filesize d = r) as Erm by (apply Z.mod_small; lia).
    apply (ring_dam_bytes d2 c _ _ _ _ R2); simpl; try done; lia.
Qed.

Lemma copy_from_loop_ok fuel : ∀ d q n, dam_bytes d q → (n ≤ fuel)%nat → (n ≤ length q)%nat →
  wp (copy_from_loop fuel n) no_fault (λ bs d', bs = take n q ∧ dam_bytes d' (drop n q) ∧ kept d d') d.
Proof.
  induction fuel as [|fuel IH]; intros d q n Hd Hl Hn; simpl; case_bool_decide as Hb; try lia.
  - subst n. by apply wp_ret.
  - wp_steps. destruct (dam_bytes_places _ _ Hd) as (c & rs & R & Hf & HB & Hr & Hw & Hrm & Hrs & Hwm & Hws).
    pose proof R as []. set (k := Z.to_nat (span d (read_pos d) (Z.of_nat n))).
    assert (0 < k ≤ n)%nat as Hk by (unfold k, span; lia).
    eapply wp_mono; [apply (read_block_ok d q k); [done|lia|unfold k, span; lia]|].
    intros bs d1 (-> & Hd1 & Hk1). wp_steps.
    eapply wp_mono; [apply (IH d1); [done|lia|rewrite length_drop; lia]|].
    intros bs d2 (-> & Hd2 & Hk2). wp_steps. rewrite drop_drop in Hd2. replace (k + (n - k))%nat with n in Hd2 by lia.
    split; [|split; [done|by trans d1]]. rewrite take_take_drop. f_equal. lia.
  - assert (n = 0%nat) as -> by lia. by apply wp_ret.
Qed.

Lemma copy_from_ok d q n : dam_bytes d q → (n ≤ length q)%nat →
  wp (copy_from_file n) no_fault (λ bs d', bs = take n q ∧ dam_bytes d' (drop n q) ∧ kept d d') d.
Proof. intros. by apply copy_from_loop_ok. Qed.

Lemma dam_init_bytes fs B : 0 < fs < 2 ^ 63 → 0 < B → dam_bytes (data_dam_init (F := F) fs B) [].
Proof.
  intros Hf HB. exists (λ _, None). simpl. split_and!; [|lia..]. rewrite Zmod_0_l.
  constructor; simpl; try done; try lia.
  - intros []; simpl; rewrite length_replicate; lia.
  - apply f_open_law.
  - split_and!; try lia. by apply Zmod_0_l.
  - split_and!; try lia. by apply Zmod_0_l.
Qed.

Lemma buffer_space_eq d q : dam_bytes d q → buffer_space d = filesize d - Z.of_nat (length q).
Proof.
  intros Hd. destruct (dam_bytes_places _ _ Hd) as (c & rs & [] & _). unfold buffer_space. ring_cases.
Qed.

(** ** Messages *)

Lemma length_native n v : 0 ≤ n → length (native n v) = Z.to_nat n.
Proof. intros. pose proof (length_Z_to_little_endian n 8 v). unfold native. lia. Qed.

Lemma of_native_native n v : 0 ≤ n → 0 ≤ v < 2 ^ (n * 8) → of_native (native n v) = v.
Proof. intros. unfold of_native, native. rewrite little_endian_to_Z_to_little_endian by lia. by apply Z.mod_small. Qed.

(** What a message leaves in the file. *)
Definition entry (b : Z * list Z) : list Z := native sizeof_size (Z.of_nat (length b.2)) ++ b.2.

Definition dam_view d (l : list (Z * list Z)) : Prop :=
  dam_bytes d (l ≫= entry) ∧ n_msgs d = Z.of_nat (length l) ∧ Forall (λ b, b.1 = 0 ∧ swappable b) l.

Lemma length_entry b : length (entry b) = (8 + length b.2)%nat.
Proof. unfold entry, sizeof_size. rewrite length_app, length_native; lia. Qed.

Lemma entries_many l : (length l ≤ length (l ≫= entry))%nat.
Proof. induction l as [|b l IH]; [done|]. rewrite bind_cons, length_app, length_entry. simpl. lia. Qed.

Lemma swappable_message h m ms b : heap_ok h (m :: ms) → body h m = Some b → b.2 ≠ [] →
  runs (raw_message_size m) h (Z.of_nat (length b.2)) h ∧ raw_message_bytes h m = Some b.2 ∧ b.1 = 0.
Proof.
  intros Hh Hb Hne. unfold body in Hb. destruct (raw_message_bytes h m) as [bs|] eqn:Ebs; [|done].
  simpl in Hb. injection Hb as <-. simpl in *. unfold runs, raw_message_size, raw_message_type, raw_message_bytes in *.
  destruct (content m) as [t|l] eqn:Ec.
  - destruct (decide (t = vsm_tag)) as [->|]; [|rewrite bool_decide_false in Ebs by done; by injection Ebs as <-].
    rewrite bool_decide_true in Ebs by done. rewrite bool_decide_true by done. destruct (Z.leb_spec (vsm_size m) (Z.of_nat (length (vsm_data m)))); [|done].
    injection Ebs as <-. split_and!; [|done..]. unfold mret, st_ret. do 2 f_equal. rewrite length_take.
    destruct (Z.to_nat (vsm_size m)) eqn:E; [by destruct (vsm_data m)|lia].
  - rewrite !bool_decide_false by done. simpl. unfold mbind, st_bind, mret, st_ret. simpl. 
    destruct (contents h !! l) as [c|]; [|done]. simpl in *.
    destruct (Z.leb_spec (size c) (Z.of_nat (length (bytes c)))); [|done].
    injection Ebs as <-. split_and!; [|done..]. do 2 f_equal. rewrite length_take.
    destruct (Z.to_nat (size c)) eqn:E; [by destruct (bytes c)|lia].
Qed.

Lemma dam_store_ok d l h m ms b : dam_view d l → heap_ok h (m :: ms) → body h m = Some b → swappable b →
  ∃ ok s', runs (dam_store m) (d, h) ok s' ∧ bodies_kept h s'.2 ∧
    if (ok : bool) then dam_view s'.1 (l ++ [b]) ∧ heap_ok s'.2 ms else dam_view s'.1 l ∧ heap_ok s'.2 (m :: ms).
Proof.
  intros (Hd & Hn & Hl) Hh Hb [Hne Hsz]. apply wp_no_fault.
  destruct (swappable_message _ _ _ _ Hh Hb Hne) as (Hrs & Hbs & Hb0).
  pose proof (entries_many l) as Hmany. destruct (dam_bytes_places _ _ Hd) as (c & rs & R & _). pose proof R as [].
  unfold dam_store. wp_steps. apply wp_lift. eapply runs_wp; [exact Hrs|]. wp_steps. simpl.
  assert (0 < length b.2)%nat by (destruct b.2; [done|simpl; lia]).
  assert (i64 (u64 (sizeof_size + Z.of_nat (length b.2))) = 8 + Z.of_nat (length b.2)) as ->.
  { unfold sizeof_size. rewrite (wrap_small 64) by (unfold in_u; lia). apply swrap_small; lia. }
  rewrite (buffer_space_eq _ _ Hd).
  destruct (Z.leb_spec (filesize d - Z.of_nat (length (l ≫= entry))) (8 + Z.of_nat (length b.2))).
  { apply wp_ret. split; [apply bodies_kept_refl|done]. }
  wp_steps. apply wp_lift. eapply wp_mono; [apply (copy_to_ok _ _ _ Hd)|].
  { rewrite length_native by done. unfold sizeof_size. lia. }
  intros _ d1 [Hd1 Hk1]. pose proof Hk1 as (En1 & Es1 & _). wp_steps. simpl.
  destruct (Z.ltb_spec 0 (Z.of_nat (length b.2))); [|lia]. wp_steps. simpl.
  eapply wp_of_option; [exact Hbs|]. wp_steps. apply wp_lift. eapply wp_mono; [apply (copy_to_ok _ _ _ Hd1)|].
  { rewrite length_app, length_native by done. unfold sizeof_size. lia. }
  intros _ d2 [Hd2 Hk2]. pose proof Hk2 as (En2 & _). apply wp_lift. simpl.
  destruct (destroy_ok _ _ _ Hh) as (h' & Hr & Hh' & _ & _ & Hk). eapply runs_wp; [exact Hr|].
  apply wp_bind, wp_lift, wp_modify, wp_ret. simpl. split; [done|]. split; [|done].
  rewrite <- app_assoc in Hd2. split; [|split].
  - rewrite bind_app. simpl. rewrite app_nil_r.
    destruct Hd2 as (c2 & R2 & Hrest). exists c2. split; [|exact Hrest]. by destruct R2.
  - simpl. rewrite En2, En1, Hn, length_app, wrap_small; [simpl; lia|unfold in_u; lia].
  - apply Forall_app. split; [done|]. by constructor.
Qed.

(** A message filled with a body, as its accessors see it. *)
Lemma filled_body h m q : holds h m q (length q) → q ≠ [] → body h m = Some (0, q).
Proof.
  intros Hq Hne. destruct (holds_body _ _ _ Hq) as [(E & _) _]. unfold body. rewrite E. simpl.
  unfold holds in Hq. unfold raw_message_type. destruct (content m); [by destruct Hq as [-> _]|done].
Qed.

(** [raw_message_init] and the copy of the body that follows. *)
Lemma build_ok h ms q : heap_ok h ms → Z.of_nat (S (length ms)) < 2 ^ 32 → swappable (0, q) →
  wp (msg ← raw_message_init no_message (Z.of_nat (length q)); raw_message_poke msg 0 q) only_assert
    (λ m h', heap_ok h' (m :: ms) ∧ body h' m = Some (0, q) ∧ ∀ m', m' ∈ ms → body h' m' = body h m') h.
Proof.
  intros Hh Hms [Hne Hsz]. simpl in *. wp_steps.
  eapply wp_mono; [apply init_holds; [exact Hh|lia|unfold sizeof_content; lia|done]|].
  intros m h1 (Hh1 & Hq & _ & Hb1).
  destruct (poke_ok _ _ _ _ _ q Hh1 Hq) as (m' & h' & Hr & Hh' & Hq' & _ & Hb'); [done|].
  eapply runs_wp; [exact Hr|]. split; [done|]. split; [by apply filled_body|].
  intros m2 Hm2. unfold body. by rewrite Hb', Hb1.
Qed.

Lemma dam_fetch_ok d b l h ms : dam_view d (b :: l) → heap_ok h ms → Z.of_nat (S (length ms)) < 2 ^ 32 →
  wp dam_fetch only_assert (λ m s', dam_view s'.1 l ∧ heap_ok s'.2 (m :: ms) ∧ body s'.2 m = Some b ∧
    ∀ m', m' ∈ ms → body s'.2 m' = body h m') (d, h).
Proof.
  intros (Hd & Hn & [[Hb0 Hb] Hl]%Forall_cons) Hh Hms. pose proof Hb as [Hne Hsz].
  destruct b as [t q]. simpl in Hb0. subst t. simpl in Hne, Hsz.
  pose proof (entries_many l) as Hmany. destruct (dam_bytes_places _ _ Hd) as (c & rs & [] & _).
  rewrite bind_cons in *. rewrite length_app, length_entry in ring_length0.
  unfold dam_fetch. wp_steps. apply wp_assert; [simpl; rewrite Hn; simpl; by apply Z.ltb_lt; lia|]. wp_steps.
  apply wp_lift. eapply wp_mono.
  { eapply wp_fault; [|apply (copy_from_ok _ _ (Z.to_nat sizeof_size) Hd)]; [by intros ? []|].
    rewrite length_app, length_entry. unfold sizeof_size. lia. }
  intros size d1 (-> & Hd1 & Hk1). change (entry (0, q)) with (native sizeof_size (Z.of_nat (length q)) ++ q) in *.
  rewrite <- app_assoc, drop_app_length' in Hd1 by (rewrite length_native; done).
  rewrite <- app_assoc, take_app_length', of_native_native by (rewrite ?length_native; unfold sizeof_size; lia).
  simpl in Hk1. simpl.
  assert (0 < length q)%nat by (destruct q; [done|simpl; lia]).
  destruct (Z.ltb_spec 0 (Z.of_nat (length q))); [|lia]. wp_steps. apply wp_lift.
  eapply wp_mono; [apply init_holds; [exact Hh|lia|unfold sizeof_content; lia|done]|].
  intros m h1 (Hh1 & Hq & _ & Hb1). wp_steps. apply wp_lift. simpl. rewrite Nat2Z.id.
  eapply wp_mono.
  { eapply wp_fault; [|apply (copy_from_ok _ _ (length q) Hd1)]; [by intros ? []|rewrite length_app; lia]. }
  intros data d2 (-> & Hd2 & Hk2). simpl. rewrite take_app_length. rewrite drop_app_length in Hd2. apply wp_lift. simpl.
  destruct (poke_ok _ _ _ _ _ q Hh1 Hq) as (m' & h' & Hr & Hh' & Hq' & _ & Hb'); [done|].
  eapply runs_wp; [exact Hr|]. wp_steps. apply wp_lift, wp_modify, wp_ret. simpl.
  pose proof Hk1 as (En1 & _). pose proof Hk2 as (En2 & _). split; [split; [|split]|].
  - destruct Hd2 as (c2 & R2 & Hrest). exists c2. split; [|exact Hrest]. by destruct R2.
  - simpl. rewrite En2, En1, Hn. simpl. rewrite wrap_small; unfold in_u; lia.
  - done.
  - split; [done|]. split; [by apply filled_body|]. intros m2 Hm2. unfold body. by rewrite Hb', Hb1.
Qed.

Lemma dam_empty_view d l : dam_view d l → dam_empty d = bool_decide (l = []).
Proof.
  intros (_ & Hn & _). unfold dam_empty. rewrite Hn. destruct l; [done|]. rewrite bool_decide_false by done.
  apply Z.eqb_neq. simpl. lia.
Qed.

(** The dam is the store a pipe asks for. *)
#[export] Instance dam_swap : Swap (data_dam_t F) := {
  sw_new size := data_dam_init size default_block_size;
  sw_store := dam_store;
  sw_fetch := dam_fetch;
  sw_empty := dam_empty
}.

#[export] Instance dam_swap_laws : SwapLaws (data_dam_t F).
Proof.
  refine {| sw_view := dam_view |}.
  - intros size Hs. split; [by apply dam_init_bytes|done].
  - intros s l h m ms b Hv Hh Hb Hsw. destruct (dam_store_ok _ _ _ _ _ _ Hv Hh Hb Hsw) as (ok & [s' h'] & Hr & Hk & Hok).
    by exists ok, s', h'.
  - intros s b l h ms Hv Hh Hms.
    destruct (wp_only_assert _ _ _ (dam_fetch_ok _ _ _ _ _ Hv Hh Hms)) as [?|(m & [s' h'] & Hr & ?)]; [by left|].
    right. by exists m, s', h'.
  - apply dam_empty_view.
Qed.

(** ** A client of the dam *)

Inductive dam_call := Store (b : list Z) | Fetch.

(** The bodies stored, and the messages fetched, in order. *)
Definition dam_client := (data_dam_t F * mheap * list (list Z) * list raw_message)%type.
Definition on_world {A} : ST (data_dam_t F * mheap) A → ST dam_client A :=
  st_lift (λ s, s.1.1) (λ w s, (w, s.1.2, s.2)).

(** A message is built and stored, and destroyed by its owner if refused; a
    message is fetched if there is one. *)
Definition dam_call_run (c : dam_call) : ST dam_client unit :=
  match c with
  | Store b =>
      m ← on_world (on_heap (m ← raw_message_init no_message (Z.of_nat (length b)); raw_message_poke m 0 b));
      ok ← on_world (dam_store m);
      (if (ok : bool) then st_modify (λ s, (s.1.1, s.1.2 ++ [b], s.2))
       else on_world (on_heap (raw_message_destroy m)))
  | Fetch =>
      s ← st_get;
      st_when (negb (dam_empty s.1.1.1))
        (m ← on_world dam_fetch; st_modify (λ s, (s.1.1, s.1.2, s.2 ++ [m])))
  end.

(** [taken] are the bodies of the messages fetched, [rest] those in the dam,
    and nothing else is on the heap. *)
Definition client_ok (s : dam_client) (taken rest : list (list Z)) : Prop :=
  s.1.2 = taken ++ rest ∧ dam_view s.1.1.1 (pair 0 <$> rest) ∧ heap_ok s.1.1.2 s.2 ∧
  body s.1.1.2 <$> s.2 = (λ b, Some (0, b)) <$> taken.

Lemma bodies_live h h' ms : bodies_kept h h' → heap_ok h' ms → body h' <$> ms = body h <$> ms.
Proof. intros Hk Hh. apply bodies_ext. intros m Hm. by eapply body_kept. Qed.

Definition storable (c : dam_call) : Prop := match c with Store b => swappable (0, b) | Fetch => True end.

Lemma dam_call_ok c s taken rest : client_ok s taken rest → storable c → Z.of_nat (2 + length s.2) < 2 ^ 32 →
  wp (dam_call_run c) only_assert (λ _ s', (∃ taken rest, client_ok s' taken rest) ∧
    (length s'.2 ≤ S (length s.2))%nat) s.
Proof.
  destruct s as [[[d h] st] got]. intros (Hst & Hd & Hh & Hb) Hc Hms. simpl in *. destruct c as [b|]; simpl.
  - wp_steps. apply wp_lift, wp_lift. eapply wp_mono; [apply (build_ok h got b Hh); [lia|done]|].
    intros m h1 (Hh1 & Hbm & Hb1). apply wp_bind, wp_lift. simpl.
    destruct (dam_store_ok d _ h1 m got _ Hd Hh1 Hbm Hc) as (ok & [d2 h2] & Hr & Hk & Hok).
    eapply runs_wp; [exact Hr|]. simpl in *. destruct ok.
    + apply wp_modify. simpl. split; [|lia]. exists taken, (rest ++ [b]). destruct Hok as [Hd2 Hh2]. split_and!; simpl.
      * by rewrite Hst, app_assoc.
      * by rewrite fmap_app.
      * done.
      * rewrite <- Hb, (bodies_live _ _ _ Hk Hh2). by apply bodies_ext.
    + apply wp_lift, wp_lift. simpl. destruct Hok as [Hd2 Hh2].
      destruct (destroy_ok _ _ _ Hh2) as (h3 & Hr3 & Hh3 & _ & _ & Hk3). eapply runs_wp; [exact Hr3|]. simpl.
      split; [|lia]. exists taken, rest. split_and!; simpl; try done.
      rewrite <- Hb, (bodies_live _ _ _ (bodies_kept_trans _ _ _ Hk Hk3) Hh3). by apply bodies_ext.
  - wp_steps. simpl. rewrite (dam_empty_view _ _ Hd). apply wp_when.
    + intros He%negb_true_iff%bool_decide_eq_false. destruct rest as [|b rest]; [done|]. wp_steps. apply wp_lift. simpl.
      eapply wp_mono; [apply (dam_fetch_ok d _ _ h got Hd Hh); lia|].
      intros m [d2 h2] (Hd2 & Hh2 & Hbm & Hb2). simpl in *. apply wp_modify. simpl. split; [|rewrite length_app; simpl; lia].
      exists (taken ++ [b]), rest. split_and!; simpl; [by rewrite <- app_assoc|done| |].
      * eapply heap_ok_perm; [|exact Hh2]. solve_Permutation.
      * rewrite !fmap_app, (bodies_ext h h2) by done. rewrite Hb. simpl. by rewrite Hbm.
    + intros _. split; [by exists taken, rest|]. simpl. lia.
Qed.

Definition dam_client_new (filesize_ block_size_ limit : Z) : dam_client :=
  (data_dam_init filesize_ block_size_, MHeap ∅ limit [], [], []).

(** C6: Whatever the size of the file and of its blocks, and however short the
    reads and writes of the file are, the messages fetched from a dam are the
    first of those it accepted, in order and byte by byte, if each has a body of at least one
    byte (an empty one may be mixed up with others) and there are fewer than 2^32 calls; no call touches
    memory or file contents it does not own, the dam holds all that was not
    fetched, and no message is leaked.  Only an assertion may fail, as when there is no
    memory. *)
Theorem data_dam_fifo filesize_ block_size_ limit calls :
  0 < filesize_ < 2 ^ 63 → 0 < block_size_ → Forall storable calls → Z.of_nat (2 + length calls) < 2 ^ 32 →
  wp (st_for calls dam_call_run) only_assert (λ _ '(d, h, stored, fetched), ∃ taken rest,
      stored = taken ++ rest ∧ body h <$> fetched = (λ b, Some (0, b)) <$> taken ∧
      dam_size d = Z.of_nat (length rest) ∧ heap_ok h fetched)
    (dam_client_new filesize_ block_size_ limit).
Proof.
  intros Hf HB Hc Hn.
  eapply wp_mono; [apply (wp_for _ (λ l s, Forall storable l ∧ (∃ taken rest, client_ok s taken rest) ∧
    Z.of_nat (2 + length s.2 + length l) < 2 ^ 32))|].
  - split; [done|]. split; [|done]. exists [], []. split_and!; simpl; [done| |apply heap_ok_empty|done].
    split; [by apply dam_init_bytes|]. by split.
  - intros c l s ([Hc1 Hl]%Forall_cons & (taken & rest & Hs) & Hlen). simpl in Hlen.
    eapply wp_mono; [apply (dam_call_ok c s taken rest Hs Hc1); lia|]. intros _ s' [Hs' Hl']. split_and!; [done..|lia].
  - intros _ [[[d h] st] got] (_ & (taken & rest & Hst & (_ & Hn' & _) & Hh & Hb) & _). simpl in *.
    exists taken, rest. split_and!; [done..| |done]. unfold dam_size. by rewrite Hn', length_fmap.
Qed.
End fifo.
