(* ===== verification/DamRuns.v ===== *)
(** A file that moves at most three bytes at a time, and a dam on it that
    wraps around. *)
From S2P Require Import Prelude Message Swap DataDam DataDamFifo.
Local Open Scope Z_scope.

Record image := Image { img_bytes : Z → option Z; img_offset : Z }.

(** The bytes from [p] on, [k] at most. *)
Fixpoint img_take (c : Z → option Z) (p : Z) (k : nat) : list Z :=
  match k with
  | O => []
  | S k => match c p with Some b => b :: img_take c (p + 1) k | None => [] end
  end.

#[export] Instance image_disk : Disk image := {
  f_open := Image (λ _, None) 0;
  f_seek p f := Ok (p, Image (img_bytes f) p);
  f_read n f :=
    let bs := img_take (img_bytes f) (img_offset f) (n `min` 3) in
    Ok (bs, Image (img_bytes f) (img_offset f + Z.of_nat (length bs)));
  f_write bs f :=
    let k := (length bs `min` 3)%nat in
    Ok (Z.of_nat k, Image (written (img_bytes f) (img_offset f) (take k bs)) (img_offset f + Z.of_nat k))
}.

Lemma img_take_known c bs : ∀ p k, (k ≤ length bs)%nat →
  (∀ i b, bs !! i = Some b → c (p + Z.of_nat i) = Some b) → img_take c p k = take k bs.
Proof.
  induction bs as [|b bs IH]; intros p k Hk Hc; [by destruct k; simpl in *; [|lia]|].
  destruct k as [|k]; [done|]. simpl in Hk |- *. pose proof (Hc 0%nat b eq_refl) as H0. rewrite Z.add_0_r in H0.
  rewrite H0. f_equal. apply IH; [lia|]. intros i x Hi. rewrite <- (Hc (S i) x Hi). f_equal. lia.
Qed.

#[export] Instance image_laws : DiskLaws image.
Proof.
  refine {| f_view f c off := (∀ p b, c p = Some b → img_bytes f p = Some b) ∧ img_offset f = off |}.
  - done.
  - intros f c off p [Hc _] _. by eexists.
  - intros f c off bs [Hc <-] Hbs Hk. exists (length bs `min` 3)%nat.
    assert (0 < length bs)%nat by (destruct bs; [done|simpl; lia]).
    pose proof (img_take_known (img_bytes f) bs (img_offset f) (length bs `min` 3)) as E.
    rewrite <- E by (try lia; intros; by apply Hc, Hk).
    eexists. split; [lia|]. split; [done|]. split; [done|]. simpl. rewrite E by (try lia; intros; by apply Hc, Hk).
    rewrite length_take. lia.
  - intros f c off bs [Hc <-] Hbs. exists (length bs `min` 3)%nat.
    assert (0 < length bs)%nat by (destruct bs; [done|simpl; lia]).
    eexists. split; [lia|]. split; [done|]. split; [|done]. intros p b. simpl. unfold written.
    destruct (_ && _); [done|apply Hc].
Defined.

(** A file of 40 bytes in blocks of 8; the fourth message is refused, and the
    last two wrap around. *)
Definition demo_calls : list dam_call :=
  [Store [1; 2; 3]; Store [4]; Store [5; 6; 7]; Store [8]; Fetch; Store [9; 10]; Fetch; Fetch; Store [11; 12; 13; 14]; Fetch].

Definition demo_stored : dam_client (F := image) → bool := λ s,
  bool_decide (s.1.2 = [[1; 2; 3]; [4]; [5; 6; 7]; [9; 10]; [11; 12; 13; 14]]).

Lemma demo_dam_runs : ∃ s, runs (st_for demo_calls dam_call_run) (dam_client_new (F := image) 40 8 1000) tt s ∧
  demo_stored s = true.
Proof.
  destruct (option_computes demo_stored
    (match st_for demo_calls dam_call_run (dam_client_new (F := image) 40 8 1000) with Ok (_, s) => Some s | Crash _ => None end))
    as (s & E & Hs); [vm_compute; reflexivity|].
  exists s. split; [|done]. unfold runs. destruct (st_for _ _ _) as [[[] s']|]; [|done]. by injection E as ->.
Qed.

Lemma data_dam_fifo_witness : ∃ d h stored fetched taken rest, demo_stored (d, h, stored, fetched) = true ∧
  stored = taken ++ rest ∧ body h <$> fetched = (λ b, Some (0, b)) <$> taken ∧
  dam_size d = Z.of_nat (length rest) ∧ heap_ok h fetched.
Proof.
  destruct demo_dam_runs as ([[[d h] stored] fetched] & Hr & Hs).
  assert (0 < 40 < 2 ^ 63) as Hf by (split; reflexivity).
  assert (0 < 8) as HB by reflexivity.
  assert (Forall storable demo_calls) as Hc by
    (repeat (apply Forall_cons_2; [first [exact I|split; [discriminate|reflexivity]]|]); apply Forall_nil_2).
  assert (Z.of_nat (2 + length demo_calls) < 2 ^ 32) as Hn by reflexivity.
  destruct (wp_runs _ _ _ _ _ _ (data_dam_fifo (F := image) 40 8 1000 demo_calls Hf HB Hc Hn) Hr) as (taken & rest & H).
  exists d, h, stored, fetched, taken, rest. split; [exact Hs|exact H].
Defined.

(** The room [store] asks for leaves out the tag of a message without a body:
    the tag may run over the oldest message, and the ring then looks empty.
    Of three messages stored here, the first comes back as another. *)
Definition demo_overrun : list dam_call := [Store [7]; Store []; Store [9]; Fetch].

Lemma dam_empty_message_corrupts : ∃ s, runs (st_for demo_overrun dam_call_run) (dam_client_new (F := image) 20 8 1000) tt s ∧
  bool_decide (s.1.2 = [[7]; []; [9]] ∧ body s.1.1.2 <$> s.2 = [Some (0, [0])]) = true.
Proof.
  destruct (option_computes (λ s, bool_decide (s.1.2 = [[7]; []; [9]] ∧ body s.1.1.2 <$> s.2 = [Some (0, [0])]))
    (match st_for demo_overrun dam_call_run (dam_client_new (F := image) 20 8 1000) with Ok (_, s) => Some s | Crash _ => None end))
    as (s & E & Hs); [vm_compute; reflexivity|].
  exists s. split; [|exact Hs]. unfold runs. destruct (st_for _ _ _) as [[[] s']|]; [|discriminate]. injection E as ->. reflexivity.
Qed.
