(* ===== verification/Pipe.v ===== *)
(** The pipe between two engines ([src/libzmq/pipe.cpp], [zmq/pipe.hpp]): a
    channel with watermarks, a swap and a shut-down handshake.  The writer's
    thread calls [check_write], [write], [gap], [flush], [set_head],
    [terminate_writer] and [writer_terminated], the reader's thread the rest;
    they share only the channel and the commands they send each other. *)
From S2P Require Import Prelude Channel Message Command Swap.
Local Open Scope Z_scope.

Section pipe.
Context {P S : Type} `{!Channel raw_message P, !Swap S}.

Record pipe_t := Pipe {
  pipe : P;
  source_thread : option thread_id;
  source_engine : option engine_id;
  destination_thread : option thread_id;
  destination_engine : option engine_id;
  alive : bool;
  hwm : Z;
  lwm : Z;
  head : Z;
  last_head_position : Z;
  delayed_gap : bool;
  in_core_msg_cnt : Z;
  data_dam : option S;
  swapping : bool;
  in_swap_msg_cnt : Z;
  writer_terminating : bool;
  reader_terminating : bool
}.
#[export] Instance eta_pipe : Eta pipe_t := λ p,
  Pipe (pipe p) (source_thread p) (source_engine p) (destination_thread p) (destination_engine p)
    (alive p) (hwm p) (lwm p) (head p) (last_head_position p) (delayed_gap p) (in_core_msg_cnt p)
    (data_dam p) (swapping p) (in_swap_msg_cnt p) (writer_terminating p) (reader_terminating p).

(** A pipe in its surroundings: [self] is the address of the object [me],
    [out] are the commands sent so far, in order. *)
Record penv := PEnv { self : pipe_id; me : pipe_t; mem : mheap; out : list sent }.
#[export] Instance eta_penv : Eta penv := λ e, PEnv (self e) (me e) (mem e) (out e).

Definition modify_me (f : pipe_t → pipe_t) : ST penv unit := st_modify (λ e, e <| me := f (me e) |>).

Definition on_mem {A} : ST mheap A → ST penv A := st_lift mem (λ h e, e <| mem := h |>).

(** [t->send_command (destination_, cmd_)]; [t] must not be NULL. *)
Definition send_command (t destination_ : option thread_id) (cmd_ : command_t) : ST penv unit :=
  match t, destination_ with
  | Some t, Some d => st_modify (λ e, e <| out := out e ++ [Sent t d cmd_] |>)
  | _, _ => st_crash BadAccess
  end.

(** What the constructor asks of an engine. *)
Record engine_info := EngineInfo { get_watermarks : Z * Z; get_swap_size : Z }.

Definition pipe_new (source_thread_ : thread_id) (source_engine_ : engine_id)
    (destination_thread_ : thread_id) (destination_engine_ : engine_id)
    (source destination : engine_info) : pipe_t :=
  let '(shwm, slwm) := get_watermarks source in
  let '(dhwm, dlwm) := get_watermarks destination in
  let '(h, l) :=
    if (shwm =? -1) || (dhwm =? -1) then (0, 0) else (i64 (shwm + dhwm), i64 (slwm + dlwm)) in
  let swap_size := i64 (get_swap_size source + get_swap_size destination) in
  Pipe (ch_new false) (Some source_thread_) (Some source_engine_)
    (Some destination_thread_) (Some destination_engine_) true h l 0 0 false 0
    (if 0 <? swap_size then Some (sw_new swap_size) else None) false 0 false false.

Definition pipe_check_write (p : pipe_t) : bool :=
  (hwm p =? 0) || (in_core_msg_cnt p <? u64 (hwm p)) || bool_decide (is_Some (data_dam p)).

(** [data_dam->store (msg_)] and [data_dam->fetch (msg_)]. *)
Definition swap_op {A} (f : ST (S * mheap) A) : ST penv A :=
  λ e, match data_dam (me e) with
       | None => Crash BadAccess
       | Some s => match f (s, mem e) with
                   | Ok (a, (s, h)) => Ok (a, e <| me := me e <| data_dam := Some s |> |> <| mem := h |>)
                   | Crash f => Crash f
                   end
       end.

Definition pipe_write (msg_ : raw_message) : ST penv unit :=
  e ← st_get;
  st_assert (negb (delayed_gap (me e))) ;;
  st_when ((in_core_msg_cnt (me e) =? u64 (hwm (me e))) && negb (hwm (me e) =? 0))
    (st_assert (bool_decide (is_Some (data_dam (me e)))) ;;
     modify_me (λ p, p <| swapping := true |>)) ;;
  e ← st_get;
  if swapping (me e) then
    rc ← swap_op (sw_store msg_);
    st_assert rc ;;
    modify_me (λ p, p <| in_swap_msg_cnt := u64 (in_swap_msg_cnt p + 1) |>)
  else
    modify_me (λ p, p <| pipe := ch_write (pipe p) msg_ |>
                      <| in_core_msg_cnt := u64 (in_core_msg_cnt p + 1) |>).

Definition pipe_flush : ST penv unit :=
  e ← st_get;
  let '(rc, p') := ch_flush (pipe (me e)) in
  modify_me (λ p, p <| pipe := p' |>) ;;
  st_when (negb rc)
    (send_command (source_thread (me e)) (destination_thread (me e))
       (init_engine_revive (destination_engine (me e)) (self e))).

Definition pipe_gap : ST penv unit :=
  e ← st_get;
  if negb (pipe_check_write (me e)) then modify_me (λ p, p <| delayed_gap := true |>)
  else
    pipe_write (raw_message_init_notification no_message gap_tag) ;;
    pipe_flush.

Definition pipe_revive : ST penv unit :=
  e ← st_get;
  st_assert (negb (alive (me e))) ;;
  modify_me (λ p, p <| alive := true |>).

(** The loop of [swap_in]; one turn of fuel per message fetched. *)
Fixpoint swap_in_loop (fuel : nat) : ST penv unit :=
  match fuel with
  | O => st_crash OutOfFuel
  | Datatypes.S fuel =>
      e ← st_get;
      if (0 <? in_swap_msg_cnt (me e)) && (in_core_msg_cnt (me e) <? u64 (hwm (me e))) then
        msg ← swap_op sw_fetch;
        modify_me (λ p, p <| pipe := ch_write (pipe p) msg |>
                          <| in_swap_msg_cnt := u64 (in_swap_msg_cnt p - 1) |>
                          <| in_core_msg_cnt := u64 (in_core_msg_cnt p + 1) |>) ;;
        swap_in_loop fuel
      else mret tt
  end.

Definition pipe_swap_in : ST penv unit :=
  e ← st_get;
  swap_in_loop (Datatypes.S (Z.to_nat (in_swap_msg_cnt (me e)))) ;;
  pipe_flush ;;
  e ← st_get;
  st_when (in_swap_msg_cnt (me e) =? 0)
    (s ← st_of_option BadAccess (data_dam (me e));
     st_assert (sw_empty s) ;;
     modify_me (λ p, p <| swapping := false |>)).

Definition pipe_set_head (position_ : Z) : ST penv unit :=
  modify_me (λ p, p <| in_core_msg_cnt :=
                         u64 (in_core_msg_cnt p - u64 (position_ - last_head_position p)) |>
                    <| last_head_position := position_ |>) ;;
  e ← st_get;
  st_when (swapping (me e) && (in_core_msg_cnt (me e) <? u64 (lwm (me e)))) pipe_swap_in ;;
  e ← st_get;
  st_when (delayed_gap (me e) && pipe_check_write (me e))
    (pipe_write (raw_message_init_notification no_message gap_tag) ;;
     modify_me (λ p, p <| delayed_gap := false |>)).

Definition pipe_terminate_writer : ST penv unit :=
  e ← st_get;
  st_when (negb (writer_terminating (me e)))
    (modify_me (λ p, p <| pipe :=
       ch_write (pipe p) (raw_message_init_notification no_message delimiter_tag) |>) ;;
     pipe_flush ;;
     modify_me (λ p, p <| writer_terminating := true |>)).

Definition pipe_writer_terminated : ST penv unit :=
  e ← st_get;
  let st := source_thread (me e) in
  modify_me (λ p, p <| source_thread := None |> <| source_engine := None |>) ;;
  send_command st (destination_thread (me e))
    (init_engine_terminate_pipe_ack (destination_engine (me e)) (self e)).

Definition pipe_terminate_reader : ST penv unit :=
  e ← st_get;
  st_when (negb (reader_terminating (me e)))
    (send_command (destination_thread (me e)) (source_thread (me e))
       (init_engine_terminate_pipe (source_engine (me e)) (self e)) ;;
     modify_me (λ p, p <| reader_terminating := true |>)).

Definition pipe_reader_terminated : ST penv unit :=
  modify_me (λ p, p <| destination_thread := None |> <| destination_engine := None |>).

(** How many messages the reader takes between two reports of its position:
    the [%] is on [uint64_t], and a zero divisor stops the program. *)
Definition report_period (p : pipe_t) : Z := u64 (hwm p - lwm p + 1).

(** The message object after the call, and the result. *)
Definition pipe_read (msg_ : raw_message) : ST penv (bool * raw_message) :=
  e ← st_get;
  if negb (alive (me e)) then mret (false, msg_)
  else
    '(o, p') ← (λ e, match ch_read (pipe (me e)) with
                     | Ok op => Ok (op, e) | Crash f => Crash f end);
    modify_me (λ p, p <| pipe := p' |>) ;;
    match o with
    | None => modify_me (λ p, p <| alive := false |>) ;; mret (false, msg_)
    | Some msg =>
        if bool_decide (content msg = Tag delimiter_tag) then
          pipe_terminate_reader ;; mret (false, msg)
        else
          st_when (negb (hwm (me e) =? 0))
            (modify_me (λ p, p <| head := u64 (head p + 1) |>) ;;
             e ← st_get;
             if report_period (me e) =? 0 then st_crash BadAccess
             else st_when (head (me e) `mod` report_period (me e) =? 0)
               (send_command (destination_thread (me e)) (source_thread (me e))
                  (init_engine_head (source_engine (me e)) (self e) (head (me e))))) ;;
          mret (true, msg)
    end.

(** The destructor: messages left in the channel are destroyed. *)
Fixpoint purge_loop (fuel : nat) (p : P) : ST mheap unit :=
  match fuel with
  | O => st_crash OutOfFuel
  | Datatypes.S fuel =>
      λ h, match ch_read p with
           | Crash f => Crash f
           | Ok (None, _) => Ok (tt, h)
           | Ok (Some message, p) => (raw_message_destroy message ;; purge_loop fuel p) h
           end
  end.

Definition pipe_delete (fuel : nat) (p : pipe_t) : ST mheap unit :=
  purge_loop fuel (ch_flush (pipe p)).2.
End pipe.

Arguments pipe_t P S : clear implicits.
Arguments penv P S : clear implicits.
