(* ===== verification/PipeThreads.v ===== *)
(** A pipe between its two threads, until one of them ends it: the writer
    writes, flushes, announces gaps and takes head positions, the reader reads
    and is revived, commands travel in order.  What is written comes out in
    order, memory stays within the high watermark, nothing gets stuck, and the
    calls fail only where this says. *)
From S2P Require Import Prelude Channel Message Command Swap Pipe.
Local Open Scope Z_scope.

(** ** Commands on their way *)

Definition head_of (s : sent) : option Z :=
  match cmd s with c_engine_command _ (ec_head _ pos) => Some pos | _ => None end.

Definition is_revive (s : sent) : bool :=
  match cmd s with c_engine_command _ (ec_revive _) => true | _ => false end.

Definition heads (l : list sent) : list Z := omap head_of l.
Definition revives (l : list sent) : nat := length (filter is_revive l).

(** [take_first f l]: the first command that [f] accepts and the others. *)
Fixpoint take_first {A} (f : sent → option A) (l : list sent) : option (A * list sent) :=
  match l with
  | [] => None
  | s :: l =>
      match f s with
      | Some a => Some (a, l)
      | None => '(a, l) ← take_first f l; Some (a, s :: l)
      end
  end.

Definition revive_of (s : sent) : option unit := if is_revive s then Some tt else None.

(** A message the writer makes: nothing else in the heap is disturbed. *)
Definition made_message (h : mheap) (m : raw_message) (h' : mheap) (b : Z * list Z) : Prop :=
  content m ≠ Tag delimiter_tag ∧ body h' m = Some b ∧
  ∀ ms, heap_ok h ms → Z.of_nat (Datatypes.S (length ms)) < 2 ^ 32 →
    heap_ok h' (m :: ms) ∧ ∀ m', m' ∈ ms → body h' m' = body h m'.

Section pipe_threads.
Context {P S : Type} `{ChannelLaws raw_message P, SwapLaws S}.
Implicit Types (e : penv P S) (p : pipe_t P S).

(** The messages read so far are kept by the reader; [wlog] lists the bodies
    of the messages written, gap notifications among them.  Only messages with
    a body may go to the swap. *)
Record psys := PSys { env : penv P S; got : list raw_message; wlog : list (Z * list Z) }.
#[local] Instance eta_psys : Eta psys := λ s, PSys (env s) (got s) (wlog s).

Definition has_dam p : bool := bool_decide (is_Some (data_dam p)).

(** The next message goes to the swap, or finds no room. *)
Definition to_swap p : bool := swapping p || (in_core_msg_cnt p =? u64 (hwm p)) && negb (hwm p =? 0).

(** The type and the bytes of a gap notification. *)
Definition gap_body : Z * list Z := (gap_tag, []).

Inductive pstep (s : psys) : psys → Prop :=
  | ps_write m h b e' :
      pipe_check_write (me (env s)) = true →
      made_message (mem (env s)) m h b →
      (to_swap (me (env s)) = true → swappable b) →
      Z.of_nat (length (wlog s)) < 2 ^ 31 →
      runs (pipe_write m) (env s <| mem := h |>) tt e' →
      pstep s (PSys e' (got s) (wlog s ++ [b]))
  | ps_gap e' :
      (pipe_check_write (me (env s)) = true → to_swap (me (env s)) = false) →
      Z.of_nat (length (wlog s)) < 2 ^ 31 →
      runs pipe_gap (env s) tt e' →
      pstep s (PSys e' (got s) (if pipe_check_write (me (env s)) then wlog s ++ [gap_body] else wlog s))
  | ps_flush e' :
      runs pipe_flush (env s) tt e' → pstep s (s <| env := e' |>)
  | ps_head pos l e' :
      take_first head_of (out (env s)) = Some (pos, l) →
      runs (pipe_set_head pos) (env s <| out := l |>) tt e' → pstep s (s <| env := e' |>)
  | ps_read m b m' e' :
      runs (pipe_read m) (env s) (b, m') e' →
      pstep s (PSys e' (if b then got s ++ [m'] else got s) (wlog s))
  | ps_revive l e' :
      take_first revive_of (out (env s)) = Some (tt, l) →
      runs pipe_revive (env s <| out := l |>) tt e' → pstep s (s <| env := e' |>).

(** ** The invariant *)

Context (hw lw : Z) (dam : bool).
Definition N : Z := hw - lw + 1.

(** The messages in memory [xs] (the first [n] flushed) and in the swap
    [sw]. *)
Record pdata e xs n asleep sw gt (wl : list (Z * list Z)) : Prop := {
  pd_view : ch_view (pipe (me e)) xs n asleep;
  pd_heap : heap_ok (mem e) (xs ++ gt);
  pd_bodies : (body (mem e) <$> (gt ++ xs)) ++ (Some <$> sw) = Some <$> wl;
  pd_delim : ∀ m, m ∈ xs → content m ≠ Tag delimiter_tag;
  pd_swap : match data_dam (me e) with
            | Some s => sw_view s sw ∧ ∀ b, b ∈ sw → swappable b
            | None => sw = [] ∧ swapping (me e) = false
            end;
  pd_swapping : swapping (me e) = false → sw = [];
  pd_inswap : in_swap_msg_cnt (me e) = Z.of_nat (length sw);
  pd_dam : bool_decide (is_Some (data_dam (me e))) = dam;
  pd_hwm : hwm (me e) = hw;
  pd_lwm : lwm (me e) = lw;
  pd_threads : is_Some (source_thread (me e)) ∧ is_Some (destination_thread (me e));
  pd_few : Z.of_nat (length wl) ≤ 2 ^ 31
}.

(** [a] periods have been reported and taken, [k] are on their way. *)
Record pcount p (W G : Z) (hs : list Z) (a : Z) (k : nat) : Prop := {
  pc_head : hw ≠ 0 → head p = G;
  pc_last : hw ≠ 0 → last_head_position p = N * a;
  pc_core : in_core_msg_cnt p = W - N * a;
  pc_hwm : hw ≠ 0 → in_core_msg_cnt p ≤ hw;
  pc_a : 0 ≤ a;
  pc_heads : hs = (λ i : nat, N * (a + 1 + Z.of_nat i)) <$> seq 0 k;
  pc_floor : if bool_decide (hw = 0) then a = 0 ∧ k = 0%nat else a + Z.of_nat k = G `div` N
}.

(** While messages are in the swap, memory was filled up when the last of
    them went in, and is not due to be refilled. *)
Definition swapping_ok p (W : Z) : Prop :=
  swapping p = true → hw ≠ 0 ∧ lw ≤ in_core_msg_cnt p ∧ ∃ a', W = N * a' + hw.

(** A gap waits only while nothing can be written. *)
Definition gap_ok p : Prop := delayed_gap p = true → pipe_check_write p = false.

Definition alive_ok p (asleep : bool) (revs : nat) : Prop :=
  if alive p then revs = 0%nat ∧ asleep = false
  else revs = (if asleep then 0 else 1)%nat.

Record pinv0 (s : psys) xs n asleep sw a k : Prop := {
  pi_data : pdata (env s) xs n asleep sw (got s) (wlog s);
  pi_count : pcount (me (env s)) (Z.of_nat (length (got s) + length xs)) (Z.of_nat (length (got s)))
               (heads (out (env s))) a k;
  pi_alive : alive_ok (me (env s)) asleep (revives (out (env s)))
}.

Definition pinv (s : psys) xs n asleep sw a k : Prop :=
  pinv0 s xs n asleep sw a k ∧
  swapping_ok (me (env s)) (Z.of_nat (length (got s) + length xs)).

(** ** Helper lemmas *)

Lemma heads_app l l' : heads (l ++ l') = heads l ++ heads l'.
Proof. apply omap_app. Qed.

Lemma revives_app l l' : revives (l ++ l') = (revives l + revives l')%nat.
Proof. unfold revives. by rewrite filter_app, length_app. Qed.

Lemma take_first_head l pos l' : take_first head_of l = Some (pos, l') →
  heads l = pos :: heads l' ∧ revives l = revives l'.
Proof.
  revert l'. induction l as [|s l IH]; intros l' E; simpl in E; [done|].
  unfold heads, revives in *. simpl. destruct (head_of s) as [pos'|] eqn:Es; simplify_eq/=.
  - split; [done|]. rewrite filter_cons_False; [done|].
    unfold head_of, is_revive in *. destruct (cmd s) as [| | |? []]; naive_solver.
  - destruct (take_first head_of l) as [[pos1 l1]|]; simplify_eq/=. rewrite Es.
    destruct (IH l1) as [-> Hr]; [done|]. split; [done|]. rewrite !filter_cons.
    case_decide; simpl; by rewrite Hr.
Qed.

Lemma take_first_revive l u l' : take_first revive_of l = Some (u, l') →
  heads l = heads l' ∧ revives l = Datatypes.S (revives l').
Proof.
  revert l'. induction l as [|s l IH]; intros l' E; simpl in E; [done|].
  unfold heads, revives in *. simpl. unfold revive_of in *. destruct (is_revive s) eqn:Es; simplify_eq/=.
  - rewrite filter_cons_True by (by rewrite Es). split; [|done].
    unfold head_of, is_revive in *. destruct (cmd s) as [| | |? []]; naive_solver.
  - destruct (take_first _ l) as [[u1 l1]|]; simplify_eq/=.
    destruct (IH l1) as [-> Hr]; [done|]. split; [done|].
    rewrite !filter_cons_False by (rewrite Es; tauto). done.
Qed.

(** The watermarks the theorems are about. *)
Context (Hwm : hw = 0 ∨ -2 ^ 62 < lw ≤ hw ∧ 0 < hw < 2 ^ 62).

Lemma N_pos : hw ≠ 0 → 1 ≤ N ∧ in_u 64 N.
Proof using Hwm. unfold N, in_u. lia. Qed.

Lemma wrap64_small x : 0 ≤ x < 2 ^ 64 → u64 x = x.
Proof. intros. by apply wrap_small. Qed.

(** ** The operations keep the invariant *)

Lemma pipe_flush_inv s xs n asleep sw a k : pinv0 s xs n asleep sw a k →
  wp pipe_flush no_fault (λ _ e', ∃ n' asleep', pinv0 (s <| env := e' |>) xs n' asleep' sw a k ∧
    (ch_flush (pipe (me e'))).1 = true ∧ in_core_msg_cnt (me e') = in_core_msg_cnt (me (env s)) ∧
    swapping (me e') = swapping (me (env s)) ∧ has_dam (me e') = has_dam (me (env s))) (env s).
Proof.
  intros [D C A]. pose proof D as []. unfold pipe_flush. wp_steps.
  destruct (ch_flush_law _ _ _ _ pd_view0) as (p' & E & V). rewrite E.
  destruct (ch_flush_law _ _ _ _ V) as (p'' & E' & _).
  assert ((ch_flush p').1 = true) as Hf.
  { rewrite E'. simpl. rewrite Nat.ltb_irrefl. by rewrite andb_false_r. }
  wp_steps. destruct pd_threads0 as [[st Hst] [dt Hdt]].
  destruct (asleep && (n <? length xs)%nat) eqn:Ew; simpl.
  - unfold send_command. rewrite Hst, Hdt. apply wp_modify. simpl.
    apply andb_true_iff in Ew as [-> Hn%Nat.ltb_lt].
    rewrite (proj2 (Nat.leb_gt _ _)) in V by lia.
    eexists _, _. split; [|split_and!; [exact Hf|done..]]. constructor.
    + constructor; simpl; try done.
    + destruct C. constructor; simpl; try done. by rewrite heads_app, app_nil_r.
    + unfold alive_ok in *. simpl. destruct (alive (me (env s))); [naive_solver|].
      rewrite revives_app, A. done.
  - apply wp_ret. eexists _, _. split; [|split_and!; [exact Hf|done..]]. constructor.
    + constructor; simpl; try done.
    + destruct C. by constructor.
    + unfold alive_ok in *. simpl. destruct asleep; simpl in *.
      * destruct (ch_view_bound _ _ _ _ pd_view0) as [_ Hn]. rewrite Hn in * by done.
        destruct xs; [|done]. done.
      * done.
Qed.

(** *** What may fail

    The swap refuses the message [m]: [assert (rc)] in [write]. *)
Definition dam_refuses p (m : raw_message) (h : mheap) : Prop :=
  to_swap p = true ∧ ∃ sd x, data_dam p = Some sd ∧ runs (sw_store m) (sd, h) false x.

(** One of the messages in the swap cannot be fetched, for want of memory. *)
Fixpoint fetches (k : nat) : ST (S * mheap) unit :=
  match k with O => mret tt | Datatypes.S k => sw_fetch ;; fetches k end.
Definition fetch_fails e : Prop :=
  ∃ sd k, data_dam (me e) = Some sd ∧ Z.of_nat k ≤ in_swap_msg_cnt (me e) ∧ fetches k (sd, mem e) = Crash AssertFailed.

(** The head position makes room for a gap that waits: [assert (!delayed_gap)]
    in [write]. *)
Definition gap_due pos p : Prop :=
  delayed_gap p = true ∧
  pipe_check_write (p <| in_core_msg_cnt := u64 (in_core_msg_cnt p - u64 (pos - last_head_position p)) |>) = true.

Lemma pdata_length e xs n asleep sw gt wl : pdata e xs n asleep sw gt wl →
  (length gt + length xs + length sw)%nat = length wl.
Proof.
  intros D. pose proof (f_equal length (pd_bodies _ _ _ _ _ _ _ D)) as E.
  rewrite !length_app, !length_fmap, length_app in E. lia.
Qed.

Lemma count_bounds p W G hs a k : pcount p W G hs a k → 0 ≤ G ≤ W →
  0 ≤ in_core_msg_cnt p ≤ W ∧ N * a ≤ G.
Proof using Hwm.
  intros [] HG. case_bool_decide as E.
  - destruct pc_floor0 as [-> ->]. lia.
  - pose proof (N_pos E). assert (a ≤ G `div` N) as Ha by lia.
    assert (N * a ≤ G). { apply (Z.mul_le_mono_nonneg_l _ _ N) in Ha; [|lia]. pose proof (Z.mul_div_le G N). lia. }
    nia.
Qed.

Lemma u64_hw : u64 hw = hw.
Proof using Hwm. apply wrap64_small. lia. Qed.

Lemma inv_bounds s xs n asleep sw a k : pinv s xs n asleep sw a k →
  0 ≤ in_core_msg_cnt (me (env s)) ≤ 2 ^ 31 ∧ N * a ≤ Z.of_nat (length (got s)) ≤ 2 ^ 31 ∧
  Z.of_nat (length (wlog s)) ≤ 2 ^ 31.
Proof using Hwm.
  intros [[D C _] _]. pose proof (pdata_length _ _ _ _ _ _ _ D). destruct (count_bounds _ _ _ _ _ _ C); [lia|].
  pose proof (pd_few _ _ _ _ _ _ _ D). lia.
Qed.

(** The message goes to the swap. *)
Lemma swap_store_inv e xs n asleep sw gt wl m b sd :
  pdata e xs n asleep sw gt wl → data_dam (me e) = Some sd →
  Z.of_nat (length wl) < 2 ^ 31 →
  ∀ h, made_message (mem e) m h b → swappable b → ∀ e1,
  mem e1 = h → swapping (me e1) = true → me e1 = me e <| swapping := true |> →
  self e1 = self e → out e1 = out e →
  wp (swap_op (sw_store m)) no_fault (λ ok e2, (∃ x, runs (sw_store m) (sd, h) ok x) ∧ (ok = true →
    ∃ sd' h', e2 = e1 <| me := me e1 <| data_dam := Some sd' |> |> <| mem := h' |> ∧
    pdata (e2 <| me := me e2 <| in_swap_msg_cnt := Z.of_nat (length sw + 1) |> |>)
      xs n asleep (sw ++ [b]) gt (wl ++ [b]))) e1.
Proof using Hwm.
  intros D Hd Hn h (Hm & Hb & Hmade) Hne e1 Em Esw Ee Eself Eout.
  pose proof (pdata_length _ _ _ _ _ _ _ D) as Hlen. pose proof D as [].
  rewrite Hd in pd_swap0. destruct pd_swap0 as [Vs Hbs].
  destruct (Hmade (xs ++ gt)) as [Hh1 Hb1]; [done|rewrite length_app; lia|].
  destruct (sw_store_law sd sw h m (xs ++ gt) b Vs Hh1 Hb Hne) as (ok & sd' & h' & R & Hk & Hok).
  unfold wp, swap_op, runs in *. rewrite Ee in *. simpl. rewrite Hd, Em, R. split; [by eexists|]. intros ->.
  destruct Hok as [Vs' Hh']. eexists _, _. split; [done|].
  assert (body h' <$> (gt ++ xs) = body (mem e) <$> (gt ++ xs)) as Ebody.
  { apply bodies_ext. intros m' Hm'. assert (m' ∈ xs ++ gt) as Hm'' by set_solver.
    rewrite (body_kept h h' m' (xs ++ gt)) by done. by apply Hb1. }
  constructor; simpl; rewrite ?length_app; try done; try (simpl; lia);
    try (rewrite <- pd_dam0, Hd; done).
  - by rewrite Ebody, (fmap_app Some sw), app_assoc, pd_bodies0, (fmap_app Some wl).
  - split; [done|]. intros b' [?| ->%list_elem_of_singleton]%elem_of_app; [by apply Hbs|done].
Qed.

(** The message goes to the channel. *)
Lemma channel_write_data e xs n asleep gt wl m b h :
  pdata e xs n asleep [] gt wl → Z.of_nat (length wl) < 2 ^ 31 →
  made_message (mem e) m h b → ∀ c,
  pdata (e <| mem := h |> <| me := me e <| pipe := ch_write (pipe (me e)) m |> <| in_core_msg_cnt := c |> |>)
    (xs ++ [m]) n asleep [] gt (wl ++ [b]).
Proof using Hwm.
  intros D Hn (Hm & Hb & Hmade) c. pose proof (pdata_length _ _ _ _ _ _ _ D) as Hlen. pose proof D as [].
  destruct (Hmade (xs ++ gt)) as [Hh1 Hb1]; [done|rewrite length_app; simpl in *; lia|].
  constructor; simpl; rewrite ?length_app; try done.
  - by apply ch_write_law.
  - eapply heap_ok_perm; [|exact Hh1]. solve_Permutation.
  - rewrite app_assoc, fmap_app, (bodies_ext (mem e) h) by (intros; apply Hb1; set_solver).
    rewrite (fmap_app Some wl), <- pd_bodies0. simpl. by rewrite Hb, !app_nil_r.
  - intros m' [?| ->%list_elem_of_singleton]%elem_of_app; [by apply pd_delim0|done].
  - simpl in *. lia.
Qed.

Lemma pipe_write_inv s xs n asleep sw a k m h b : pinv s xs n asleep sw a k →
  pipe_check_write (me (env s)) = true →
  delayed_gap (me (env s)) = false →
  made_message (mem (env s)) m h b →
  (to_swap (me (env s)) = true → swappable b) →
  Z.of_nat (length (wlog s)) < 2 ^ 31 →
  wp (pipe_write m) (asserts_if (dam_refuses (me (env s)) m h))
    (λ _ e', ∃ xs' sw', pinv (PSys e' (got s) (wlog s ++ [b])) xs' n asleep sw' a k)
    (env s <| mem := h |>).
Proof using Hwm.
  intros I Hcw Hg Hmade Hne Hn. pose proof (inv_bounds _ _ _ _ _ _ _ I) as Hbd.
  pose proof I as [[D C A] B]. pose proof D as []. pose proof C as [].
  unfold pipe_write. wp_steps. apply wp_assert; [simpl; by rewrite Hg|]. wp_steps. simpl.
  unfold to_swap in *. rewrite pd_hwm0, u64_hw in *.
  assert (∀ sd e1, data_dam (me (env s)) = Some sd → mem e1 = h → self e1 = self (env s) →
    out e1 = out (env s) → me e1 = me (env s) <| swapping := true |> →
    swapping (me (env s)) || (in_core_msg_cnt (me (env s)) =? hw) && negb (hw =? 0) = true →
    hw ≠ 0 ∧ lw ≤ in_core_msg_cnt (me (env s)) ∧
      (∃ a', Z.of_nat (length (got s) + length xs) = N * a' + hw) →
    wp (e ← st_get;
        if swapping (me e) then
          rc ← swap_op (sw_store m); st_assert rc ;;
          modify_me (λ p, p <| in_swap_msg_cnt := u64 (in_swap_msg_cnt p + 1) |>)
        else
          modify_me (λ p, p <| pipe := ch_write (pipe p) m |>
                            <| in_core_msg_cnt := u64 (in_core_msg_cnt p + 1) |>))
      (asserts_if (dam_refuses (me (env s)) m h))
      (λ _ e', ∃ xs' sw', pinv (PSys e' (got s) (wlog s ++ [b])) xs' n asleep sw' a k) e1) as Hstore.
  { intros sd e1 Hd Em Es Eo Ee Hto Hsw. wp_steps. rewrite Ee; simpl. wp_steps.
    apply (wp_fault no_fault); [by intros ? []|].
    eapply wp_mono; [eapply (swap_store_inv _ _ _ _ _ _ _ m b sd D Hd); eauto|]; [by rewrite Ee|].
    intros ok e2 [[x Hx] Hok]. simpl. apply wp_bind.
    destruct ok; [|split; [done|]; split; [unfold to_swap; by rewrite pd_hwm0, u64_hw|by exists sd, x]].
    destruct (Hok eq_refl) as (sd' & h' & -> & D'). apply wp_assert; [done|]. apply wp_modify.
    exists xs, (sw ++ [b]). rewrite Ee in D' |- *. simpl in *.
    assert (u64 (in_swap_msg_cnt (me (env s)) + 1) = Z.of_nat (length sw + 1)) as Eu.
    { rewrite pd_inswap0, wrap64_small; [lia|].
      pose proof (pdata_length _ _ _ _ _ _ _ D). lia. }
    split; [constructor; simpl; [by rewrite Eu|rewrite Eo; by constructor|by rewrite Eo]|by intros _]. }
  apply wp_when.
  - intros Hcond. assert (swapping (me (env s)) || (in_core_msg_cnt (me (env s)) =? hw) && negb (hw =? 0) = true) as Hto
      by (by rewrite Hcond, orb_true_r).
    apply andb_true_iff in Hcond as [Hc%Z.eqb_eq Hz]. apply negb_true_iff, Z.eqb_neq in Hz.
    unfold pipe_check_write in Hcw. rewrite pd_hwm0, u64_hw in Hcw.
    assert (is_Some (data_dam (me (env s)))) as [sd Hsd].
    { destruct (data_dam (me (env s))); [eauto|].
      destruct (Z.eqb_spec hw 0), (Z.ltb_spec (in_core_msg_cnt (me (env s))) hw); simpl in *; lia || done. }
    wp_steps. apply wp_assert; [simpl; by rewrite Hsd|]. apply wp_modify.
    eapply Hstore; [exact Hsd|done..|]. split_and!; [done|lia|]. exists a. lia.
  - intros Hcond. destruct (decide (swapping (me (env s)) = true)) as [Esw|Esw%not_true_is_false].
    + assert (∃ sd, data_dam (me (env s)) = Some sd) as [sd Hsd].
      { clear Hstore. destruct (data_dam (me (env s))); [eauto|]. destruct pd_swap0. congruence. }
      eapply Hstore; [exact Hsd|done..| |by rewrite Esw|by apply B].
      simpl. rewrite <- Esw. by destruct (me (env s)).
    + wp_steps. simpl. rewrite Esw. apply wp_modify. rewrite (pd_swapping0 Esw) in *.
      exists (xs ++ [m]), [].
      split; [|unfold swapping_ok; simpl; rewrite Esw; done].
      constructor; simpl; [by apply (channel_write_data (env s))| |done].
      rewrite length_app. simpl. constructor; simpl; rewrite ?Esw; try done.
      * rewrite wrap64_small, pc_core0 by lia. lia.
      * intros Hz. specialize (pc_hwm0 Hz). rewrite wrap64_small by lia.
        destruct (Z.eqb_spec (in_core_msg_cnt (me (env s))) hw), (Z.eqb_spec hw 0); simpl in *; try done; lia.
Qed.

(** What decides whether the writer may go on. *)
Definition gate p : bool * bool := (delayed_gap p, pipe_check_write p).

Lemma keeps_gate_gap_ok {A} (m : ST (penv P S) A) e r e' :
  keeps (λ e, gate (me e)) m → runs m e r e' → gap_ok (me e) → gap_ok (me e').
Proof. intros Hk [= E1 E2]%Hk. unfold gap_ok. by rewrite E1, E2. Qed.

(** *** Refilling memory from the swap *)

(** What the loop keeps; [sw] is what is left in the swap. *)
Record pfill (e0 e : penv P S) gt wl n asleep hs a k xs sw : Prop := {
  pf_data : pdata e xs n asleep sw gt wl;
  pf_count : pcount (me e) (Z.of_nat (length gt + length xs)) (Z.of_nat (length gt)) hs a k;
  pf_same : out e = out e0 ∧ self e = self e0 ∧ alive (me e) = alive (me e0) ∧
    swapping (me e) = swapping (me e0)
}.

Lemma swap_in_loop_inv e0 gt wl n asleep hs a k fuel : hw ≠ 0 → swapping (me e0) = true → ∀ e xs sw,
  pfill e0 e gt wl n asleep hs a k xs sw → (length sw < fuel)%nat →
  wp (swap_in_loop fuel) (asserts_if (fetch_fails e)) (λ _ e', ∃ xs' sw', pfill e0 e' gt wl n asleep hs a k xs' sw' ∧
    (sw' = [] ∨ in_core_msg_cnt (me e') = hw)) e.
Proof using Hwm.
  intros Hz Hsw0. induction fuel as [|fuel IH]; intros e xs sw F Hf; [lia|].
  pose proof F as [D C (Eo & Es & Ea & Esw)]. pose proof D as []. pose proof C as [].
  pose proof (pdata_length _ _ _ _ _ _ _ D) as Hlen.
  destruct (count_bounds _ _ _ _ _ _ C) as [Hb _]; [lia|].
  simpl. wp_steps. rewrite pd_inswap0, pd_hwm0, u64_hw.
  destruct sw as [|b sw]; simpl; [apply wp_ret; eauto 10|].
  destruct (Z.ltb_spec (in_core_msg_cnt (me e)) hw) as [Hlt|Hge]; simpl;
    [|apply wp_ret; exists xs, (b :: sw); split; [done|right]; specialize (pc_hwm0 Hz); lia].
  wp_steps. unfold swap_op, wp.
  destruct (data_dam (me e)) as [sd|] eqn:Hd; [|by destruct pd_swap0].
  destruct pd_swap0 as [Vs Hbs].
  destruct (sw_fetch_law sd b sw (mem e) (xs ++ gt) Vs pd_heap0) as
    [Ef|(m & sd' & h' & R & Vs' & Hh' & Hbm & Hkeep)]; [rewrite length_app; simpl in *; lia|..].
  { rewrite Ef. split; [done|]. exists sd, 1%nat. rewrite pd_inswap0. simpl. split; [done|]. split; [lia|].
    unfold mbind, st_bind. by rewrite Ef. }
  unfold runs in R. rewrite R. apply wp_bind, wp_modify.
  simpl in *. assert (∀ e1, data_dam (me e1) = Some sd' → mem e1 = h' → in_swap_msg_cnt (me e1) = Z.of_nat (length sw) →
    fetch_fails e1 → fetch_fails e) as Hfails.
  { intros e1 E1 E2 E3 (sd1 & k1 & E4 & Hk & Hc). exists sd, (Datatypes.S k1). rewrite E1 in E4. injection E4 as <-.
    split; [done|]. split; [lia|]. simpl. unfold mbind, st_bind. by rewrite R, <- E2. }
  eapply wp_fault; [apply asserts_if_mono, Hfails|apply (IH _ (xs ++ [m]) sw); [|lia]]; [done|done|simpl; rewrite wrap64_small; lia|].
  assert (u64 (in_swap_msg_cnt (me e) - 1) = Z.of_nat (length sw)) as Eu by (rewrite wrap64_small; lia).
  assert (u64 (in_core_msg_cnt (me e) + 1) = in_core_msg_cnt (me e) + 1) as Eu' by (rewrite wrap64_small; lia).
  constructor; simpl; [| |done].
  - constructor; simpl; try done.
    + by apply ch_write_law.
    + eapply heap_ok_perm; [|exact Hh']. solve_Permutation.
    + rewrite app_assoc, fmap_app, (bodies_ext (mem e) h') by (intros; apply Hkeep; set_solver).
      rewrite <- app_assoc. simpl. by rewrite Hbm.
    + intros m' [?| ->%list_elem_of_singleton]%elem_of_app; [by apply pd_delim0|].
      intros Em. assert (b = (delimiter_tag, [])) as ->.
      { unfold body, raw_message_bytes, raw_message_type in Hbm. rewrite Em in Hbm. by simplify_eq/=. }
      by apply (Hbs (delimiter_tag, [])); [left|].
    + split; [done|]. intros b' ?. apply Hbs. by right.
    + rewrite Esw, Hsw0. done.
  - rewrite length_app. simpl. constructor; simpl; rewrite ?Eu'; try done; lia.
Qed.

Lemma pipe_swap_in_inv s xs n asleep sw a k :
  pinv0 s xs n asleep sw a k → hw ≠ 0 → swapping (me (env s)) = true →
  wp pipe_swap_in (asserts_if (fetch_fails (env s)))
    (λ _ e', ∃ xs' n' asleep' sw', pinv (s <| env := e' |>) xs' n' asleep' sw' a k) (env s).
Proof using Hwm.
  intros [D C A] Hz Esw. pose proof D as []. unfold pipe_swap_in. wp_steps.
  eapply wp_mono.
  { eapply (swap_in_loop_inv (env s) _ _ _ _ _ _ _ _ Hz Esw (env s) xs sw);
      [constructor; [exact D|exact C|done]|rewrite pd_inswap0, Nat2Z.id; lia]. }
  simpl. intros _ e1 (xs' & sw' & [D1 C1 (Eo & Es & Ea & Esw1)] & Hend). wp_steps.
  eapply wp_mono.
  { apply (wp_fault no_fault); [by intros ? []|].
    refine (pipe_flush_inv (s <| env := e1 |>) xs' n asleep sw' a k _).
    constructor; simpl; [exact D1|by rewrite Eo|by unfold alive_ok in *; rewrite Ea, Eo]. }
  simpl. intros _ e2 (n2 & asleep2 & I2 & _ & Ec2 & Esw2 & _). wp_steps.
  pose proof I2 as [D2 C2 A2]. simpl in *. pose proof (pd_inswap _ _ _ _ _ _ _ D2) as Ei.
  pose proof (pd_swap _ _ _ _ _ _ _ D2) as Hd2. rewrite Ei.
  apply wp_when.
  - intros Hn%Z.eqb_eq. assert (sw' = []) as -> by (destruct sw'; [done|simpl in Hn; lia]).
    destruct (data_dam (me e2)) as [sd|] eqn:Hd; [|destruct Hd2; congruence].
    destruct Hd2 as [Vs _]. wp_steps. apply wp_bind, wp_assert; [by rewrite (sw_empty_law _ _ Vs)|].
    apply wp_modify. exists xs', n2, asleep2, []. split; [|done]. constructor; simpl.
    + destruct D2 as []. rewrite Hd in *. constructor; simpl; rewrite ?Hd; done.
    + by destruct C2.
    + done.
  - intros Hn%Z.eqb_neq. destruct Hend as [->|Hend]; [done|].
    exists xs', n2, asleep2, sw'. split; [done|]. intros _. simpl.
    pose proof (pc_core _ _ _ _ _ _ C2) as Hc. rewrite Ec2, Hend in *. split_and!; [done|lia|].
    exists a. lia.
Qed.

Lemma keeps_swap_op {A} (m : ST (S * mheap) A) : keeps (λ e, delayed_gap (me e)) (swap_op m).
Proof.
  intros e r e'. unfold runs, swap_op. destruct (data_dam (me e)) as [sd|]; [|done].
  destruct (m (sd, mem e)) as [[? []]|]; [|done]. by intros [= _ <-].
Qed.
#[local] Hint Resolve keeps_swap_op : keeps.

Lemma keeps_swap_in : keeps (λ e, delayed_gap (me e)) (pipe_swap_in (P := P) (S := S)).
Proof.
  assert (∀ fuel, keeps (λ e, delayed_gap (me e)) (swap_in_loop (P := P) (S := S) fuel)) as Hloop.
  { induction fuel as [|fuel IH]; simpl; unfold modify_me; keeps_auto. }
  assert (keeps (λ e, delayed_gap (me e)) (pipe_flush (P := P) (S := S))) as Hflush.
  { unfold pipe_flush, send_command, modify_me. keeps_auto. }
  unfold pipe_swap_in, modify_me. keeps_auto.
Qed.

Lemma pipe_set_head_inv s xs n asleep sw a k pos l : pinv s xs n asleep sw a k → gap_ok (me (env s)) →
  take_first head_of (out (env s)) = Some (pos, l) →
  wp (pipe_set_head pos) (asserts_if (gap_due pos (me (env s)) ∨ fetch_fails (env s)))
    (λ _ e', (∃ xs' n' asleep' sw' k', pinv (s <| env := e' |>) xs' n' asleep' sw' (a + 1) k') ∧ gap_ok (me e'))
    (env s <| out := l |>).
Proof using Hwm.
  intros I G [Eh Er]%take_first_head. pose proof (inv_bounds _ _ _ _ _ _ _ I) as Hbd.
  pose proof I as [[D C A] B]. pose proof D as []. pose proof C as [].
  pose proof (pdata_length _ _ _ _ _ _ _ D) as Hlen.
  rewrite pc_heads0 in Eh. destruct k as [|k]; [done|]. simpl in Eh. injection Eh as Epos Eh.
  case_bool_decide as Hz; [lia|]. specialize (pc_last0 Hz). specialize (pc_head0 Hz). specialize (pc_hwm0 Hz).
  pose proof (N_pos Hz) as [HN HN64].
  assert (N * (a + 1) ≤ Z.of_nat (length (got s))) as Hga.
  { pose proof (Z.mul_div_le (Z.of_nat (length (got s))) N). nia. }
  unfold pipe_set_head; wp_steps; apply wp_modify; wp_steps; simpl. rewrite pc_last0.
  replace (pos - N * a) with N by lia.
  rewrite (wrap64_small N) by (unfold in_u in HN64; lia).
  set (c := u64 (in_core_msg_cnt (me (env s)) - N)).
  assert (c = Z.of_nat (length (got s) + length xs) - N * (a + 1)) as Ec.
  { subst c. rewrite wrap64_small by lia. lia. }
  set (e1 := PEnv _ _ _ _).
  assert (pinv0 (s <| env := e1 |>) xs n asleep sw (a + 1) k) as I1.
  { constructor; subst e1; simpl.
    - by constructor.
    - constructor; simpl; try done; [intros _; lia|lia|lia| |rewrite bool_decide_false by done; lia].
      rewrite <- Eh, <- fmap_S_seq, <- list_fmap_compose. apply list_fmap_ext. intros. simpl. f_equal. lia.
    - by rewrite <- Er. }
  assert (∀ xs2 n2 as2 sw2 e2, pinv (s <| env := e2 |>) xs2 n2 as2 sw2 (a + 1) k →
    (delayed_gap (me e2) && pipe_check_write (me e2) = true → gap_due pos (me (env s))) →
    wp (e ← st_get;
        st_when (delayed_gap (me e) && pipe_check_write (me e))
          (pipe_write (raw_message_init_notification no_message gap_tag) ;;
           modify_me (λ p, p <| delayed_gap := false |>))) (asserts_if (gap_due pos (me (env s)) ∨ fetch_fails (env s)))
      (λ _ e', (∃ xs' n' asleep' sw' k', pinv (s <| env := e' |>) xs' n' asleep' sw' (a + 1) k') ∧ gap_ok (me e')) e2) as Hgap.
  { intros xs2 n2 as2 sw2 e2 I2 Hdue. wp_steps. apply wp_when; intros Hc.
    - wp_steps. unfold pipe_write. wp_steps. specialize (Hdue Hc). apply andb_true_iff in Hc as [-> _]. split; [done|by left].
    - split; [eauto 10|]. intros Hd. by rewrite Hd in Hc. }
  simpl. rewrite pd_lwm0. apply wp_when.
  - intros [Hsw _]%andb_true_iff.
    assert (delayed_gap (me (env s)) = false) as Hd.
    { apply not_true_is_false. intros Hd%G. unfold pipe_check_write in Hd. apply orb_false_iff in Hd as [_ Hd].
      apply bool_decide_eq_false in Hd. destruct (data_dam (me (env s))); [naive_solver|]. simpl in Hsw. destruct pd_swap0. congruence. }
    apply (wp_keeps _ _ _ _ _ keeps_swap_in).
    eapply wp_fault; [|eapply wp_mono; [exact (pipe_swap_in_inv (s <| env := e1 |>) _ _ _ _ _ _ I1 Hz Hsw)|]].
    { intros f. apply asserts_if_mono. by right. }
    cbv beta. intros _ e2 (xs2 & n2 & as2 & sw2 & I2) Ed. apply (Hgap _ _ _ _ e2 I2). rewrite Ed. subst e1. simpl. by rewrite Hd.
  - intros Hcond. eapply Hgap; [split; [exact I1|]|].
    + intros Hsw. subst e1. simpl in *.
      rewrite Hsw in Hcond. simpl in Hcond. apply Z.ltb_ge in Hcond.
      destruct (B Hsw) as (_ & _ & a' & Ha'). split_and!; [done| |eauto]. simpl.
      destruct (decide (lw < 0)); [lia|]. rewrite wrap64_small in Hcond by lia. lia.
    + subst e1 c. simpl. intros [Hd Hc]%andb_true_iff. split; [done|]. rewrite pc_last0.
      replace (pos - N * a) with N by lia. rewrite (wrap64_small N) by (unfold in_u in HN64; lia). exact Hc.
Qed.

(** *** Reading *)

Lemma div_succ G M : 1 ≤ M →
  ((G + 1) `mod` M = 0 → (G + 1) `div` M = G `div` M + 1 ∧ M * (G `div` M + 1) = G + 1) ∧
  ((G + 1) `mod` M ≠ 0 → (G + 1) `div` M = G `div` M).
Proof.
  intros HM. pose proof (Z.div_mod G M) as E1. pose proof (Z.div_mod (G + 1) M) as E2.
  pose proof (Z.mod_pos_bound G M). pose proof (Z.mod_pos_bound (G + 1) M).
  split; intros Hm.
  - assert ((G + 1) `div` M = G `div` M + 1) by nia. split; [done|]. nia.
  - nia.
Qed.

Lemma pipe_read_inv s xs n asleep sw a k m : pinv s xs n asleep sw a k →
  wp (pipe_read m) no_fault (λ r e', ∃ xs' n' asleep' k',
    pinv (PSys e' (if r.1 then got s ++ [r.2] else got s) (wlog s)) xs' n' asleep' sw a k') (env s).
Proof using Hwm.
  intros I. pose proof (inv_bounds _ _ _ _ _ _ _ I) as Hbd.
  pose proof I as [[D C A] B]. pose proof D as []. pose proof C as [].
  pose proof (pdata_length _ _ _ _ _ _ _ D) as Hlen.
  unfold pipe_read. wp_steps. unfold alive_ok in A.
  destruct (alive (me (env s))) eqn:Eal; simpl; [|apply wp_ret; exists xs, n, asleep, k;
    split; [by constructor; unfold alive_ok; simpl; rewrite ?Eal|done]].
  destruct A as [Er ->]. apply wp_bind. destruct n as [|n].
  - destruct (ch_read_none _ _ _ pd_view0) as (p' & E & V). unfold wp at 1. rewrite E. wp_steps.
    apply wp_modify. simpl. wp_steps. apply wp_modify. apply wp_ret. simpl.
    exists xs, 0%nat, true, k. split; [|done]. constructor; simpl; [|by constructor|done].
    constructor; simpl; try done. by apply V.
  - destruct (ch_view_bound _ _ _ _ pd_view0) as [Hn _].
    destruct xs as [|x xs]; [simpl in Hn; lia|].
    destruct (ch_read_law _ _ _ _ pd_view0) as (p' & E & V). unfold wp at 1. rewrite E. wp_steps.
    apply wp_modify. simpl. rewrite bool_decide_false by (apply pd_delim0; by left).
    assert (∀ e1 pm, me e1 = pm → pipe pm = p' → data_dam pm = data_dam (me (env s)) →
      swapping pm = swapping (me (env s)) → in_swap_msg_cnt pm = in_swap_msg_cnt (me (env s)) →
      hwm pm = hw → lwm pm = lw →
      source_thread pm = source_thread (me (env s)) → destination_thread pm = destination_thread (me (env s)) →
      mem e1 = mem (env s) → pdata e1 xs n false sw (got s ++ [x]) (wlog s)) as D'.
    { intros e1 pm Em E1 E2 E3 E4 E5 E6 E7 E8 E9.
      constructor; rewrite ?Em, ?E1, ?E2, ?E3, ?E4, ?E5, ?E6, ?E7, ?E8, ?E9; try done.
      - eapply heap_ok_perm; [|exact pd_heap0]. solve_Permutation.
      - by rewrite <- app_assoc.
      - intros m' ?. apply pd_delim0. by right. }
    assert (∀ c, Z.of_nat (length (got s ++ [x]) + c) = Z.of_nat (length (got s) + Datatypes.S c)) as Elen.
    { intros c. rewrite length_app. simpl. lia. }
    apply wp_bind, wp_when.
    + intros Hz. rewrite pd_hwm0 in Hz. apply negb_true_iff, Z.eqb_neq in Hz.
      pose proof (N_pos Hz) as [HN HN64]. rewrite bool_decide_false in pc_floor0 by done.
      specialize (pc_head0 Hz). apply wp_bind, wp_modify. wp_steps. simpl.
      unfold report_period; simpl. rewrite pd_hwm0, pd_lwm0. fold N. rewrite (wrap64_small N) by (unfold in_u in HN64; lia).
      destruct (Z.eqb_spec N 0); [lia|]. rewrite pc_head0, wrap64_small by (simpl in Hlen; lia).
      set (G := Z.of_nat (length (got s))) in *. destruct (div_succ G N ltac:(lia)) as [Hd1 Hd2].
      assert (G + 1 = Z.of_nat (length (got s ++ [x]))) as EG by (rewrite length_app; simpl; lia).
      apply wp_when.
      * intros Hm%Z.eqb_eq. destruct (Hd1 Hm) as [Hdiv Hmul].
        destruct pd_threads0 as [[st Hst] [dt Hdt]]. unfold send_command; simpl. rewrite Hst, Hdt.
        apply wp_modify, wp_ret. simpl. exists xs, n, false, (Datatypes.S k).
        split; [constructor; simpl|].
        -- by eapply D'; [simpl; reflexivity|..].
        -- rewrite Elen. constructor;
             try (rewrite seq_S, fmap_app, <- pc_heads0; simpl; rewrite heads_app; simpl; do 2 f_equal; lia);
             simpl; try done.
           ++ rewrite bool_decide_false, <- EG by done. lia.
        -- unfold alive_ok. simpl. rewrite Eal, revives_app, Er. done.
        -- rewrite Elen. exact B.
      * intros Hm%Z.eqb_neq. apply wp_ret. simpl. exists xs, n, false, k.
        split; [constructor; simpl|].
        -- by eapply D'; [simpl; reflexivity|..].
        -- rewrite Elen. constructor; simpl; try done.
           rewrite bool_decide_false, <- EG by done. rewrite Hd2 by done. done.
        -- unfold alive_ok. simpl. by rewrite Eal.
        -- rewrite Elen. exact B.
    + intros Hz. rewrite pd_hwm0 in Hz. apply negb_false_iff, Z.eqb_eq in Hz.
      apply wp_ret. simpl. exists xs, n, false, k. split; [constructor; simpl|].
      * by eapply D'; [simpl; reflexivity|..].
      * rewrite Elen. rewrite bool_decide_true in pc_floor0 by done.
        constructor; simpl; try done. by rewrite bool_decide_true.
      * unfold alive_ok. simpl. by rewrite Eal.
      * rewrite Elen. exact B.
Qed.

Lemma pipe_revive_inv s xs n asleep sw a k l : pinv s xs n asleep sw a k →
  take_first revive_of (out (env s)) = Some (tt, l) →
  wp pipe_revive no_fault (λ _ e', pinv (s <| env := e' |>) xs n false sw a k) (env s <| out := l |>).
Proof using Hwm.
  intros [[D C A] B] [Eh Er]%take_first_revive. unfold alive_ok in A. rewrite Er in A.
  destruct (alive (me (env s))) eqn:Eal; [naive_solver|]. destruct asleep; [done|].
  unfold pipe_revive. wp_steps. apply wp_assert; [simpl; by rewrite Eal|]. apply wp_modify. simpl.
  split; [constructor; simpl|done].
  - by destruct D.
  - rewrite <- Eh. by destruct C.
  - unfold alive_ok. simpl. split; [lia|done].
Qed.

Lemma keeps_read m : keeps (λ e, gate (me e)) (pipe_read (P := P) (S := S) m).
Proof.
  unfold pipe_read, modify_me. keeps_auto.
  - intros e r e'. unfold runs. destruct (ch_read _); [|done]. by intros [= _ <-].
  - unfold pipe_terminate_reader, send_command, modify_me. keeps_auto.
  - unfold send_command. keeps_auto.
Qed.

(** *** Gaps *)

Lemma made_gap h : made_message h (raw_message_init_notification no_message gap_tag) h gap_body.
Proof. split; [done|]. split; [done|]. intros ms Hh Hn. split; [|done]. by apply heap_ok_plain_cons. Qed.

Lemma pipe_gap_inv s xs n asleep sw a k : pinv s xs n asleep sw a k → gap_ok (me (env s)) →
  (pipe_check_write (me (env s)) = true → to_swap (me (env s)) = false) →
  Z.of_nat (length (wlog s)) < 2 ^ 31 →
  wp pipe_gap no_fault (λ _ e', (∃ xs' n' asleep' sw',
    pinv (PSys e' (got s) (if pipe_check_write (me (env s)) then wlog s ++ [gap_body] else wlog s)) xs' n' asleep' sw' a k) ∧
    gap_ok (me e')) (env s).
Proof using Hwm.
  intros I G Hto Hn. unfold pipe_gap. wp_steps. destruct (pipe_check_write (me (env s))) eqn:Hc; simpl negb; cbv iota.
  - specialize (Hto eq_refl).
    assert (delayed_gap (me (env s)) = false) as Hd by (apply not_true_is_false; intros Hd%G; congruence).
    wp_steps. apply (wp_keeps (λ e, delayed_gap (me e)));
      [unfold pipe_write, modify_me; keeps_auto|].
    assert (env s = env s <| mem := mem (env s) |>) as -> by by destruct (env s).
    eapply wp_fault; [|eapply wp_mono; [eapply (pipe_write_inv s _ _ _ _ _ _ _ _ gap_body I Hc Hd); [apply made_gap|by rewrite Hto|done]|]].
    { intros f [_ [Ht _]]. congruence. }
    cbv beta. intros _ e1 (xs1 & sw1 & [I1 B1]) Ed. simpl in Ed. rewrite Hd in Ed.
    apply (wp_keeps (λ e, delayed_gap (me e))); [unfold pipe_flush, send_command, modify_me; keeps_auto|].
    eapply wp_mono; [exact (pipe_flush_inv (PSys e1 _ _) _ _ _ _ _ _ I1)|].
    simpl. intros _ e2 (n2 & as2 & I2 & _ & Ec & Es & _) Ed2. split; [|intros Hd2; congruence].
    exists xs1, n2, as2, sw1. split; [exact I2|]. unfold swapping_ok in *. simpl in *. rewrite Ec, Es. exact B1.
  - unfold modify_me. apply wp_modify. simpl. split; [|by intros _; simpl].
    exists xs, n, asleep, sw. destruct I as [[D C A] B]. split; [|done].
    constructor; simpl; [by destruct D|by destruct C|done].
Qed.

(** *** Every step *)

Definition pipe_inv (s : psys) : Prop := (∃ xs n asleep sw a k, pinv s xs n asleep sw a k) ∧ gap_ok (me (env s)).

Lemma pstep_inv s s' : pipe_inv s → pstep s s' → pipe_inv s'.
Proof using Hwm.
  intros [(xs & n & asleep & sw & a & k & I) G] Hst.
  destruct Hst as [m h b e' Hc Hm Hb Hn R|e' Hto Hn R|e' R|pos l e' Ht R|m b m' e' R|l e' Ht R].
  - assert (delayed_gap (me (env s)) = false) as Hd by (apply not_true_is_false; intros Hd%G; congruence).
    destruct (wp_runs _ _ _ _ _ _ (pipe_write_inv _ _ _ _ _ _ _ _ _ _ I Hc Hd Hm Hb Hn) R) as (xs' & sw' & I').
    split; [do 6 eexists; exact I'|]. simpl. intros Hd'.
    assert (keeps (λ e : penv P S, delayed_gap (me e)) (pipe_write m)) as Hk by (unfold pipe_write, modify_me; keeps_auto).
    apply Hk in R. simpl in R. congruence.
  - destruct (wp_runs _ _ _ _ _ _ (pipe_gap_inv _ _ _ _ _ _ _ I G Hto Hn) R) as [(? & ? & ? & ? & I') G'].
    split; [do 6 eexists; exact I'|done].
  - pose proof I as [I0 B].
    destruct (wp_runs _ _ _ _ _ _ (pipe_flush_inv _ _ _ _ _ _ _ I0) R) as (n' & as' & I' & _ & Ec & Es & _).
    split; [do 6 eexists; split; [exact I'|]; unfold swapping_ok in *; simpl; rewrite Ec, Es; exact B|].
    eapply keeps_gate_gap_ok; [|exact R|done]. unfold pipe_flush, send_command, modify_me. keeps_auto.
  - destruct (wp_runs _ _ _ _ _ _ (pipe_set_head_inv _ _ _ _ _ _ _ _ _ I G Ht) R) as [(? & ? & ? & ? & ? & I') G'].
    split; [do 6 eexists; exact I'|done].
  - destruct (wp_runs _ _ _ _ _ _ (pipe_read_inv _ _ _ _ _ _ _ m I) R) as (? & ? & ? & ? & I').
    split; [do 6 eexists; exact I'|]. eapply keeps_gate_gap_ok; [apply keeps_read|exact R|done].
  - pose proof (wp_runs _ _ _ _ _ _ (pipe_revive_inv _ _ _ _ _ _ _ _ I Ht) R) as I'.
    split; [do 6 eexists; exact I'|]. eapply keeps_gate_gap_ok; [|exact R|exact G]. unfold pipe_revive, modify_me. keeps_auto.
Qed.

Lemma preachable_inv s0 s : pipe_inv s0 → rtc pstep s0 s → pipe_inv s.
Proof using Hwm.
  intros I Hr. induction Hr as [|s1 s2 s3 Hst _ IH]; [done|]. apply IH. by eapply pstep_inv.
Qed.

(** The calls that begin the end of a pipe. *)
Lemma terminations_safe s : pipe_inv s →
  wp pipe_terminate_writer no_fault (λ _ _, True) (env s) ∧ wp pipe_terminate_reader no_fault (λ _ _, True) (env s).
Proof using.
  intros [(xs & n & asleep & sw & a & k & [[D _ _] _]) _]. destruct (pd_threads _ _ _ _ _ _ _ D) as [[st Hst] [dt Hdt]].
  assert (∀ e, source_thread (me e) = Some st → destination_thread (me e) = Some dt →
    wp pipe_flush no_fault (λ _ _, True) e) as Hflush.
  { intros e E1 E2. unfold pipe_flush. wp_steps. destruct (ch_flush _) as [[] p']; unfold modify_me; wp_steps; [done|].
    unfold send_command. rewrite E1, E2. by apply wp_modify. }
  split.
  - unfold pipe_terminate_writer, modify_me. wp_steps. apply wp_when; intros _; [|done]. wp_steps.
    eapply wp_mono; [by apply Hflush|]. intros _ e' _. by apply wp_modify.
  - unfold pipe_terminate_reader, modify_me. wp_steps. apply wp_when; intros _; [|done]. wp_steps.
    unfold send_command. rewrite Hst, Hdt. apply wp_modify. by apply wp_modify.
Qed.
End pipe_threads.

(** ** Properties *)

Section pipe_properties.
Context {P S : Type} `{ChannelLaws raw_message P, SwapLaws S}.
Context (wt rt : thread_id) (we re : engine_id) (id : pipe_id) (src dst : engine_info) (limit : Z).

(** The pipe as its constructor leaves it, with an empty heap. *)
Definition psys_new : psys (P := P) (S := S) :=
  PSys (PEnv id (pipe_new wt we rt re src dst) (MHeap ∅ limit []) []) [] [].

Definition pipe_hwm : Z := hwm (me (env psys_new)).
Definition pipe_lwm : Z := lwm (me (env psys_new)).

Definition pipe_dam : bool := has_dam (me (env psys_new)).

(** Watermarks for which the report period is a positive number. *)
Definition usable_watermarks : Prop :=
  pipe_hwm = 0 ∨ -2 ^ 62 < pipe_lwm ≤ pipe_hwm ∧ 0 < pipe_hwm < 2 ^ 62.

Lemma psys_new_inv : usable_watermarks → pipe_inv pipe_hwm pipe_lwm pipe_dam psys_new.
Proof.
  unfold usable_watermarks, pipe_hwm, pipe_lwm, pipe_dam, psys_new, pipe_new. intros Hw.
  simpl in *. destruct (get_watermarks src) as [sh sl], (get_watermarks dst) as [dh dl].
  destruct (if _ || _ then _ else _) as [h l]. simpl in Hw. split; [|done]. exists [], 0%nat, false, [], 0, 0%nat.
  simpl. split; [constructor; simpl|done].
  - constructor; simpl; try done; try lia.
    + apply ch_new_law.
    + by intros m Hm%elem_of_nil.
    + destruct (Z.ltb_spec 0 (i64 (get_swap_size src + get_swap_size dst))); [|done].
      split; [apply sw_new_law; split; [done|apply swrap_lt; lia]|]. by intros b Hb%elem_of_nil.
  - constructor; simpl; try done; try lia. case_bool_decide; [done|]. by rewrite Zdiv_0_l.
  - done.
Qed.

Lemma psys_reachable s : usable_watermarks → rtc pstep psys_new s → pipe_inv pipe_hwm pipe_lwm pipe_dam s.
Proof. intros Hw Hr. eapply preachable_inv; [exact Hw|by apply psys_new_inv|exact Hr]. Qed.

(** C4: until one of its threads ends it, messages leave a pipe in the order in
    which they were written to it, with the type and the bytes they had,
    whether or not they went through the swap on the way; gap notifications
    keep their place among them.  What goes to the swap must have a body: a
    message without one may corrupt the swap, and a gap is not announced while
    messages are swapped. *)
Theorem pipe_fifo s : usable_watermarks → rtc pstep psys_new s →
  (body (mem (env s)) <$> got s) `prefix_of` (Some <$> wlog s).
Proof.
  intros Hw Hr. destruct (psys_reachable s Hw Hr) as [(xs & n & asleep & sw & a & k & [[D _ _] _]) _].
  rewrite <- (pd_bodies _ _ _ _ _ _ _ _ _ _ D), fmap_app, <- app_assoc. by apply prefix_app_r.
Qed.

(** C7: with a high watermark, a pipe holds at most that many messages in
    memory, reported or not; the rest is in the swap. *)
Theorem pipe_bounded s : usable_watermarks → pipe_hwm ≠ 0 → rtc pstep psys_new s →
  Z.of_nat (length (wlog s)) - Z.of_nat (length (got s)) - in_swap_msg_cnt (me (env s)) ≤
    in_core_msg_cnt (me (env s)) ≤ pipe_hwm.
Proof.
  intros Hw Hz Hr. destruct (psys_reachable s Hw Hr) as [(xs & n & asleep & sw & a & k & I) _].
  pose proof (inv_bounds _ _ _ Hw _ _ _ _ _ _ _ I) as Hb. destruct I as [[D C _] _].
  pose proof (pdata_length _ _ _ _ _ _ _ _ _ _ D). pose proof (pd_inswap _ _ _ _ _ _ _ _ _ _ D).
  pose proof (pc_core _ _ _ _ _ _ _ _ C). pose proof (pc_hwm _ _ _ _ _ _ _ _ C Hz). lia.
Qed.

(** C3: with a low watermark of at least one, nothing gets stuck: when the
    writer has flushed, the reader has found the pipe empty and no command is
    on its way, every message written has been read, the swap is empty and
    the pipe takes the next message. *)
Theorem pipe_quiescent s :
  pipe_hwm = 0 ∨ 1 ≤ pipe_lwm ≤ pipe_hwm ∧ pipe_hwm < 2 ^ 62 →
  rtc pstep psys_new s →
  (ch_flush (pipe (me (env s)))).1 = true → alive (me (env s)) = false → out (env s) = [] →
  (body (mem (env s)) <$> got s) = (Some <$> wlog s) ∧
  pipe_check_write (me (env s)) = true ∧ swapping (me (env s)) = false ∧
  in_swap_msg_cnt (me (env s)) = 0.
Proof.
  intros Hw' Hr Hf Ha Ho. assert (usable_watermarks) as Hw by (unfold usable_watermarks; lia).
  destruct (psys_reachable s Hw Hr) as [(xs & n & asleep & sw & a & k & [[D C A] B]) _].
  pose proof D as []. pose proof C as []. unfold alive_ok in A. rewrite Ha, Ho in A.
  destruct asleep; [|done].
  destruct (ch_flush_law _ _ _ _ pd_view0) as (p' & Ef & _).
  rewrite Ef in Hf. simpl in Hf. apply negb_true_iff, Nat.ltb_ge in Hf.
  destruct (ch_view_bound _ _ _ _ pd_view0) as [_ Hn]. rewrite Hn in Hf by done.
  assert (xs = []) as -> by (destruct xs; simpl in Hf; [done|lia]).
  rewrite Nat.add_0_r in *. set (G := Z.of_nat (length (got s))) in *.
  rewrite Ho in pc_heads0. assert (k = 0%nat) as -> by (destruct k; done).
  assert (pipe_hwm ≠ 0 → in_core_msg_cnt (me (env s)) = G `mod` (N pipe_hwm pipe_lwm)) as Hcore.
  { intros Hz. rewrite bool_decide_false in pc_floor0 by done.
    rewrite Z.mod_eq by (unfold N; lia). rewrite pc_core0. do 2 f_equal. lia. }
  assert (swapping (me (env s)) = false) as Esw.
  { apply not_true_is_false. intros Hsw. destruct (B Hsw) as (Hz & Hl & a' & Ha').
    rewrite (Hcore Hz) in Hl. set (M := N pipe_hwm pipe_lwm) in *.
    assert (G `mod` M = (pipe_lwm - 1) `mod` M) as Em.
    { rewrite Ha'. replace (M * a' + pipe_hwm) with (pipe_lwm - 1 + (a' + 1) * M) by (unfold M, N; lia).
      by rewrite Z_mod_plus_full. }
    rewrite Em in Hl. pose proof (Z.mod_le (pipe_lwm - 1) M). unfold M, N in *. lia. }
  rewrite (pd_swapping0 Esw) in *. split_and!; [|..|done|done].
  - rewrite <- pd_bodies0. simpl. by rewrite !app_nil_r.
  - unfold pipe_check_write. rewrite pd_hwm0. destruct (Z.eqb_spec pipe_hwm 0) as [|Hz]; [done|].
    rewrite (u64_hw pipe_hwm pipe_lwm Hw), (Hcore Hz). simpl.
    pose proof (Z.mod_pos_bound G (N pipe_hwm pipe_lwm)).
    destruct (Z.ltb_spec (G `mod` N pipe_hwm pipe_lwm) pipe_hwm); [done|]. unfold N in *. lia.
Qed.

(** C9: with a low watermark of zero or less and no swap, a pipe takes only as
    many messages as its high watermark says, and then never another one,
    however many the reader takes out. *)
Theorem pipe_stalls s : pipe_lwm ≤ 0 → -2 ^ 62 < pipe_lwm → 0 < pipe_hwm < 2 ^ 62 →
  has_dam (me (env psys_new)) = false → rtc pstep psys_new s →
  Z.of_nat (length (wlog s)) ≤ pipe_hwm ∧
  (Z.of_nat (length (wlog s)) = pipe_hwm → pipe_check_write (me (env s)) = false).
Proof.
  intros Hl0 Hl Hh Hd Hr. assert (usable_watermarks) as Hw by (unfold usable_watermarks; lia).
  assert (∀ s xs n asleep sw a k, pinv pipe_hwm pipe_lwm pipe_dam s xs n asleep sw a k →
    has_dam (me (env s)) = false → Z.of_nat (length (wlog s)) ≤ pipe_hwm →
    in_core_msg_cnt (me (env s)) = Z.of_nat (length (wlog s))) as Hcore.
  { clear Hr s. intros s xs n asleep sw a k I Hnd Hle. destruct I as [[D C _] _].
    pose proof (pdata_length _ _ _ _ _ _ _ _ _ _ D) as Hlen. pose proof (pd_swap _ _ _ _ _ _ _ _ _ _ D) as Hsw.
    unfold has_dam in Hnd. destruct (data_dam (me (env s))); [done|]. destruct Hsw as [-> _].
    pose proof (pc_floor _ _ _ _ _ _ _ _ C) as Hf. rewrite bool_decide_false in Hf by lia.
    rewrite Z.div_small in Hf by (unfold N; simpl in Hlen; lia).
    pose proof (pc_a _ _ _ _ _ _ _ _ C). assert (a = 0) as -> by lia.
    rewrite (pc_core _ _ _ _ _ _ _ _ C). simpl in Hlen. lia. }
  assert (pipe_inv pipe_hwm pipe_lwm pipe_dam s ∧
    has_dam (me (env s)) = false ∧ Z.of_nat (length (wlog s)) ≤ pipe_hwm) as (I & Hnd & Hle).
  { assert (pipe_inv pipe_hwm pipe_lwm pipe_dam psys_new ∧
      has_dam (me (env psys_new)) = false ∧ Z.of_nat (length (wlog psys_new)) ≤ pipe_hwm) as Hi.
    { split_and!; [by apply psys_new_inv|done|simpl; lia]. }
    revert Hi. generalize psys_new Hr. clear -Hw Hcore Hl0 Hl Hh Hd. intros s0 Hr.
    induction Hr as [|s1 s2 s3 Hst _ IH]; [done|].
    intros (I1 & Hnd & Hle). apply IH.
    pose proof (pstep_inv pipe_hwm pipe_lwm pipe_dam Hw _ _ I1 Hst) as I2. destruct I1 as [(xs & n & asleep & sw & a & k & I) _]. split_and!.
    - done.
    - destruct I2 as [(? & ? & ? & ? & ? & ? & [[D2 _ _] _]) _]. rewrite <- Hd.
      exact (pd_dam _ _ _ _ _ _ _ _ _ _ D2).
    - specialize (Hcore _ _ _ _ _ _ _ I Hnd Hle).
      assert (pipe_check_write (me (env s1)) = true → Z.of_nat (length (wlog s1)) < pipe_hwm) as Hlt; [intros Hc|].
      2:{ destruct Hst as [m h b e' Hc Hm Hb Hn R|e' _ _ R| | | |]; simpl; [| |done..].
          - rewrite length_app. simpl. specialize (Hlt Hc). lia.
          - destruct (pipe_check_write (me (env s1))); [|done]. rewrite length_app. simpl. specialize (Hlt eq_refl). lia. }
      unfold pipe_check_write in Hc. unfold has_dam in Hnd. rewrite Hnd, orb_false_r in Hc.
      rewrite (pd_hwm _ _ _ _ _ _ _ _ _ _ (pi_data _ _ _ _ _ _ _ _ _ _ (proj1 I))), (u64_hw pipe_hwm pipe_lwm Hw) in Hc.
      destruct (Z.eqb_spec pipe_hwm 0), (Z.ltb_spec (in_core_msg_cnt (me (env s1))) pipe_hwm); simpl in Hc; lia || done. }
  split; [done|]. intros E. destruct I as [(xs & n & asleep & sw & a & k & I) _].
  unfold pipe_check_write. unfold has_dam in Hnd. rewrite Hnd, orb_false_r.
  rewrite (pd_hwm _ _ _ _ _ _ _ _ _ _ (pi_data _ _ _ _ _ _ _ _ _ _ (proj1 I))), (u64_hw pipe_hwm pipe_lwm Hw).
  rewrite (Hcore _ _ _ _ _ _ _ I) by done.
  destruct (Z.eqb_spec pipe_hwm 0), (Z.ltb_spec (Z.of_nat (length (wlog s))) pipe_hwm); lia || done.
Qed.

End pipe_properties.

(** ** The destructor *)

Section pipe_destructor.
Context {P S : Type} `{ChannelLaws raw_message P, Swap S}.

Lemma purge_loop_ok fuel : ∀ (p : P) xs ms h, ch_view p xs (length xs) false →
  heap_ok h (xs ++ ms) → (length xs < fuel)%nat →
  ∃ h', runs (purge_loop fuel p) h tt h' ∧ heap_ok h' ms ∧ buffers h' ≡ₚ buffers h ∧ bodies_kept h h'.
Proof.
  induction fuel as [|fuel IH]; intros p xs ms h V Hh Hf; [lia|].
  unfold runs. simpl. destruct xs as [|x xs]; simpl in *.
  - destruct (ch_read_none _ _ _ V) as (p' & -> & _). eauto using bodies_kept_refl.
  - destruct (ch_read_law _ _ _ _ V) as (p' & -> & V').
    destruct (destroy_ok _ _ _ Hh) as (h1 & R & Hh1 & _ & Hb & Hk).
    destruct (IH p' xs ms h1) as (h2 & R2 & ? & Hb2 & Hk2); [done..|lia|].
    exists h2. split; [by eapply runs_bind|]. split; [done|]. split; [by rewrite Hb2|by eapply bodies_kept_trans].
Qed.

Lemma pipe_delete_ok (p : pipe_t P S) xs n asleep ms h fuel :
  ch_view (pipe p) xs n asleep → heap_ok h (xs ++ ms) → (length xs < fuel)%nat →
  ∃ h', runs (pipe_delete fuel p) h tt h' ∧ heap_ok h' ms ∧ buffers h' ≡ₚ buffers h ∧ bodies_kept h h'.
Proof.
  intros V Hh Hf. unfold pipe_delete. destruct (ch_flush_law _ _ _ _ V) as (p' & -> & V'). simpl.
  destruct (ch_view_bound _ _ _ _ V) as [Hn Ha].
  destruct asleep; simpl in V'; [|by eapply purge_loop_ok].
  rewrite (Ha eq_refl) in V'. destruct xs as [|x xs]; simpl in *; [|by eapply (purge_loop_ok fuel p' (x :: xs))].
  destruct fuel as [|fuel]; [lia|]. unfold runs. simpl.
  destruct (ch_read_none _ _ _ V') as (p'' & -> & _). eauto using bodies_kept_refl.
Qed.

(** C14: deleting a pipe destroys each message left in it once, flushed or not,
    whether the reader sleeps or not, hands each user's buffer back once, and
    leaves every other message its bytes. *)
Theorem pipe_delete_frees (p : pipe_t P S) xs n asleep ms h fuel :
  ch_view (pipe p) xs n asleep → heap_ok h (xs ++ ms) → (length xs < fuel)%nat →
  ∃ h', runs (pipe_delete fuel p) h tt h' ∧ heap_ok h' ms ∧ buffers h' ≡ₚ buffers h ∧
    ∀ m, m ∈ ms → body h' m = body h m.
Proof.
  intros V Hh Hf. destruct (pipe_delete_ok p xs n asleep ms h fuel V Hh Hf) as (h' & R & Hh' & Hb & Hk).
  exists h'. split_and!; [done..|]. intros m Hm. by eapply body_kept.
Qed.
End pipe_destructor.
