(* ===== verification/PipeRuns.v ===== *)
(** Runs of a pipe over the real lock-free pipe and chunked queue, and the
    theorems of [PipeThreads] applied to them. *)
From S2P Require Import Prelude YQueue Channel YPipe Message Command Swap DataDam DataDamFifo DamRuns Pipe PipeThreads.
Local Open Scope Z_scope.

(** A store without room, for pipes that have no swap. *)
#[export] Instance no_room : Swap unit := {
  sw_new := λ _, tt;
  sw_store := λ _, mret false;
  sw_fetch := st_crash AssertFailed;
  sw_empty := λ _, true
}.

#[export] Instance no_room_laws : SwapLaws unit.
Proof.
  refine {| sw_view := λ _ l, l = [] |}; [done|..].
  - intros s l h m ms b -> Hh _ _. exists false, s, h. split; [done|].
    split; [apply bodies_kept_refl|done].
  - done.
  - by intros [] l ->.
Defined.

#[local] Instance slots2 : SlotQueue raw_message (yqueue raw_message) := yqueue_slot_queue 2.
#[local] Instance slots2_laws : SlotQueueLaws raw_message (yqueue raw_message) := yqueue_laws 2 ltac:(lia).

(** ** Schedules *)

(** A one-byte message. *)
Definition byte_message (x : Z) : raw_message := RawMessage (Tag vsm_tag) false 1 [x].

Lemma made_byte_message h x : made_message h (byte_message x) h (0, [x]).
Proof.
  split; [done|]. split; [done|]. intros ms Hh Hn. split; [|done]. by apply heap_ok_plain_cons.
Qed.

Inductive pevent := EWrite (x : Z) | EGap | EFlush | EHead | ERead | ERevive.

Section schedules.
Context {S : Type} `{!Swap S}.
Abbreviation sys := (psys (P := ypipe (yqueue raw_message)) (S := S)).

Definition on_env (f : list (Z * list Z) → list (Z * list Z)) (s : sys) (r : res (unit * penv (ypipe (yqueue raw_message)) S)) : option sys :=
  match r with Ok (_, e') => Some (PSys e' (got s) (f (wlog s))) | Crash _ => None end.

Definition few (s : sys) : bool := Z.of_nat (length (wlog s)) <? 2 ^ 31.

Definition pexec (s : sys) (e : pevent) : option sys :=
  match e with
  | EWrite x =>
      if pipe_check_write (me (env s)) && few s
      then on_env (λ l, l ++ [(0, [x])]) s (pipe_write (byte_message x) (env s)) else None
  | EGap =>
      if implb (pipe_check_write (me (env s))) (negb (to_swap (me (env s)))) && few s
      then on_env (λ l, if pipe_check_write (me (env s)) then l ++ [gap_body] else l) s (pipe_gap (env s)) else None
  | EFlush => on_env id s (pipe_flush (env s))
  | EHead =>
      '(pos, l) ← take_first head_of (out (env s));
      on_env id s (pipe_set_head pos (env s <| out := l |>))
  | ERead =>
      match pipe_read no_message (env s) with
      | Ok ((b, m'), e') => Some (PSys e' (if b then got s ++ [m'] else got s) (wlog s))
      | Crash _ => None
      end
  | ERevive =>
      '(u, l) ← take_first revive_of (out (env s));
      on_env id s (pipe_revive (env s <| out := l |>))
  end.

Definition prun (es : list pevent) (s : sys) : option sys :=
  foldl (λ o e, s ← o; pexec s e) (Some s) es.

Lemma on_env_some f s r s' : on_env f s r = Some s' → ∃ e', r = Ok (tt, e') ∧ s' = PSys e' (got s) (f (wlog s)).
Proof. destruct r as [[[] e']|]; [|done]. intros [= <-]. eauto. Qed.

Lemma pexec_sound s e s' : pexec s e = Some s' → pstep s s'.
Proof.
  intros E. destruct e; simpl in E; unfold few in E.
  - destruct (pipe_check_write _) eqn:Ec; [|done]. destruct (Z.ltb_spec (Z.of_nat (length (wlog s))) (2 ^ 31)); [|done].
    apply on_env_some in E as (e' & E & ->).
    apply (ps_write _ (byte_message x) (mem (env s)) (0, [x])); [done|apply made_byte_message|done|done|].
    unfold runs. by destruct (env s).
  - destruct (implb _ _) eqn:Ec; [|done]. destruct (Z.ltb_spec (Z.of_nat (length (wlog s))) (2 ^ 31)); [|done].
    apply on_env_some in E as (e' & E & ->). apply ps_gap; [|done|done].
    intros Hw. rewrite Hw in Ec. by destruct (to_swap _).
  - apply on_env_some in E as (e' & E & ->). by apply (ps_flush s e').
  - destruct (take_first _ _) as [[pos l]|] eqn:Et; [|done]. apply on_env_some in E as (e' & E & ->).
    by eapply (ps_head s pos l e').
  - destruct (pipe_read _ _) as [[[b m'] e']|] eqn:Ew; [|done]. injection E as <-. by apply (ps_read s no_message b m' e').
  - destruct (take_first _ _) as [[[] l]|] eqn:Et; [|done]. apply on_env_some in E as (e' & E & ->).
    by eapply (ps_revive s l e').
Qed.

Lemma prun_sound es s s' : prun es s = Some s' → rtc pstep s s'.
Proof.
  revert s. unfold prun. induction es as [|e es IH]; intros s E; simpl in E; [by simplify_eq|].
  destruct (pexec s e) as [s1|] eqn:E1.
  - eapply rtc_l; [by eapply pexec_sound|by apply IH].
  - exfalso. clear -E. by induction es.
Qed.

(** The reader's watermarks, and its part of the swap. *)
Definition demo_new (hwm lwm swap : Z) : sys :=
  psys_new 1 2 1 2 7 (EngineInfo (0, 0) 0) (EngineInfo (hwm, lwm) swap) 1000.

Abbreviation demo_hwm h l w := (pipe_hwm (P := ypipe (yqueue raw_message)) (S := S)
  1 2 1 2 7 (EngineInfo (0, 0) 0) (EngineInfo (h, l) w) 1000).
Abbreviation demo_lwm h l w := (pipe_lwm (P := ypipe (yqueue raw_message)) (S := S)
  1 2 1 2 7 (EngineInfo (0, 0) 0) (EngineInfo (h, l) w) 1000).

Lemma demo_marks hwm lwm swap : -2 ^ 62 < lwm ≤ hwm ∧ 0 < hwm < 2 ^ 62 →
  demo_hwm hwm lwm swap = hwm ∧ demo_lwm hwm lwm swap = lwm.
Proof.
  intros Hw. unfold pipe_hwm, pipe_lwm, psys_new, pipe_new. simpl.
  destruct (Z.eqb_spec hwm (-1)); [lia|]. simpl. by rewrite !swrap_small by lia.
Qed.

Lemma demo_usable hwm lwm swap : -2 ^ 62 < lwm ≤ hwm ∧ 0 < hwm < 2 ^ 62 →
  usable_watermarks (P := ypipe (yqueue raw_message)) (S := S) 1 2 1 2 7 (EngineInfo (0, 0) 0) (EngineInfo (hwm, lwm) swap) 1000.
Proof. intros Hw. right. destruct (demo_marks hwm lwm swap Hw) as [-> ->]. lia. Qed.
End schedules.

Abbreviation high h l w := (pipe_hwm (P := ypipe (yqueue raw_message)) (S := unit)
  1 2 1 2 7 (EngineInfo (0, 0) 0) (EngineInfo (h, l) w) 1000).

(** Watermarks 3 and 2: the reader reports every second message. *)
Definition demo_busy : list pevent :=
  [EWrite 10; EGap; EWrite 12; EFlush; ERead; ERead; EHead; EWrite 13; ERead; ERead].

Lemma demo_busy_runs : ∃ s, prun demo_busy (demo_new (S := unit) 3 2 0) = Some s ∧ negb (alive (me (env s))) = true.
Proof. apply option_computes. vm_compute. reflexivity. Qed.

Definition demo_quiet : list pevent := demo_busy ++ [EFlush; ERevive; ERead; EHead; ERead].

Definition quiet {S} (s : psys (P := ypipe (yqueue raw_message)) (S := S)) : bool :=
  (ch_flush (pipe (me (env s)))).1 && negb (alive (me (env s))) && bool_decide (length (out (env s)) = 0%nat).

Lemma demo_quiet_runs : ∃ s, prun demo_quiet (demo_new (S := unit) 3 2 0) = Some s ∧ quiet s = true.
Proof. apply option_computes. vm_compute. reflexivity. Qed.

Definition demo_stalled : list pevent := [EWrite 1; EWrite 2; EFlush; ERead; ERead; ERead].

Lemma demo_stalled_runs : ∃ s, prun demo_stalled (demo_new (S := unit) 2 0 0) = Some s ∧ (length (wlog s) =? 2)%nat = true.
Proof. apply (option_computes (λ s, (length (wlog s) =? 2)%nat)). vm_compute. reflexivity. Qed.

(** With a swap of 64 bytes: a gap, then five messages, of which three go
    through the swap. *)
Definition demo_swapped : list pevent :=
  [EGap; EWrite 10; EWrite 11; EWrite 12; EWrite 13; EWrite 14; EFlush; ERead; ERead; EHead; ERead; ERead; EHead; ERead; ERead].

Definition all_read (l : list (Z * list Z)) (s : psys (P := ypipe (yqueue raw_message)) (S := data_dam_t image)) : bool :=
  bool_decide (body (mem (env s)) <$> got s = Some <$> l) && bool_decide (wlog s = l).

Abbreviation demo_dam := (demo_new (S := data_dam_t image) 3 2 64).

(** On the way, messages are in the swap, and a head position is due. *)
Definition demo_midway (s : psys (P := ypipe (yqueue raw_message)) (S := data_dam_t image)) : bool :=
  swapping (me (env s)) && (length (got s) =? 4)%nat && bool_decide (is_Some (data_dam (me (env s)))) && few s &&
  bool_decide (is_Some (take_first head_of (out (env s)))).

Lemma demo_swapping_runs : ∃ s, prun (take 12 demo_swapped) demo_dam = Some s ∧ demo_midway s = true.
Proof. apply option_computes. vm_compute. reflexivity. Qed.

Lemma demo_swapped_runs : ∃ s, prun demo_swapped demo_dam = Some s ∧
  all_read [gap_body; (0, [10]); (0, [11]); (0, [12]); (0, [13]); (0, [14])] s = true.
Proof. apply option_computes. vm_compute. reflexivity. Qed.

(** ** The theorems applied *)

(** Without a swap, and with one through which half of the messages went. *)
Lemma pipe_fifo_witness :
  (∃ s, prun demo_busy (demo_new (S := unit) 3 2 0) = Some s ∧
    (body (mem (env s)) <$> got s) `prefix_of` (Some <$> wlog s)) ∧
  (∃ s, prun (take 12 demo_swapped) demo_dam = Some s ∧ swapping (me (env s)) = true ∧ length (got s) = 4%nat ∧
    (body (mem (env s)) <$> got s) `prefix_of` (Some <$> wlog s)) ∧
  ∃ s, prun demo_swapped demo_dam = Some s ∧
    all_read [gap_body; (0, [10]); (0, [11]); (0, [12]); (0, [13]); (0, [14])] s = true ∧
    (body (mem (env s)) <$> got s) `prefix_of` (Some <$> wlog s).
Proof.
  split; [|split].
  - destruct demo_busy_runs as (s & E & _). exists s. split; [exact E|].
    exact (pipe_fifo 1 2 1 2 7 (EngineInfo (0, 0) 0) (EngineInfo (3, 2) 0) 1000 s (demo_usable 3 2 0 ltac:(lia)) (prun_sound _ _ _ E)).
  - destruct demo_swapping_runs as (s & E & Hs). exists s. split; [exact E|].
    apply andb_true_iff in Hs as [[[[Hs Hg]%andb_true_iff _]%andb_true_iff _]%andb_true_iff _].
    split; [exact Hs|]. split; [apply Nat.eqb_eq; exact Hg|].
    exact (pipe_fifo 1 2 1 2 7 (EngineInfo (0, 0) 0) (EngineInfo (3, 2) 64) 1000 s (demo_usable 3 2 64 ltac:(lia)) (prun_sound _ _ _ E)).
  - destruct demo_swapped_runs as (s & E & Hs). exists s. split; [exact E|]. split; [exact Hs|].
    exact (pipe_fifo 1 2 1 2 7 (EngineInfo (0, 0) 0) (EngineInfo (3, 2) 64) 1000 s (demo_usable 3 2 64 ltac:(lia)) (prun_sound _ _ _ E)).
Defined.

Lemma pipe_bounded_witness :
  ∃ s, prun demo_busy (demo_new (S := unit) 3 2 0) = Some s ∧
    Z.of_nat (length (wlog s)) - Z.of_nat (length (got s)) - in_swap_msg_cnt (me (env s)) ≤
      in_core_msg_cnt (me (env s)) ≤ high 3 2 0.
Proof.
  destruct demo_busy_runs as (s & E & _). exists s. split; [exact E|].
  apply (pipe_bounded 1 2 1 2 7 (EngineInfo (0, 0) 0) (EngineInfo (3, 2) 0) 1000).
  - exact (demo_usable 3 2 0 ltac:(lia)).
  - destruct (demo_marks (S := unit) 3 2 0) as [-> _]; lia.
  - exact (prun_sound _ _ _ E).
Defined.

Lemma pipe_quiescent_witness :
  ∃ s, prun demo_quiet (demo_new (S := unit) 3 2 0) = Some s ∧
    (body (mem (env s)) <$> got s) = (Some <$> wlog s) ∧
    pipe_check_write (me (env s)) = true ∧ swapping (me (env s)) = false ∧
    in_swap_msg_cnt (me (env s)) = 0.
Proof.
  destruct demo_quiet_runs as (s & E & Q). exists s. split; [exact E|].
  apply andb_true_iff in Q as [[Q1 Q2]%andb_true_iff Q3].
  apply (pipe_quiescent 1 2 1 2 7 (EngineInfo (0, 0) 0) (EngineInfo (3, 2) 0) 1000).
  - right. destruct (demo_marks (S := unit) 3 2 0) as [Eh El]; [lia|]. rewrite Eh, El. lia.
  - exact (prun_sound _ _ _ E).
  - exact Q1.
  - apply negb_true_iff. exact Q2.
  - apply bool_decide_eq_true in Q3. apply nil_length_inv. exact Q3.
Defined.

Lemma pipe_stalls_witness :
  ∃ s, prun demo_stalled (demo_new (S := unit) 2 0 0) = Some s ∧ length (wlog s) = 2%nat ∧
    Z.of_nat (length (wlog s)) ≤ high 2 0 0 ∧
    (Z.of_nat (length (wlog s)) = high 2 0 0 → pipe_check_write (me (env s)) = false).
Proof.
  destruct demo_stalled_runs as (s & E & Q). exists s. split; [exact E|].
  split; [apply Nat.eqb_eq; exact Q|]. destruct (demo_marks (S := unit) 2 0 0) as [Eh El]; [lia|].
  apply (pipe_stalls 1 2 1 2 7 (EngineInfo (0, 0) 0) (EngineInfo (2, 0) 0) 1000).
  - rewrite El. lia.
  - rewrite El. lia.
  - rewrite Eh. lia.
  - reflexivity.
  - exact (prun_sound _ _ _ E).
Defined.


(** A gap that had to wait is written by [set_head] while [delayed_gap] is
    still set, which [write] refuses: the program is aborted. *)
Lemma pipe_delayed_gap_aborts {P S} `{!Channel raw_message P, !Swap S} (pos : Z) (e : penv P S) :
  delayed_gap (me e) = true → swapping (me e) = false →
  pipe_check_write (me e <| in_core_msg_cnt :=
    u64 (in_core_msg_cnt (me e) - u64 (pos - last_head_position (me e))) |>) = true →
  pipe_set_head pos e = Crash AssertFailed.
Proof.
  intros Hg Hs Hc. unfold pipe_set_head, mbind, st_bind, modify_me, st_modify, st_get, st_when. simpl.
  rewrite Hs. simpl. unfold mret, st_ret. rewrite Hg. unfold pipe_check_write in *. simpl in *. rewrite Hc. simpl.
  unfold pipe_write, mbind, st_bind, st_get, st_assert. simpl. by rewrite ?Hg.
Qed.

(** Three messages are left, the last not flushed: one that carries its bytes
    itself, one of two that share a block, and one with a buffer of the user. *)
Lemma pipe_delete_frees_witness :
  let small := byte_message 9 in
  let half := RawMessage (Ptr 1) true 0 [] in
  let users := RawMessage (Ptr 2) false 0 [] in
  let h := MHeap {[1%positive := Content Inline 2 None 2 [7; 8]; 2%positive := Content (User 5) 3 (Some 4%positive) 0 [1; 2; 3]]} 1000 [] in
  let fresh := pipe_new (P := ypipe (yqueue raw_message)) (S := unit) 1 1 2 2 (EngineInfo (0, 0) 0) (EngineInfo (0, 0) 0) in
  let p := fresh <| pipe := ch_write (ch_flush (ch_write (ch_write (pipe fresh) small) half)).2 users |> in
  ∃ h', runs (pipe_delete 4 p) h tt h' ∧ heap_ok h' [half] ∧ buffers h' ≡ₚ [(4%positive, 5%positive)] ∧
    ∀ m, m ∈ [half] → body h' m = Some (0, [7; 8]).
Proof.
  intros small half users h fresh p.
  pose proof (ch_write_law _ _ _ _ half (ch_write_law _ _ _ _ small (ch_new_law (P := ypipe (yqueue raw_message)) false))) as V.
  destruct (ch_flush_law _ _ _ _ V) as (p' & E & V').
  apply (ch_write_law _ _ _ _ users) in V'.
  assert (heap_ok h [small; half; users; half]) as Hh.
  { constructor; [|repeat constructor|reflexivity]. intros l.
    destruct (decide (l = 1%positive)) as [->|H1]; [right; split; [simpl; lia|]; split; [by repeat constructor|done]|].
    destruct (decide (l = 2%positive)) as [->|H2]; [left; split; [done|by repeat constructor]|].
    simpl. rewrite lookup_insert_ne, lookup_singleton_ne by done. unfold refs.
    rewrite !filter_cons_False by (unfold refers; simpl; congruence). done. }
  destruct (pipe_delete_frees p [small; half; users] 2 false [half] h 4) as (h' & Hr & Hh' & Hb & Hm).
  - change (pipe p) with (ch_write (ch_flush (ch_write (ch_write (ch_new (Channel := ypipe_channel) false) small) half)).2 users).
    rewrite E. exact V'.
  - exact Hh.
  - simpl. lia.
  - exists h'. split; [exact Hr|]. split; [exact Hh'|]. split; [exact Hb|].
    intros m Hin. rewrite (Hm m Hin). apply list_elem_of_singleton in Hin as ->. reflexivity.
Defined.
