(* ===== verification/Store.v ===== *)
(** The objects a thread reaches through pointers: the message heap, the pipes
    and the commands its calls send.  A pipe is known by its address; using
    one that was deleted is a fault. *)
From S2P Require Import Prelude Channel Message Command Swap Pipe.

Section store.
Context {P S : Type} `{!Channel raw_message P, !Swap S}.

Record store := Store {
  heap : mheap;
  pipes : gmap pipe_id (pipe_t P S);
  sent_out : list sent
}.
#[export] Instance eta_store : Eta store := λ w, Store (heap w) (pipes w) (sent_out w).

(** [pipe->f ()]. *)
Definition on_pipe {A} (id : pipe_id) (f : ST (penv P S) A) : ST store A :=
  λ w, match pipes w !! id with
       | None => Crash UseAfterFree
       | Some p =>
           match f (PEnv id p (heap w) (sent_out w)) with
           | Ok (a, e) => Ok (a, Store (mem e) (<[id := me e]> (pipes w)) (out e))
           | Crash f => Crash f
           end
       end.

Definition on_heap {A} : ST mheap A → ST store A := st_lift heap (λ h w, w <| heap := h |>).

(** [pipe->check_write ()]. *)
Definition check_write (id : pipe_id) : ST store bool :=
  on_pipe id (e ← st_get; mret (pipe_check_write (me e))).

(** [delete pipe]; [fuel] bounds the messages left in it. *)
Definition delete_pipe (fuel : nat) (id : pipe_id) : ST store unit :=
  λ w, match pipes w !! id with
       | None => Crash UseAfterFree
       | Some p =>
           match pipe_delete fuel p (heap w) with
           | Ok (_, h) => Ok (tt, w <| heap := h |> <| pipes := delete id (pipes w) |>)
           | Crash f => Crash f
           end
       end.
End store.

Arguments store P S : clear implicits.
