(* ===== verification/Mux.v ===== *)
(** The object that reads from several pipes in turn
    ([src/libzmq/mux.cpp]). *)
From S2P Require Import Prelude Channel Message Command Swap Pipe Store.

Section mux.
Context {P S : Type} `{!Channel raw_message P, !Swap S}.

Record mux_t := Mux { mux_pipes : list pipe_id; current : nat }.
#[export] Instance eta_mux : Eta mux_t := λ m, Mux (mux_pipes m) (current m).

Definition mux_new : mux_t := Mux [] 0.

Definition mux_receive_from (m : mux_t) (pipe_ : pipe_id) : mux_t :=
  m <| mux_pipes := mux_pipes m ++ [pipe_] |>.

Definition mux_empty (m : mux_t) : bool := bool_decide (length (mux_pipes m) = 0).

(** [current ++] with its wrap-around. *)
Definition next_current (n current : nat) : nat :=
  if bool_decide (current + 1 = n) then 0 else current + 1.

(** The loop of [read]: the result, the message and the new [current]. *)
Fixpoint mux_read_loop (to_process : nat) (l : list pipe_id) (cur : nat) (msg_ : raw_message)
    : ST (store P S) (bool * raw_message * nat) :=
  match to_process with
  | O => mret (false, msg_, cur)
  | Datatypes.S to_process =>
      id ← st_of_option BadAccess (l !! cur);
      '(retrieved, msg_) ← on_pipe id (pipe_read msg_);
      let cur := next_current (length l) cur in
      (if retrieved : bool then mret (true, msg_, cur)
       else mux_read_loop to_process l cur msg_ : ST (store P S) _)
  end.

Definition mux_read (m : mux_t) (msg_ : raw_message) : ST (store P S) (bool * raw_message * mux_t) :=
  on_heap (raw_message_destroy msg_) ;;
  '(retrieved, msg_, cur) ← mux_read_loop (length (mux_pipes m)) (mux_pipes m) (current m) msg_;
  let m := m <| current := cur |> in
  (if retrieved : bool then mret (true, msg_, m)
   else
     msg_ ← on_heap (raw_message_init msg_ 0);
     mret (false, msg_, m) : ST (store P S) _).

(** [pipes.erase (it)] and the adjustment of [current]. *)
Definition erase_pipe (i : nat) (l : list pipe_id) (cur : nat) : list pipe_id * nat :=
  let l := delete i l in (l, if bool_decide (cur = length l) then 0 else cur).

Definition mux_release_pipe (fuel : nat) (m : mux_t) (pipe_ : pipe_id) : ST (store P S) mux_t :=
  match list_find (λ id, id = pipe_) (mux_pipes m) with
  | Some (i, id) =>
      delete_pipe fuel id ;;
      let '(l, cur) := erase_pipe i (mux_pipes m) (current m) in
      mret (Mux l cur)
  | None => st_crash AssertFailed
  end.

Definition mux_initialise_shutdown (m : mux_t) : ST (store P S) unit :=
  st_for (mux_pipes m) (λ id, on_pipe id pipe_terminate_reader).

(** ** Properties *)

(** [current] is a valid index unless there are no pipes. *)
Definition mux_wf (m : mux_t) : Prop :=
  current m < length (mux_pipes m) ∨ (current m = 0 ∧ mux_pipes m = []).

Lemma next_current_lt n cur : cur < n → next_current n cur < n.
Proof. unfold next_current. case_bool_decide; lia. Qed.

(** The pipe asked [k] turns after the one at [cur]. *)
Definition turn (n cur k : nat) : nat := (cur + k) `mod` n.

Lemma turn_next n cur k : cur < n → turn n (next_current n cur) k = turn n cur (1 + k).
Proof.
  intros Hc. unfold turn, next_current. case_bool_decide as E.
  - replace (cur + (1 + k)) with (k + 1 * n) by lia. by rewrite Nat.Div0.mod_add.
  - f_equal. lia.
Qed.

Lemma turn_0 n cur : cur < n → turn n cur 0 = cur.
Proof. intros. unfold turn. rewrite Nat.add_0_r. by apply Nat.mod_small. Qed.

Inductive asked (l : list pipe_id) : nat → nat → raw_message → store P S → bool → raw_message → store P S → Prop :=
  | asked_none cur msg w : asked l 0 cur msg w false msg w
  | asked_hit cur id msg w msg' w' :
      l !! cur = Some id → runs (on_pipe id (pipe_read msg)) w (true, msg') w' →
      asked l 1 cur msg w true msg' w'
  | asked_miss k cur id msg w msg1 w1 b msg' w' :
      l !! cur = Some id → runs (on_pipe id (pipe_read msg)) w (false, msg1) w1 →
      asked l k (next_current (length l) cur) msg1 w1 b msg' w' →
      asked l (Datatypes.S k) cur msg w b msg' w'.

Lemma mux_read_loop_asked n l : ∀ cur msg w b msg' cur' w', cur < length l →
  runs (mux_read_loop n l cur msg) w (b, msg', cur') w' →
  ∃ k, asked l k cur msg w b msg' w' ∧ (if b then k ≤ n else k = n) ∧ cur' = turn (length l) cur k.
Proof.
  induction n as [|n IH]; intros cur msg w b msg' cur' w' Hc Hr.
  - unfold runs in Hr. simpl in Hr. unfold mret, st_ret in Hr. simplify_eq.
    exists 0. split; [constructor|]. split; [done|]. by rewrite turn_0.
  - simpl in Hr. destruct (l !! cur) as [id|] eqn:El; [|apply lookup_ge_None in El; lia].
    apply runs_bind_inv in Hr as (id' & w0 & Hr0 & Hr). unfold runs in Hr0. simpl in Hr0.
    unfold mret, st_ret in Hr0. injection Hr0 as <- <-.
    apply runs_bind_inv in Hr as ([retrieved msg1] & w1 & Hr1 & Hr).
    destruct retrieved.
    + unfold runs, mret, st_ret in Hr. injection Hr as <- <- <- <-.
      exists 1. split; [by econstructor|]. split; [lia|].
      replace 1 with (1 + 0) by lia. rewrite <- turn_next, turn_0 by eauto using next_current_lt. done.
    + apply IH in Hr as (k & Ha & Hk & ->); [|by apply next_current_lt].
      exists (Datatypes.S k). split; [by econstructor|]. split; [destruct b; lia|].
      by rewrite turn_next.
Qed.

(** How many turns away the pipe at [i] is. *)
Definition dist (n i cur : nat) : nat := (i + n - cur) `mod` n.

Lemma mod_cases a n : a < 2 * n → a `mod` n = if bool_decide (a < n) then a else a - n.
Proof.
  intros Ha. case_bool_decide; [by apply Nat.mod_small|].
  replace a with (a - n + 1 * n) at 1 by lia. rewrite Nat.Div0.mod_add. apply Nat.mod_small. lia.
Qed.

Lemma dist_turn n i cur : i < n → cur < n → turn n cur (dist n i cur) = i ∧ dist n i cur < n.
Proof.
  intros Hi Hc. unfold turn, dist. rewrite (mod_cases (i + n - cur)) by lia.
  case_bool_decide; rewrite mod_cases by lia; case_bool_decide; lia.
Qed.

Lemma dist_closer n i cur k : i < n → cur < n → 0 < k → k ≤ dist n i cur →
  dist n i (turn n cur k) < dist n i cur.
Proof.
  intros Hi Hc Hk Hkd. destruct (dist_turn n i cur Hi Hc) as [_ Hd].
  unfold dist, turn in *. rewrite (mod_cases (cur + k) n) by lia.
  rewrite (mod_cases (i + n - cur) n) in * by lia.
  repeat case_bool_decide; rewrite mod_cases by lia; case_bool_decide; lia.
Qed.

Lemma asked_positive l k cur msg w b msg' w' : asked l k cur msg w b msg' w' → b = true → 0 < k.
Proof. destruct 1; [done|lia..]. Qed.

(** A read asks the pipes in turn, starting at [current], until one gives
    a message; it returns false only when it has asked all of them.  The pipe
    after the last one asked comes first next time, so that every pipe not
    asked has come closer to its turn. *)
Theorem mux_read_fair m msg w b msg' m' w' :
  mux_wf m → runs (mux_read m msg) w (b, msg', m') w' →
  let n := length (mux_pipes m) in
  mux_wf m' ∧ mux_pipes m' = mux_pipes m ∧
  ∃ k w1 msg1 w2,
    runs (on_heap (raw_message_destroy msg)) w tt w1 ∧
    asked (mux_pipes m) k (current m) msg w1 b msg1 w2 ∧
    (if b then 0 < k ≤ n ∧ msg' = msg1 ∧ w' = w2
     else k = n ∧ runs (on_heap (raw_message_init msg1 0)) w2 msg' w') ∧
    (b = true → ∀ i, i < n →
      (∃ j, j < k ∧ turn n (current m) j = i) ∨ dist n i (current m') < dist n i (current m)).
Proof.
  intros Hwf Hr n. unfold mux_read in Hr.
  apply runs_bind_inv in Hr as ([] & w1 & Hr1 & Hr).
  apply runs_bind_inv in Hr as ([[retrieved msg1] cur'] & w2 & Hr2 & Hr).
  destruct Hwf as [Hc|[Hc Hn]].
  - apply mux_read_loop_asked in Hr2 as (k & Ha & Hk & ->); [|done]. fold n in Hk, Hc |- *.
    assert (turn n (current m) k < n) as Ht by (apply Nat.mod_upper_bound; lia).
    destruct retrieved.
    + unfold runs, mret, st_ret in Hr. injection Hr as <- <- <- <-.
      split; [by left|]. split; [done|]. exists k, w1, msg1, w2.
      pose proof (asked_positive _ _ _ _ _ _ _ _ Ha eq_refl).
      split_and!; [done..|]. intros _ i Hi. destruct (dist_turn n i (current m) Hi Hc) as [Ed Hd].
      destruct (decide (dist n i (current m) < k)); [left; eauto|right].
      apply dist_closer; [done..|lia].
    + apply runs_bind_inv in Hr as (msg2 & w3 & Hr3 & Hr). unfold runs, mret, st_ret in Hr.
      injection Hr as <- <- <- <-. split; [by left|]. split; [done|]. exists k, w1, msg1, w2. done.
  - rewrite Hn, Hc in Hr2. unfold runs in Hr2. simpl in Hr2. unfold mret, st_ret in Hr2.
    injection Hr2 as <- <- <- <-. apply runs_bind_inv in Hr as (msg2 & w3 & Hr3 & Hr). unfold runs, mret, st_ret in Hr.
    injection Hr as <- <- <- <-. split; [right; simpl; done|]. split; [done|].
    exists 0, w1, msg, w1. subst n. rewrite Hn. split_and!; try done. constructor.
Qed.
End mux.
