(* ===== verification/Demux.v ===== *)
(** The objects that distribute messages among pipes
    ([src/libzmq/load_balancer.cpp], [publisher.cpp]) behind the interface of
    [zmq/i_demux.hpp]. *)
From S2P Require Import Prelude Atomics Channel Message Command Swap Pipe Store.
Local Open Scope Z_scope.

(** ** i_demux *)

Section i_demux.
Context {P S : Type} `{!Channel raw_message P, !Swap S}.

(** [write] returns the result and the message object after the call. *)
Class IDemux (D : Type) := {
  demux_pipes : D → list pipe_id;
  demux_send_to : D → pipe_id → D;
  demux_write : D → raw_message → ST (store P S) (bool * raw_message * D);
  demux_flush : D → ST (store P S) unit;
  demux_gap : D → ST (store P S) unit;
  demux_empty : D → bool;
  demux_load_balancing : D → bool;
  demux_release_pipe : D → pipe_id → res D;
  demux_initialise_shutdown : D → ST (store P S) unit
}.

(** ** Shared by both *)

Definition write_all (l : list pipe_id) (msg : raw_message) : ST (store P S) unit :=
  st_for l (λ id, on_pipe id (pipe_write msg)).

Definition is_delimiter (msg : raw_message) : bool := bool_decide (content msg = Tag delimiter_tag).

(** [raw_message_init (msg, 0)]. *)
Definition detached (msg : raw_message) : raw_message := msg <| content := Tag vsm_tag |> <| vsm_size := 0 |>.

(** ** load_balancer_t *)

Record load_balancer_t := LoadBalancer { lb_pipes : list pipe_id; lb_current : nat }.

Definition load_balancer_new : load_balancer_t := LoadBalancer [] 0.

Definition load_balancer_send_to (d : load_balancer_t) (pipe_ : pipe_id) : load_balancer_t :=
  LoadBalancer (lb_pipes d ++ [pipe_]) (lb_current d).

(** The search for a pipe that is ready: [found] and the new [current]. *)
Fixpoint find_ready (n : nat) (l : list pipe_id) (cur : nat) : ST (store P S) (bool * nat) :=
  match n with
  | O => mret (false, cur)
  | Datatypes.S n =>
      id ← st_of_option BadAccess (l !! cur);
      ready ← check_write id;
      (if ready : bool then mret (true, cur)
       else find_ready n l (Nat.modulo (cur + 1) (length l)) : ST (store P S) _)
  end.

Definition load_balancer_write (d : load_balancer_t) (msg_ : raw_message)
    : ST (store P S) (bool * raw_message * load_balancer_t) :=
  if is_delimiter msg_ then
    write_all (lb_pipes d) msg_ ;;
    msg_ ← on_heap (raw_message_init msg_ 0);
    mret (true, msg_, d)
  else if bool_decide (length (lb_pipes d) = 0%nat) then mret (false, msg_, d)
  else
    r ← find_ready (length (lb_pipes d)) (lb_pipes d) (lb_current d);
    let '(found, cur) := r : bool * nat in
    (if negb found then mret (false, msg_, LoadBalancer (lb_pipes d) cur)
     else
       id ← st_of_option BadAccess (lb_pipes d !! cur);
       on_pipe id (pipe_write msg_) ;;
       msg_ ← on_heap (raw_message_init msg_ 0);
       mret (true, msg_, LoadBalancer (lb_pipes d) (Nat.modulo (cur + 1) (length (lb_pipes d))))
     : ST (store P S) _).

Definition load_balancer_flush (d : load_balancer_t) : ST (store P S) unit :=
  st_for (lb_pipes d) (λ id, on_pipe id pipe_flush).

Definition load_balancer_gap (d : load_balancer_t) : ST (store P S) unit :=
  st_for (lb_pipes d) (λ id, on_pipe id pipe_gap).

Definition load_balancer_empty (d : load_balancer_t) : bool := bool_decide (length (lb_pipes d) = 0%nat).

Definition load_balancer_release_pipe (d : load_balancer_t) (pipe_ : pipe_id) : res load_balancer_t :=
  match list_find (λ id, id = pipe_) (lb_pipes d) with
  | None => Crash AssertFailed
  | Some (i, _) =>
      let l := delete i (lb_pipes d) in
      Ok (LoadBalancer l (if bool_decide (lb_current d = length l) then 0%nat else lb_current d))
  end.

Definition load_balancer_initialise_shutdown (d : load_balancer_t) : ST (store P S) unit :=
  st_for (lb_pipes d) (λ id, on_pipe id pipe_terminate_writer).

(** ** publisher_t *)

Record publisher_t := Publisher { pub_pipes : list pipe_id }.

Definition publisher_new : publisher_t := Publisher [].

Definition publisher_send_to (d : publisher_t) (pipe_ : pipe_id) : publisher_t :=
  Publisher (pub_pipes d ++ [pipe_]).

(** Whether all pipes are available for writing; stops at the first that is
    not. *)
Fixpoint all_ready (l : list pipe_id) : ST (store P S) bool :=
  match l with
  | [] => mret true
  | id :: l =>
      ready ← check_write id;
      (if ready : bool then all_ready l else mret false : ST (store P S) _)
  end.

(** [pipes_count] references to the content instead of one. *)
Definition add_references (pipes_count : Z) (msg : raw_message) : ST mheap raw_message :=
  '(l, c) ← deref (content msg);
  if shared msg then
    set_content l (c <| refcount := (counter_add X86 (u32 (pipes_count - 1)) (refcount c)).2 |>) ;;
    mret msg
  else
    set_content l (c <| refcount := counter_set pipes_count (refcount c) |>) ;;
    mret (msg <| shared := true |>).

Definition publisher_write (d : publisher_t) (msg_ : raw_message)
    : ST (store P S) (bool * raw_message * publisher_t) :=
  let detach msg_ : ST (store P S) (bool * raw_message * publisher_t) :=
    msg_ ← on_heap (raw_message_init msg_ 0); mret (true, msg_, d) in
  let pipes_count := length (pub_pipes d) in
  if is_delimiter msg_ then write_all (pub_pipes d) msg_ ;; detach msg_
  else if bool_decide (pipes_count = 0%nat) then on_heap (raw_message_destroy msg_) ;; detach msg_
  else
    ready ← all_ready (pub_pipes d);
    (if negb (ready : bool) then mret (false, msg_, d)
     else if bool_decide (content msg_ = Tag vsm_tag) then write_all (pub_pipes d) msg_ ;; detach msg_
     else if bool_decide (pipes_count = 1%nat) then
       id ← st_of_option BadAccess (list.head (pub_pipes d));
       on_pipe id (pipe_write msg_) ;; detach msg_
     else
       msg_ ← on_heap (add_references (Z.of_nat pipes_count) msg_);
       write_all (pub_pipes d) msg_ ;; detach msg_ : ST (store P S) _).

Definition publisher_flush (d : publisher_t) : ST (store P S) unit :=
  st_for (pub_pipes d) (λ id, on_pipe id pipe_flush).

Definition publisher_gap (d : publisher_t) : ST (store P S) unit :=
  st_for (pub_pipes d) (λ id, on_pipe id pipe_gap).

Definition publisher_empty (d : publisher_t) : bool := bool_decide (length (pub_pipes d) = 0%nat).

Definition publisher_release_pipe (d : publisher_t) (pipe_ : pipe_id) : publisher_t :=
  match list_find (λ id, id = pipe_) (pub_pipes d) with
  | None => d
  | Some (i, _) => Publisher (delete i (pub_pipes d))
  end.

Definition publisher_initialise_shutdown (d : publisher_t) : ST (store P S) unit :=
  st_for (pub_pipes d) (λ id, on_pipe id pipe_terminate_writer).

#[export] Instance load_balancer_demux : IDemux load_balancer_t := {
  demux_pipes := lb_pipes; demux_send_to := load_balancer_send_to; demux_write := load_balancer_write;
  demux_flush := load_balancer_flush; demux_gap := load_balancer_gap;
  demux_empty := load_balancer_empty;
  demux_load_balancing := λ _, true; demux_release_pipe := load_balancer_release_pipe;
  demux_initialise_shutdown := load_balancer_initialise_shutdown
}.

#[export] Instance publisher_demux : IDemux publisher_t := {
  demux_pipes := pub_pipes; demux_send_to := publisher_send_to; demux_write := publisher_write;
  demux_flush := publisher_flush; demux_gap := publisher_gap;
  demux_empty := publisher_empty;
  demux_load_balancing := λ _, false; demux_release_pipe := λ d p, Ok (publisher_release_pipe d p);
  demux_initialise_shutdown := publisher_initialise_shutdown
}.

Definition demux_no_pipes {D} `{IDemux D} (d : D) : bool := demux_empty d.

(** ** What [i_demux] promises *)

(** A message that is taken is cleared; one that is not stays with the
    caller, and no pipe has seen it.  Delimiters are always taken. *)
Class DemuxLaws (D : Type) `{IDemux D} := {
  demux_write_law d m w b m' d' w' : runs (demux_write d m) w (b, m', d') w' →
    demux_pipes d' = demux_pipes d ∧
    if b then content m' = Tag vsm_tag ∧ vsm_size m' = 0
    else m' = m ∧ w' = w ∧ is_delimiter m = false;
}.

(** ** Proofs *)

Lemma check_write_spec id (w : store P S) b w' : runs (check_write id) w b w' →
  w' = w ∧ ∃ p, pipes w !! id = Some p ∧ b = pipe_check_write p.
Proof.
  unfold runs, check_write, on_pipe. destruct (pipes w !! id) as [p|] eqn:E; [|done].
  unfold mbind, st_bind, st_get, mret, st_ret; simpl. intros [= <- <-].
  rewrite insert_id by done. split; [by destruct w|eauto].
Qed.

Lemma init_empty_spec (m : raw_message) (w : store P S) m' w' :
  runs (on_heap (raw_message_init m 0)) w m' w' → m' = detached m ∧ w' = w.
Proof.
  unfold runs, on_heap, st_lift, raw_message_init, mret, st_ret. simpl. intros [= <- <-].
  split; [done|]. by destruct w.
Qed.

Definition ready_at (w : store P S) (l : list pipe_id) (i : nat) (b : bool) : Prop :=
  ∃ id p, l !! i = Some id ∧ pipes w !! id = Some p ∧ pipe_check_write p = b.

Lemma find_ready_spec n l : ∀ cur w b cur' w', (cur < length l)%nat →
  runs (find_ready n l cur) w (b, cur') w' →
  w' = w ∧ ∃ k : nat, (if b then k < n else k = n)%nat ∧ cur' = Nat.modulo (cur + k) (length l) ∧
    (b = true → ready_at w l cur' true) ∧
    ∀ j, (j < k)%nat → ready_at w l (Nat.modulo (cur + j) (length l)) false.
Proof.
  induction n as [|n IH]; intros cur w b cur' w' Hc Hr.
  - unfold runs in Hr. simpl in Hr. unfold mret, st_ret in Hr. injection Hr as <- <- <-.
    split; [done|]. exists 0%nat. rewrite Nat.add_0_r, Nat.mod_small by done. split_and!; [done..|lia].
  - simpl in Hr. destruct (l !! cur) as [id|] eqn:El; [|apply lookup_ge_None in El; lia].
    apply runs_bind_inv in Hr as (id' & w0 & Hr0 & Hr). unfold runs in Hr0. simpl in Hr0.
    unfold mret, st_ret in Hr0. injection Hr0 as <- <-.
    apply runs_bind_inv in Hr as (ready & w1 & Hr1 & Hr).
    apply check_write_spec in Hr1 as (-> & p & Hp & ->). destruct (pipe_check_write p) eqn:Ep.
    + unfold runs, mret, st_ret in Hr. injection Hr as <- <- <-. split; [done|].
      exists 0%nat. rewrite Nat.add_0_r, Nat.mod_small by done. split; [lia|]. split; [done|].
      split; [intros _; by exists id, p|lia].
    + apply IH in Hr as (-> & k & Hk & -> & Ht & Hj); [|apply Nat.mod_upper_bound; lia].
      split; [done|]. exists (Datatypes.S k).
      assert (∀ j, Nat.modulo (Nat.modulo (cur + 1) (length l) + j) (length l) =
                   Nat.modulo (cur + Datatypes.S j) (length l)) as E.
      { intros j. rewrite Nat.Div0.add_mod_idemp_l. f_equal. lia. }
      rewrite E in Ht |- *. split; [destruct b; lia|].
      split; [done|]. split; [exact Ht|].
      intros [|j] Hjk; [|rewrite <- E; apply Hj; lia].
      rewrite Nat.add_0_r, Nat.mod_small by done. by exists id, p.
Qed.

Lemma find_ready_same n l : ∀ cur w r w', runs (find_ready n l cur) w r w' → w' = w.
Proof.
  induction n as [|n IH]; intros cur w r w' Hr; simpl in Hr.
  - by injection Hr as <- <-.
  - destruct (l !! cur) as [id|]; [|done].
    apply runs_bind_inv in Hr as (id' & w0 & Hr0 & Hr). injection Hr0 as <- <-.
    apply runs_bind_inv in Hr as (ready & w1 & Hr1 & Hr). apply check_write_spec in Hr1 as (-> & _).
    destruct ready; [by injection Hr as <- <-|by apply IH in Hr].
Qed.

(** Every index is asked in the course of one round. *)
Lemma round_covers n cur i : (cur < n)%nat → (i < n)%nat →
  ∃ j, (j < n)%nat ∧ Nat.modulo (cur + j) n = i.
Proof.
  intros Hc Hi. destruct (decide (cur ≤ i)%nat).
  - exists (i - cur)%nat. split; [lia|]. replace (cur + (i - cur))%nat with i by lia. by apply Nat.mod_small.
  - exists (i + n - cur)%nat. split; [lia|]. replace (cur + (i + n - cur))%nat with (i + 1 * n)%nat by lia.
    rewrite Nat.Div0.mod_add. by apply Nat.mod_small.
Qed.

(** The load balancer gives a message to exactly one pipe, the first that
    is ready counting from [current], and then moves on; when none is ready,
    the message stays with the caller and nothing changes. *)
Theorem load_balancer_write_spec d m w b m' d' w' :
  is_delimiter m = false → (lb_current d < length (lb_pipes d))%nat →
  runs (load_balancer_write d m) w (b, m', d') w' →
  let n := length (lb_pipes d) in
  if b then
    ∃ k id, (k < n)%nat ∧ let i := Nat.modulo (lb_current d + k) n in
      (∀ j, (j < k)%nat → ready_at w (lb_pipes d) (Nat.modulo (lb_current d + j) n) false) ∧
      ready_at w (lb_pipes d) i true ∧ lb_pipes d !! i = Some id ∧
      runs (on_pipe id (pipe_write m)) w tt w' ∧ m' = detached m ∧
      d' = LoadBalancer (lb_pipes d) (Nat.modulo (i + 1) n)
  else
    w' = w ∧ m' = m ∧ d' = d ∧ ∀ i, (i < n)%nat → ready_at w (lb_pipes d) i false.
Proof.
  intros Hm Hc Hr n. unfold load_balancer_write in Hr. rewrite Hm in Hr.
  rewrite bool_decide_false in Hr by lia.
  apply runs_bind_inv in Hr as ([found cur] & w1 & Hf & Hr).
  apply find_ready_spec in Hf as (-> & k & Hk & -> & Ht & Hj); [|done]. destruct found; simpl in Hr.
  - destruct (Ht eq_refl) as (id & p & Hid & Hp & Hready).
    apply runs_bind_inv in Hr as (id' & w0 & Hr0 & Hr). rewrite Hid in Hr0. unfold runs in Hr0.
    simpl in Hr0. unfold mret, st_ret in Hr0. injection Hr0 as <- <-.
    apply runs_bind_inv in Hr as ([] & w2 & Hw & Hr).
    apply runs_bind_inv in Hr as (m2 & w3 & Hi & Hr). apply init_empty_spec in Hi as [-> ->].
    unfold runs, mret, st_ret in Hr. injection Hr as <- <- <- <-.
    exists k, id. split; [done|]. simpl. split_and!; [done|by exists id, p|done..].
  - unfold runs, mret, st_ret in Hr. injection Hr as <- <- <- <-. subst k. split_and!; [done..| |].
    + fold n. replace (lb_current d + n)%nat with (lb_current d + 1 * n)%nat by lia.
      rewrite Nat.Div0.mod_add, Nat.mod_small by done. by destruct d.
    + intros i Hi. destruct (round_covers n (lb_current d) i Hc Hi) as (j & Hjn & <-). by apply Hj.
Qed.

Lemma all_ready_spec l : ∀ w b w', runs (all_ready l) w b w' →
  w' = w ∧ if b then ∀ i, (i < length l)%nat → ready_at w l i true
           else ∃ i, ready_at w l i false.
Proof.
  induction l as [|id l IH]; intros w b w' Hr.
  - unfold runs in Hr. simpl in Hr. unfold mret, st_ret in Hr. injection Hr as <- <-.
    split; [done|]. intros i Hi. simpl in Hi. lia.
  - simpl in Hr. apply runs_bind_inv in Hr as (ready & w1 & Hr1 & Hr).
    apply check_write_spec in Hr1 as (-> & p & Hp & ->). destruct (pipe_check_write p) eqn:Ep.
    + apply IH in Hr as [-> Hb]. split; [done|]. destruct b.
      * intros [|i] Hi; [by exists id, p|]. apply Hb. simpl in Hi. lia.
      * destruct Hb as (i & id' & p' & ?). by exists (Datatypes.S i), id', p'.
    + unfold runs, mret, st_ret in Hr. injection Hr as <- <-. split; [done|]. by exists 0%nat, id, p.
Qed.

Lemma detach_spec (m : raw_message) (w : store P S) b m' w' (d d' : publisher_t) :
  runs (m ← on_heap (raw_message_init m 0); mret (true, m, d)) w (b, m', d') w' →
  b = true ∧ m' = detached m ∧ w' = w ∧ d' = d.
Proof.
  intros Hr. apply runs_bind_inv in Hr as (m2 & w3 & Hi & Hr). apply init_empty_spec in Hi as [-> ->].
  unfold runs, mret, st_ret in Hr. by injection Hr as <- <- <- <-.
Qed.

#[export] Instance publisher_laws : DemuxLaws publisher_t.
Proof.
  constructor. intros d m w b m' d' w' Hr. simpl in *. unfold publisher_write in Hr.
  destruct (is_delimiter m) eqn:Hm.
  { apply runs_bind_inv in Hr as (? & w1 & _ & Hr). by apply detach_spec in Hr as (-> & -> & -> & ->). }
  case_bool_decide.
  { apply runs_bind_inv in Hr as (? & w1 & _ & Hr). by apply detach_spec in Hr as (-> & -> & -> & ->). }
  apply runs_bind_inv in Hr as (ready & w1 & Hr1 & Hr). apply all_ready_spec in Hr1 as [-> Hready].
  destruct ready; simpl in Hr; [|unfold runs, mret, st_ret in Hr; by injection Hr as <- <- <- <-].
  case_bool_decide; [|case_bool_decide].
  - apply runs_bind_inv in Hr as (? & w1 & _ & Hr). by apply detach_spec in Hr as (-> & -> & -> & ->).
  - apply runs_bind_inv in Hr as (? & w1 & _ & Hr). apply runs_bind_inv in Hr as (? & w2 & _ & Hr).
    by apply detach_spec in Hr as (-> & -> & -> & ->).
  - apply runs_bind_inv in Hr as (? & w1 & _ & Hr). apply runs_bind_inv in Hr as (? & w2 & _ & Hr).
    by apply detach_spec in Hr as (-> & -> & -> & ->).
Qed.

#[export] Instance load_balancer_laws : DemuxLaws load_balancer_t.
Proof.
  constructor. intros d m w b m' d' w' Hr. simpl in *. unfold load_balancer_write in Hr.
  destruct (is_delimiter m) eqn:Hm.
  { apply runs_bind_inv in Hr as (? & w1 & _ & Hr). apply runs_bind_inv in Hr as (m2 & w2 & Hi & Hr).
    apply init_empty_spec in Hi as [-> ->]. unfold runs, mret, st_ret in Hr. by injection Hr as <- <- <- <-. }
  case_bool_decide as Hn; [unfold runs, mret, st_ret in Hr; by injection Hr as <- <- <- <-|].
  apply runs_bind_inv in Hr as ([found cur] & w1 & Hf & Hr). simpl in Hr.
  destruct found; simpl in Hr.
  - apply runs_bind_inv in Hr as (? & w2 & _ & Hr). apply runs_bind_inv in Hr as (? & w3 & _ & Hr).
    apply runs_bind_inv in Hr as (m2 & w4 & Hi & Hr).
    apply init_empty_spec in Hi as [-> ->]. unfold runs, mret, st_ret in Hr. by injection Hr as <- <- <- <-.
  - apply find_ready_same in Hf as ->. unfold runs, mret, st_ret in Hr. by injection Hr as <- <- <- <-.
Qed.

(** *** Reference counts of a published message *)

(** A pipe that takes a message into memory. *)
Definition takes (p : pipe_t P S) : Prop :=
  delayed_gap p = false ∧ swapping p = false ∧ data_dam p = None ∧ pipe_check_write p = true.

Definition taken (m : raw_message) (p : pipe_t P S) : pipe_t P S :=
  p <| pipe := ch_write (pipe p) m |> <| in_core_msg_cnt := u64 (in_core_msg_cnt p + 1) |>.

Lemma pipe_write_takes m (e : penv P S) : takes (me e) →
  runs (pipe_write m) e tt (e <| me := taken m (me e) |>).
Proof.
  intros (Hg & Hs & Hd & Hc). unfold runs, pipe_write, mbind, st_bind, st_get, st_assert. rewrite Hg. simpl.
  unfold pipe_check_write in Hc. rewrite Hd, orb_false_r in Hc.
  assert ((in_core_msg_cnt (me e) =? u64 (hwm (me e))) && negb (hwm (me e) =? 0) = false) as ->.
  { destruct (Z.eqb_spec (hwm (me e)) 0), (Z.ltb_spec (in_core_msg_cnt (me e)) (u64 (hwm (me e))));
      simpl in *; try done; rewrite ?andb_false_r; [done..|].
    destruct (Z.eqb_spec (in_core_msg_cnt (me e)) (u64 (hwm (me e)))); [lia|done]. }
  simpl. rewrite Hs. done.
Qed.

Lemma write_all_takes m l : ∀ w : store P S, NoDup l →
  (∀ id, id ∈ l → ∃ p, pipes w !! id = Some p ∧ takes p) →
  ∃ w', runs (write_all l m) w tt w' ∧ heap w' = heap w ∧ sent_out w' = sent_out w ∧
    ∀ x, pipes w' !! x = (if decide (x ∈ l) then taken m else id) <$> (pipes w !! x).
Proof.
  unfold write_all. induction l as [|id l IH]; intros w Hn Hl.
  { exists w. split; [done|]. split_and!; [done..|]. intros x. rewrite decide_False by apply not_elem_of_nil.
    by destruct (pipes w !! x). }
  apply NoDup_cons in Hn as [Hid Hn]. destruct (Hl id) as (p & Hp & Ht); [by left|].
  set (w1 := Store (heap w) (<[id := taken m p]> (pipes w)) (sent_out w)).
  destruct (IH w1 Hn) as (w2 & Hr & Hh & Ho & Hpipes).
  { intros id' Hid'. destruct (Hl id') as (p' & Hp' & Ht'); [by right|]. exists p'. split; [|done].
    simpl. rewrite lookup_insert_ne; [done|]. intros <-. done. }
  exists w2. split_and!; [|done..|].
  - simpl. eapply runs_bind; [|exact Hr]. unfold runs, on_pipe. rewrite Hp.
    pose proof (pipe_write_takes m (PEnv id p (heap w) (sent_out w)) Ht) as Hw. unfold runs in Hw.
    by rewrite Hw.
  - intros id'. rewrite Hpipes. simpl. destruct (decide (id' = id)) as [->|Hne].
    + rewrite lookup_insert_eq, Hp, decide_False by done. rewrite decide_True by (by left). done.
    + rewrite lookup_insert_ne by done. destruct (decide (id' ∈ l)) as [Hin|Hin].
      * by rewrite decide_True by (by right).
      * rewrite decide_False; [done|]. intros [?|?]%elem_of_cons; done.
Qed.

Lemma refs_app l ms ms' : refs l (ms ++ ms') = refs l ms ++ refs l ms'.
Proof. apply filter_app. Qed.

Lemma refs_replicate l n m : refs l (replicate n m) = if decide (refers l m) then replicate n m else [].
Proof.
  induction n as [|n IH]; simpl; [by case_decide|]. rewrite refs_cons, IH. by case_decide.
Qed.

Lemma add_references_ok (n : nat) h m ms l : heap_ok h (m :: ms) → content m = Ptr l →
  (1 ≤ n)%nat → Z.of_nat (n + length ms) < 2 ^ 32 →
  ∃ m' h', runs (add_references (Z.of_nat n) m) h m' h' ∧ heap_ok h' (replicate n m' ++ ms) ∧
    content m' = content m ∧ buffers h' ≡ₚ buffers h ∧ bodies_kept h h'.
Proof.
  intros Hh El Hn Hlt. destruct (heap_ok_ptr _ _ _ _ Hh El) as (c & Hc & Hcnt & Hw & Ho).
  assert (length (refs l ms) ≤ length ms)%nat as Hle by apply length_filter.
  assert (∀ m' k, content m' = content m → shared m' = true → Forall (λ m, shared m = true) (refs l ms) →
    k = Z.of_nat (n + length (refs l ms)) →
    ∃ h', runs (set_content l (c <| refcount := k |>)) h tt h' ∧ heap_ok h' (replicate n m' ++ ms) ∧
    content m' = content m ∧ buffers h' ≡ₚ buffers h ∧ bodies_kept h h') as Hset.
  { intros m' k Em Es Hall ->.
    destruct (set_content_ok h (m :: ms) (replicate n m' ++ ms) l c
      (c <| refcount := Z.of_nat (n + length (refs l ms)) |>)) as (h' & ? & ? & _ & ? & ?);
      [done|done|done| | | | |by exists h'].
    - apply Forall_app. split; [|done]. apply Forall_replicate. unfold message_wf. by rewrite Em, El.
    - rewrite length_app, length_replicate. lia.
    - intros l' Hl'. rewrite Ho, refs_app, refs_replicate, decide_False; [done| |done].
      unfold refers. rewrite Em, El. congruence.
    - rewrite refs_app, refs_replicate, decide_True by (unfold refers; by rewrite Em, El).
      right. rewrite length_app, length_replicate. split; [lia|]. split; [|done].
      apply Forall_app. split; [by apply Forall_replicate|done]. }
  assert (deref (content m) h = Ok ((l, c), h)) as Hd by (unfold deref; by rewrite El, Hc).
  unfold add_references, runs, mbind, st_bind in *. rewrite Hd. destruct Hcnt as [[H1 H2]|(H0 & H1 & H2)].
  - inversion H2 as [|?? Hs Hall]; subst. rewrite Hs.
    assert (refs l ms = []) as E by (apply nil_length_inv; simpl in H1; lia).
    destruct (Hset (m <| shared := true |>) (counter_set (Z.of_nat n) (refcount c))) as (h' & -> & H');
      [done|done|by rewrite E| |by exists (m <| shared := true |>), h'].
    unfold counter_set. rewrite wrap_small by (unfold in_u; lia). rewrite E. simpl. lia.
  - inversion H1 as [|?? Hs Hall]; subst. rewrite Hs. simpl in H2.
    destruct (Hset m (counter_add X86 (u32 (Z.of_nat n - 1)) (refcount c)).2) as (h' & -> & H');
      [done|done|done| |by exists m, h'].
    rewrite counter_add_eq by (unfold in_u; lia). simpl.
    rewrite (wrap_small 32 (Z.of_nat n - 1)) by (unfold in_u; lia).
    rewrite wrap_small by (unfold in_u; lia). lia.
Qed.

(** What a publisher's pipes hold afterwards. *)
Definition all_taken (m : raw_message) (l : list pipe_id) (w w' : store P S) : Prop :=
  ∀ x, pipes w' !! x = (if decide (x ∈ l) then taken m else id) <$> (pipes w !! x).

Lemma all_ready_takes l (w : store P S) : (∀ id, id ∈ l → ∃ p, pipes w !! id = Some p ∧ takes p) →
  runs (all_ready l) w true w.
Proof.
  induction l as [|id l IH]; intros Hl; [done|]. destruct (Hl id) as (p & Hp & Ht); [by left|].
  simpl. eapply (runs_bind _ _ _ true w).
  - unfold runs, check_write, on_pipe. rewrite Hp. unfold mbind, st_bind, st_get, mret, st_ret; simpl.
    rewrite insert_id by done. destruct Ht as (_ & _ & _ & ->). by destruct w.
  - apply IH. intros id' ?. apply Hl. by right.
Qed.

Lemma write_single id l m (w : store P S) w' : l = [id] →
  runs (write_all l m) w tt w' → runs (on_pipe id (pipe_write m)) w tt w'.
Proof.
  intros -> Hr. unfold write_all in Hr. simpl in Hr. apply runs_bind_inv in Hr as ([] & w1 & Hr & Hr').
  by injection Hr' as <-.
Qed.

Lemma publish_to d m' ms (w : store P S) h1 :
  NoDup (pub_pipes d) →
  (∀ id, id ∈ pub_pipes d → ∃ p, pipes w !! id = Some p ∧ takes p) →
  heap_ok h1 (replicate (length (pub_pipes d)) m' ++ ms) →
  Z.of_nat (Datatypes.S (length (pub_pipes d) + length ms)) < 2 ^ 32 →
  ∃ w2, runs (write_all (pub_pipes d) m') (w <| heap := h1 |>) tt w2 ∧
    runs (m ← on_heap (raw_message_init m' 0); mret (true, m, d)) w2 (true, detached m', d) w2 ∧
    heap w2 = h1 ∧ heap_ok h1 (detached m' :: replicate (length (pub_pipes d)) m' ++ ms) ∧
    all_taken m' (pub_pipes d) w w2 ∧ raw_message_bytes h1 (detached m') = Some [].
Proof.
  intros Hnd Ht Hh Hlt.
  destruct (write_all_takes m' (pub_pipes d) (Store h1 (pipes w) (sent_out w)) Hnd Ht)
    as (w2 & Hr & Eh & _ & Hp).
  exists w2. split_and!; [exact Hr| |exact Eh| |exact Hp|].
  - unfold runs, on_heap, st_lift, mbind, st_bind, raw_message_init, mret, st_ret. simpl. by destruct w2.
  - apply heap_ok_plain_cons; [done|done|]. rewrite length_app, length_replicate. lia.
  - unfold raw_message_bytes. simpl. by destruct (Z.leb_spec 0 (Z.of_nat (length (vsm_data m')))); [|lia].
Qed.

(** What publishing [m] should do. *)
Definition published (d : publisher_t) (m : raw_message) (ms : list raw_message) (w : store P S) : Prop :=
  ∃ m' m0 w', runs (publisher_write d m) w (true, m0, d) w' ∧
    heap_ok (heap w') (m0 :: replicate (length (pub_pipes d)) m' ++ ms) ∧ buffers (heap w') ≡ₚ buffers (heap w) ∧
    body (heap w') m' = body (heap w) m ∧ all_taken m' (pub_pipes d) w w' ∧
    raw_message_bytes (heap w') m0 = Some [].

Lemma data_not_delimiter m : message_type m = message_data → is_delimiter m = false.
Proof.
  intros Hm. unfold is_delimiter. apply bool_decide_eq_false. intros E.
  unfold message_type, raw_message_type in Hm. rewrite E in Hm. discriminate Hm.
Qed.

Lemma data_vsm h m ms t : message_type m = message_data → heap_ok h (m :: ms) → content m = Tag t → t = vsm_tag.
Proof.
  intros Hm Hh El. pose proof (heap_wf _ _ Hh) as Hw. inversion Hw as [|?? Hm1 _]; subst. unfold message_wf in Hm1.
  rewrite El in Hm1. unfold is_plain in Hm1. rewrite El in Hm1.
  unfold message_type, raw_message_type in Hm. rewrite El in Hm.
  destruct (decide (t = vsm_tag)); [done|]. exfalso.
  assert (t = delimiter_tag ∨ t = gap_tag) as [-> | ->]; [|discriminate Hm..].
  repeat case_bool_decide; naive_solver.
Qed.

Lemma heap_ok_replicate h m ms n : is_plain m = true → heap_ok h ms → Z.of_nat (n + length ms) < 2 ^ 32 →
  heap_ok h (replicate n m ++ ms).
Proof.
  intros Hp Hh. induction n as [|k IH]; intros Hlt; [done|]. simpl. apply heap_ok_plain_cons; [apply IH; lia|done|].
  rewrite length_app, length_replicate. lia.
Qed.

Section published.
Context (d : publisher_t) (m : raw_message) (ms : list raw_message) (w : store P S).
Hypothesis Hm : message_type m = message_data.
Hypothesis Hn : (1 ≤ length (pub_pipes d))%nat.
Hypothesis Hnd : NoDup (pub_pipes d).
Hypothesis Ht : ∀ id, id ∈ pub_pipes d → ∃ p, pipes w !! id = Some p ∧ takes p.
Hypothesis Hh : heap_ok (heap w) (m :: ms).
Hypothesis Hlt : Z.of_nat (Datatypes.S (length (pub_pipes d) + length ms)) < 2 ^ 32.

Lemma publish_plain t : content m = Tag t → published d m ms w.
Proof.
  intros El. assert (t = vsm_tag) as -> by by eapply data_vsm.
  assert (is_plain m = true) as Hp by (unfold is_plain; rewrite El; done).
  destruct (publish_to d m ms w (heap w)) as (w2 & R1 & R2 & E2 & Hh2 & Hall & Hb); [done|done| |done|].
  { apply heap_ok_plain in Hh; [|done]. apply heap_ok_replicate; [done|done|lia]. }
  exists m, (detached m), w2. split; [|rewrite E2; split_and!; done || reflexivity].
  unfold publisher_write. rewrite data_not_delimiter, (bool_decide_false (length (pub_pipes d) = 0%nat)) by (done || lia).
  rewrite El. eapply runs_bind; [by apply all_ready_takes|]. simpl. eapply runs_bind; [|exact R2]. by destruct w.
Qed.

(** One pipe gets the message itself. *)
Lemma publish_single l id : content m = Ptr l → pub_pipes d = [id] → published d m ms w.
Proof.
  intros El Ed. destruct (publish_to d m ms w (heap w)) as (w2 & R1 & R2 & E2 & Hh2 & Hall & Hb); [done|done| |done|].
  { by rewrite Ed. }
  exists m, (detached m), w2. split; [|rewrite E2; split_and!; done || reflexivity].
  unfold publisher_write. rewrite data_not_delimiter, (bool_decide_false (length (pub_pipes d) = 0%nat)) by (done || lia).
  rewrite El. eapply runs_bind; [by apply all_ready_takes|]. simpl.
  rewrite (bool_decide_true (length (pub_pipes d) = 1%nat)) by by rewrite Ed.
  eapply (runs_bind _ _ _ id w); [by rewrite Ed|]. eapply runs_bind; [|exact R2].
  apply (write_single id [id]); [done|]. replace w with (w <| heap := heap w |>) by (by destruct w). by rewrite <- Ed.
Qed.

(** Several pipes share it. *)
Lemma publish_shared l : content m = Ptr l → length (pub_pipes d) ≠ 1%nat → published d m ms w.
Proof.
  intros El Hn1. set (n := length (pub_pipes d)) in *.
  destruct (add_references_ok n (heap w) m ms l Hh El) as (m' & h1 & R & Hh1 & Ec & Hbuf & Hk); [lia|lia|].
  destruct (publish_to d m' ms w h1) as (w2 & R1 & R2 & E2 & Hh2 & Hall & Hb); [done..|]. fold n in Hh2.
  exists m', (detached m'), w2. split; [|rewrite E2; split_and!; [done..| |done|done]].
  - unfold publisher_write. fold n. rewrite data_not_delimiter, (bool_decide_false (n = 0%nat)) by (done || lia).
    rewrite El. eapply runs_bind; [by apply all_ready_takes|]. simpl. rewrite (bool_decide_false (n = 1%nat)) by done.
    eapply (runs_bind _ _ _ m' (w <| heap := h1 |>)); [|eapply runs_bind; [exact R1|exact R2]].
    unfold runs, on_heap, st_lift in *. by rewrite R.
  - unfold body. rewrite (bytes_kept (heap w) h1); [|done|].
    + unfold raw_message_type, raw_message_bytes. by rewrite Ec, El.
    + intros l' El'. eapply (live_block h1 m'); [exact Hh1| |done]. destruct n; [lia|]. by left.
Qed.
End published.

(** C28: publishing a message to pipes that can take it puts it into each of
    them once, with the same body and with one reference for each; the
    caller is left with an empty message, and all counts are right. *)
Theorem publisher_write_counts d m ms w :
  let n := length (pub_pipes d) in
  message_type m = message_data → (1 ≤ n)%nat → NoDup (pub_pipes d) →
  (∀ id, id ∈ pub_pipes d → ∃ p, pipes w !! id = Some p ∧ takes p) →
  heap_ok (heap w) (m :: ms) → Z.of_nat (Datatypes.S (n + length ms)) < 2 ^ 32 →
  ∃ m' m0 w', runs (publisher_write d m) w (true, m0, d) w' ∧
    heap_ok (heap w') (m0 :: replicate n m' ++ ms) ∧ buffers (heap w') ≡ₚ buffers (heap w) ∧
    body (heap w') m' = body (heap w) m ∧ all_taken m' (pub_pipes d) w w' ∧
    raw_message_bytes (heap w') m0 = Some [].
Proof.
  intros n Hm Hn Hnd Ht Hh Hlt. destruct (content m) as [t|l] eqn:El; [by eapply publish_plain|].
  destruct (decide (n = 1%nat)) as [Hn1|]; [|by eapply publish_shared].
  assert (∃ id, pub_pipes d = [id]) as [id Hid].
  { subst n. destruct (pub_pipes d) as [|id [|]]; [done|by exists id|done]. }
  by eapply publish_single.
Qed.
End i_demux.
