(* ===== verification/PollSet.v ===== *)
(** How a thread learns which threads have sent it commands
    ([src/libzmq/ypollset.cpp], [zmq/ypollset.hpp], [zmq/ysemaphore.hpp]): a
    bitmap of signals whose top bit says that the thread waits on the
    semaphore.  Any number of threads signal, one thread polls. *)
From S2P Require Import Prelude Atomics.
Local Open Scope Z_scope.

Section pollset.
(** The width of the bitmap's integer. *)
Context (w : Z).

Definition wait_signal : Z := w - 1.

(** ** Operations, split at their accesses to shared memory *)

(** The bitmap's part of [signal]: the semaphore is to be posted when the
    first component is true. *)
Definition pollset_signal (signal_ bits : Z) : bool * Z :=
  bitmap_btsr w signal_ wait_signal bits.

(** The first access of an iteration of [poll]. *)
Definition pollset_poll_izte (bits : Z) : Z * Z :=
  bitmap_izte (wrap w (Z.shiftl 1 wait_signal)) 0 bits.

(** The access after [sem.wait ()]. *)
Definition pollset_poll_xchg (bits : Z) : Z * Z := bitmap_xchg 0 bits.

Definition pollset_check (bits : Z) : Z * Z := bitmap_xchg 0 bits.

(** ** The semaphore *)

(** Free (0) or posted (1).  On Linux it is a mutex that [signal] unlocks, so
    that a second post before the wait is undefined behaviour. *)
Definition ysemaphore_signal (signal_ : Z) (sem : nat) : res nat :=
  if negb (signal_ =? 0) then Crash AssertFailed
  else match sem with O => Ok 1%nat | _ => Crash BadAccess end.

(** [None]: the caller sleeps. *)
Definition ysemaphore_wait (sem : nat) : option nat :=
  match sem with O => None | Datatypes.S n => Some n end.

(** ** The threads *)

(** The polling thread is not in [poll] or at the head of its loop, in
    [sem.wait ()], or past it. *)
Inductive poller_pc := PIdle | PWaiting | PWoken.

(** [posts]: signalling threads about to post the semaphore; [raised]: the
    signals sent since they were last returned. *)
Record pollset := PollSet {
  bits : Z;
  sem : nat;
  posts : nat;
  ppc : poller_pc;
  raised : gset Z
}.
#[local] Instance eta_pollset : Eta pollset := λ s,
  PollSet (bits s) (sem s) (posts s) (ppc s) (raised s).

Definition pollset_new : pollset := PollSet 0 0 0 PIdle ∅.

(** The signals in a result of [poll] or [check]. *)
Definition signals_in (r : Z) : gset Z := list_to_set (filter (λ i, Z.testbit r i = true) (seqZ 0 w)).

(** What a step of the polling thread returns to its caller, if anything. *)
Inductive poll_step (s : pollset) : option Z → pollset → Prop :=
  | sig_start i :
      0 ≤ i < wait_signal →
      poll_step s None (let '(asleep, b) := pollset_signal i (bits s) in
        s <| bits := b |> <| posts := if asleep then Datatypes.S (posts s) else posts s |>
          <| raised := {[i]} ∪ raised s |>)
  | sig_post n m :
      posts s = Datatypes.S n → ysemaphore_signal 0 (sem s) = Ok m →
      poll_step s None (s <| posts := n |> <| sem := m |>)
  | poll_izte r b :
      ppc s = PIdle → pollset_poll_izte (bits s) = (r, b) →
      poll_step s (if r =? 0 then None else Some r)
        (s <| bits := b |> <| ppc := if r =? 0 then PWaiting else PIdle |>
           <| raised := raised s ∖ signals_in r |>)
  | poll_wait n :
      ppc s = PWaiting → ysemaphore_wait (sem s) = Some n →
      poll_step s None (s <| sem := n |> <| ppc := PWoken |>)
  | poll_xchg r b :
      ppc s = PWoken → pollset_poll_xchg (bits s) = (r, b) →
      poll_step s (if r =? 0 then None else Some r)
        (s <| bits := b |> <| ppc := PIdle |> <| raised := raised s ∖ signals_in r |>)
  | poll_check r b :
      ppc s = PIdle → pollset_check (bits s) = (r, b) →
      poll_step s (Some r) (s <| bits := b |> <| raised := raised s ∖ signals_in r |>).

Inductive poll_reachable : pollset → Prop :=
  | poll_reach_new : poll_reachable pollset_new
  | poll_reach_step s o s' : poll_reachable s → poll_step s o s' → poll_reachable s'.

(** ** Invariant *)

Context (Hw : 2 ≤ w).

Definition waiting (s : pollset) : bool := Z.testbit (bits s) wait_signal.

Record poll_inv (s : pollset) : Prop := {
  pinv_range : in_u w (bits s);
  pinv_bits : ∀ i, 0 ≤ i < wait_signal → Z.testbit (bits s) i = bool_decide (i ∈ raised s);
  pinv_raised : ∀ i, i ∈ raised s → 0 ≤ i < wait_signal;
  pinv_pc : match ppc s with
    | PIdle => waiting s = false ∧ sem s = 0%nat ∧ posts s = 0%nat
    | PWaiting => if waiting s then raised s = ∅ ∧ sem s = 0%nat ∧ posts s = 0%nat
                  else raised s ≠ ∅ ∧ (sem s + posts s = 1)%nat
    | PWoken => waiting s = false ∧ raised s ≠ ∅ ∧ sem s = 0%nat ∧ posts s = 0%nat
    end
}.

Lemma pollset_signal_spec i b : 0 ≤ i < wait_signal → btsr_spec w i wait_signal b (pollset_signal i b).
Proof using Hw. unfold wait_signal. intros Hi. apply bitmap_btsr_spec; lia. Qed.

Definition wait_bitmap : Z := wrap w (Z.shiftl 1 wait_signal).

Lemma wait_bitmap_testbit i : 0 ≤ i < w → Z.testbit wait_bitmap i = (i =? wait_signal).
Proof using Hw.
  intros. unfold wait_bitmap, wait_signal in *. rewrite testbit_wrap, testbit_shiftl_1 by lia. done.
Qed.

Lemma elem_of_signals_in r i : i ∈ signals_in r ↔ 0 ≤ i < w ∧ Z.testbit r i = true.
Proof. unfold signals_in. rewrite elem_of_list_to_set, list_elem_of_filter, elem_of_seqZ. naive_solver lia. Qed.

Lemma inv_signals_in s : poll_inv s → signals_in (bits s) =
  (if waiting s then {[wait_signal]} else ∅) ∪ raised s.
Proof using Hw.
  intros [Hr Hb Hs _]. assert (0 ≤ wait_signal < w) as Hws by (unfold wait_signal; lia).
  apply set_eq. intros i. rewrite elem_of_union, elem_of_signals_in. unfold waiting.
  destruct (decide (i = wait_signal)) as [->|Hne].
  - destruct (Z.testbit (bits s) wait_signal).
    + rewrite elem_of_singleton. naive_solver lia.
    + rewrite elem_of_empty. split; [naive_solver|]. intros [[]|Hi]. apply Hs in Hi. lia.
  - assert (i ∉ (if Z.testbit (bits s) wait_signal then {[wait_signal]} else ∅ : gset Z))
      by (destruct (Z.testbit (bits s) wait_signal); set_solver).
    split.
    + intros [Hi Ht]. right. rewrite Hb in Ht by (unfold wait_signal in *; lia). by apply bool_decide_eq_true in Ht.
    + intros [?|Hi]; [done|]. pose proof (Hs i Hi). split; [unfold wait_signal in *; lia|].
      rewrite Hb by lia. by apply bool_decide_eq_true.
Qed.

Lemma inv_taken s : poll_inv s → waiting s = false → raised s ∖ signals_in (bits s) = ∅.
Proof using Hw. intros Hi E. rewrite inv_signals_in, E by done. set_solver. Qed.

Lemma inv_zero s : poll_inv s → bits s = 0 ↔ waiting s = false ∧ raised s = ∅.
Proof using Hw.
  intros Hi. pose proof (inv_signals_in s Hi) as Es. split.
  - intros E. rewrite E in Es. assert (signals_in 0 = ∅) as E0.
    { apply set_eq. intros i. rewrite elem_of_signals_in, Z.bits_0. set_solver. }
    rewrite E0 in Es. destruct (waiting s); set_solver.
  - intros [E1 E2]. rewrite E1, E2 in Es. apply (in_u_testbit_inj w); [apply Hi|unfold in_u; lia|].
    intros i Hr. rewrite Z.bits_0. apply not_true_iff_false. intros Ht.
    assert (i ∈ signals_in (bits s)) as Hin by by apply elem_of_signals_in.
    rewrite Es in Hin. set_solver.
Qed.

Lemma poll_inv_empty pc n : (pc = PIdle ∧ n = 0%nat) → poll_inv (PollSet 0 n 0 pc ∅).
Proof using Hw.
  intros [-> ->]. assert (0 < 2 ^ w) by (apply Z.pow_pos_nonneg; lia).
  constructor; simpl.
  - unfold in_u. lia.
  - intros i _. by rewrite Z.bits_0.
  - set_solver.
  - unfold waiting. simpl. by rewrite Z.bits_0.
Qed.

Lemma inv_sig_start s i : poll_inv s → 0 ≤ i < wait_signal →
  poll_inv (let '(asleep, b) := pollset_signal i (bits s) in
        s <| bits := b |> <| posts := if asleep then Datatypes.S (posts s) else posts s |>
          <| raised := {[i]} ∪ raised s |>).
Proof using Hw.
  intros Hi Hs. assert (wait_signal = w - 1) as Ews by done.
  destruct (pollset_signal_spec i (bits s) Hs) as (Ea & Hrange & Hbits).
  destruct (pollset_signal i (bits s)) as [asleep b]. simpl in Ea, Hrange, Hbits.
  destruct Hi as [Hr Hb Hra Hpc]. fold (waiting s) in Ea. subst asleep.
  assert (Z.testbit b wait_signal = false) as Hw'.
  { rewrite Hbits, Z.eqb_refl by lia. apply andb_false_r. }
  constructor; simpl.
  - done.
  - intros j Hj. rewrite Hbits by lia. rewrite Hb by done.
    destruct (Z.eqb_spec j wait_signal); [lia|]. rewrite andb_true_r.
    destruct (Z.eqb_spec j i) as [->|]; case_bool_decide; case_bool_decide; set_solver.
  - intros j. rewrite elem_of_union, elem_of_singleton. intros [->|?]; [done|auto].
  - unfold waiting in *; simpl. rewrite Hw'.
    destruct (ppc s).
    + destruct Hpc as (E & ? & ?). by rewrite E.
    + destruct (Z.testbit (bits s) wait_signal).
      * destruct Hpc as (? & -> & ->). split; [set_solver|done].
      * split; [set_solver|tauto].
    + destruct Hpc as (E & ? & ? & ?). rewrite E. split_and!; [done|set_solver|done..].
Qed.

Lemma poll_inv_step s o s' : poll_inv s → poll_step s o s' → poll_inv s'.
Proof using Hw.
  intros Hi Hst. pose proof Hi as [Hr Hb Hra Hpc]. destruct Hst as [i Hs|n m Hp Hm|r b Hpc' E|n Hpc' Hn|r b Hpc' E|r b Hpc' E].
  - by apply inv_sig_start.
  - assert (m = 1%nat ∧ sem s = 0%nat) as [-> Hs] by (unfold ysemaphore_signal in Hm; simpl in Hm; destruct (sem s); naive_solver).
    constructor; try done. simpl in *. destruct (ppc s); [lia| |lia].
    unfold waiting in *; simpl. destruct (Z.testbit (bits s) wait_signal); [lia|]. split; [tauto|lia].
  - unfold pollset_poll_izte, bitmap_izte in E. injection E as <- <-. rewrite Hpc' in Hpc.
    destruct Hpc as (Hwt & Hse & Hpo).
    rewrite inv_taken by done. destruct s as [b0 se po pc ra]; simpl in *. subst se po pc.
    destruct (Z.eqb_spec b0 0) as [E0|E0]; [|by apply poll_inv_empty].
    constructor; simpl.
    + apply wrap_range. lia.
    + intros i Hi'. assert (wait_signal = w - 1) by done. fold wait_bitmap.
      rewrite wait_bitmap_testbit by lia. destruct (Z.eqb_spec i wait_signal); [lia|done].
    + set_solver.
    + unfold waiting; simpl. assert (wait_signal = w - 1) by done. fold wait_bitmap.
      rewrite wait_bitmap_testbit, Z.eqb_refl by lia. done.
  - unfold ysemaphore_wait in Hn. destruct (sem s) as [|n'] eqn:Es; [done|]. injection Hn as ->.
    rewrite Hpc' in Hpc. constructor; try done; simpl. unfold waiting in *; simpl.
    destruct (Z.testbit (bits s) wait_signal); [lia|]. split_and!; [done|tauto|lia|lia].
  - unfold pollset_poll_xchg, bitmap_xchg in E. injection E as <- <-. rewrite Hpc' in Hpc.
    destruct Hpc as (Hwt & Hra' & Hse & Hpo). rewrite inv_taken by done.
    destruct s; simpl in *; subst. by apply poll_inv_empty.
  - unfold pollset_check, bitmap_xchg in E. injection E as <- <-. rewrite Hpc' in Hpc.
    destruct Hpc as (Hwt & Hse & Hpo). rewrite inv_taken by done.
    destruct s; simpl in *; subst. by apply poll_inv_empty.
Qed.

Lemma poll_reachable_inv s : poll_reachable s → poll_inv s.
Proof using Hw. induction 1; [by apply poll_inv_empty|by eapply poll_inv_step]. Qed.

(** C39: what a poll or a check returns is exactly the set of signals sent since
    they were last returned, each one once; the bit that marks the sleeping
    thread is never among them, and a poll never returns the empty set. *)
Theorem pollset_exact s r s' : poll_reachable s → poll_step s (Some r) s' →
  signals_in r = raised s ∧ wait_signal ∉ signals_in r ∧ raised s' = ∅ ∧ bits s' = 0 ∧
  (r = 0 → ppc s = PIdle ∧ pollset_check (bits s) = (r, bits s')).
Proof using Hw.
  intros Hre Hst. pose proof (poll_reachable_inv s Hre) as Hi. pose proof Hi as [Hr Hb Hra Hpc].
  assert (∀ r, waiting s = false → r = bits s →
    signals_in r = raised s ∧ wait_signal ∉ signals_in r ∧ raised s ∖ signals_in r = ∅) as Ht.
  { intros ? Hwt ->. pose proof (inv_signals_in s Hi) as E. rewrite Hwt in E.
    rewrite E. split_and!; [set_solver| |set_solver].
    intros Hin. assert (wait_signal ∈ raised s) as Hin' by set_solver. apply Hra in Hin'. lia. }
  inversion Hst as [| |r0 b Hpc' E Eo|?|r0 b Hpc' E Eo|r0 b Hpc' E Eo]; subst;
    rewrite Hpc' in Hpc; injection E as <- <-; simpl.
  - destruct (Z.eqb_spec (bits s) 0) as [|Hne]; [done|]. injection Eo as <-.
    destruct (Ht (bits s)) as (? & ? & ?); [tauto|done|]. by split_and!.
  - destruct (Z.eqb_spec (bits s) 0) as [|Hne]; [done|]. injection Eo as <-.
    destruct (Ht (bits s)) as (? & ? & ?); [tauto|done|]. by split_and!.
  - destruct (Ht (bits s)) as (? & ? & ?); [tauto|done|]. by split_and!.
Qed.

(** C29: the sleeping thread is woken.  Whenever it sleeps and a signal has
    been sent, the semaphore is posted or one of the signalling threads is
    about to post it; it is never posted twice, so that posting never fails;
    and once awake the thread finds a signal at its first try, without looping.
    A btsr is one step, as [Atomics] shows of every
    body it has, the one for x86 included. *)
Theorem pollset_wakes s : poll_reachable s →
  (ppc s = PWaiting → raised s ≠ ∅ → (sem s + posts s = 1)%nat) ∧
  (∀ n, posts s = Datatypes.S n → ysemaphore_signal 0 (sem s) = Ok 1%nat) ∧
  (ppc s = PWoken → ∀ o s', poll_step s o s' → ppc s' = PIdle → o = Some (bits s) ∧ bits s ≠ 0).
Proof using Hw.
  intros Hre. pose proof (poll_reachable_inv s Hre) as Hi. pose proof Hi as [Hr Hb Hra Hpc]. split_and!.
  - intros E Hne. rewrite E in Hpc. destruct (waiting s); tauto.
  - intros n Hn. unfold ysemaphore_signal. simpl.
    replace (sem s) with 0%nat; [done|]. destruct (ppc s); [lia| |lia]. destruct (waiting s); lia.
  - intros E o s' Hst E'. rewrite E in Hpc. destruct Hpc as (Hwt & Hne & _).
    assert (bits s ≠ 0) as H0 by (intros H0; apply (inv_zero s Hi) in H0; tauto).
    inversion Hst; subst; simpl in *; try congruence.
    unfold pollset_poll_xchg, bitmap_xchg in *. simplify_eq.
    destruct (Z.eqb_spec (bits s) 0); done.
Qed.
End pollset.

(** Thread 1 signals while the thread sleeps. *)
Definition signalled_asleep : pollset := PollSet 2 0 1 PWaiting {[1]}.

Lemma signalled_asleep_reachable : poll_reachable 64 signalled_asleep.
Proof.
  assert (poll_reachable 64 (PollSet (2 ^ 63) 0 0 PWaiting ∅)) as H1.
  { eapply poll_reach_step; [apply poll_reach_new|].
    pose proof (poll_izte 64 pollset_new 0 (2 ^ 63)) as H. vm_compute in H. by apply H. }
  eapply poll_reach_step; [exact H1|].
  pose proof (sig_start 64 (PollSet (2 ^ 63) 0 0 PWaiting ∅) 1) as H.
  replace signalled_asleep with (let '(asleep, b) := pollset_signal 64 1 (2 ^ 63) in
    PollSet b 0 (if asleep then 1 else 0)%nat PWaiting ({[1]} ∪ ∅)) by by vm_compute.
  apply H. unfold wait_signal. lia.
Qed.

Lemma signalled_awake_reachable : poll_reachable 64 (PollSet 2 0 0 PWoken {[1]}).
Proof.
  apply (poll_reach_step _ (PollSet 2 1 0 PWaiting {[1]}) None).
  - apply (poll_reach_step _ signalled_asleep None); [apply signalled_asleep_reachable|].
    exact (sig_post _ signalled_asleep 0%nat 1%nat eq_refl eq_refl).
  - exact (poll_wait 64 (PollSet 2 1 0 PWaiting {[1]}) 0%nat eq_refl eq_refl).
Qed.

Lemma pollset_wakes_witness : ∃ asleep awake,
  (poll_reachable 64 asleep ∧ ppc asleep = PWaiting ∧ raised asleep = {[1]} ∧ (sem asleep + posts asleep = 1)%nat ∧
   posts asleep = 1%nat ∧ ysemaphore_signal 0 (sem asleep) = Ok 1%nat) ∧
  (poll_reachable 64 awake ∧ ppc awake = PWoken ∧ poll_step 64 awake (Some 2) (PollSet 0 0 0 PIdle ∅) ∧
   Some 2 = Some (bits awake) ∧ bits awake ≠ 0).
Proof.
  pose proof signalled_asleep_reachable as H1. pose proof signalled_awake_reachable as H2.
  exists signalled_asleep, (PollSet 2 0 0 PWoken {[1]}). split.
  - destruct (pollset_wakes 64 ltac:(lia) signalled_asleep H1) as (W1 & W2 & _).
    split_and!; [exact H1|reflexivity|reflexivity|apply W1; [reflexivity|vm_compute; discriminate]|reflexivity|by apply (W2 0%nat)].
  - assert (poll_step 64 (PollSet 2 0 0 PWoken {[1]}) (Some 2) (PollSet 0 0 0 PIdle ∅)) as Hs.
    { pose proof (poll_xchg 64 (PollSet 2 0 0 PWoken {[1]}) 2 0 eq_refl eq_refl) as Hs. vm_compute in Hs |- *. exact Hs. }
    destruct (pollset_wakes 64 ltac:(lia) _ H2) as (_ & _ & W3).
    split; [exact H2|]. split; [reflexivity|]. split; [exact Hs|]. by apply (W3 eq_refl _ (PollSet 0 0 0 PIdle ∅)).
Defined.

Lemma pollset_exact_witness : signals_in 64 2 = {[1]}.
Proof.
  destruct (pollset_exact 64 ltac:(lia) (PollSet 2 0 0 PWoken {[1]}) 2
    (PollSet 0 0 0 PIdle ∅) signalled_awake_reachable) as (H & _); [|exact H].
  pose proof (poll_xchg 64 (PollSet 2 0 0 PWoken {[1]}) 2 0 eq_refl eq_refl) as Hs.
  simpl in Hs. by vm_compute in Hs |- *.
Defined.
