(* ===== verification/StoreRuns.v ===== *)
(** Runs of the mux and of the distributors over real pipes, and their
    theorems applied to them. *)
From S2P Require Import Prelude YQueue Channel YPipe Message Command Swap Pipe PipeThreads PipeRuns.
From S2P Require Import Store Mux Demux.
Local Open Scope Z_scope.

#[local] Instance slots4 : SlotQueue raw_message (yqueue raw_message) := yqueue_slot_queue 4.

Abbreviation cpipe := (ypipe (yqueue raw_message)).
Abbreviation cstore := (store cpipe unit).

(** A pipe from engine 20 of thread 1 to engine 21 of thread 2, with its watermarks. *)
Definition fresh_pipe (hwm_ lwm_ : Z) : pipe_t cpipe unit :=
  pipe_new 1%positive 20%positive 2%positive 21%positive (EngineInfo (hwm_, lwm_) 0) (EngineInfo (0, 0) 0).

Definition pipes_of (l : list (pipe_t cpipe unit)) : gmap pipe_id (pipe_t cpipe unit) :=
  list_to_map (imap (λ i p, (Pos.of_succ_nat i, p)) l).

Definition empty_heap : mheap := MHeap ∅ 1000 [].

(** The store after a message was written to and flushed from a pipe. *)
Definition fed (p : pipe_id) (m : raw_message) : ST cstore unit :=
  on_pipe p (pipe_write m) ;; on_pipe p pipe_flush.

Definition final {S A} (m : ST S A) (s : S) : S := match m s with Ok (_, s') => s' | Crash _ => s end.

Definition one_fed : cstore :=
  final (fed 2%positive (byte_message 7)) (Store empty_heap (pipes_of [fresh_pipe 3 1; fresh_pipe 3 1]) []).

Definition two_pipe_mux : mux_t := Mux [1%positive; 2%positive] 0.

Lemma mux_read_runs : ∃ w', runs (mux_read two_pipe_mux no_message) one_fed (true, byte_message 7, two_pipe_mux) w'.
Proof. eexists. vm_compute. reflexivity. Qed.

Lemma mux_read_fair_witness : ∃ w' k, runs (mux_read two_pipe_mux no_message) one_fed
    (true, byte_message 7, two_pipe_mux) w' ∧ (0 < k ≤ 2)%nat.
Proof.
  destruct mux_read_runs as [w' Hr]. exists w'.
  destruct (mux_read_fair two_pipe_mux no_message one_fed _ _ _ w' ltac:(left; simpl; lia) Hr)
    as (_ & _ & k & w1 & msg1 & w2 & _ & _ & (Hk & _) & _).
  exists k. split; [exact Hr|exact Hk].
Defined.

(** The first pipe is full. *)
Definition one_full : cstore :=
  final (fed 1%positive (byte_message 7)) (Store empty_heap (pipes_of [fresh_pipe 1 1; fresh_pipe 1 1]) []).

Definition two_pipe_balancer : load_balancer_t := LoadBalancer [1%positive; 2%positive] 0.

Lemma load_balancer_write_runs :
  ∃ m' d' w', runs (load_balancer_write two_pipe_balancer (byte_message 9)) one_full (true, m', d') w'.
Proof. do 3 eexists. vm_compute. reflexivity. Qed.

Lemma load_balancer_write_spec_witness : ∃ m' d' w' k,
  runs (load_balancer_write two_pipe_balancer (byte_message 9)) one_full (true, m', d') w' ∧ (k < 2)%nat.
Proof.
  destruct load_balancer_write_runs as (m' & d' & w' & Hr). exists m', d', w'.
  pose proof (load_balancer_write_spec two_pipe_balancer (byte_message 9) one_full true m' d' w'
    eq_refl ltac:(simpl; lia) Hr) as (k & id & Hk & _). exists k. split; [exact Hr|exact Hk].
Defined.

(** A 40-byte message on the heap, to be published to two pipes. *)
Definition big_run : res (raw_message * mheap) := raw_message_init no_message 40 empty_heap.
Definition big_message : raw_message := match big_run with Ok (m, _) => m | Crash _ => no_message end.
Definition two_free : cstore :=
  Store (match big_run with Ok (_, h) => h | Crash _ => empty_heap end) (pipes_of [fresh_pipe 3 1; fresh_pipe 3 1]) [].

Lemma big_heap_ok : heap_ok (heap two_free) [big_message].
Proof.
  assert (heap_ok empty_heap []) as H0 by (constructor; [done|constructor|simpl; lia]).
  destruct (Cells.raw_message_init_spec no_message 40 empty_heap [] H0) as [E|(m & h & E & H & _)]; [simpl; lia|..].
  - vm_compute in E. discriminate E.
  - unfold two_free, big_message, big_run. by rewrite E.
Qed.

Lemma fresh_pipe_takes : takes (fresh_pipe 3 1).
Proof. by vm_compute. Qed.

Lemma publisher_write_counts_witness : ∃ m' m0 w',
  runs (publisher_write (Publisher [1%positive; 2%positive]) big_message) two_free
    (true, m0, Publisher [1%positive; 2%positive]) w' ∧
  heap_ok (heap w') [m0; m'; m'].
Proof.
  destruct (publisher_write_counts (Publisher [1%positive; 2%positive]) big_message [] two_free)
    as (m' & m0 & w' & Hr & Hh & _).
  - reflexivity.
  - simpl; lia.
  - simpl. repeat constructor; set_solver.
  - intros id Hid. exists (fresh_pipe 3 1). split; [|apply fresh_pipe_takes].
    simpl in Hid. repeat (apply elem_of_cons in Hid as [->|Hid]; [reflexivity|]). by apply elem_of_nil in Hid.
  - apply big_heap_ok.
  - simpl; lia.
  - exists m', m0, w'. split; [exact Hr|exact Hh].
Defined.
