(* ===== verification/Engine.v ===== *)
(** Engines: the objects at the two ends of a pipe and the commands they
    obey ([zmq/i_engine.hpp], [zmq/engine_base.hpp], [src/libzmq/in_engine.cpp],
    [out_engine.cpp]).  An engine lives in one thread. *)
From S2P Require Import Prelude Channel Message Command Swap Pipe Store Mux Demux.
Local Open Scope Z_scope.

Section engine.
Context {P S : Type} `{!Channel raw_message P, !Swap S}.

(** ** The distributor of an engine: [i_demux *demux] *)

Inductive demux_t :=
  | a_load_balancer (d : load_balancer_t)
  | a_publisher (d : publisher_t).

Definition new_demux (load_balancing_ : bool) : demux_t :=
  if load_balancing_ then a_load_balancer load_balancer_new else a_publisher publisher_new.

Definition any_write (d : demux_t) (msg_ : raw_message) : ST (store P S) (bool * raw_message * demux_t) :=
  match d with
  | a_load_balancer d => '(b, m, d) ← demux_write d msg_; mret (b, m, a_load_balancer d)
  | a_publisher d => '(b, m, d) ← demux_write d msg_; mret (b, m, a_publisher d)
  end.

Definition any_release_pipe (d : demux_t) (p : pipe_id) : res demux_t :=
  match d with
  | a_load_balancer d => d ← demux_release_pipe (P := P) (S := S) d p; Ok (a_load_balancer d)
  | a_publisher d => d ← demux_release_pipe (P := P) (S := S) d p; Ok (a_publisher d)
  end.

#[export] Instance any_demux : IDemux demux_t := {
  demux_pipes d := match d with a_load_balancer d => lb_pipes d | a_publisher d => pub_pipes d end;
  demux_send_to d p :=
    match d with
    | a_load_balancer d => a_load_balancer (demux_send_to (P := P) (S := S) d p)
    | a_publisher d => a_publisher (demux_send_to (P := P) (S := S) d p)
    end;
  demux_write := any_write;
  demux_flush d := match d with a_load_balancer d => demux_flush d | a_publisher d => demux_flush d end;
  demux_gap d := match d with a_load_balancer d => demux_gap d | a_publisher d => demux_gap d end;
  demux_empty d :=
    match d with
    | a_load_balancer d => demux_empty (P := P) (S := S) d
    | a_publisher d => demux_empty (P := P) (S := S) d
    end;
  demux_load_balancing d :=
    match d with
    | a_load_balancer d => demux_load_balancing (P := P) (S := S) d
    | a_publisher d => demux_load_balancing (P := P) (S := S) d
    end;
  demux_release_pipe := any_release_pipe;
  demux_initialise_shutdown d :=
    match d with
    | a_load_balancer d => demux_initialise_shutdown d
    | a_publisher d => demux_initialise_shutdown d
    end
}.

(** ** engine_base_t <HAS_IN, HAS_OUT> *)

Record engine_base_t := EngineBase { mux : mux_t; demux : demux_t }.
#[export] Instance eta_engine_base : Eta engine_base_t := λ e, EngineBase (mux e) (demux e).

Definition engine_base_new (load_balancing_ : bool) : engine_base_t :=
  EngineBase mux_new (new_demux load_balancing_).

(** An engine and the objects it reaches. *)
Record eenv := EEnv { base : engine_base_t; objs : store P S }.
#[export] Instance eta_eenv : Eta eenv := λ e, EEnv (base e) (objs e).

Definition on_objs {A} : ST (store P S) A → ST eenv A := st_lift objs (λ w e, e <| objs := w |>).
Definition modify_base (f : engine_base_t → engine_base_t) : ST eenv unit :=
  st_modify (λ e, e <| base := f (base e) |>).
Definition set_mux (m : mux_t) : ST eenv unit := modify_base (λ b, b <| mux := m |>).
Definition set_demux (d : demux_t) : ST eenv unit := modify_base (λ b, b <| demux := d |>).

Section handlers.
(** The template's parameters, and a bound on the messages left in a pipe
    that is deleted. *)
Context (HAS_IN HAS_OUT : bool) (fuel : nat).

Definition cast_to_pollable : ST eenv unit := st_assert false.
Definition get_arguments : ST eenv unit := st_assert false.

Definition engine_revive (pipe_ : pipe_id) : ST eenv unit :=
  st_assert HAS_OUT ;; on_objs (on_pipe pipe_ pipe_revive).

Definition engine_head (pipe_ : pipe_id) (position_ : Z) : ST eenv unit :=
  st_assert HAS_IN ;; on_objs (on_pipe pipe_ (pipe_set_head position_)).

Definition engine_send_to (pipe_ : pipe_id) : ST eenv unit :=
  st_assert HAS_IN ;;
  e ← st_get;
  set_demux (demux_send_to (P := P) (S := S) (demux (base e)) pipe_).

Definition engine_receive_from (pipe_ : pipe_id) : ST eenv unit :=
  st_assert HAS_OUT ;;
  e ← st_get;
  set_mux (mux_receive_from (mux (base e)) pipe_).

Definition engine_terminate_pipe (pipe_ : pipe_id) : ST eenv unit :=
  st_assert HAS_IN ;;
  on_objs (on_pipe pipe_ pipe_writer_terminated) ;;
  e ← st_get;
  match demux_release_pipe (P := P) (S := S) (demux (base e)) pipe_ with
  | Ok d => set_demux d
  | Crash f => st_crash f
  end.

Definition engine_terminate_pipe_ack (pipe_ : pipe_id) : ST eenv unit :=
  st_assert HAS_OUT ;;
  on_objs (on_pipe pipe_ pipe_reader_terminated) ;;
  e ← st_get;
  m ← on_objs (mux_release_pipe fuel (mux (base e)) pipe_);
  set_mux m.

(** The engine half of [process_command]: the [switch] that every thread
    that owns engines has. *)
Definition engine_process (engcmd : engine_command_t) : ST eenv unit :=
  match engcmd with
  | ec_revive pipe => engine_revive pipe
  | ec_head pipe position => engine_head pipe position
  | ec_send_to pipe => engine_send_to pipe
  | ec_receive_from pipe => engine_receive_from pipe
  | ec_terminate_pipe pipe => engine_terminate_pipe pipe
  | ec_terminate_pipe_ack pipe => engine_terminate_pipe_ack pipe
  end.
End handlers.

Definition engine_load_balancing (e : engine_base_t) : bool :=
  demux_load_balancing (P := P) (S := S) (demux e).

(** ** in_engine_t and out_engine_t *)

(** The engine of a queue: [engine_base_t <false, true>]. *)
Record in_engine_t := InEngine { in_base : engine_base_t; in_hwm : Z; in_lwm : Z; swap_size : Z }.
#[export] Instance eta_in_engine : Eta in_engine_t := λ e,
  InEngine (in_base e) (in_hwm e) (in_lwm e) (swap_size e).

(** [create] takes a [uint64_t], the constructor an [int64_t]. *)
Definition in_engine_create (hwm_ lwm_ swap_size_ : Z) : in_engine_t :=
  InEngine (engine_base_new false) hwm_ lwm_ (i64 swap_size_).

Definition in_engine_read (msg_ : raw_message) : ST eenv (bool * raw_message) :=
  e ← st_get;
  '(b, msg_, m) ← on_objs (mux_read (mux (base e)) msg_);
  set_mux m ;;
  mret (b, msg_).

Definition in_engine_get_watermarks (e : in_engine_t) : Z * Z := (in_hwm e, in_lwm e).
Definition in_engine_get_swap_size (e : in_engine_t) : Z := swap_size e.

(** The engine of an exchange: [engine_base_t <true, false>]. *)
Record out_engine_t := OutEngine { out_base : engine_base_t }.
#[export] Instance eta_out_engine : Eta out_engine_t := λ e, OutEngine (out_base e).

Definition out_engine_create (load_balancing_ : bool) : out_engine_t :=
  OutEngine (engine_base_new load_balancing_).

Definition out_engine_write (msg_ : raw_message) : ST eenv (bool * raw_message) :=
  e ← st_get;
  '(b, msg_, d) ← on_objs (demux_write (demux (base e)) msg_);
  set_demux d ;;
  mret (b, msg_).

Definition out_engine_flush : ST eenv unit := e ← st_get; on_objs (demux_flush (demux (base e))).

Definition out_engine_get_watermarks (e : out_engine_t) : Z * Z := (0, 0).
Definition out_engine_get_swap_size (e : out_engine_t) : Z := 0.
End engine.
Arguments eenv P S : clear implicits.
