(* ===== verification/Shutdown.v ===== *)
(** The end of a pipe: the writer's engine and the reader's engine, in
    different threads, agree to end it whoever begins, and the reader deletes
    it when nobody can reach it any more. *)
From S2P Require Import Prelude YQueue Channel YPipe Message Command Swap Pipe PipeThreads PipeRuns Store Mux Demux Engine.
Local Open Scope Z_scope.

(** ** Commands for a thread *)

Definition for_thread (t : thread_id) (s : sent) : option command_t := if decide (to s = t) then Some (cmd s) else None.

Definition inbox (t : thread_id) (l : list sent) : list command_t := omap (for_thread t) l.

Lemma inbox_app t l l' : inbox t (l ++ l') = inbox t l ++ inbox t l'.
Proof. apply omap_app. Qed.

Lemma inbox_sent t t1 t2 c : inbox t [Sent t1 t2 c] = if decide (t2 = t) then [c] else [].
Proof. unfold inbox, for_thread. simpl. by case_decide. Qed.

(** The oldest command for [t]; those for other threads stay. *)
Lemma take_first_inbox t l c l' : take_first (for_thread t) l = Some (c, l') →
  inbox t l = c :: inbox t l' ∧ ∀ t', t' ≠ t → inbox t' l = inbox t' l'.
Proof.
  revert l'. induction l as [|s l IH]; intros l' E; simpl in E; [done|]. unfold inbox in *. simpl.
  destruct (for_thread t s) as [c'|] eqn:Es; simplify_eq/=.
  - split; [done|]. intros t' Ht. unfold for_thread in *. repeat case_decide; simplify_eq; done.
  - destruct (take_first _ l) as [[c1 l1]|]; simplify_eq/=. destruct (IH l1) as [E1 E2]; [done|]. rewrite Es. split; [done|].
    intros t' Ht. rewrite (E2 t' Ht). done.
Qed.

Section shutdown.
Context {P S : Type} `{ChannelLaws raw_message P, Swap S}.
(** The pipe, the engines at its ends with their threads, its watermarks, and
    a bound on the messages that are left in it when it is deleted. *)
Context (id : pipe_id) (ta tb : thread_id) (ea eb : engine_id) (hw lw : Z) (fuel : nat).
Implicit Types (p : pipe_t P S).

(** [got] are the messages that the reader holds; [stopped]: the reader's
    engine began to end its pipes. *)
Record world := World {
  src : engine_base_t;
  dst : engine_base_t;
  sto : store P S;
  got : list raw_message;
  wrote : nat;
  stopped : bool
}.
#[local] Instance eta_world : Eta world := λ w, World (src w) (dst w) (sto w) (got w) (wrote w) (stopped w).

Definition at_src {A} : ST (eenv P S) A → ST world A :=
  st_lift (λ w, EEnv (src w) (sto w)) (λ e w, w <| src := base e |> <| sto := objs e |>).
Definition at_dst {A} : ST (eenv P S) A → ST world A :=
  st_lift (λ w, EEnv (dst w) (sto w)) (λ e w, w <| dst := base e |> <| sto := objs e |>).
Definition at_pipe {A} (f : ST (penv P S) A) : ST world A := st_lift sto (λ s w, w <| sto := s |>) (on_pipe id f).

(** A thread takes its oldest command and passes it to the engine. *)
Definition obey (HAS_IN HAS_OUT : bool) (c : command_t) : ST (eenv P S) unit :=
  match c with
  | c_engine_command _ engcmd => engine_process HAS_IN HAS_OUT fuel engcmd
  | _ => st_crash BadAccess
  end.

Definition take_command (t : thread_id) : ST world command_t :=
  w ← st_get;
  '(c, l) ← st_of_option Blocked (take_first (for_thread t) (sent_out (sto w)));
  st_modify (λ w, w <| sto := sto w <| sent_out := l |> |>) ;;
  mret c.

(** ** What the two threads do *)

Inductive call :=
  | write_message (h : mheap) (m : raw_message)
  | flush_pipe
  | finish_writing
  | source_command
  | read_message (m : raw_message)
  | stop_reading
  | destination_command.

Definition perform (c : call) : ST world unit :=
  match c with
  | write_message h m =>
      st_modify (λ w, w <| sto := sto w <| heap := h |> |> <| wrote := Datatypes.S (wrote w) |>) ;;
      at_pipe (pipe_write m)
  | flush_pipe => at_pipe pipe_flush
  | finish_writing => at_pipe pipe_terminate_writer
  | source_command => c ← take_command ta; at_src (obey true false c)
  | read_message m =>
      '(b, m) ← at_pipe (pipe_read m);
      st_when b (st_modify (λ w, w <| got := got w ++ [m] |>))
  | stop_reading => at_pipe pipe_terminate_reader ;; st_modify (λ w, w <| stopped := true |>)
  | destination_command => c ← take_command tb; at_dst (obey false true c)
  end.

(** An engine uses the pipes it lists; the writer's writes while there is
    room and until it finished, the reader's reads until it stops. *)
Definition attached_src (w : world) : Prop := id ∈ demux_pipes (P := P) (S := S) (demux (src w)).
Definition attached_dst (w : world) : Prop := id ∈ mux_pipes (mux (dst w)).
#[export] Instance attached_src_dec w : Decision (attached_src w) := list_elem_of_dec _ _.
#[export] Instance attached_dst_dec w : Decision (attached_dst w) := list_elem_of_dec _ _.

Definition legal (w : world) (c : call) : Prop :=
  match c with
  | write_message h m => attached_src w ∧ (wrote w + 2 < fuel)%nat ∧
      ∃ b p, made_message (heap (sto w)) m h b ∧ pipes (sto w) !! id = Some p ∧
        writer_terminating p = false ∧ pipe_check_write p = true ∧ Z.of_nat (wrote w + 2) < 2 ^ 32
  | flush_pipe | finish_writing => attached_src w
  | source_command => inbox ta (sent_out (sto w)) ≠ []
  | read_message _ => attached_dst w ∧ stopped w = false
  | stop_reading => attached_dst w
  | destination_command => inbox tb (sent_out (sto w)) ≠ []
  end.

(** ** The invariant *)

Definition is_head (c : command_t) : Prop := ∃ pos, c = init_engine_head (Some ea) id pos.
Definition is_revive_cmd (c : command_t) : Prop := c = init_engine_revive (Some eb) id.
Definition to_src (w : world) : list command_t := inbox ta (sent_out (sto w)).
Definition to_dst (w : world) : list command_t := inbox tb (sent_out (sto w)).

Definition no_delimiter (xs : list raw_message) : Prop := ∀ m, m ∈ xs → content m ≠ Tag delimiter_tag.

(** The delimiter is the last message, until the reader takes it. *)
Definition delimited (w : world) p xs n : Prop :=
  if writer_terminating p then
    n = length xs ∧
    (stopped w = false →
      if reader_terminating p then xs = [] else ∃ ys d, xs = ys ++ [d] ∧ content d = Tag delimiter_tag ∧ no_delimiter ys)
  else no_delimiter xs ∧ (reader_terminating p = true → stopped w = true).

(** The pipe while it exists: [revs] wake-ups are on their way. *)
Record live (w : world) p xs n asleep (revs : nat) : Prop := {
  lv_pipe : pipes (sto w) !! id = Some p;
  lv_view : ch_view (pipe p) xs n asleep;
  lv_heap : heap_ok (heap (sto w)) (xs ++ got w);
  lv_dam : data_dam p = None ∧ swapping p = false ∧ delayed_gap p = false;
  lv_marks : hwm p = hw ∧ lwm p = lw;
  lv_dest : destination_thread p = Some tb ∧ destination_engine p = Some eb;
  lv_alive : alive_ok p asleep revs;
  lv_len : (length xs + length (got w) ≤ wrote w + if writer_terminating p then 1 else 0)%nat;
  lv_few : (wrote w + 1 < fuel)%nat ∧ Z.of_nat (wrote w + 1) < 2 ^ 32;
  lv_mux : attached_dst w ∧ NoDup (mux_pipes (mux (dst w)));
  lv_delim : delimited w p xs n;
  lv_stopped : stopped w = true → reader_terminating p = true
}.

(** Nobody asked; the reader asked; the writer agreed. *)
Inductive phase (w : world) p (revs : nat) : Prop :=
  | ph_open rs :
      source_thread p = Some ta → source_engine p = Some ea → reader_terminating p = false →
      attached_src w → NoDup (demux_pipes (P := P) (S := S) (demux (src w))) →
      Forall is_head (to_src w) → to_dst w = rs → Forall is_revive_cmd rs → length rs = revs → phase w p revs
  | ph_asked hs rs :
      source_thread p = Some ta → source_engine p = Some ea → reader_terminating p = true →
      attached_src w → NoDup (demux_pipes (P := P) (S := S) (demux (src w))) →
      to_src w = hs ++ [init_engine_terminate_pipe (Some ea) id] → Forall is_head hs →
      to_dst w = rs → Forall is_revive_cmd rs → length rs = revs → phase w p revs
  | ph_acked rs :
      source_thread p = None → reader_terminating p = true → ¬ attached_src w → to_src w = [] →
      to_dst w = rs ++ [init_engine_terminate_pipe_ack (Some eb) id] → Forall is_revive_cmd rs → length rs = revs →
      phase w p revs.

(** The pipe was deleted and nothing refers to it. *)
Record gone (w : world) : Prop := {
  gn_pipe : pipes (sto w) !! id = None;
  gn_src : ¬ attached_src w;
  gn_dst : ¬ attached_dst w;
  gn_commands : to_src w = [] ∧ to_dst w = [];
  gn_heap : heap_ok (heap (sto w)) (got w)
}.

Definition shutdown_ok (w : world) : Prop :=
  (∃ p xs n asleep revs, live w p xs n asleep revs ∧ phase w p revs) ∨ gone w.

Context (Hthreads : ta ≠ tb).
Context (Hperiod : u64 (hw - lw + 1) ≠ 0).

(** ** Calls on the pipe *)

Lemma runs_on_pipe {A} (f : ST (penv P S) A) (s : store P S) p a e :
  pipes s !! id = Some p → runs f (PEnv id p (heap s) (sent_out s)) a e →
  runs (on_pipe id f) s a (Store (mem e) (<[id := me e]> (pipes s)) (out e)).
Proof. intros Hp Hf. unfold runs, on_pipe in *. by rewrite Hp, Hf. Qed.

Lemma runs_at_pipe {A} (f : ST (penv P S) A) w p a e :
  pipes (sto w) !! id = Some p → runs f (PEnv id p (heap (sto w)) (sent_out (sto w))) a e →
  runs (at_pipe f) w a (w <| sto := Store (mem e) (<[id := me e]> (pipes (sto w))) (out e) |>).
Proof.
  intros Hp Hf. pose proof (runs_on_pipe f (sto w) p a e Hp Hf) as Hr. unfold runs, at_pipe, st_lift in *. by rewrite Hr.
Qed.

(** Two records are equal field by field. *)
Ltac by_fields p := destruct p; simpl in *; by subst.

(** What a flush sends. *)
Definition wake_up (asleep : bool) (n : nat) (xs : list raw_message) : list sent :=
  if asleep && (n <? length xs)%nat then [Sent ta tb (init_engine_revive (Some eb) id)] else [].

Lemma flush_runs p xs n asleep h l : ch_view (pipe p) xs n asleep → source_thread p = Some ta →
  destination_thread p = Some tb → destination_engine p = Some eb →
  ∃ pc, runs pipe_flush (PEnv id p h l) tt (PEnv id (p <| pipe := pc |>) h (l ++ wake_up asleep n xs)) ∧
    ch_view pc xs (length xs) (asleep && (length xs <=? n)%nat).
Proof.
  intros V Hs Hd He. destruct (ch_flush_law _ _ _ _ V) as (pc & E & V'). exists pc. split; [|done].
  unfold runs, pipe_flush, mbind, st_bind, st_get. simpl. rewrite E. simpl. unfold wake_up.
  destruct (asleep && (n <? length xs)%nat); simpl.
  - unfold send_command. simpl. rewrite Hs, Hd, He. done.
  - by rewrite app_nil_r.
Qed.

Lemma write_runs p m h l : data_dam p = None → swapping p = false → delayed_gap p = false → pipe_check_write p = true →
  runs (pipe_write m) (PEnv id p h l) tt
    (PEnv id (p <| pipe := ch_write (pipe p) m |> <| in_core_msg_cnt := u64 (in_core_msg_cnt p + 1) |>) h l).
Proof.
  intros Hd Hs Hg Hc. unfold pipe_check_write in Hc. rewrite Hd in Hc.
  unfold runs, pipe_write, mbind, st_bind, st_get, st_assert. simpl. rewrite Hg. simpl.
  assert ((in_core_msg_cnt p =? u64 (hwm p)) && negb (hwm p =? 0) = false) as ->.
  { rewrite bool_decide_false in Hc by (intros [? ?]; done). lia. }
  simpl. by_fields p.
Qed.

Lemma read_asleep_runs p m h l : alive p = false → runs (pipe_read m) (PEnv id p h l) (false, m) (PEnv id p h l).
Proof. intros Ha. unfold runs, pipe_read, mbind, st_bind, st_get. simpl. by rewrite Ha. Qed.

Lemma read_none_runs p m h l xs : alive p = true → ch_view (pipe p) xs 0 false →
  ∃ pc, runs (pipe_read m) (PEnv id p h l) (false, m) (PEnv id (p <| pipe := pc |> <| alive := false |>) h l) ∧
    ch_view pc xs 0 true.
Proof.
  intros Ha V. destruct (ch_read_none _ _ _ V) as (pc & E & V'). exists pc. split; [|by apply V'].
  unfold runs, pipe_read, mbind, st_bind, st_get. simpl. rewrite Ha. simpl. by rewrite E.
Qed.

(** What taking a message sends: the position, from time to time. *)
Definition reports (l' : list sent) : Prop := l' = [] ∨ ∃ pos, l' = [Sent tb ta (init_engine_head (Some ea) id pos)].

Lemma read_message_runs p m h l x xs n : alive p = true → ch_view (pipe p) (x :: xs) (Datatypes.S n) false →
  content x ≠ Tag delimiter_tag → source_thread p = Some ta → source_engine p = Some ea → destination_thread p = Some tb →
  hwm p = hw → lwm p = lw →
  ∃ pc hd l', runs (pipe_read m) (PEnv id p h l) (true, x) (PEnv id (p <| pipe := pc |> <| head := hd |>) h (l ++ l')) ∧
    ch_view pc xs n false ∧ reports l'.
Proof.
  intros Ha V Hx Hst Hse Hdt Hh Hl. destruct (ch_read_law _ _ _ _ V) as (pc & E & V'). exists pc.
  unfold runs, pipe_read, mbind, st_bind, st_get. simpl. rewrite Ha. simpl. rewrite E. simpl.
  rewrite bool_decide_false by done. destruct (hwm p =? 0); simpl.
  { exists (head p), []. rewrite app_nil_r. split; [by_fields p|]. split; [done|by left]. }
  unfold report_period. simpl. rewrite Hh, Hl. destruct (Z.eqb_spec (u64 (hw - lw + 1)) 0) as [|_]; [done|].
  exists (u64 (head p + 1)). destruct (_ =? 0); simpl.
  - unfold send_command. simpl. rewrite Hdt, Hst, Hse. exists [Sent tb ta (init_engine_head (Some ea) id (u64 (head p + 1)))].
    split; [by_fields p|]. split; [done|]. right. eauto.
  - exists []. rewrite app_nil_r. split; [by_fields p|]. split; [done|by left].
Qed.

Definition request : list sent := [Sent tb ta (init_engine_terminate_pipe (Some ea) id)].

Lemma terminate_reader_runs p h l : (reader_terminating p = false →
    source_thread p = Some ta ∧ source_engine p = Some ea ∧ destination_thread p = Some tb) →
  runs pipe_terminate_reader (PEnv id p h l) tt
    (PEnv id (p <| reader_terminating := true |>) h (l ++ if reader_terminating p then [] else request)).
Proof.
  intros Hp. unfold runs, pipe_terminate_reader, mbind, st_bind, st_get. simpl. destruct (reader_terminating p) eqn:E; simpl.
  - rewrite app_nil_r. by_fields p.
  - destruct Hp as (Hst & Hse & Hdt); [done|]. unfold send_command. simpl. rewrite Hdt, Hst, Hse. by_fields p.
Qed.

Lemma read_delimiter_runs p m h l x xs n : alive p = true → ch_view (pipe p) (x :: xs) (Datatypes.S n) false →
  content x = Tag delimiter_tag → reader_terminating p = false → source_thread p = Some ta → source_engine p = Some ea →
  destination_thread p = Some tb →
  ∃ pc, runs (pipe_read m) (PEnv id p h l) (false, x)
      (PEnv id (p <| pipe := pc |> <| reader_terminating := true |>) h (l ++ request)) ∧ ch_view pc xs n false.
Proof.
  intros Ha V Hx Hrt Hst Hse Hdt. destruct (ch_read_law _ _ _ _ V) as (pc & E & V'). exists pc. split; [|done].
  unfold runs, pipe_read, mbind, st_bind, st_get. simpl. rewrite Ha. simpl. rewrite E. simpl. rewrite bool_decide_true by done.
  pose proof (terminate_reader_runs (p <| pipe := pc |>) h l) as Hr. unfold runs in Hr. simpl in Hr. rewrite Hr by done.
  rewrite Hrt. by_fields p.
Qed.

(** The delimiter, and a flush. *)
Lemma terminate_writer_runs p xs n asleep h l : ch_view (pipe p) xs n asleep → source_thread p = Some ta →
  destination_thread p = Some tb → destination_engine p = Some eb → writer_terminating p = false →
  let d := raw_message_init_notification no_message delimiter_tag in
  ∃ pc, runs pipe_terminate_writer (PEnv id p h l) tt
      (PEnv id (p <| pipe := pc |> <| writer_terminating := true |>) h (l ++ wake_up asleep n (xs ++ [d]))) ∧
    ch_view pc (xs ++ [d]) (length (xs ++ [d])) (asleep && (length (xs ++ [d]) <=? n)%nat).
Proof.
  intros V Hst Hdt Hde Hwt d. pose proof (ch_write_law _ _ _ _ d V) as V1.
  destruct (flush_runs (p <| pipe := ch_write (pipe p) d |>) (xs ++ [d]) n asleep h l) as (pc & Hr & V2); [done..|].
  exists pc. split; [|done]. unfold runs, pipe_terminate_writer, mbind, st_bind, st_get in *. simpl. rewrite Hwt. simpl.
  unfold d in *. simpl in Hr. rewrite Hr. by_fields p.
Qed.

Definition agreement : list sent := [Sent ta tb (init_engine_terminate_pipe_ack (Some eb) id)].

Lemma writer_terminated_runs p h l : source_thread p = Some ta → destination_thread p = Some tb → destination_engine p = Some eb →
  runs pipe_writer_terminated (PEnv id p h l) tt
    (PEnv id (p <| source_thread := None |> <| source_engine := None |>) h (l ++ agreement)).
Proof.
  intros Hst Hdt Hde. unfold runs, pipe_writer_terminated, mbind, st_bind, st_get. simpl. unfold send_command. simpl.
  rewrite Hst, Hdt, Hde. by_fields p.
Qed.

(** ** The writer's calls *)

Lemma inbox_wake_up asleep n xs : inbox ta (wake_up asleep n xs) = [] ∧
  Forall is_revive_cmd (inbox tb (wake_up asleep n xs)) ∧
  length (inbox tb (wake_up asleep n xs)) = (if asleep && (n <? length xs)%nat then 1 else 0)%nat.
Proof.
  unfold wake_up. destruct (_ && _); [|done]. rewrite !inbox_sent, decide_False, decide_True by auto. split; [done|].
  split; [by apply Forall_singleton|done].
Qed.

(** Commands of the writer, none about the pipe, and wake-ups that are added
    leave the phase as it is. *)
Lemma phase_flushed w w' p p' asleep n xs revs :
  phase w p revs → source_thread p' = source_thread p → source_engine p' = source_engine p →
  reader_terminating p' = reader_terminating p → src w' = src w →
  sent_out (sto w') = sent_out (sto w) ++ wake_up asleep n xs → source_thread p = Some ta →
  phase w' p' (revs + if asleep && (n <? length xs)%nat then 1 else 0)%nat.
Proof.
  intros Hph Est Ese Ert Esrc El Hst. destruct (inbox_wake_up asleep n xs) as (Hi1 & Hi2 & Hi3).
  assert (to_src w' = to_src w) as Ea by (unfold to_src; by rewrite El, inbox_app, Hi1, app_nil_r).
  assert (to_dst w' = to_dst w ++ inbox tb (wake_up asleep n xs)) as Eb by (unfold to_dst; by rewrite El, inbox_app).
  destruct Hph as [rs P1 P2 P3 P4 P5 P6 P7 P8 P9|hs rs P1 P2 P3 P4 P5 P6 P7 P8 P9 P10|rs P1]; [| |congruence].
  - apply (ph_open _ _ _ (to_dst w')); [congruence|congruence|congruence|by unfold attached_src; rewrite Esrc|by rewrite Esrc|by rewrite Ea|done| |].
    + rewrite Eb, P7. by apply Forall_app.
    + by rewrite Eb, P7, length_app, P9, Hi3.
  - apply (ph_asked _ _ _ hs (to_dst w')); [congruence|congruence|congruence|by unfold attached_src; rewrite Esrc|by rewrite Esrc|by rewrite Ea|done|done| |].
    + rewrite Eb, P8. by apply Forall_app.
    + by rewrite Eb, P8, length_app, P10, Hi3.
Qed.

Lemma alive_flushed p p' (xs : list raw_message) n asleep revs : alive p' = alive p → alive_ok p asleep revs →
  alive_ok p' (asleep && (length xs <=? n)%nat) (revs + if asleep && (n <? length xs)%nat then 1 else 0)%nat.
Proof.
  unfold alive_ok. intros ->. destruct (alive p); [intros [-> ->]; done|]. intros ->.
  destruct asleep; simpl; [|done]. destruct (Nat.ltb_spec n (length xs)), (Nat.leb_spec (length xs) n); lia.
Qed.

(** The writer is attached only before it agreed. *)
Lemma attached_open w p revs : phase w p revs → attached_src w → source_thread p = Some ta.
Proof. intros [] ?; done. Qed.

Lemma write_message_ok w p xs n asleep revs h m : live w p xs n asleep revs → phase w p revs → legal w (write_message h m) →
  ∃ w', runs (perform (write_message h m)) w tt w' ∧ shutdown_ok w'.
Proof.
  intros L Hph (Hatt & Hfuel & b & p0 & (Hmd & _ & Hmade) & Hp0 & Hwt & Hc & Hfew). pose proof L as [].
  assert (p0 = p) as -> by congruence. destruct lv_dam0 as (Hd & Hsw & Hg).
  eexists. split.
  { eapply runs_bind; [done|]. eapply (runs_at_pipe _ (w <| sto := sto w <| heap := h |> |> <| wrote := Datatypes.S (wrote w) |>)); [done|].
    by apply write_runs. }
  simpl. left. eexists _, (xs ++ [m]), n, asleep, revs. split.
  - destruct (Hmade (xs ++ got w)) as [Hh _]; [done|rewrite length_app; rewrite Hwt in lv_len0; lia|].
    constructor; simpl; [apply lookup_insert_eq|..]; try done.
    + by apply ch_write_law.
    + eapply heap_ok_perm; [|exact Hh]. solve_Permutation.
    + rewrite length_app, Hwt in *. simpl. lia.
    + lia.
    + unfold delimited in *. simpl. rewrite Hwt in *. destruct lv_delim0 as [Hno Hrt]. split; [|done].
      intros m' [Hm'| ->%list_elem_of_singleton]%elem_of_app; [by apply Hno|done].
  - destruct Hph; [by eapply ph_open|by eapply ph_asked|by eapply ph_acked].
Qed.

Lemma flush_pipe_ok w p xs n asleep revs : live w p xs n asleep revs → phase w p revs → attached_src w →
  ∃ w', runs (perform flush_pipe) w tt w' ∧ shutdown_ok w'.
Proof.
  intros L Hph Hatt. pose proof L as []. pose proof (attached_open _ _ _ Hph Hatt) as Hst. destruct lv_dest0 as [Hdt Hde].
  destruct (flush_runs p xs n asleep (heap (sto w)) (sent_out (sto w))) as (pc & Hr & V); [done..|].
  eexists. split; [by eapply runs_at_pipe|]. simpl. left. eexists _, xs, (length xs), _, _. split.
  - constructor; simpl; [apply lookup_insert_eq|..]; try done.
    + by eapply alive_flushed.
    + unfold delimited in *. simpl. destruct (writer_terminating p); [|done]. split; [done|apply lv_delim0].
  - by eapply phase_flushed.
Qed.

Lemma finish_writing_ok w p xs n asleep revs : live w p xs n asleep revs → phase w p revs → attached_src w →
  ∃ w', runs (perform finish_writing) w tt w' ∧ shutdown_ok w'.
Proof.
  intros L Hph Hatt. pose proof L as []. pose proof (attached_open _ _ _ Hph Hatt) as Hst. destruct lv_dest0 as [Hdt Hde].
  destruct (writer_terminating p) eqn:Hwt.
  { eexists. split.
    - apply (runs_at_pipe _ w p); [done|]. unfold runs, pipe_terminate_writer, mbind, st_bind, st_get. simpl. rewrite Hwt. done.
    - left. exists p, xs, n, asleep, revs. split; [|by destruct Hph; [eapply ph_open|eapply ph_asked|eapply ph_acked]].
      constructor; simpl; [apply lookup_insert_eq|..]; try done; by rewrite Hwt. }
  set (d := raw_message_init_notification no_message delimiter_tag).
  destruct (terminate_writer_runs p xs n asleep (heap (sto w)) (sent_out (sto w))) as (pc & Hr & V); [done..|].
  eexists. split; [by eapply runs_at_pipe|]. simpl. left. eexists _, (xs ++ [d]), _, _, _. split.
  - constructor; simpl; [apply lookup_insert_eq|..]; try done.
    + rewrite <- app_assoc. apply (heap_ok_perm _ (d :: xs ++ got w)); [solve_Permutation|]. apply heap_ok_plain_cons; [done|done|].
      rewrite length_app. lia.
    + by eapply alive_flushed.
    + rewrite length_app. simpl. lia.
    + unfold delimited in *. simpl. rewrite Hwt in lv_delim0. destruct lv_delim0 as [Hno Hrt]. split; [done|]. intros Hs.
      destruct (reader_terminating p); [by rewrite Hrt in Hs|]. by exists xs, d.
  - by eapply phase_flushed.
Qed.

(** ** Calls on an engine *)

Lemma runs_at_src {A} (f : ST (eenv P S) A) w a b s : runs f (EEnv (src w) (sto w)) a (EEnv b s) →
  runs (at_src f) w a (w <| src := b |> <| sto := s |>).
Proof. unfold runs, at_src, st_lift. by intros ->. Qed.

Lemma runs_at_dst {A} (f : ST (eenv P S) A) w a b s : runs f (EEnv (dst w) (sto w)) a (EEnv b s) →
  runs (at_dst f) w a (w <| dst := b |> <| sto := s |>).
Proof. unfold runs, at_dst, st_lift. by intros ->. Qed.

Lemma runs_engine_pipe {A} (f : ST (penv P S) A) (b : engine_base_t) (s : store P S) p a e :
  pipes s !! id = Some p → runs f (PEnv id p (heap s) (sent_out s)) a e →
  runs (on_objs (on_pipe id f)) (EEnv b s) a (EEnv b (Store (mem e) (<[id := me e]> (pipes s)) (out e))).
Proof.
  intros Hp Hf. pose proof (runs_on_pipe f s p a e Hp Hf) as Hr. unfold runs, on_objs, st_lift in *. simpl. by rewrite Hr.
Qed.

Lemma take_command_runs t w : inbox t (sent_out (sto w)) ≠ [] → ∃ c l,
  runs (take_command t) w c (w <| sto := sto w <| sent_out := l |> |>) ∧
  inbox t (sent_out (sto w)) = c :: inbox t l ∧ ∀ t', t' ≠ t → inbox t' (sent_out (sto w)) = inbox t' l.
Proof.
  intros Hi. destruct (take_first (for_thread t) (sent_out (sto w))) as [[c l]|] eqn:E.
  - exists c, l. split; [|by apply take_first_inbox]. unfold runs, take_command, mbind, st_bind, st_get. simpl. by rewrite E.
  - destruct Hi. clear -E. induction (sent_out (sto w)) as [|s l IH]; simpl in *; [done|]. unfold inbox in *. simpl.
    destruct (for_thread t s); [done|]. destruct (take_first _ l) as [[]|]; [done|]. by apply IH.
Qed.

Lemma find_nodup (l : list pipe_id) : NoDup l → id ∈ l →
  ∃ i, list_find (λ x, x = id) l = Some (i, id) ∧ id ∉ delete i l ∧ NoDup (delete i l).
Proof.
  intros Hl Hid. destruct (list_find_elem_of (λ x, x = id) l id) as [[i x] Hf]; [done..|]. exists i.
  pose proof Hf as (Hi & -> & _)%list_find_Some. split; [done|].
  pose proof (delete_Permutation l i id Hi) as Hp. rewrite Hp in Hl. by apply NoDup_cons in Hl.
Qed.

Lemma demux_release_ok (d : demux_t) : NoDup (demux_pipes (P := P) (S := S) d) → id ∈ demux_pipes (P := P) (S := S) d →
  ∃ d', demux_release_pipe (P := P) (S := S) d id = Ok d' ∧ id ∉ demux_pipes (P := P) (S := S) d'.
Proof.
  intros Hl Hid. destruct d as [d|d]; simpl in *; destruct (find_nodup _ Hl Hid) as (i & Hf & Hn & _).
  - unfold load_balancer_release_pipe. rewrite Hf. eexists. by split.
  - unfold publisher_release_pipe. rewrite Hf. eexists. by split.
Qed.

Lemma head_runs (b : engine_base_t) (s : store P S) p pos :
  pipes s !! id = Some p → swapping p = false → delayed_gap p = false → ∃ k,
  runs (obey true false (init_engine_head (Some ea) id pos)) (EEnv b s) tt
    (EEnv b (Store (heap s) (<[id := p <| in_core_msg_cnt := k |> <| last_head_position := pos |>]> (pipes s)) (sent_out s))).
Proof.
  intros Hp Hs Hg. exists (u64 (in_core_msg_cnt p - u64 (pos - last_head_position p))). eapply runs_bind; [done|]. apply (runs_engine_pipe (pipe_set_head pos) b s p tt (PEnv id _ (heap s) (sent_out s))); [done|].
  unfold runs, pipe_set_head, mbind, st_bind, st_get. simpl. rewrite Hs. simpl. rewrite Hg. simpl. by_fields p.
Qed.

Lemma revive_runs (b : engine_base_t) (s : store P S) p : pipes s !! id = Some p → alive p = false →
  runs (obey false true (init_engine_revive (Some eb) id)) (EEnv b s) tt
    (EEnv b (Store (heap s) (<[id := p <| alive := true |>]> (pipes s)) (sent_out s))).
Proof.
  intros Hp Ha. eapply runs_bind; [done|]. apply (runs_engine_pipe pipe_revive b s p tt (PEnv id _ (heap s) (sent_out s))); [done|].
  unfold runs, pipe_revive, mbind, st_bind, st_get. simpl. rewrite Ha. simpl. by_fields p.
Qed.

Lemma terminate_runs (b : engine_base_t) (s : store P S) p : pipes s !! id = Some p → source_thread p = Some ta →
  destination_thread p = Some tb → destination_engine p = Some eb →
  NoDup (demux_pipes (P := P) (S := S) (demux b)) → id ∈ demux_pipes (P := P) (S := S) (demux b) →
  ∃ d, id ∉ demux_pipes (P := P) (S := S) d ∧
  runs (obey true false (init_engine_terminate_pipe (Some ea) id)) (EEnv b s) tt
    (EEnv (b <| demux := d |>)
      (Store (heap s) (<[id := p <| source_thread := None |> <| source_engine := None |>]> (pipes s)) (sent_out s ++ agreement))).
Proof.
  intros Hp Hst Hdt Hde Hl Hid. destruct (demux_release_ok _ Hl Hid) as (d & Hd & Hn). exists d. split; [done|].
  eapply runs_bind; [done|]. eapply runs_bind.
  { apply (runs_engine_pipe pipe_writer_terminated b s p tt
      (PEnv id (p <| source_thread := None |> <| source_engine := None |>) (heap s) (sent_out s ++ agreement))); [done|]. by apply writer_terminated_runs. }
  eapply runs_bind; [done|]. simpl in *. by rewrite Hd.
Qed.

Lemma ack_runs (b : engine_base_t) (s : store P S) p xs n asleep ms : pipes s !! id = Some p →
  ch_view (pipe p) xs n asleep → heap_ok (heap s) (xs ++ ms) → (length xs < fuel)%nat →
  NoDup (mux_pipes (mux b)) → id ∈ mux_pipes (mux b) →
  ∃ m h, id ∉ mux_pipes m ∧ heap_ok h ms ∧
  runs (obey false true (init_engine_terminate_pipe_ack (Some eb) id)) (EEnv b s) tt
    (EEnv (b <| mux := m |>) (Store h (delete id (pipes s)) (sent_out s))).
Proof.
  intros Hp V Hh Hf Hl Hid. destruct (find_nodup _ Hl Hid) as (i & Hi & Hn & _).
  destruct (pipe_delete_ok (p <| destination_thread := None |> <| destination_engine := None |>) xs n asleep ms (heap s) fuel)
    as (h & Hd & Hh' & _); [done..|].
  exists (Mux (erase_pipe i (mux_pipes (mux b)) (current (mux b))).1 (erase_pipe i (mux_pipes (mux b)) (current (mux b))).2), h.
  split; [done|]. split; [done|]. eapply runs_bind; [done|]. eapply runs_bind.
  { by apply (runs_engine_pipe pipe_reader_terminated b s p tt
      (PEnv id (p <| destination_thread := None |> <| destination_engine := None |>) (heap s) (sent_out s))). }
  eapply runs_bind; [done|]. simpl. unfold runs, mbind, st_bind, on_objs, st_lift. simpl.
  unfold mux_release_pipe, mbind, st_bind. rewrite Hi. unfold delete_pipe. simpl. rewrite lookup_insert_eq.
  unfold runs in Hd. simpl in Hd. rewrite Hd. simpl. by rewrite delete_insert_eq.
Qed.

(** ** A thread obeys a command *)

Lemma source_command_ok w p xs n asleep revs : live w p xs n asleep revs → phase w p revs → to_src w ≠ [] →
  ∃ w', runs (perform source_command) w tt w' ∧ shutdown_ok w'.
Proof.
  intros L Hph Hc. pose proof L as []. destruct lv_dam0 as (Hd & Hsw & Hg). destruct lv_dest0 as [Hdt Hde].
  destruct (take_command_runs ta w Hc) as (c & l & Ht & Ea & Eo). fold (to_src w) in Ea.
  specialize (Eo tb (not_eq_sym Hthreads)). fold (to_dst w) in Eo. set (s := sto w <| sent_out := l |>).
  destruct (decide (is_Some (match c with c_engine_command _ (ec_head _ pos) => Some pos | _ => None end))) as [Hpos|Hpos].
  - assert (is_head c) as [pos ->].
    { destruct c as [| | |? []]; try by destruct Hpos. destruct Hph as [rs ? ? ? ? ? Hf|hs rs ? ? ? ? ? Hh Hf|]; [| |congruence].
      - rewrite Ea in Hf. by apply Forall_cons_1 in Hf as [? _].
      - destruct hs as [|h0 hs]; simplify_eq/=; rewrite Ea in Hh; simplify_eq/=. by apply Forall_cons_1 in Hf as [? _]. }
    destruct (head_runs (src w) s p pos) as (k & Hr); [done..|].
    eexists. split; [eapply runs_bind; [exact Ht|]; by apply runs_at_src|].
    left. eexists _, xs, n, asleep, revs. split; [constructor; simpl; [apply lookup_insert_eq|..]; done|].
    destruct Hph as [rs|[|h0 hs] rs ? ? ? ? ? Hh Hf|]; [| | |congruence].
    + apply (ph_open _ _ _ rs); simpl; try done; unfold to_src, to_dst in *; simpl; [|congruence].
      by rewrite Ea in *; eauto using Forall_inv_tail.
    + rewrite Ea in Hh. simplify_eq.
    + apply (ph_asked _ _ _ hs rs); simpl; try done; unfold to_src, to_dst in *; simpl; [|by inv Hf|congruence].
      rewrite Ea in Hh. by simplify_eq/=.
  - destruct Hph as [rs ? ? ? ? ? Hf|[|h0 hs] rs Hst Hse Hrt Hatt Hnd Hh Hf Hrs|]; [| | |congruence].
    + rewrite Ea in Hf. apply Forall_cons_1 in Hf as [[pos ->] _]. destruct Hpos. by eexists.
    + rewrite Ea in Hh. simplify_eq/=.
      destruct (terminate_runs (src w) s p) as (d & Hn & Hr); [done..|].
      eexists. split; [eapply runs_bind; [exact Ht|]; by apply runs_at_src|].
      left. eexists _, xs, n, asleep, _. split; [constructor; simpl; [apply lookup_insert_eq|..]; done|].
      apply (ph_acked _ _ _ (to_dst w)); unfold to_src, to_dst, agreement in *; simpl; try done; rewrite inbox_app, inbox_sent.
      * rewrite decide_False by done. rewrite app_nil_r. congruence.
      * rewrite decide_True by done. congruence.
    + rewrite Ea in Hh. simplify_eq/=. apply Forall_cons_1 in Hf as [[pos ->] _]. destruct Hpos. by eexists.
Qed.

Lemma destination_command_ok w p xs n asleep revs : live w p xs n asleep revs → phase w p revs → to_dst w ≠ [] →
  ∃ w', runs (perform destination_command) w tt w' ∧ shutdown_ok w'.
Proof.
  intros L Hph Hc. pose proof L as []. destruct lv_dest0 as [Hdt Hde].
  destruct (take_command_runs tb w Hc) as (c & l & Ht & Eb & Eo). fold (to_dst w) in Eb.
  specialize (Eo ta Hthreads). fold (to_src w) in Eo. set (s := sto w <| sent_out := l |>).
  destruct revs as [|revs].
  - destruct Hph as [rs P1 P2 P3 P4 P5 P6 P7 P8 P9|hs rs P1 P2 P3 P4 P5 P6 P7 P8 P9 P10|rs P1 P2 P3 P4 P5 P6 P7];
      (destruct rs; [|done]); [congruence..|]. rewrite Eb in P5. simplify_eq/=.
    destruct lv_mux0 as [Hin Hnd].
    destruct (ack_runs (dst w) s p xs n asleep (got w)) as (m & h & Hn & Hh & Hr); [done|done|done|destruct lv_few0; case_match; lia|done|done|].
    eexists. split; [eapply runs_bind; [exact Ht|]; by apply runs_at_dst|].
    right. constructor; simpl; try done; [apply lookup_delete_eq|]. unfold to_src, to_dst in *. simpl. split; congruence.
  - unfold alive_ok in lv_alive0. destruct (alive p) eqn:Ha; [naive_solver|]. destruct asleep; simplify_eq.
    assert (is_revive_cmd c) as ->.
    { destruct Hph as [rs P1 P2 P3 P4 P5 P6 P7 P8 P9|hs rs P1 P2 P3 P4 P5 P6 P7 P8 P9 P10|rs P1 P2 P3 P4 P5 P6 P7];
        (destruct rs as [|r rs]; [done|]); simplify_eq/=; rewrite Eb in *; simplify_eq/=; by eapply Forall_inv. }
    eexists. split; [eapply runs_bind; [exact Ht|]; apply runs_at_dst; by apply (revive_runs (dst w) s p)|].
    left. eexists _, xs, n, false, 0%nat. split; [constructor; simpl; [apply lookup_insert_eq|..]; done|].
    destruct Hph as [rs P1 P2 P3 P4 P5 P6 P7 P8 P9|hs rs P1 P2 P3 P4 P5 P6 P7 P8 P9 P10|rs P1 P2 P3 P4 P5 P6 P7];
      (destruct rs as [|r [|]]; [done| |done]).
    + apply (ph_open _ _ _ []); simpl; try done; unfold to_src, to_dst in *; simpl; congruence.
    + apply (ph_asked _ _ _ hs []); simpl; try done; unfold to_src, to_dst in *; simpl; congruence.
    + apply (ph_acked _ _ _ []); simpl; try done; unfold to_src, to_dst in *; simpl in *; congruence.
Qed.

(** ** The reader's calls *)

Lemma stop_reading_ok w p xs n asleep revs : live w p xs n asleep revs → phase w p revs →
  ∃ w', runs (perform stop_reading) w tt w' ∧ shutdown_ok w'.
Proof.
  intros L Hph. pose proof L as []. destruct lv_dest0 as [Hdt Hde].
  eexists. split.
  { eapply runs_bind; [|done]. eapply (runs_at_pipe _ w p); [done|].
    apply terminate_reader_runs. intros Hrt. destruct Hph; [done|congruence..]. }
  left. eexists _, xs, n, asleep, revs. split.
  - constructor; simpl; [apply lookup_insert_eq|..]; try done. unfold delimited in *. simpl.
    destruct (writer_terminating p); [|naive_solver]. split; [apply lv_delim0|done].
  - destruct Hph as [rs P1 P2 P3 P4 P5 P6 P7|hs rs P1 P2 P3|rs P1 P2].
    + apply (ph_asked _ _ _ (to_src w) rs); simpl; try done; unfold to_src, to_dst in *; simpl; rewrite P3;
        rewrite inbox_app; unfold request; rewrite inbox_sent; [by rewrite decide_True|].
      rewrite decide_False by done. by rewrite app_nil_r.
    + eapply (ph_asked _ _ _ hs rs); simpl; try done; unfold to_src, to_dst in *; simpl; rewrite P3; by rewrite app_nil_r.
    + eapply (ph_acked _ _ _ rs); simpl; try done; unfold to_src, to_dst in *; simpl; rewrite P2; by rewrite app_nil_r.
Qed.

(** A report adds at most one head position for the writer. *)
Lemma reports_src l' : reports l' → Forall is_head (inbox ta l') ∧ inbox tb l' = [].
Proof.
  intros [->|[pos ->]]; [done|]. rewrite !inbox_sent, decide_True, decide_False by done. split; [|done].
  apply Forall_singleton. by exists pos.
Qed.

(** What a reader that did not stop finds when the pipe gives it a message. *)
Lemma next_message w p x xs n asleep revs : live w p (x :: xs) n asleep revs → phase w p revs → stopped w = false →
  reader_terminating p = false ∧ source_thread p = Some ta ∧ source_engine p = Some ea ∧
  (content x = Tag delimiter_tag → xs = [] ∧ writer_terminating p = true).
Proof.
  intros [] Hph Hs. unfold delimited in *.
  assert (reader_terminating p = false) as Hrt.
  { destruct (writer_terminating p), (reader_terminating p) eqn:E; try done; [by destruct lv_delim0 as [_ ?]; naive_solver|].
    destruct lv_delim0 as [_ Ht]. by rewrite Ht in Hs. }
  destruct Hph as [| |]; try congruence. split_and!; [done..|]. intros Hx. rewrite Hrt in *.
  destruct (writer_terminating p).
  - destruct lv_delim0 as [_ Hd]. destruct Hd as (ys & d & Ex & Hd & Hno); [done|]. split; [|done].
    destruct ys as [|y ys]; simplify_eq/=; [done|]. by destruct (Hno y); [left|].
  - destruct lv_delim0 as [Hno _]. by destruct (Hno x); [left|].
Qed.

Lemma read_nothing_ok w p m xs n asleep revs : live w p xs n asleep revs → phase w p revs → stopped w = false →
  (alive p = false ∨ n = 0%nat) → ∃ w', runs (perform (read_message m)) w tt w' ∧ shutdown_ok w'.
Proof.
  intros L Hph Hs Hn. pose proof L as []. destruct (alive p) eqn:Ha.
  - destruct Hn as [?| ->]; [done|]. unfold alive_ok in *. rewrite Ha in *. destruct lv_alive0 as [-> ->].
    destruct (read_none_runs p m (heap (sto w)) (sent_out (sto w)) xs) as (pc & Hr & V); [done..|].
    eexists. split; [eapply runs_bind; [by eapply (runs_at_pipe _ w p)|done]|].
    left. eexists _, xs, 0%nat, true, 0%nat. split; [constructor; simpl; [apply lookup_insert_eq|..]; done|].
    destruct Hph; [by eapply ph_open|by eapply ph_asked|by eapply ph_acked].
  - eexists. split; [eapply runs_bind; [eapply (runs_at_pipe _ w p); [done|by apply read_asleep_runs]|done]|].
    left. eexists p, xs, n, asleep, revs. split; [constructor; simpl; [apply lookup_insert_eq|..]; done|].
    destruct Hph; [by eapply ph_open|by eapply ph_asked|by eapply ph_acked].
Qed.

Lemma read_something_ok w p m x xs n : live w p (x :: xs) (Datatypes.S n) false 0 → phase w p 0 → stopped w = false →
  alive p = true → content x ≠ Tag delimiter_tag → ∃ w', runs (perform (read_message m)) w tt w' ∧ shutdown_ok w'.
Proof.
  intros L Hph Hs Ha Hx. destruct (next_message _ _ _ _ _ _ _ L Hph Hs) as (Hrt & Hst & Hse & _).
  pose proof L as []. destruct lv_dest0 as [Hdt Hde]. destruct lv_marks0 as [Hh Hl].
  destruct (read_message_runs p m (heap (sto w)) (sent_out (sto w)) x xs n) as (pc & hd & l' & Hr & V & Hl'); [done..|].
  eexists. split; [eapply runs_bind; [by eapply (runs_at_pipe _ w p)|done]|].
  destruct (reports_src l' Hl') as [Hf Hno].
  left. eexists _, xs, n, false, 0%nat. split.
  - constructor; simpl; [apply lookup_insert_eq|..]; try done.
    + eapply heap_ok_perm; [|exact lv_heap0]. simpl. solve_Permutation.
    + rewrite length_app. simpl in *. lia.
    + unfold delimited in *. simpl. rewrite Hrt in *. destruct (writer_terminating p).
      * destruct lv_delim0 as [Hn Hd]. split; [by simplify_eq/=|]. intros _. destruct (Hd Hs) as (ys & d & Ex & Hd' & Hys).
        destruct ys as [|y ys]; simplify_eq/=. exists ys, d. split_and!; [done..|]. intros m' ?. apply Hys. by right.
      * destruct lv_delim0 as [Hys ?]. split; [|done]. intros m' ?. apply Hys. by right.
  - destruct Hph as [rs P1 P2 P3 P4 P5 P6 P7 P8 P9|hs rs P1 P2 P3|rs P1]; [|congruence..].
    apply (ph_open _ _ _ rs); simpl; try done; unfold to_src, to_dst in *; simpl; rewrite inbox_app.
    + by apply Forall_app.
    + by rewrite Hno, app_nil_r.
Qed.

Lemma read_delimiter_ok w p m x xs n : live w p (x :: xs) (Datatypes.S n) false 0 → phase w p 0 → stopped w = false →
  alive p = true → content x = Tag delimiter_tag → ∃ w', runs (perform (read_message m)) w tt w' ∧ shutdown_ok w'.
Proof.
  intros L Hph Hs Ha Hx. destruct (next_message _ _ _ _ _ _ _ L Hph Hs) as (Hrt & Hst & Hse & Hlast).
  destruct (Hlast Hx) as [-> Hwt]. pose proof L as []. destruct lv_dest0 as [Hdt Hde].
  destruct (read_delimiter_runs p m (heap (sto w)) (sent_out (sto w)) x [] n) as (pc & Hr & V); [done..|].
  eexists. split; [eapply runs_bind; [by eapply (runs_at_pipe _ w p)|done]|].
  left. eexists _, [], n, false, 0%nat. split.
  - constructor; simpl; [apply lookup_insert_eq|..]; try done.
    + eapply heap_ok_plain; [exact lv_heap0|]. by unfold is_plain; rewrite Hx.
    + simpl in *. lia.
    + unfold delimited in *. simpl. rewrite Hwt in *. destruct lv_delim0 as [Hn _]. by simplify_eq/=.
  - destruct Hph as [rs P1 P2 P3 P4 P5 P6 P7 P8 P9|hs rs P1 P2 P3|rs P1]; [|congruence..].
    apply (ph_asked _ _ _ (to_src w) rs); simpl; try done; unfold to_src, to_dst in *; simpl; rewrite inbox_app;
      unfold request; rewrite inbox_sent; [by rewrite decide_True|]. rewrite decide_False by done. by rewrite app_nil_r.
Qed.

Lemma read_message_ok w p m xs n asleep revs : live w p xs n asleep revs → phase w p revs → stopped w = false →
  ∃ w', runs (perform (read_message m)) w tt w' ∧ shutdown_ok w'.
Proof.
  intros L Hph Hs. destruct (alive p) eqn:Ha; [|by eapply read_nothing_ok; eauto].
  destruct n as [|n]; [by eapply read_nothing_ok; eauto|].
  pose proof (lv_alive _ _ _ _ _ _ L) as Hal. unfold alive_ok in Hal. rewrite Ha in Hal. destruct Hal as [-> ->].
  destruct xs as [|x xs].
  { destruct (ch_view_bound _ _ _ _ (lv_view _ _ _ _ _ _ L)) as [Hn _]. simpl in Hn. lia. }
  destruct (decide (content x = Tag delimiter_tag)); [by eapply read_delimiter_ok|by eapply read_something_ok].
Qed.

(** ** Runs of the two threads *)

Lemma shutdown_step w c : shutdown_ok w → legal w c → ∃ w', runs (perform c) w tt w' ∧ shutdown_ok w'.
Proof.
  intros [(p & xs & n & asleep & revs & L & Hph)|G] Hc.
  - destruct c; simpl in Hc.
    + by eapply write_message_ok.
    + by eapply flush_pipe_ok.
    + by eapply finish_writing_ok.
    + by eapply source_command_ok.
    + destruct Hc. by eapply read_message_ok.
    + by eapply stop_reading_ok.
    + by eapply destination_command_ok.
  - destruct G as [? ? ? [? ?] ?]. destruct c; simpl in Hc; try done; by destruct Hc.
Qed.

Inductive calls (w : world) : list call → world → Prop :=
  | calls_none : calls w [] w
  | calls_more cs c w1 w2 : calls w cs w1 → legal w1 c → runs (perform c) w1 tt w2 → calls w (cs ++ [c]) w2.

(** A pipe between two engines that list it, with no swap, before its first
    message. *)
Definition connected (w : world) (source destination : engine_info) : Prop :=
  let p := pipe_new ta ea tb eb source destination in
  pipes (sto w) !! id = Some p ∧ data_dam p = None ∧ hwm p = hw ∧ lwm p = lw ∧
  attached_src w ∧ NoDup (demux_pipes (P := P) (S := S) (demux (src w))) ∧
  attached_dst w ∧ NoDup (mux_pipes (mux (dst w))) ∧
  to_src w = [] ∧ to_dst w = [] ∧ heap_ok (heap (sto w)) [] ∧ got w = [] ∧ wrote w = 0%nat ∧ stopped w = false ∧
  (1 < fuel)%nat.

Lemma connected_ok w source destination : connected w source destination → shutdown_ok w.
Proof.
  intros (Hp & Hd & Hh & Hl & Hs & Hsn & Hdst & Hdn & Hts & Htd & Hheap & Hgot & Hw & Hstop & Hf).
  unfold pipe_new in *. destruct (get_watermarks source) as [shwm slwm], (get_watermarks destination) as [dhwm dlwm].
  destruct (if (_ || _) then _ else _) as [h0 l0]. simpl in *.
  left. eexists _, [], 0%nat, false, 0%nat. split.
  - constructor; simpl; [exact Hp|..]; rewrite ?Hgot, ?Hw; simpl; try done; [apply ch_new_law| |by rewrite Hstop].
    unfold delimited. simpl. split; [|done]. by intros m ?%elem_of_nil.
  - apply (ph_open _ _ _ []); simpl; try done. by rewrite Hts.
Qed.

(** Both threads are idle, and one of them ended the pipe: the reader stopped,
    or it took everything the writer wrote before it finished. *)
Definition ended (w : world) : Prop :=
  to_src w = [] ∧ to_dst w = [] ∧
  (stopped w = true ∨ ∀ p, pipes (sto w) !! id = Some p → writer_terminating p = true ∧ alive p = false).

Lemma ended_gone w : shutdown_ok w → ended w → gone w.
Proof.
  intros [(p & xs & n & asleep & revs & L & Hph)|G] (Es & Ed & He); [|done]. exfalso. destruct L.
  destruct Hph as [rs P1 P2 P3 P4 P5 P6 P7 P8 P9|hs rs P1 P2 P3 P4 P5 P6|rs P1 P2 P3 P4 P5]; cycle 1.
  { rewrite Es in P6. by destruct hs. }
  { rewrite Ed in P5. by destruct rs. }
  destruct He as [Hs|He]; [rewrite lv_stopped0 in P3 by done; done|]. destruct (He p lv_pipe0) as [Hwt Ha].
  assert (stopped w = false) as Hs by (destruct (stopped w); [rewrite lv_stopped0 in P3 by done|]; done).
  rewrite Ed in P7. subst rs. simpl in P9. subst revs. unfold alive_ok in *. rewrite Ha in *. destruct asleep; [|done].
  destruct (ch_view_bound _ _ _ _ lv_view0) as [_ Hn]. unfold delimited in *. rewrite Hwt, P3 in *.
  destruct lv_delim0 as [Hl Hd]. destruct (Hd Hs) as (ys & d & -> & _). rewrite Hn, length_app in Hl by done. simpl in Hl. lia.
Qed.

(** C15: Two engines in different threads end a pipe safely, whoever begins:
    from a fresh pipe without a swap, however writes, flushes, reads,
    termination calls and the handling of commands interleave, the next call
    never faults, no thread is left with a command about a pipe that does not
    exist, and once both threads are idle and one of them ended the pipe, it has
    been deleted exactly once, both engines forgot it, and the messages left in
    it are released. *)
Theorem pipe_shutdown w source destination cs w' : connected w source destination → calls w cs w' →
  (∀ c, legal w' c → ∃ w'', runs (perform c) w' tt w'') ∧ (ended w' → gone w').
Proof using Hthreads Hperiod H0.
  intros Hw Hcs. assert (shutdown_ok w') as Hok.
  { induction Hcs as [|cs c w1 w2 _ IH Hc Hr]; [by eapply connected_ok|].
    destruct (shutdown_step w1 c IH Hc) as (w2' & Hr' & Hok). unfold runs in *. rewrite Hr in Hr'. by simplify_eq. }
  split; [|by apply ended_gone]. intros c Hc. destruct (shutdown_step w' c Hok Hc) as (w'' & Hr & _). eauto.
Qed.
End shutdown.

(** ** Runs

    The writer finishes and the reader drains the pipe, or the reader stops and
    leaves messages behind. *)

#[local] Instance slots2 : SlotQueue raw_message (yqueue raw_message) := yqueue_slot_queue 2.
#[local] Instance slots2_laws : SlotQueueLaws raw_message (yqueue raw_message) := yqueue_laws 2 ltac:(lia).

Abbreviation queue := (ypipe (yqueue raw_message)).

(** Engine 1 in thread 1 writes the pipe 7, engine 4 in thread 2 reads it. *)
Definition demo_id : pipe_id := 7%positive.
Abbreviation demo_calls := (calls (P := queue) (S := unit) demo_id 1 2 50).
Abbreviation demo_gone := (gone (P := queue) (S := unit) demo_id 1 2).

Inductive act := AWrite (x : Z) | AFlush | AFinish | ASource | ARead | AStop | ADestination.

(** The call an act stands for, and whether it is legal. *)
Definition call_of (w : world (P := queue) (S := unit)) (a : act) : call :=
  match a with
  | AWrite x => write_message (heap (sto w)) (byte_message x)
  | AFlush => flush_pipe
  | AFinish => finish_writing
  | ASource => source_command
  | ARead => read_message no_message
  | AStop => stop_reading
  | ADestination => destination_command
  end.

Definition may (w : world (P := queue) (S := unit)) (a : act) : bool :=
  match a with
  | AWrite _ => bool_decide (attached_src demo_id w) && (wrote w + 2 <? 50)%nat &&
      match pipes (sto w) !! demo_id with
      | Some p => negb (writer_terminating p) && pipe_check_write (P := queue) (S := unit) p | None => false end
  | AFlush | AFinish => bool_decide (attached_src demo_id w)
  | ASource => bool_decide (0 < length (inbox 1 (sent_out (sto w))))%nat
  | ARead => bool_decide (attached_dst demo_id w) && negb (stopped w)
  | AStop => bool_decide (attached_dst demo_id w)
  | ADestination => bool_decide (0 < length (inbox 2 (sent_out (sto w))))%nat
  end.

Lemma may_legal w a : may w a = true → legal demo_id 1 2 50 w (call_of w a).
Proof.
  destruct a; simpl; intros E; repeat (apply andb_true_iff in E as [E ?]); rewrite ?bool_decide_eq_true in *; try done.
  - destruct (pipes (sto w) !! demo_id) as [p|] eqn:Ep; [|done]. apply andb_true_iff in H as [Hw%negb_true_iff Hc].
    apply Nat.ltb_lt in H0. split; [done|]. split; [done|]. exists (0, [x]), p. split; [apply made_byte_message|].
    split_and!; [done..|lia].
  - intros Hi. rewrite Hi in E. simpl in E. lia.
  - by apply negb_true_iff in H.
  - intros Hi. rewrite Hi in E. simpl in E. lia.
Qed.

Definition act_step (w : world (P := queue) (S := unit)) (a : act) : option (world (P := queue) (S := unit)) :=
  if may w a then
    match perform demo_id 1 2 50 (call_of w a) w with Ok (_, w') => Some w' | Crash _ => None end
  else None.

Definition acts (l : list act) (w : world (P := queue) (S := unit)) : option (world (P := queue) (S := unit)) :=
  foldl (λ o a, w ← o; act_step w a) (Some w) l.

Lemma acts_sound l w w' : acts l w = Some w' → ∃ cs, demo_calls w cs w'.
Proof.
  unfold acts. revert w'. induction l as [|a l IH] using rev_ind; intros w' E; simpl in E.
  - simplify_eq. exists []. constructor.
  - rewrite foldl_snoc in E. destruct (foldl _ _ l) as [w1|] eqn:E1; [|done]. destruct (IH w1) as [cs Hcs]; [done|].
    simpl in E. unfold act_step in E. destruct (may w1 a) eqn:Em; [|done].
    destruct (perform _ _ _ _ _ _) as [[[] w2]|] eqn:Ep; simplify_eq. exists (cs ++ [call_of w1 a]).
    eapply calls_more; [done|by apply may_legal|done].
Qed.

(** Watermarks 3 and 2. *)
Definition demo_source : engine_info := EngineInfo (0, 0) 0.
Definition demo_destination : engine_info := EngineInfo (3, 2) 0.

Definition demo_world : world (P := queue) (S := unit) :=
  World (EngineBase mux_new (a_load_balancer (LoadBalancer [demo_id] 0)))
    (EngineBase (Mux [demo_id] 0) (a_load_balancer load_balancer_new))
    (Store (MHeap ∅ 1000 []) {[ demo_id := pipe_new 1 1 2 4 demo_source demo_destination ]} []) [] 0 false.

Lemma demo_connected : connected demo_id 1 2 1 4 3 2 50 demo_world demo_source demo_destination.
Proof.
  unfold connected, attached_src, attached_dst. simpl. split_and!; try reflexivity; try lia;
    try (by apply list_elem_of_singleton); try apply NoDup_singleton. apply heap_ok_empty.
Qed.

Definition idle (w : world (P := queue) (S := unit)) : bool :=
  bool_decide (length (sent_out (sto w)) = 0)%nat &&
  (stopped w || match pipes (sto w) !! demo_id with Some p => writer_terminating p && negb (alive p) | None => true end).

Lemma idle_ended w : idle w = true → ended demo_id 1 2 w.
Proof.
  unfold idle. intros [Hl Hs]%andb_true_iff. rewrite bool_decide_eq_true in Hl. apply nil_length_inv in Hl.
  unfold ended, to_src, to_dst. rewrite Hl. split; [done|]. split; [done|].
  apply orb_true_iff in Hs as [?|Hs]; [by left|right]. intros p Hp. rewrite Hp in Hs.
  apply andb_true_iff in Hs as [? ?%negb_true_iff]. done.
Qed.

(** The reader stops with a message of two left. *)
Definition demo_stop : list act :=
  [AWrite 10; AWrite 11; AFlush; ARead; AStop; AWrite 12; ASource; ADestination].

(** The writer finishes after the reader fell asleep; the reader reports its
    position, wakes up, takes the delimiter and asks. *)
Definition demo_finish : list act :=
  [AWrite 10; AFlush; ARead; ARead; AWrite 11; AFinish; ADestination; ARead; ARead; ASource; ASource; ARead; ADestination].

Definition ends (got_ : list Z) (w : world (P := queue) (S := unit)) : bool :=
  idle w && bool_decide (vsm_data <$> got w = (λ x, [x]) <$> got_).

Lemma demo_shutdown_runs : ∃ w, acts demo_stop demo_world = Some w ∧ ends [10] w = true.
Proof. apply option_computes. vm_compute. reflexivity. Qed.

Lemma demo_finish_runs : ∃ w, acts demo_finish demo_world = Some w ∧ ends [10; 11] w = true.
Proof. apply option_computes. vm_compute. reflexivity. Qed.

Lemma demo_acts_end l got_ w : acts l demo_world = Some w → ends got_ w = true → ended demo_id 1 2 w ∧ ∃ cs, demo_calls demo_world cs w.
Proof. intros E [Hi _]%andb_true_iff. split; [by apply idle_ended|by eapply acts_sound]. Qed.

Lemma pipe_shutdown_witness :
  (∃ w, acts demo_stop demo_world = Some w ∧ demo_gone w) ∧ (∃ w, acts demo_finish demo_world = Some w ∧ demo_gone w).
Proof.
  split.
  - destruct demo_shutdown_runs as (w & E & Q). exists w. split; [exact E|]. destruct (demo_acts_end _ _ _ E Q) as (He & cs & Hcs).
    refine (proj2 (pipe_shutdown demo_id 1 2 1 4 3 2 50 _ _ demo_world demo_source demo_destination cs w demo_connected Hcs) He); [lia|done].
  - destruct demo_finish_runs as (w & E & Q). exists w. split; [exact E|]. destruct (demo_acts_end _ _ _ E Q) as (He & cs & Hcs).
    refine (proj2 (pipe_shutdown demo_id 1 2 1 4 3 2 50 _ _ demo_world demo_source demo_destination cs w demo_connected Hcs) He); [lia|done].
Defined.
