(* ===== verification/Attributes.v ===== *)
(** Attribute lists and the directory service that keeps them
    ([zmq/i_locator.hpp], [zmq/scope.hpp]). *)
From S2P Require Import Prelude.
From Stdlib Require Export String Ascii.
From stdpp Require Export strings.
From stdpp Require Import sorting.

(** [std::map <std::string, std::string>]. *)
Definition attr_list_t := gmap string string.

(** The bytes of a string. *)
Definition bytes_of (s : string) : list Z := (λ a, Z.of_N (N_of_ascii a)) <$> list_ascii_of_string s.
Definition string_of (b : list Z) : string := string_of_list_ascii ((λ z, ascii_of_N (Z.to_N z)) <$> b).

Lemma string_of_bytes_of s : string_of (bytes_of s) = s.
Proof.
  unfold string_of, bytes_of. rewrite <- list_fmap_compose, (list_fmap_ext _ id), list_fmap_id.
  - apply string_of_list_ascii_of_string.
  - intros _ a _. unfold compose. by rewrite N2Z.id, ascii_N_embedding.
Qed.

Lemma length_bytes_of s : List.length (bytes_of s) = String.length s.
Proof. unfold bytes_of. rewrite length_fmap. induction s; simpl; congruence. Qed.

(** The order of [std::string], byte by byte. *)
Definition string_le (a b : string) : Prop := String.compare a b ≠ Gt.

#[export] Instance string_le_dec : RelDecision string_le.
Proof. intros a b. unfold string_le. apply _. Defined.

(** The sequence from [begin ()] to [end ()]. *)
Definition in_key_order {A} (m : gmap string A) : list (string * A) :=
  merge_sort (λ a b, string_le a.1 b.1) (map_to_list m).

(** [m.insert ((k, v))]: nothing happens when the key is there. *)
Definition map_keep {A} (k : string) (v : A) (m : gmap string A) : gmap string A :=
  match m !! k with Some _ => m | None => <[k := v]> m end.

Inductive scope_t := scope_local | scope_process | scope_global.

(** The directory service: both calls fail by an assertion. *)
Class ILocator (L : Type) := {
  register_endpoint : string → attr_list_t → ST L unit;
  resolve_endpoint : string → attr_list_t → ST L attr_list_t
}.

Section key_order.
Context {A : Type}.

Lemma in_key_order_perm (m : gmap string A) : in_key_order m ≡ₚ map_to_list m.
Proof. apply merge_sort_Permutation. Qed.

(** Setting the pairs of a map one by one, in any order, gives the map. *)
Lemma list_to_map_in_key_order (m : gmap string A) : list_to_map (in_key_order m) = m.
Proof.
  rewrite <- (list_to_map_to_list m) at 2. apply list_to_map_proper; [|apply in_key_order_perm].
  rewrite in_key_order_perm. apply NoDup_fst_map_to_list.
Qed.

Lemma foldl_set_app (l : list (string * A)) (m : gmap string A) :
  NoDup l.*1 → foldl (λ m kv, <[kv.1 := kv.2]> m) m l = (list_to_map l : gmap string A) ∪ m.
Proof.
  revert m. induction l as [|[k v] l IH]; intros m Hn; simpl; [by rewrite (left_id_L ∅ (∪))|].
  apply NoDup_cons in Hn as [Hk Hn]. rewrite IH by done.
  rewrite <- insert_union_l. symmetry. apply insert_union_r. by apply not_elem_of_list_to_map_1.
Qed.

Lemma foldl_set_in_key_order (m : gmap string A) :
  foldl (λ m kv, <[kv.1 := kv.2]> m) ∅ (in_key_order m) = m.
Proof.
  rewrite foldl_set_app, list_to_map_in_key_order; [apply (right_id_L ∅ (∪))|].
  rewrite in_key_order_perm. apply NoDup_fst_map_to_list.
Qed.
End key_order.
