(* ===== verification/Dispatcher.v ===== *)
(** Passing of commands among the threads, and the registry of named objects
    ([src/libzmq/dispatcher.cpp], [zmq/dispatcher.hpp]).  Threads are known to
    the dispatcher by the small integers it gives them. *)
From S2P Require Import Prelude YQueue Channel YPipe Command Attributes.

(** Engines made to reach objects of other processes
    ([src/libzmq/engine_factory.cpp]).  [engine_arguments] is
    [get_arguments] of a listener. *)
Class EngineFactory (W : Type) := {
  create_listener : thread_id → option thread_id → string → list thread_id →
    bool → thread_id → engine_id → string → ST W engine_id;
  create_engine : thread_id → option thread_id → string → string → bool → string → ST W engine_id;
  engine_arguments : engine_id → ST W string;
  engine_is_load_balancing : engine_id → ST W bool
}.

Section dispatcher.
Context {Q : Type} `{!SlotQueue command_t Q}.

Record object_info_t := ObjectInfo { thread : option thread_id; engine : engine_id }.

(** [pipes] is the matrix, row by row; a signaler is known by the thread that
    waits for it. *)
Record dispatcher_t := Dispatcher {
  thread_count : nat;
  pipes : list (ypipe Q);
  signalers : list (option thread_id);
  used : list bool;
  threads : list thread_id;
  objects : gmap string object_info_t
}.
#[export] Instance eta_dispatcher : Eta dispatcher_t := λ d,
  Dispatcher (thread_count d) (pipes d) (signalers d) (used d) (threads d) (objects d).

Definition dispatcher_new (thread_count_ : nat) : dispatcher_t :=
  Dispatcher thread_count_ (replicate (thread_count_ * thread_count_) (ypipe_new true))
    (replicate thread_count_ None) (replicate thread_count_ false) [] ∅.

(** The calls the destructor makes to the threads, in order. *)
Inductive thread_call := call_stop (t : thread_id) | call_destroy (t : thread_id).

Definition dispatcher_delete (d : dispatcher_t) : list thread_call :=
  (call_stop <$> threads d) ++ (call_destroy <$> threads d).

Definition pipe_index (n source_thread_id_ destination_thread_id_ : nat) : nat :=
  source_thread_id_ * n + destination_thread_id_.

Definition with_pipe {A} (i : nat) (f : ypipe Q → res (A * ypipe Q)) : ST dispatcher_t A :=
  λ d, match pipes d !! i with
       | None => Crash BadAccess
       | Some p => match f p with
                   | Ok (a, p') => Ok (a, d <| pipes := <[i := p']> (pipes d) |>)
                   | Crash f => Crash f
                   end
       end.

(** [write] up to the first access of [flush] to memory shared with the
    reader, and the second access ([None]: still to come). *)
Definition dispatcher_write_cas (source_thread_id_ destination_thread_id_ : nat) (value_ : command_t)
    : ST dispatcher_t (option bool) :=
  d ← st_get;
  with_pipe (pipe_index (thread_count d) source_thread_id_ destination_thread_id_)
    (λ p, Ok (ypipe_flush_cas (ypipe_write p value_))).

Definition dispatcher_write_set (source_thread_id_ destination_thread_id_ : nat) : ST dispatcher_t bool :=
  d ← st_get;
  with_pipe (pipe_index (thread_count d) source_thread_id_ destination_thread_id_)
    (λ p, Ok (ypipe_flush_set p)).

(** The signal to be sent, if any: the signaler and the signal. *)
Definition signal_target (source_thread_id_ destination_thread_id_ : nat)
    : ST dispatcher_t (option (thread_id * nat)) :=
  d ← st_get;
  match signalers d !! destination_thread_id_ with
  | Some (Some s) => mret (Some (s, source_thread_id_))
  | _ => st_crash BadAccess
  end.

Definition dispatcher_write (source_thread_id_ destination_thread_id_ : nat) (value_ : command_t)
    : ST dispatcher_t (option (thread_id * nat)) :=
  first ← dispatcher_write_cas source_thread_id_ destination_thread_id_ value_;
  flushed ← (match first : option bool with
             | Some b => mret b
             | None => dispatcher_write_set source_thread_id_ destination_thread_id_
             end : ST dispatcher_t bool);
  (if flushed : bool then mret None
   else signal_target source_thread_id_ destination_thread_id_ : ST dispatcher_t _).

Definition dispatcher_read (source_thread_id_ destination_thread_id_ : nat)
    : ST dispatcher_t (option command_t) :=
  d ← st_get;
  with_pipe (pipe_index (thread_count d) source_thread_id_ destination_thread_id_) (ypipe_read true).

Definition allocate_thread_id (thread_ signaler_ : thread_id) : ST dispatcher_t nat :=
  d ← st_get;
  match list_find (λ u, u = false) (used d) with
  | None => st_crash AssertFailed
  | Some (i, _) =>
      st_put (d <| used := <[i := true]> (used d) |>
                <| signalers := <[i := Some signaler_]> (signalers d) |>
                <| threads := threads d ++ [thread_] |>) ;;
      mret i
  end.

(** ** The registry *)

(** The dispatcher, the locator and the factory a call is given. *)
Context {L W : Type} `{!ILocator L, !EngineFactory W}.

Record denv := DEnv { disp : dispatcher_t; loc : L; world : W }.
#[export] Instance eta_denv : Eta denv := λ e, DEnv (disp e) (loc e) (world e).

Definition on_loc {A} : ST L A → ST denv A := st_lift loc (λ l e, e <| loc := l |>).
Definition on_world {A} : ST W A → ST denv A := st_lift world (λ w e, e <| world := w |>).
Definition modify_objects (f : gmap string object_info_t → gmap string object_info_t) : ST denv unit :=
  st_modify (λ e, e <| disp := disp e <| objects := f (objects (disp e)) |> |>).

Definition dispatcher_create (calling_thread_ : thread_id) (source_ : bool) (object_ : string)
    (thread_ : thread_id) (engine_ : engine_id) (scope_ : scope_t) (location_ : option string)
    (listener_thread_ : option thread_id) (handler_threads_ : list thread_id) : ST denv unit :=
  st_assert (bool_decide (String.length object_ < 256)) ;;
  modify_objects (map_keep object_ (ObjectInfo (Some thread_) engine_)) ;;
  match scope_ with
  | scope_global =>
      location ← (match location_ with
                  | Some l =>
                      if bool_decide (String.length l = 0) then
                        attrs ← on_loc (resolve_endpoint object_ ∅);
                        st_of_option AssertFailed (attrs !! "location"%string)
                      else mret l
                  | None =>
                      attrs ← on_loc (resolve_endpoint object_ ∅);
                      st_of_option AssertFailed (attrs !! "location"%string)
                  end : ST denv string);
      listener ← on_world (create_listener calling_thread_ listener_thread_ location handler_threads_
        source_ thread_ engine_ object_);
      arguments ← on_world (engine_arguments listener);
      let attrs : attr_list_t := map_keep "location"%string arguments ∅ in
      attrs ← ((if source_ then mret attrs
                else
                  lb ← on_world (engine_is_load_balancing engine_);
                  mret (map_keep "load_balancing"%string (if lb : bool then "true"%string else "false"%string) attrs))
               : ST denv attr_list_t);
      on_loc (register_endpoint object_ attrs)
  | _ => mret tt
  end.

Definition dispatcher_get (calling_thread_ : thread_id) (object_ : string)
    (handler_thread_ : option thread_id) (local_object_ engine_arguments_ : string)
    : ST denv (option thread_id * engine_id) :=
  st_assert (bool_decide (String.length object_ < 256)) ;;
  e ← st_get;
  match objects (disp e) !! object_ with
  | Some i => mret (thread i, engine i)
  | None =>
      attrs ← on_loc (resolve_endpoint object_ ∅);
      location ← st_of_option AssertFailed ((attrs : attr_list_t) !! "location"%string);
      load_balancing ← (match (attrs : attr_list_t) !! "load_balancing"%string with
                        | None => mret false
                        | Some v =>
                            st_assert (bool_decide (v = "true"%string ∨ v = "false"%string)) ;;
                            mret (bool_decide (v = "true"%string))
                        end : ST denv bool);
      eng ← on_world (create_engine calling_thread_ handler_thread_ location local_object_
        load_balancing engine_arguments_);
      modify_objects (map_keep object_ (ObjectInfo handler_thread_ eng)) ;;
      e ← st_get;
      i ← st_of_option BadAccess (objects (disp e) !! object_);
      mret (thread i, engine i)
  end.
(** ** Properties *)

(** The identifiers in use are those with a signaler. *)
Record dispatcher_wf (d : dispatcher_t) : Prop := {
  wf_pipes : length (pipes d) = thread_count d * thread_count d;
  wf_used : length (used d) = thread_count d;
  wf_signalers : length (signalers d) = thread_count d;
  wf_signalled i : used d !! i = Some true ↔ ∃ s, signalers d !! i = Some (Some s)
}.

Lemma dispatcher_new_wf n : dispatcher_wf (dispatcher_new n).
Proof.
  constructor; simpl; rewrite ?length_replicate; try done.
  intros i. split.
  - intros [E _]%lookup_replicate. done.
  - intros [s [E _]%lookup_replicate]. done.
Qed.

(** A new thread gets the smallest identifier that is free, so that no two
    threads share one, and becomes reachable under it; when all are taken the
    call fails its assertion. *)
Theorem allocate_thread_id_spec d t sg : dispatcher_wf d →
  match allocate_thread_id t sg d with
  | Ok (i, d') =>
      i < thread_count d ∧ used d !! i = Some false ∧ (∀ j, j < i → used d !! j = Some true) ∧
      dispatcher_wf d' ∧ signalers d' !! i = Some (Some sg) ∧
      (∀ j, j ≠ i → used d' !! j = used d !! j ∧ signalers d' !! j = signalers d !! j) ∧
      threads d' = threads d ++ [t] ∧ pipes d' = pipes d
  | Crash f => f = AssertFailed ∧ ∀ j, j < thread_count d → used d !! j = Some true
  end.
Proof.
  intros [Hp Hu Hs Hw]. unfold allocate_thread_id, mbind, st_bind, st_get.
  destruct (list_find (λ u, u = false) (used d)) as [[i u]|] eqn:E; simpl.
  - apply list_find_Some in E as (Hi & -> & Hj). apply lookup_lt_Some in Hi as Hlt.
    assert (∀ j, j < i → used d !! j = Some true) as Hj'.
    { intros j Hji. destruct (lookup_lt_is_Some_2 (used d) j) as [b Hb]; [lia|].
      specialize (Hj j b Hb Hji). by destruct b. }
    split_and!; [lia|done|done| |by rewrite list_lookup_insert_eq by lia| |done..].
    + constructor; simpl; rewrite ?length_insert; try done. intros k.
      destruct (decide (i = k)) as [<-|].
      * rewrite !list_lookup_insert_eq by lia. naive_solver.
      * rewrite !list_lookup_insert_ne by done. apply Hw.
    + intros j Hne. by rewrite !list_lookup_insert_ne by done.
  - split; [done|]. intros j Hj. destruct (lookup_lt_is_Some_2 (used d) j) as [b Hb]; [lia|].
    apply list_find_None in E. rewrite Forall_forall in E.
    destruct b; [done|]. destruct (E false); [by eapply list_elem_of_lookup_2|done].
Qed.

(** What the registry holds only grows, and no call changes the entry of
    another name. *)
Definition registry_grows (name : string) (m m' : gmap string object_info_t) : Prop :=
  is_Some (m' !! name) ∧ (∀ i, m !! name = Some i → m' !! name = Some i) ∧
  ∀ other, other ≠ name → m' !! other = m !! other.

Lemma map_keep_grows name i m : registry_grows name m (map_keep name i m).
Proof.
  unfold map_keep. destruct (m !! name) as [j|] eqn:E.
  - split; [by rewrite E|]. done.
  - split; [rewrite lookup_insert_eq; eauto|]. split; [congruence|]. intros o Ho. by rewrite lookup_insert_ne.
Qed.

Lemma runs_on_loc {A} (m : ST L A) e a e' : runs (on_loc m) e a e' → disp e' = disp e.
Proof. unfold runs, on_loc, st_lift. destruct (m (loc e)) as [[]|]; [|done]. by intros [= _ <-]. Qed.

Lemma runs_on_world {A} (m : ST W A) e a e' : runs (on_world m) e a e' → disp e' = disp e.
Proof. unfold runs, on_world, st_lift. destruct (m (world e)) as [[]|]; [|done]. by intros [= _ <-]. Qed.

(** An object is registered once.  [get] returns what the registry holds
    under the name; an unknown object is looked up and its engine made the
    first time, and every later [get] of it, by any thread and with any
    options, gives the same thread and engine without asking the directory
    or making anything. *)
Theorem dispatcher_get_once calling name handler local args e th en e' :
  runs (dispatcher_get calling name handler local args) e (th, en) e' →
  objects (disp e') !! name = Some (ObjectInfo th en) ∧
  registry_grows name (objects (disp e)) (objects (disp e')) ∧
  (is_Some (objects (disp e) !! name) → e' = e) ∧
  ∀ calling' handler' local' args',
    runs (dispatcher_get calling' name handler' local' args') e' (th, en) e'.
Proof.
  intros Hr. unfold dispatcher_get in Hr. apply runs_bind_inv in Hr as ([] & e1 & Ha & Hr).
  apply runs_assert in Ha as [Ha ->].
  assert (∀ i, objects (disp e') !! name = Some i → ∀ calling' handler' local' args',
    runs (dispatcher_get calling' name handler' local' args') e' (thread i, engine i) e') as Hagain.
  { intros i Hi calling' handler' local' args'. unfold runs, dispatcher_get, st_assert, mbind, st_bind, st_get.
    by rewrite Ha, Hi. }
  apply runs_bind_inv in Hr as (e0 & e1 & [= <- <-] & Hr).
  destruct (objects (disp e) !! name) as [[th0 en0]|] eqn:E.
  - injection Hr as <- <- <-. rewrite E. split_and!; [done|by split|done|].
    by apply (Hagain (ObjectInfo th0 en0)).
  - apply runs_bind_inv in Hr as (attrs & e1 & H1 & Hr). apply runs_on_loc in H1.
    apply runs_bind_inv in Hr as (location & e2 & H2 & Hr). apply runs_of_option in H2 as [_ ->].
    apply runs_bind_inv in Hr as (lb & e2 & H2 & Hr).
    assert (disp e2 = disp e1) as E2.
    { destruct (attrs !! "load_balancing"%string); [|by injection H2 as _ <-].
      apply runs_bind_inv in H2 as ([] & e3 & H3 & H2). apply runs_assert in H3 as [_ ->]. by injection H2 as _ <-. }
    apply runs_bind_inv in Hr as (eng & e3 & H3 & Hr). apply runs_on_world in H3.
    apply runs_bind_inv in Hr as ([] & e4 & [= <-] & Hr).
    apply runs_bind_inv in Hr as (e5 & e4 & [= <- <-] & Hr).
    apply runs_bind_inv in Hr as (i & e4 & H4 & Hr). apply runs_of_option in H4 as [Hi ->].
    injection Hr as <- <- <-. simpl in Hi |- *. rewrite H3, E2, H1 in *.
    split_and!; [rewrite Hi; by destruct i|apply map_keep_grows|by intros [? ?]|by apply Hagain].
Qed.

(** Creating an object registers it unless the name is taken, in which
    case the first registration stays; no other name is affected. *)
Theorem dispatcher_create_keeps calling source name th en scope location listener handlers e u e' :
  runs (dispatcher_create calling source name th en scope location listener handlers) e u e' →
  registry_grows name (objects (disp e)) (objects (disp e')) ∧
  (objects (disp e) !! name = None → objects (disp e') !! name = Some (ObjectInfo (Some th) en)).
Proof.
  intros Hr. unfold dispatcher_create in Hr.
  apply runs_bind_inv in Hr as ([] & e1 & Ha & Hr). apply runs_assert in Ha as [_ ->].
  apply runs_bind_inv in Hr as ([] & e1 & [= <-] & Hr).
  assert (objects (disp e') = map_keep name (ObjectInfo (Some th) en) (objects (disp e))) as ->.
  { match type of Hr with runs _ ?x _ _ => set (e1 := x) in Hr end. change (map_keep _ _ _) with (objects (disp e1)). f_equal.
    destruct scope; [by injection Hr as _ <-..|].
    assert (∀ l e2, runs (attrs ← on_loc (resolve_endpoint name ∅);
      st_of_option AssertFailed ((attrs : attr_list_t) !! "location"%string)) e1 l e2 → disp e2 = disp e1) as Hres.
    { intros l e2 H2. apply runs_bind_inv in H2 as (at0 & e3 & H3 & H2). apply runs_on_loc in H3.
      by apply runs_of_option in H2 as [_ ->]. }
    apply runs_bind_inv in Hr as (l & e2 & H2 & Hr).
    assert (disp e2 = disp e1) as E2.
    { destruct location; [case_bool_decide|]; [by eapply Hres|by injection H2 as _ <-|by eapply Hres]. }
    apply runs_bind_inv in Hr as (ls & e3 & H3 & Hr). apply runs_on_world in H3.
    apply runs_bind_inv in Hr as (ar & e4 & H4 & Hr). apply runs_on_world in H4.
    apply runs_bind_inv in Hr as (at0 & e5 & H5 & Hr). apply runs_on_loc in Hr.
    assert (disp e5 = disp e4) as E5.
    { destruct source; [by injection H5 as _ <-|]. apply runs_bind_inv in H5 as (lb & e6 & H6 & H5).
      apply runs_on_world in H6. by injection H5 as _ <-. }
    congruence. }
  split; [apply map_keep_grows|]. intros E. unfold map_keep. by rewrite E, lookup_insert_eq.
Qed.
End dispatcher.
Arguments dispatcher_t Q : clear implicits.
Arguments denv Q L W : clear implicits.
