(* ===== verification/Dispatching.v ===== *)
(** The threads around a dispatcher: every thread sends commands to every
    other and drains the pipes from which it was signalled.  No command is
    lost, whatever the interleaving. *)
From stdpp Require Import functions.
From S2P Require Import Prelude YQueue Channel YPipe Command Attributes Dispatcher.

Section dispatching.
Context {Q : Type} `{SlotQueueLaws command_t Q}.

(** Where a thread is in [dispatcher->write]: outside, between the two
    accesses of [flush], or about to send its signal. *)
Inductive sender_pc := SIdle | SSetting (dst : nat) | SWaking (dst : nat).

#[export] Instance sender_pc_eq_dec : EqDecision sender_pc.
Proof. solve_decision. Defined.

(** Pairs are (source, destination).  [raised]: the signals in the
    destinations' pollsets; [draining]: the signals a destination has taken
    and whose pipe it has not yet found empty. *)
Record dsys := DSys {
  dsp : dispatcher_t Q;
  spc : nat → sender_pc;
  raised : gset (nat * nat);
  draining : gset (nat * nat);
  dwritten : nat * nat → list command_t;
  dgot : nat * nat → list command_t
}.
#[local] Instance eta_dsys : Eta dsys := λ s,
  DSys (dsp s) (spc s) (raised s) (draining s) (dwritten s) (dgot s).

Definition dsys_new (n : nat) : dsys := DSys (dispatcher_new n) (λ _, SIdle) ∅ ∅ (λ _, []) (λ _, []).

Definition allocated (d : dispatcher_t Q) (i : nat) : Prop := ∃ t, signalers d !! i = Some (Some t).

Definition after_flush (j : nat) (r : option bool) : sender_pc :=
  match r with Some true => SIdle | Some false => SWaking j | None => SSetting j end.

Inductive dstep (s : dsys) : dsys → Prop :=
  | d_allocate t sg i d' :
      runs (allocate_thread_id t sg) (dsp s) i d' → dstep s (s <| dsp := d' |>)
  | d_write i j x r d' :
      spc s i = SIdle → allocated (dsp s) i → allocated (dsp s) j →
      runs (dispatcher_write_cas i j x) (dsp s) r d' →
      dstep s (s <| dsp := d' |> <| spc := <[i := after_flush j r]> (spc s) |>
                 <| dwritten := <[(i, j) := dwritten s (i, j) ++ [x]]> (dwritten s) |>)
  | d_set i j b d' :
      spc s i = SSetting j → runs (dispatcher_write_set i j) (dsp s) b d' →
      dstep s (s <| dsp := d' |> <| spc := <[i := after_flush j (Some b)]> (spc s) |>)
  | d_signal i j t d' :
      spc s i = SWaking j → runs (signal_target i j) (dsp s) (Some (t, i)) d' →
      dstep s (s <| spc := <[i := SIdle]> (spc s) |> <| raised := {[(i, j)]} ∪ raised s |>)
  | d_take j :
      (∀ i, (i, j) ∉ draining s) →
      dstep s (s <| raised := filter (λ k, k.2 ≠ j) (raised s) |>
                 <| draining := draining s ∪ filter (λ k, k.2 = j) (raised s) |>)
  | d_read i j x d' :
      (i, j) ∈ draining s → runs (dispatcher_read i j) (dsp s) (Some x) d' →
      dstep s (s <| dsp := d' |> <| dgot := <[(i, j) := dgot s (i, j) ++ [x]]> (dgot s) |>)
  | d_empty i j d' :
      (i, j) ∈ draining s → runs (dispatcher_read i j) (dsp s) None d' →
      dstep s (s <| dsp := d' |> <| draining := draining s ∖ {[(i, j)]} |>).

(** ** One pair of threads *)

Definition pair_pc (pc : sender_pc) (j : nat) : writer_pc :=
  match pc with
  | SIdle => WIdle
  | SSetting d => if decide (d = j) then WSetting else WIdle
  | SWaking d => if decide (d = j) then WWaking else WIdle
  end.

(** What two threads share, as the two threads of one pipe. *)
Definition pair_view (s : dsys) (i j : nat) (p : ypipe Q) : ysys :=
  YSys p (pair_pc (spc s i) j) (bool_decide ((i, j) ∈ draining s))
    (if decide ((i, j) ∈ raised s) then 1 else 0) (dwritten s (i, j))
    (length (dwritten s (i, j)) - (if decide (spc s i = SSetting j) then 1 else 0)) (dgot s (i, j)).

Definition pair_ok (s : dsys) (i j : nat) : Prop :=
  ∃ p, pipes (dsp s) !! pipe_index (thread_count (dsp s)) i j = Some p ∧
    rtc (ystep true) (ysys_new true) (pair_view s i j p).

Definition dinv (s : dsys) : Prop :=
  let n := thread_count (dsp s) in
  length (pipes (dsp s)) = n * n ∧ length (signalers (dsp s)) = n ∧
  (∀ k, k ∈ raised s ∪ draining s → k.1 < n ∧ k.2 < n) ∧
  (∀ i j, spc s i = SSetting j ∨ spc s i = SWaking j → i < n ∧ allocated (dsp s) j) ∧
  ∀ i j, i < n → j < n → pair_ok s i j.

Lemma runs_with_pipe {A} i (f : ypipe Q → res (A * ypipe Q)) d a d' :
  runs (with_pipe i f) d a d' →
  ∃ p p', pipes d !! i = Some p ∧ f p = Ok (a, p') ∧ d' = d <| pipes := <[i := p']> (pipes d) |>.
Proof.
  unfold runs, with_pipe. destruct (pipes d !! i) as [p|]; [|done].
  destruct (f p) as [[x p']|] eqn:E; [|done]. intros [= <- <-]. eauto.
Qed.

Lemma pipe_index_inj n i j i' j' : j < n → j' < n → pipe_index n i j = pipe_index n i' j' → i = i' ∧ j = j'.
Proof. unfold pipe_index. intros. assert (i = i') by nia. subst. lia. Qed.

Lemma pipe_index_lt n i j : i < n → j < n → pipe_index n i j < n * n.
Proof. unfold pipe_index. nia. Qed.

(** A step by the two threads of one pair, seen from that pair and from the
    others. *)
Lemma dinv_pair s s' i j p' :
  dinv s → let n := thread_count (dsp s) in
  i < n → j < n →
  dsp s' = dsp s <| pipes := <[pipe_index n i j := p']> (pipes (dsp s)) |> →
  (∀ k, k ∈ raised s' ∪ draining s' → k ∈ raised s ∪ draining s ∨ k = (i, j)) →
  (∀ i' j', spc s' i' = SSetting j' ∨ spc s' i' = SWaking j' → i' < n ∧ allocated (dsp s) j') →
  (∀ i' j' p, (i', j') ≠ (i, j) → i' < n → j' < n → pair_view s' i' j' p = pair_view s i' j' p) →
  (∀ p, pipes (dsp s) !! pipe_index n i j = Some p → rtc (ystep true) (pair_view s i j p) (pair_view s' i j p')) →
  dinv s'.
Proof.
  intros (Hlp & Hls & Hk & Hpc & Hok) n Hi Hj Ed Hk' Hpc' Hother Hthis.
  unfold dinv. rewrite Ed; simpl. fold n in Hlp, Hls, Hk, Hpc, Hok |- *. rewrite length_insert.
  split_and!; [done|done| | |].
  - intros k [Hin|[= ->]]%Hk'; [by apply Hk|done].
  - intros i' j' Hs. by apply Hpc'.
  - intros i' j' Hi' Hj'. destruct (Hok i' j' Hi' Hj') as (p & Hp & Hr). fold n in Hp.
    unfold pair_ok. rewrite Ed; simpl. fold n.
    destruct (decide ((i', j') = (i, j))) as [[= -> ->]|Hne].
    + exists p'. rewrite list_lookup_insert_eq by (rewrite Hlp; by apply pipe_index_lt).
      split; [done|]. etrans; [exact Hr|]. by apply Hthis.
    + exists p. rewrite list_lookup_insert_ne.
      * split; [done|]. by rewrite Hother.
      * intros E. apply pipe_index_inj in E as [-> ->]; done.
Qed.

(** The program counter of one thread matters to one pair only. *)
Lemma pair_view_other s s' i j i' j' pc : (i', j') ≠ (i, j) →
  spc s' = <[i := pc]> (spc s) →
  (∀ d, d ≠ j → pair_pc pc d = WIdle ∧ pc ≠ SSetting d) →
  (∀ d, d ≠ j → pair_pc (spc s i) d = WIdle ∧ spc s i ≠ SSetting d) →
  ((i', j') ∈ raised s' ↔ (i', j') ∈ raised s) → ((i', j') ∈ draining s' ↔ (i', j') ∈ draining s) →
  dwritten s' (i', j') = dwritten s (i', j') → dgot s' (i', j') = dgot s (i', j') →
  ∀ p, pair_view s' i' j' p = pair_view s i' j' p.
Proof.
  intros Hne Epc Hn Ho Hr Hd Ew Eg p. unfold pair_view. rewrite Ew, Eg, Epc.
  assert (pair_pc (<[i := pc]> (spc s) i') j' = pair_pc (spc s i') j' ∧
    (<[i := pc]> (spc s) i' = SSetting j' ↔ spc s i' = SSetting j')) as [-> E].
  { destruct (decide (i' = i)) as [->|].
    - rewrite fn_lookup_insert. assert (j' ≠ j) as Hj by congruence.
      destruct (Hn j' Hj) as [E1 ?]. destruct (Ho j' Hj) as [E2 ?]. split; [congruence|done].
    - by rewrite fn_lookup_insert_ne. }
  f_equal.
  - by apply bool_decide_ext.
  - by apply decide_ext.
  - f_equal. by apply decide_ext.
Qed.

Lemma pair_pc_after j r d : d ≠ j → pair_pc (after_flush j r) d = WIdle ∧ after_flush j r ≠ SSetting d.
Proof. intros. destruct r as [[]|]; simpl; rewrite ?decide_False by done; split; congruence. Qed.

Lemma runs_allocate t sg (d : dispatcher_t Q) i d' : runs (allocate_thread_id t sg) d i d' →
  thread_count d' = thread_count d ∧ pipes d' = pipes d ∧ signalers d' = <[i := Some sg]> (signalers d).
Proof.
  unfold runs, allocate_thread_id, mbind, st_bind, st_get. destruct (list_find _ (used d)) as [[k ?]|]; [|done].
  unfold st_put, mret, st_ret. by intros [= <- <-].
Qed.

Lemma flush_cas_true (p : ypipe Q) b p' : ypipe_flush_cas p = (Some b, p') → b = true.
Proof. unfold ypipe_flush_cas. repeat case_match; naive_solver. Qed.

Lemma allocated_lt s i : dinv s → allocated (dsp s) i → i < thread_count (dsp s).
Proof. intros (_ & <- & _) [t E]. by apply lookup_lt_Some in E. Qed.


Lemma dinv_write s i j x r d' : dinv s → spc s i = SIdle → allocated (dsp s) i → allocated (dsp s) j →
  runs (dispatcher_write_cas i j x) (dsp s) r d' →
  dinv (s <| dsp := d' |> <| spc := <[i := after_flush j r]> (spc s) |>
          <| dwritten := <[(i, j) := dwritten s (i, j) ++ [x]]> (dwritten s) |>).
Proof.
  intros Hi Hpc Hai Haj Hr. pose proof (allocated_lt s i Hi Hai) as Hin. pose proof (allocated_lt s j Hi Haj) as Hjn.
  apply runs_with_pipe in Hr as (p & p' & Hp & [= E] & ->).
  pose proof Hi as (_ & _ & _ & Hpcs & _).
  apply (dinv_pair s _ i j p'); try done; simpl.
  - intros k ?. by left.
  - intros i' j'. destruct (decide (i' = i)) as [->|]; [|rewrite fn_lookup_insert_ne by done; apply Hpcs].
    rewrite fn_lookup_insert. intros Hs. assert (j' = j) as ->; [|done].
    destruct r as [[]|]; naive_solver.
  - intros i' j' q Hne _ _. apply (pair_view_other _ _ i j _ _ (after_flush j r)); try done.
    + intros. by apply pair_pc_after.
    + intros. by rewrite Hpc.
    + simpl. by rewrite fn_lookup_insert_ne.
  - intros q Hq. assert (p = q) as -> by congruence. set (wr := dwritten s (i, j)).
    set (aw := bool_decide ((i, j) ∈ draining s)). set (wk := if decide ((i, j) ∈ raised s) then 1 else 0).
    assert (pair_view s i j q = YSys q WIdle aw wk wr (length wr) (dgot s (i, j))) as ->.
    { unfold pair_view. rewrite Hpc. simpl. by rewrite Nat.sub_0_r. }
    eapply (rtc_l _ _ (YSys (ypipe_write q x) WIdle aw wk (wr ++ [x]) (length wr) (dgot s (i, j))));
      [exact (step_write true (YSys q WIdle aw wk wr (length wr) (dgot s (i, j))) x eq_refl)|].
    apply rtc_once. unfold pair_view; simpl. rewrite !fn_lookup_insert. fold aw wk.
    destruct r as [b|]; simpl.
    + pose proof (flush_cas_true _ _ _ E) as ->. simpl. rewrite Nat.sub_0_r.
      exact (step_flush true (YSys (ypipe_write q x) WIdle aw wk (wr ++ [x]) (length wr) (dgot s (i, j))) true p' eq_refl E).
    + rewrite (decide_True (P := j = j)), (decide_True (P := SSetting j = SSetting j)) by done.
      rewrite length_app; simpl. rewrite Nat.add_sub.
      exact (step_flush_asleep true (YSys (ypipe_write q x) WIdle aw wk (wr ++ [x]) (length wr) (dgot s (i, j))) p' eq_refl E).
Qed.

Lemma dinv_set s i j b d' : dinv s → spc s i = SSetting j → runs (dispatcher_write_set i j) (dsp s) b d' →
  dinv (s <| dsp := d' |> <| spc := <[i := after_flush j (Some b)]> (spc s) |>).
Proof.
  intros Hi Hpc Hr. pose proof Hi as (_ & _ & _ & Hpcs & _). destruct (Hpcs i j (or_introl Hpc)) as [Hin Haj].
  pose proof (allocated_lt s j Hi Haj) as Hjn. apply runs_with_pipe in Hr as (p & p' & Hp & Ef & ->).
  assert (ypipe_flush_set p = (b, p')) as E by congruence.
  assert (b = false) as -> by (unfold ypipe_flush_set in E; congruence).
  apply (dinv_pair s _ i j p'); try done; simpl.
  - intros k ?. by left.
  - intros i' j'. destruct (decide (i' = i)) as [->|]; [|rewrite fn_lookup_insert_ne by done; apply Hpcs].
    rewrite fn_lookup_insert. intros Hs. assert (j' = j) as ->; [|done]. simpl in Hs. naive_solver.
  - intros i' j' q Hne _ _. apply (pair_view_other _ _ i j _ _ (after_flush j (Some false))); try done.
    + intros. by apply pair_pc_after.
    + intros. rewrite Hpc. simpl. rewrite decide_False by congruence. split; congruence.
  - intros q Hq. assert (p = q) as -> by congruence. apply rtc_once. unfold pair_view; simpl. rewrite Hpc, !fn_lookup_insert.
    simpl. rewrite !(decide_True (P := j = j)), (decide_True (P := SSetting j = SSetting j)), Nat.sub_0_r by done.
    exact (step_flush_set true (YSys q WSetting _ _ _ _ _) false p' eq_refl E).
Qed.

(** A step that leaves the pipes alone. *)
Lemma dinv_views s s' :
  dinv s → thread_count (dsp s') = thread_count (dsp s) → pipes (dsp s') = pipes (dsp s) →
  length (signalers (dsp s')) = length (signalers (dsp s)) →
  (∀ j, allocated (dsp s) j → allocated (dsp s') j) →
  raised s' ∪ draining s' ⊆ raised s ∪ draining s ∪ filter (λ k, spc s k.1 = SWaking k.2) (raised s') →
  (∀ i j, spc s' i = SSetting j ∨ spc s' i = SWaking j → spc s i = spc s' i) →
  (∀ i j p, pair_ok s i j → rtc (ystep true) (ysys_new true) (pair_view s i j p) →
     rtc (ystep true) (pair_view s i j p) (pair_view s' i j p)) →
  dinv s'.
Proof.
  intros (Hlp & Hls & Hk & Hpc & Hok) En Ep Es Ha Hk' Hpc' Hv.
  unfold dinv. rewrite En, Ep, Es. split_and!; [done|done| | |].
  - intros k Hin%Hk'. apply elem_of_union in Hin as [Hin|Hin]; [by apply Hk|].
    apply elem_of_filter in Hin as [Hw Hin]. destruct k as [i j]. simpl in *.
    destruct (Hpc i j (or_intror Hw)) as [Hi [t Ht]]. split; [done|]. rewrite <- Hls. by apply lookup_lt_Some in Ht.
  - intros i j Hs. rewrite <- (Hpc' i j Hs) in Hs. destruct (Hpc i j Hs). eauto.
  - intros i j Hi Hj. pose proof (Hok i j Hi Hj) as Hp. pose proof Hp as (p & Hp' & Hr).
    exists p. rewrite En, Ep. split; [done|]. etrans; [exact Hr|]. by apply Hv.
Qed.

Lemma dinv_allocate s t sg i d' : dinv s → runs (allocate_thread_id t sg) (dsp s) i d' →
  dinv (s <| dsp := d' |>).
Proof.
  intros Hi (En & Ep & Es)%runs_allocate. apply (dinv_views s); try done; simpl.
  - by rewrite Es, length_insert.
  - intros j [t' Hj]. unfold allocated. rewrite Es. destruct (decide (i = j)) as [->|].
    + rewrite list_lookup_insert_eq by by apply lookup_lt_Some in Hj. eauto.
    + rewrite list_lookup_insert_ne by done. eauto.
  - set_solver.
Qed.

Lemma dinv_signal s i j : dinv s → spc s i = SWaking j →
  dinv (s <| spc := <[i := SIdle]> (spc s) |> <| raised := {[(i, j)]} ∪ raised s |>).
Proof.
  intros Hi Hpc. apply (dinv_views s); try done; simpl.
  - intros k. rewrite !elem_of_union, elem_of_filter, elem_of_union, elem_of_singleton.
    intros [[->|?]|?]; [right|by left; left|by left; right]. auto.
  - intros i' j'. destruct (decide (i' = i)) as [->|]; [rewrite fn_lookup_insert; naive_solver|by rewrite fn_lookup_insert_ne].
  - intros i' j' p _ Hr. destruct (decide ((i', j') = (i, j))) as [[= -> ->]|Hne].
    + apply rtc_once. assert (pair_pc (spc s i) j = WWaking) as Epc.
      { rewrite Hpc. simpl. by rewrite decide_True. }
      pose proof (yreachable_waking _ _ _ Hr Epc) as Hwk.
      pose proof (step_wake true (pair_view s i j p) Epc) as Hst.
      match type of Hst with ystep _ _ ?y => match goal with |- ystep _ _ ?z => replace z with y; [exact Hst|] end end.
      unfold pair_view in *; simpl in *. rewrite fn_lookup_insert, Hpc. simpl.
      f_equal. rewrite Hwk. by rewrite (decide_True (P := (i, j) ∈ {[(i, j)]} ∪ raised s)) by set_solver.
    + match goal with |- rtc _ ?y ?z => replace z with y; [done|] end. symmetry.
      apply (pair_view_other _ _ i j _ _ SIdle); [done|done|done| |simpl; set_solver|done|done|done].
      intros d Hd. rewrite Hpc. simpl. rewrite decide_False by congruence. split; congruence.
Qed.

Lemma dinv_take s j : dinv s → (∀ i, (i, j) ∉ draining s) →
  dinv (s <| raised := filter (λ k, k.2 ≠ j) (raised s) |>
          <| draining := draining s ∪ filter (λ k, k.2 = j) (raised s) |>).
Proof.
  intros Hi Hd. apply (dinv_views s); try done; simpl.
  - set_solver.
  - intros i j' p _ Hr.
    destruct (decide (j' = j ∧ (i, j') ∈ raised s)) as [[-> Hin]|Hn].
    + apply rtc_once. pose proof (step_awake true (pair_view s i j p) 0) as Hst.
      unfold pair_view in *; simpl in *. rewrite decide_True in Hst by done.
      rewrite decide_True by done.
      rewrite (bool_decide_false ((i, j) ∈ draining s)) in * by done. specialize (Hst eq_refl eq_refl).
      rewrite bool_decide_true by (apply elem_of_union; right; by apply elem_of_filter).
      rewrite (decide_False (P := (i, j) ∈ filter (λ k, k.2 ≠ j) (raised s)))
        by (rewrite elem_of_filter; naive_solver).
      exact Hst.
    + match goal with |- rtc _ ?y ?z => replace z with y; [done|] end. unfold pair_view; simpl.
      f_equal; [apply bool_decide_ext; rewrite elem_of_union|apply decide_ext];
        rewrite elem_of_filter; naive_solver.
Qed.

Lemma dinv_read s i j o d' : dinv s → (i, j) ∈ draining s → runs (dispatcher_read i j) (dsp s) o d' →
  dinv (match o with
        | Some x => s <| dsp := d' |> <| dgot := <[(i, j) := dgot s (i, j) ++ [x]]> (dgot s) |>
        | None => s <| dsp := d' |> <| draining := draining s ∖ {[(i, j)]} |>
        end).
Proof.
  intros Hi Hin Hr. pose proof Hi as (_ & _ & Hk & Hpcs & _).
  destruct (Hk (i, j)) as [Hin' Hjn]; [set_solver|]. simpl in *.
  apply runs_with_pipe in Hr as (p & p' & Hp & E & ->).
  apply (dinv_pair s _ i j p'); try done.
  - by destruct o.
  - destruct o; simpl; set_solver.
  - intros i' j'. destruct o; apply Hpcs.
  - intros i' j' q Hne _ _. destruct o; unfold pair_view; simpl.
    + by rewrite fn_lookup_insert_ne.
    + f_equal. apply bool_decide_ext. set_solver.
  - intros q Hq. assert (p = q) as -> by congruence. apply rtc_once.
    destruct o as [x|]; unfold pair_view; simpl.
    + rewrite fn_lookup_insert. rewrite bool_decide_true by done.
      exact (step_read true (YSys q _ true _ _ _ _) x p' eq_refl E).
    + rewrite bool_decide_true by done. rewrite bool_decide_false by set_solver.
      exact (step_sleep true (YSys q _ true _ _ _ _) p' eq_refl E).
Qed.

Lemma dinv_new n : dinv (dsys_new n).
Proof.
  unfold dinv; simpl. rewrite !length_replicate. split_and!; [done|done|set_solver|naive_solver|].
  intros i j Hi Hj. exists (ypipe_new true). simpl.
  rewrite lookup_replicate_2 by by apply pipe_index_lt. done.
Qed.

Lemma dstep_inv s s' : dinv s → dstep s s' → dinv s'.
Proof.
  intros Hi [t sg i d' Hr|i j x r d' Hpc Ha Ha' Hr|i j b d' Hpc Hr|i j t d' Hpc Hr|j Hj|i j x d' Hin Hr|i j d' Hin Hr].
  - by eapply dinv_allocate.
  - by eapply dinv_write.
  - by eapply dinv_set.
  - by eapply dinv_signal.
  - by eapply dinv_take.
  - by apply (dinv_read s i j (Some x)).
  - by apply (dinv_read s i j None).
Qed.

Lemma dreachable_inv n s : rtc dstep (dsys_new n) s → dinv s.
Proof.
  intros Hr. assert (dinv (dsys_new n)) as Hi by apply dinv_new.
  induction Hr as [|s1 s2 s3 Hst _ IH]; [done|]. by eapply IH, dstep_inv.
Qed.

(** C19: commands from one thread to another arrive in the order in which they
    were sent, each once, and none is lost: when the sender is not in the
    middle of a call, no signal from it waits in the destination's pollset and
    the destination does not drain its pipe, all its commands have arrived. *)
Theorem dispatcher_reliable n s i j :
  rtc dstep (dsys_new n) s → i < thread_count (dsp s) → j < thread_count (dsp s) →
  dgot s (i, j) `prefix_of` dwritten s (i, j) ∧
  (spc s i = SIdle → (i, j) ∉ raised s → (i, j) ∉ draining s → dgot s (i, j) = dwritten s (i, j)).
Proof.
  intros (_ & _ & _ & _ & Hok)%dreachable_inv Hi Hj. destruct (Hok i j Hi Hj) as (p & _ & Hr).
  pose proof (yreachable_prefix _ _ _ Hr) as Hpre. simpl in Hpre. split; [done|].
  intros Hpc Hra Hdr. pose proof (yreachable_asleep _ _ _ Hr) as Hl. unfold pair_view in Hl; simpl in Hl.
  rewrite Hpc, bool_decide_false, decide_False in Hl by done. simpl in Hl. specialize (Hl eq_refl eq_refl eq_refl).
  destruct Hpre as [l E]. rewrite E in Hl |- *. rewrite length_app in Hl.
  destruct l; [by rewrite app_nil_r|simpl in Hl; lia].
Qed.

(** C30: a signal that is due has a thread to go to, and it is never sent while the
    same signal is still waiting to be taken (sending it twice would corrupt
    the signals of [ysocketpair_t]); the second access to the pipe of a write that found it asleep
    succeeds, and so does a read from a pipe whose signal was taken.  The other calls may fail:
    [allocate_thread_id] when all identifiers are used. *)
Theorem dispatcher_signals n s i j :
  rtc dstep (dsys_new n) s →
  (spc s i = SWaking j → (i, j) ∉ raised s ∧
     ∃ t, runs (signal_target i j) (dsp s) (Some (t, i)) (dsp s)) ∧
  (spc s i = SSetting j → ∃ d', runs (dispatcher_write_set i j) (dsp s) false d') ∧
  ((i, j) ∈ draining s → ∃ o d', runs (dispatcher_read i j) (dsp s) o d').
Proof.
  intros Hi%dreachable_inv. pose proof Hi as (_ & _ & Hk & Hpcs & Hok). split_and!.
  - intros Hpc. destruct (Hpcs i j (or_intror Hpc)) as [Hin Haj].
    destruct (Hok i j Hin (allocated_lt s j Hi Haj)) as (p & _ & Hr). split.
    + pose proof (yreachable_waking _ _ _ Hr) as Hw. unfold pair_view in Hw; simpl in Hw.
      rewrite Hpc in Hw. simpl in Hw. rewrite (decide_True (P := j = j)) in Hw by done. specialize (Hw eq_refl).
      by destruct (decide ((i, j) ∈ raised s)).
    + destruct Haj as [t Ht]. exists t. unfold runs, signal_target, mbind, st_bind, st_get. by rewrite Ht.
  - intros Hpc. destruct (Hpcs i j (or_introl Hpc)) as [Hin Haj].
    destruct (Hok i j Hin (allocated_lt s j Hi Haj)) as (p & Hp & Hr). eexists.
    unfold runs, dispatcher_write_set, mbind, st_bind, st_get, with_pipe. by rewrite Hp.
  - intros Hin. destruct (Hk (i, j)) as [Hin' Hjn]; [set_solver|]. simpl in *.
    destruct (Hok i j Hin' Hjn) as (p & Hp & Hr).
    destruct (yreachable_read _ _ _ Hr) as (o & p' & E); [simpl; by apply bool_decide_eq_true|]. simpl in E.
    eexists o, _. unfold runs, dispatcher_read, mbind, st_bind, st_get, with_pipe. by rewrite Hp, E.
Qed.
End dispatching.
