(* ===== verification/DispatchRuns.v ===== *)
(** Runs of a dispatcher with two threads over the real pipes, and the
    theorems about it applied to them. *)
From stdpp Require Import functions.
From S2P Require Import Prelude Config YQueue Channel YPipe Command Attributes Dispatcher Dispatching.

#[export] Instance command_slots : SlotQueue command_t (yqueue command_t) :=
  yqueue_slot_queue command_pipe_granularity.
#[export] Instance command_slots_laws : SlotQueueLaws command_t (yqueue command_t) :=
  yqueue_laws command_pipe_granularity ltac:(unfold command_pipe_granularity; lia).

Abbreviation csys := (dsys (Q := yqueue command_t)).

Inductive devent :=
  | DAllocate (t : thread_id) | DWrite (i j : nat) (x : command_t) | DSet (i j : nat)
  | DSignal (i j : nat) | DTake (j : nat) | DRead (i j : nat).

Definition is_allocated (d : dispatcher_t (yqueue command_t)) (i : nat) : bool :=
  match signalers d !! i with Some (Some _) => true | _ => false end.

Definition dexec (s : csys) (e : devent) : option csys :=
  match e with
  | DAllocate t =>
      match allocate_thread_id t t (dsp s) with
      | Ok (_, d) => Some (DSys d (spc s) (raised s) (draining s) (dwritten s) (dgot s))
      | Crash _ => None
      end
  | DWrite i j x =>
      match spc s i, is_allocated (dsp s) i && is_allocated (dsp s) j, dispatcher_write_cas i j x (dsp s) with
      | SIdle, true, Ok (r, d) =>
          Some (DSys d (<[i := after_flush j r]> (spc s)) (raised s) (draining s)
                  (<[(i, j) := dwritten s (i, j) ++ [x]]> (dwritten s)) (dgot s))
      | _, _, _ => None
      end
  | DSet i j =>
      match decide (spc s i = SSetting j), dispatcher_write_set i j (dsp s) with
      | left _, Ok (b, d) =>
          Some (DSys d (<[i := after_flush j (Some b)]> (spc s)) (raised s) (draining s) (dwritten s) (dgot s))
      | _, _ => None
      end
  | DSignal i j =>
      match decide (spc s i = SWaking j), signal_target i j (dsp s) with
      | left _, Ok (Some (_, k), _) =>
          if decide (k = i) then
            Some (DSys (dsp s) (<[i := SIdle]> (spc s)) ({[(i, j)]} ∪ raised s) (draining s) (dwritten s) (dgot s))
          else None
      | _, _ => None
      end
  | DTake j =>
      if decide (filter (λ k, k.2 = j) (draining s) = ∅) then
        Some (DSys (dsp s) (spc s) (filter (λ k, k.2 ≠ j) (raised s))
               (draining s ∪ filter (λ k, k.2 = j) (raised s)) (dwritten s) (dgot s))
      else None
  | DRead i j =>
      match decide ((i, j) ∈ draining s), dispatcher_read i j (dsp s) with
      | left _, Ok (Some x, d) =>
          Some (DSys d (spc s) (raised s) (draining s) (dwritten s) (<[(i, j) := dgot s (i, j) ++ [x]]> (dgot s)))
      | left _, Ok (None, d) =>
          Some (DSys d (spc s) (raised s) (draining s ∖ {[(i, j)]}) (dwritten s) (dgot s))
      | _, _ => None
      end
  end.

Lemma is_allocated_true d i : is_allocated d i = true → allocated d i.
Proof. unfold is_allocated, allocated. repeat case_match; naive_solver. Qed.

Lemma dexec_sound s e s' : dexec s e = Some s' → dstep s s'.
Proof.
  intros E. destruct e as [t|i j x|i j|i j|j|i j]; simpl in E.
  - destruct (allocate_thread_id t t (dsp s)) as [[i d]|] eqn:Ea; [|done]. injection E as <-.
    by apply (d_allocate s t t i d).
  - destruct (spc s i) eqn:Ep; [|done..]. destruct (is_allocated (dsp s) i && _) eqn:Eb; [|done].
    apply andb_true_iff in Eb as [?%is_allocated_true ?%is_allocated_true].
    destruct (dispatcher_write_cas i j x (dsp s)) as [[r d]|] eqn:Ew; [|done]. injection E as <-.
    by apply (d_write s i j x r d).
  - destruct (decide (spc s i = SSetting j)) as [Ep|]; [|done].
    destruct (dispatcher_write_set i j (dsp s)) as [[b d]|] eqn:Ew; [|done]. injection E as <-.
    by apply (d_set s i j b d).
  - destruct (decide (spc s i = SWaking j)) as [Ep|]; [|done].
    destruct (signal_target i j (dsp s)) as [[[[t k]|] d]|] eqn:Ew; [|done..].
    destruct (decide (k = i)) as [->|]; [|done]. injection E as <-. by apply (d_signal s i j t d).
  - destruct (decide (filter _ (draining s) = ∅)) as [Ed|]; [|done]. injection E as <-.
    apply (d_take s j). intros i Hin. assert ((i, j) ∈ filter (λ k, k.2 = j) (draining s)) as Hf by by apply elem_of_filter.
    rewrite Ed in Hf. set_solver.
  - destruct (decide ((i, j) ∈ draining s)) as [Hin|]; [|done].
    destruct (dispatcher_read i j (dsp s)) as [[[x|] d]|] eqn:Er; [| |done]; injection E as <-.
    + by apply (d_read s i j x d).
    + by apply (d_empty s i j d).
Qed.

Definition drun (es : list devent) (s : csys) : option csys :=
  foldl (λ o e, s ← o; dexec s e) (Some s) es.

Lemma drun_sound es s s' : drun es s = Some s' → rtc dstep s s'.
Proof.
  revert s. unfold drun. induction es as [|e es IH]; intros s E; simpl in E; [by simplify_eq|].
  destruct (dexec s e) as [s1|] eqn:E1.
  - eapply rtc_l; [by eapply dexec_sound|by apply IH].
  - exfalso. clear -E. by induction es.
Qed.

(** Thread 0 sends two commands to thread 1, which reads one of them. *)
Definition two_sent : list devent :=
  [DAllocate 1; DAllocate 2; DWrite 0 1 (init_engine_send_to (Some 9%positive) 5%positive); DSet 0 1; DSignal 0 1;
   DWrite 0 1 init_stop; DTake 1; DRead 0 1].

Definition waiting_to_signal : list devent :=
  [DAllocate 1; DAllocate 2; DWrite 0 1 init_stop; DSet 0 1].

Lemma two_sent_runs : ∃ s, drun two_sent (dsys_new 2) = Some s ∧
  bool_decide (thread_count (dsp s) = 2) && bool_decide (length (dgot s (0, 1)) = 1) &&
  bool_decide (length (dwritten s (0, 1)) = 2) = true.
Proof.
  apply (option_computes (λ s, bool_decide (thread_count (dsp s) = 2) && bool_decide (length (dgot s (0, 1)) = 1) &&
    bool_decide (length (dwritten s (0, 1)) = 2))). vm_compute. reflexivity.
Qed.

Lemma dispatcher_reliable_witness : ∃ s, drun two_sent (dsys_new 2) = Some s ∧
  dgot s (0, 1) `prefix_of` dwritten s (0, 1).
Proof.
  destruct two_sent_runs as (s & E & [[Hn _]%andb_true_iff _]%andb_true_iff). apply bool_decide_eq_true in Hn.
  exists s. split; [exact E|].
  destruct (dispatcher_reliable 2 s 0 1 (drun_sound _ _ _ E)) as [H _]; [rewrite Hn; lia..|exact H].
Defined.

Lemma waiting_to_signal_runs : ∃ s, drun waiting_to_signal (dsys_new 2) = Some s ∧
  bool_decide (spc s 0 = SWaking 1) = true.
Proof. apply (option_computes (λ s, bool_decide (spc s 0 = SWaking 1))). vm_compute. reflexivity. Qed.

Lemma dispatcher_signals_witness : ∃ s, drun waiting_to_signal (dsys_new 2) = Some s ∧
  (0, 1) ∉ raised s ∧ ∃ t, runs (signal_target 0 1) (dsp s) (Some (t, 0)) (dsp s).
Proof.
  destruct waiting_to_signal_runs as (s & E & Hpc). apply bool_decide_eq_true in Hpc. exists s. split; [exact E|].
  destruct (dispatcher_signals 2 s 0 1 (drun_sound _ _ _ E)) as (H & _). exact (H Hpc).
Defined.

Lemma allocate_thread_id_spec_witness : ∃ d,
  allocate_thread_id 7%positive 7%positive (dispatcher_new (Q := yqueue command_t) 2) = Ok (0, d) ∧ dispatcher_wf d.
Proof.
  pose proof (allocate_thread_id_spec (dispatcher_new (Q := yqueue command_t) 2) 7%positive 7%positive (dispatcher_new_wf 2)) as H.
  eexists. split; [vm_compute; reflexivity|]. apply H.
Defined.

(** ** A directory that knows one object, and a factory that numbers the
    engines it makes *)

#[export] Instance small_directory : ILocator attr_list_t := {
  register_endpoint _ _ := mret tt;
  resolve_endpoint _ attrs := l ← st_get; mret (l ∪ attrs)
}.

#[export] Instance counting_factory : EngineFactory positive := {
  create_listener _ _ _ _ _ _ _ _ := n ← st_get; st_put (Pos.succ n) ;; mret n;
  create_engine _ _ _ _ _ _ := n ← st_get; st_put (Pos.succ n) ;; mret n;
  engine_arguments _ := mret "tcp://here"%string;
  engine_is_load_balancing _ := mret false
}.

Definition known_remote : denv (yqueue command_t) attr_list_t positive :=
  DEnv (dispatcher_new 2) {["location"%string := "zmq.tcp://there:5555"%string]} 30%positive.

Definition get_remote : ST (denv (yqueue command_t) attr_list_t positive) (option thread_id * engine_id) :=
  dispatcher_get 1%positive "E"%string (Some 2%positive) "Q"%string ""%string.

Lemma get_remote_runs : ∃ e', runs get_remote known_remote (Some 2%positive, 30%positive) e'.
Proof. eexists. vm_compute. reflexivity. Qed.

Lemma dispatcher_get_once_witness : ∃ e', runs get_remote known_remote (Some 2%positive, 30%positive) e' ∧
  runs (dispatcher_get 4%positive "E"%string None "Z"%string "x"%string) e' (Some 2%positive, 30%positive) e'.
Proof.
  destruct get_remote_runs as [e' Hr]. exists e'. split; [exact Hr|].
  destruct (dispatcher_get_once _ _ _ _ _ _ _ _ _ Hr) as (_ & _ & _ & H). apply H.
Defined.

Definition create_local : ST (denv (yqueue command_t) attr_list_t positive) unit :=
  dispatcher_create 1%positive true "Q"%string 1%positive 20%positive scope_global (Some "eth0:5555"%string) None [].

Lemma create_local_runs : ∃ e', runs create_local known_remote tt e'.
Proof. eexists. vm_compute. reflexivity. Qed.

Lemma dispatcher_create_keeps_witness : ∃ e', runs create_local known_remote tt e' ∧
  objects (disp e') !! "Q"%string = Some (ObjectInfo (Some 1%positive) 20%positive).
Proof.
  destruct create_local_runs as [e' Hr]. exists e'. split; [exact Hr|].
  unfold create_local in Hr. destruct (dispatcher_create_keeps _ _ _ _ _ _ _ _ _ _ _ _ Hr) as [_ H]. apply H. reflexivity.
Defined.
