(* ===== verification/EngineFactory.v ===== *)
(** The choice of an engine by the transport in a location
    ([src/libzmq/engine_factory.cpp]). *)
From S2P Require Import Prelude Command Config Attributes Dispatcher.

(** The constructors of listeners and engines; some transports are compiled
    in only where they are available. *)
Class Transports (W : Type) := {
  have_pgm : bool;
  have_sctp : bool;
  have_amqp : bool;
  new_bp_tcp_listener : thread_id → option thread_id → string → list thread_id → bool → thread_id → engine_id → string → ST W engine_id;
  new_bp_tcp_engine : thread_id → option thread_id → string → string → bool → string → ST W engine_id;
  new_bp_pgm_sender : thread_id → option thread_id → string → thread_id → engine_id → ST W engine_id;
  new_bp_pgm_receiver : thread_id → option thread_id → string → Z → string → ST W engine_id;
  new_sctp_listener : thread_id → option thread_id → string → list thread_id → bool → thread_id → engine_id → string → ST W engine_id;
  new_sctp_engine : thread_id → option thread_id → string → string → bool → string → ST W engine_id;
  new_amqp_client : thread_id → option thread_id → string → string → bool → string → ST W engine_id;
  get_arguments : engine_id → ST W string;
  load_balancing : engine_id → ST W bool
}.

(** The transport's name and its arguments. *)
Definition transport_of (location : string) : string * string :=
  match String.index 0 "://" location with
  | None => ("zmq.tcp"%string, location)
  | Some pos => (String.substring 0 pos location,
                 String.substring (pos + 3) (String.length location - (pos + 3)) location)
  end.

Section factory.
Context {W : Type} `{!Transports W}.

Definition factory_create_listener (calling_thread_ : thread_id) (thread_ : option thread_id) (location_ : string)
    (handler_threads_ : list thread_id) (source_ : bool) (peer_thread_ : thread_id) (peer_engine_ : engine_id)
    (peer_name_ : string) : ST W engine_id :=
  let '(transport_type, transport_args) := transport_of location_ in
  if bool_decide (transport_type = "zmq.tcp"%string) then
    new_bp_tcp_listener calling_thread_ thread_ transport_args handler_threads_ source_ peer_thread_ peer_engine_ peer_name_
  else if have_pgm && bool_decide (transport_type = "zmq.pgm"%string) then
    new_bp_pgm_sender calling_thread_ thread_ transport_args peer_thread_ peer_engine_
  else if have_sctp && bool_decide (transport_type = "sctp"%string) then
    new_sctp_listener calling_thread_ thread_ transport_args handler_threads_ source_ peer_thread_ peer_engine_ peer_name_
  else st_crash AssertFailed.

Definition factory_create_engine (calling_thread_ : thread_id) (thread_ : option thread_id) (location_ : string)
    (local_object_ : string) (load_balancing_ : bool) (engine_options_ : string) : ST W engine_id :=
  let '(transport_type, transport_args) := transport_of location_ in
  if bool_decide (transport_type = "zmq.tcp"%string) then
    new_bp_tcp_engine calling_thread_ thread_ transport_args local_object_ load_balancing_ engine_options_
  else if have_pgm && bool_decide (transport_type = "zmq.pgm"%string) then
    new_bp_pgm_receiver calling_thread_ thread_ transport_args pgm_in_batch_size engine_options_
  else if have_sctp && bool_decide (transport_type = "sctp"%string) then
    new_sctp_engine calling_thread_ thread_ transport_args local_object_ load_balancing_ engine_options_
  else if have_amqp && bool_decide (transport_type = "amqp"%string) then
    new_amqp_client calling_thread_ thread_ transport_args local_object_ load_balancing_ engine_options_
  else st_crash AssertFailed.

(** What dispatchers are given. *)
#[export] Instance the_engine_factory : EngineFactory W := {
  create_listener := factory_create_listener;
  create_engine := factory_create_engine;
  engine_arguments := get_arguments;
  engine_is_load_balancing := load_balancing
}.
End factory.

(** ** Locations are taken apart without loss *)

Lemma substring_app s : ∀ p j k,
  String.append (String.substring p j s) (String.substring (p + j) k s) = String.substring p (j + k) s.
Proof.
  induction s as [|c s IH]; intros p j k; [by destruct p, j, k|].
  destruct p as [|p]; [destruct j as [|j]; simpl; [done|]|apply (IH p)].
  exact (f_equal (String c) (IH 0 j k)).
Qed.

Lemma substring_all s : String.substring 0 (String.length s) s = s.
Proof. induction s as [|c s IH]; simpl; [done|by rewrite IH]. Qed.

Lemma substring_length s : ∀ p k, String.length (String.substring p k s) ≤ String.length s - p.
Proof.
  induction s as [|c s IH]; intros p k; [by destruct p, k|].
  destruct p as [|p]; simpl; [|apply IH]. destruct k as [|k]; simpl; [lia|]. specialize (IH 0%nat k). lia.
Qed.

Lemma transport_of_joins location transport_type transport_args :
  transport_of location = (transport_type, transport_args) →
  (transport_type = "zmq.tcp"%string ∧ transport_args = location) ∨
  location = String.append transport_type (String.append "://" transport_args).
Proof.
  unfold transport_of. destruct (String.index 0 "://" location) as [pos|] eqn:E; intros [= <- <-]; [right|by left].
  apply String.index_correct1 in E. simpl in E. assert (pos + 3 ≤ String.length location) as Hpos.
  { pose proof (substring_length location pos 3) as H. rewrite E in H. simpl in H. lia. }
  rewrite <- E. rewrite !substring_app. simpl.
  replace (pos + _) with (String.length location) by lia. by rewrite substring_all.
Qed.
