(* ===== verification/ApiThread.v ===== *)
(** The thread of an application ([src/libzmq/api_thread.cpp],
    [zmq/api_thread.hpp]): its exchanges and queues, and the calls the
    application makes.  The model runs one such thread; what the other threads
    send it arrives between its steps. *)
From S2P Require Import Prelude Config YQueue Channel YPipe Message Command Swap Pipe Store Mux Demux.
From S2P Require Import PollSet Engine Attributes Dispatcher.
Local Open Scope Z_scope.

(** [operator new], and the processor's time stamp counter on platforms
    where the code reads it ([ZMQ_HAVE_RDTSC_IN_API_THREAD]). *)
Class Runtime (W : Type) := {
  new_address : ST W positive;
  read_tsc : option (ST W Z)
}.

Section api_thread.
Context {P S Q L W : Type} `{!Channel raw_message P, !Swap S, !SlotQueue command_t Q}.
Context `{!ILocator L, !EngineFactory W, !Runtime W}.

Record queue_t := Queue { queue_name : string; queue_engine : engine_id; consume : bool }.
#[export] Instance eta_queue : Eta queue_t := λ q, Queue (queue_name q) (queue_engine q) (consume q).

Record api_thread_t := ApiThread {
  ticks : Z;
  thread_index : nat;
  exchanges : list (string * engine_id);
  queues : list queue_t;
  current_queue : nat;
  message_mask : Z;
  last_command_time : Z
}.
#[export] Instance eta_api_thread : Eta api_thread_t := λ t,
  ApiThread (ticks t) (thread_index t) (exchanges t) (queues t) (current_queue t) (message_mask t)
    (last_command_time t).

(** The thread and what it reaches: its engines, the objects behind its
    pointers, the dispatcher with its surroundings, the bits of its pollset,
    and the signals it sent to other threads.  [arrivals] is the future: the
    commands other threads send it each time it sleeps. *)
Record aenv := AEnv {
  self : thread_id;
  api : api_thread_t;
  out_engines : gmap engine_id out_engine_t;
  in_engines : gmap engine_id in_engine_t;
  reach : store P S;
  around : denv Q L W;
  signals : Z;
  sent_signals : list (thread_id * nat);
  arrivals : list (list (nat * command_t))
}.
#[export] Instance eta_aenv : Eta aenv := λ e,
  AEnv (self e) (api e) (out_engines e) (in_engines e) (reach e) (around e) (signals e)
    (sent_signals e) (arrivals e).

(** The width of the pollset's integer; the index of another thread
    ([get_thread_id]); what the engines of other threads say of themselves; a
    bound on the turns of the loops over queued messages and commands. *)
Context (width : Z) (index_of : thread_id → nat) (foreign_engine : engine_id → engine_info) (fuel : nat).

Definition modify_api (f : api_thread_t → api_thread_t) : ST aenv unit :=
  st_modify (λ e, e <| api := f (api e) |>).

Definition on_around {A} : ST (denv Q L W) A → ST aenv A := st_lift around (λ d e, e <| around := d |>).
Definition on_disp {A} (m : ST (dispatcher_t Q) A) : ST aenv A :=
  on_around (st_lift disp (λ d e, e <| disp := d |>) m).
Definition on_runtime {A} (m : ST W A) : ST aenv A := on_around (on_world m).

(** ** Engines of this thread *)

Definition on_out {A} (id : engine_id) (f : ST (eenv P S) A) : ST aenv A :=
  λ e, match out_engines e !! id with
       | None => Crash BadAccess
       | Some o =>
           match f (EEnv (out_base o) (reach e)) with
           | Ok (a, v) =>
               Ok (a, e <| out_engines := <[id := o <| out_base := base v |>]> (out_engines e) |>
                        <| reach := objs v |>)
           | Crash f => Crash f
           end
       end.

Definition on_in {A} (id : engine_id) (f : ST (eenv P S) A) : ST aenv A :=
  λ e, match in_engines e !! id with
       | None => Crash BadAccess
       | Some o =>
           match f (EEnv (in_base o) (reach e)) with
           | Ok (a, v) =>
               Ok (a, e <| in_engines := <[id := o <| in_base := base v |>]> (in_engines e) |>
                        <| reach := objs v |>)
           | Crash f => Crash f
           end
       end.

Definition process_command (command_ : command_t) : ST aenv unit :=
  match command_ with
  | c_engine_command (Some engine) engcmd =>
      e ← st_get;
      if bool_decide (is_Some (out_engines e !! engine)) then on_out engine (engine_process true false fuel engcmd)
      else on_in engine (engine_process false true fuel engcmd)
  | c_engine_command None _ => st_crash BadAccess
  | _ => st_crash AssertFailed
  end.

(** [dispatcher->write (thread_id, destination, command)]. *)
Definition write_command (destination : nat) (command_ : command_t) : ST aenv unit :=
  e ← st_get;
  s ← on_disp (dispatcher_write (thread_index (api e)) destination command_);
  st_modify (λ e, e <| sent_signals := sent_signals e ++ option_list s |>).

(** The commands that the last call to an engine sent.  Those to the thread
    itself are processed at once, and what they send before the next one;
    [depth] bounds the nesting: no command leads to more than two others. *)
Fixpoint route (depth : nat) : ST aenv unit :=
  e ← st_get;
  let l := sent_out (reach e) in
  st_modify (λ e, e <| reach := reach e <| sent_out := [] |> |>) ;;
  match l with
  | [] => mret tt
  | _ =>
      match depth with
      | O => st_crash OutOfFuel
      | Datatypes.S depth =>
          st_for l (λ s,
            (if bool_decide (to s = self e) then process_command (cmd s)
             else write_command (index_of (to s)) (cmd s)) ;;
            route depth)
      end
  end.

Definition routed {A} (m : ST aenv A) : ST aenv A := a ← m; route 4 ;; mret a.

Definition send_command (destination_ : option thread_id) (command_ : command_t) : ST aenv unit :=
  e ← st_get;
  match destination_ with
  | None => st_crash BadAccess
  | Some d =>
      if bool_decide (d = self e) then routed (process_command command_)
      else write_command (index_of d) command_
  end.

(** [while (dispatcher->read (source, thread_id, &command)) process_command (command);] *)
Fixpoint drain_commands (n : nat) (source : nat) : ST aenv unit :=
  match n with
  | O => st_crash OutOfFuel
  | Datatypes.S n =>
      e ← st_get;
      c ← on_disp (dispatcher_read source (thread_index (api e)));
      match c with
      | None => mret tt
      | Some command => routed (process_command command) ;; drain_commands n source
      end
  end.

Definition signal_in (signals_ : Z) (source : nat) : bool :=
  negb (Z.land signals_ (wrap width (Z.shiftl 1 (Z.of_nat source))) =? 0).

Definition process_commands_from (signals_ : Z) : ST aenv unit :=
  e ← st_get;
  st_for (seq 0 (thread_count (disp (around e))))
    (λ source, st_when (signal_in signals_ source) (drain_commands fuel source)).

(** ** The pollset *)

Definition api_check : ST aenv Z :=
  e ← st_get;
  let '(r, b) := pollset_check (signals e) in
  st_modify (λ e, e <| signals := b |>) ;; mret r.

(** Another thread writes a command for this thread; the result says whether
    it posts the semaphore. *)
Definition arrive (source : nat) (command : command_t) : ST aenv bool :=
  e ← st_get;
  s ← on_disp (dispatcher_write source (thread_index (api e)) command);
  match s with
  | Some (_, i) =>
      e ← st_get;
      let '(asleep, b) := pollset_signal width (Z.of_nat i) (signals e) in
      st_modify (λ e, e <| signals := b |>) ;; mret asleep
  | None => mret false
  end.

(** [sem.wait ()]. *)
Fixpoint sleep (future : list (list (nat * command_t))) : ST aenv unit :=
  match future with
  | [] => st_crash Blocked
  | batch :: future =>
      st_modify (λ e, e <| arrivals := future |>) ;;
      e ← st_get;
      st_for batch (λ c, arrive c.1 c.2 ;; mret tt) ;;
      e' ← st_get;
      if waiting width (PollSet (signals e') 0 0 PWaiting ∅) then sleep future else mret tt
  end.

Fixpoint api_poll (n : nat) : ST aenv Z :=
  match n with
  | O => st_crash OutOfFuel
  | Datatypes.S n =>
      e ← st_get;
      let '(result, b) := pollset_poll_izte width (signals e) in
      st_modify (λ e, e <| signals := b |>) ;;
      if negb (result =? 0) then mret result
      else
        sleep (arrivals e) ;;
        e ← st_get;
        let '(result, b) := pollset_poll_xchg (signals e) in
        st_modify (λ e, e <| signals := b |>) ;;
        if negb (result =? 0) then mret result else api_poll n
  end.

Definition process_commands : ST aenv unit :=
  let poll := signals ← api_check; st_when (negb (signals =? 0)) (process_commands_from signals) in
  match read_tsc (W := W) with
  | None => poll
  | Some tsc =>
      current_time ← on_runtime tsc;
      e ← st_get;
      if u64 (current_time - last_command_time (api e)) <=? api_thread_max_command_delay then mret tt
      else modify_api (λ t, t <| last_command_time := current_time |>) ;; poll
  end.

(** ** The calls of the application *)

Definition api_thread_new (id : nat) : api_thread_t := ApiThread 0 id [] [] 0 message_data 0.

(** [create]: the thread registers with the dispatcher. *)
Definition api_thread_create : ST aenv unit :=
  e ← st_get;
  id ← on_disp (allocate_thread_id (self e) (self e));
  modify_api (λ _, api_thread_new id).

Definition mask (notifications_ : Z) : ST aenv unit :=
  modify_api (λ t, t <| message_mask := Z.lor notifications_ message_data |>).

Inductive style_t := style_data_distribution | style_load_balancing.

(** [dispatcher->create] when the scope is not local. *)
Definition register (source_ : bool) (name_ : string) (engine : engine_id) (scope_ : scope_t)
    (location_ : option string) (listener_thread_ : option thread_id) (handler_threads_ : list thread_id)
    : ST aenv unit :=
  match scope_ with
  | scope_local => mret tt
  | _ =>
      e ← st_get;
      on_around (dispatcher_create (self e) source_ name_ (self e) engine scope_ location_
        listener_thread_ handler_threads_)
  end.

Definition create_exchange (name_ : string) (scope_ : scope_t) (location_ : option string)
    (listener_thread_ : option thread_id) (handler_threads_ : list thread_id) (style_ : style_t)
    : ST aenv Z :=
  e ← st_get;
  st_assert (bool_decide (name_ ∉ (exchanges (api e)).*1)) ;;
  engine ← on_runtime new_address;
  st_modify (λ e, e <| out_engines :=
    <[engine := out_engine_create (match style_ with style_load_balancing => true | _ => false end)]> (out_engines e) |>) ;;
  modify_api (λ t, t <| exchanges := exchanges t ++ [(name_, engine)] |>) ;;
  register false name_ engine scope_ location_ listener_thread_ handler_threads_ ;;
  e ← st_get;
  mret (Z.of_nat (length (exchanges (api e))) - 1).

Definition create_queue (name_ : string) (scope_ : scope_t) (location_ : option string)
    (listener_thread_ : option thread_id) (handler_threads_ : list thread_id) (hwm_ lwm_ swap_ : Z)
    : ST aenv Z :=
  e ← st_get;
  st_assert (bool_decide (name_ ∉ queue_name <$> queues (api e))) ;;
  engine ← on_runtime new_address;
  st_modify (λ e, e <| in_engines := <[engine := in_engine_create hwm_ lwm_ swap_]> (in_engines e) |>) ;;
  modify_api (λ t, t <| queues := queues t ++ [Queue name_ engine true] |>) ;;
  register true name_ engine scope_ location_ listener_thread_ handler_threads_ ;;
  e ← st_get;
  mret (Z.of_nat (length (queues (api e)))).

Definition api_consume (queue_id_ : Z) (enabled_ : bool) : ST aenv unit :=
  e ← st_get;
  st_assert ((0 <? queue_id_) && (queue_id_ <=? Z.of_nat (length (queues (api e))))) ;;
  modify_api (λ t, t <| queues :=
    alter (λ q, q <| consume := enabled_ |>) (Z.to_nat (queue_id_ - 1)) (queues t) |>).

(** What the constructor of the pipe asks of an engine. *)
Definition info_of (e : aenv) (engine : engine_id) : engine_info :=
  match out_engines e !! engine, in_engines e !! engine with
  | Some o, _ => EngineInfo (out_engine_get_watermarks o) (out_engine_get_swap_size o)
  | None, Some i => EngineInfo (in_engine_get_watermarks i) (in_engine_get_swap_size i)
  | None, None => foreign_engine engine
  end.

(** The thread and engine of an object: one of this thread's own, found by
    its name, or one the dispatcher knows or makes. *)
Definition resolve (own : option engine_id) (name_ : string) (thread_ : option thread_id)
    (other_name options_ : string) : ST aenv (option thread_id * engine_id) :=
  e ← st_get;
  match own with
  | Some engine => mret (Some (self e), engine)
  | None => on_around (dispatcher_get (self e) name_ thread_ other_name options_)
  end.

Definition bind (exchange_name_ queue_name_ : string) (exchange_thread_ queue_thread_ : option thread_id)
    (exchange_options_ queue_options_ : string) : ST aenv unit :=
  e ← st_get;
  '(exchange_thread, exchange_engine) ←
    resolve ((λ x, x.2.2) <$> list_find (λ x, x.1 = exchange_name_) (exchanges (api e)))
      exchange_name_ exchange_thread_ queue_name_ exchange_options_;
  '(queue_thread, queue_engine) ←
    resolve ((λ x, queue_engine x.2) <$> list_find (λ q, queue_name q = queue_name_) (queues (api e)))
      queue_name_ queue_thread_ exchange_name_ queue_options_;
  st ← st_of_option BadAccess exchange_thread;
  dt ← st_of_option BadAccess queue_thread;
  pipe ← on_runtime new_address;
  st_modify (λ e, e <| reach := reach e <| Store.pipes := <[pipe :=
    pipe_new st exchange_engine dt queue_engine (info_of e exchange_engine) (info_of e queue_engine)]> (Store.pipes (reach e)) |> |>) ;;
  send_command (Some st) (init_engine_send_to (Some exchange_engine) pipe) ;;
  send_command (Some dt) (init_engine_receive_from (Some queue_engine) pipe).

(** [exchanges [exchange_].second->write (message_)] *)
Definition exchange_write (exchange_ : nat) (message_ : raw_message) : ST aenv (bool * raw_message) :=
  e ← st_get;
  x ← st_of_option BadAccess (exchanges (api e) !! exchange_);
  routed (on_out x.2 (out_engine_write message_)).

Definition exchange_flush (exchange_ : nat) : ST aenv unit :=
  e ← st_get;
  x ← st_of_option BadAccess (exchanges (api e) !! exchange_);
  routed (on_out x.2 out_engine_flush).

(** [while (!sent) { process_commands (pollset.poll ()); ... }] *)
Fixpoint write_blocking (n : nat) (exchange_ : nat) (message_ : raw_message) : ST aenv (bool * raw_message) :=
  match n with
  | O => st_crash OutOfFuel
  | Datatypes.S n =>
      signals ← api_poll fuel;
      process_commands_from signals ;;
      r ← exchange_write exchange_ message_;
      let '(sent, message_) := r : bool * raw_message in
      (if sent then mret (true, message_) else write_blocking n exchange_ message_ : ST aenv _)
  end.

Definition write_or_block (exchange_ : nat) (message_ : raw_message) (block_ : bool) : ST aenv (bool * raw_message) :=
  r ← exchange_write exchange_ message_;
  let '(sent, message_) := r : bool * raw_message in
  if block_ && negb sent then write_blocking fuel exchange_ message_ else mret (sent, message_).

Definition api_send (exchange_ : nat) (message_ : raw_message) (block_ : bool) : ST aenv (bool * raw_message) :=
  st_assert (message_type message_ =? message_data) ;;
  process_commands ;;
  r ← write_or_block exchange_ message_ block_;
  exchange_flush exchange_ ;;
  mret r.

Definition api_presend (exchange_ : nat) (message_ : raw_message) (block_ : bool) : ST aenv (bool * raw_message) :=
  st_assert (message_type message_ =? message_data) ;;
  write_or_block exchange_ message_ block_.

Definition api_flush : ST aenv unit :=
  process_commands ;;
  e ← st_get;
  st_for (seq 0 (length (exchanges (api e)))) exchange_flush.

(** ** Receiving *)

(** The messages of one queue up to one the application wants. *)
Fixpoint fetch_wanted (n : nat) (engine : engine_id) (message_ : raw_message) : ST aenv (bool * raw_message) :=
  match n with
  | O => st_crash OutOfFuel
  | Datatypes.S n =>
      r ← routed (on_in engine (in_engine_read message_));
      let '(retrieved, message_) := r : bool * raw_message in
      e ← st_get;
      (if negb retrieved then mret (false, message_)
       else if negb (Z.land (message_type message_) (message_mask (api e)) =? 0) then mret (true, message_)
       else fetch_wanted n engine message_ : ST aenv _)
  end.

Fixpoint fetch_loop (n : nat) (message_ : raw_message) : ST aenv (Z * raw_message) :=
  match n with
  | O => mret (0, message_)
  | Datatypes.S n =>
      modify_api (λ t, t <| current_queue :=
        if bool_decide (current_queue t + 1 = length (queues t))%nat then 0%nat else (current_queue t + 1)%nat |>) ;;
      e ← st_get;
      q ← st_of_option BadAccess (queues (api e) !! current_queue (api e));
      if negb (consume q) then fetch_loop n message_
      else
        r ← fetch_wanted fuel (queue_engine q) message_;
        let '(found, message_) := r : bool * raw_message in
        (if found then mret (Z.of_nat (current_queue (api e)) + 1, message_)
         else fetch_loop n message_ : ST aenv _)
  end.

Definition fetch_message (message_ : raw_message) : ST aenv (Z * raw_message) :=
  e ← st_get;
  fetch_loop (length (queues (api e))) message_.

Fixpoint blocking_receive_loop (n : nat) (qid : Z) (message_ : raw_message) : ST aenv (Z * raw_message) :=
  if negb (qid =? 0) then mret (qid, message_)
  else
    match n with
    | O => st_crash OutOfFuel
    | Datatypes.S n =>
        signals ← api_poll fuel;
        st_assert (negb (signals =? 0)) ;;
        process_commands_from signals ;;
        modify_api (λ t, t <| ticks := 0 |>) ;;
        r ← fetch_message message_;
        let '(qid, message_) := r : Z * raw_message in
        blocking_receive_loop n qid message_
    end.

Definition blocking_receive (message_ : raw_message) : ST aenv (Z * raw_message) :=
  r ← fetch_message message_;
  let '(qid, message_) := r : Z * raw_message in
  blocking_receive_loop fuel qid message_.

Definition non_blocking_receive (message_ : raw_message) : ST aenv (Z * raw_message) :=
  r ← fetch_message message_;
  let '(qid, message_) := r : Z * raw_message in
  if negb (qid =? 0) then mret (qid, message_)
  else
    signals ← api_check;
    if negb (signals =? 0) then
      process_commands_from signals ;;
      fetch_message message_
    else mret (qid, message_).

Definition api_receive (message_ : raw_message) (block_ : bool) : ST aenv (Z * raw_message) :=
  r ← (if block_ then blocking_receive message_ else non_blocking_receive message_ : ST aenv _);
  modify_api (λ t, t <| ticks := ticks t + 1 |>) ;;
  e ← st_get;
  st_when (ticks (api e) =? api_thread_poll_rate)
    (signals ← api_check;
     st_when (negb (signals =? 0)) (process_commands_from signals) ;;
     modify_api (λ t, t <| ticks := 0 |>)) ;;
  mret r.

(** ** Frames *)

(** What processing commands leaves alone. *)
Definition core (e : aenv) : api_thread_t * Z := (api e, signals e).

Lemma keeps_core_api {A} (m : ST aenv A) e a e' : keeps core m → runs m e a e' → api e' = api e.
Proof. intros Hm Hr. apply Hm in Hr. unfold core in Hr. congruence. Qed.

Lemma keeps_on_out {A} id (f : ST (eenv P S) A) : keeps core (on_out id f).
Proof.
  intros e a e'. unfold runs, on_out. destruct (out_engines e !! id) as [o|]; [|done].
  destruct (f _) as [[]|]; [|done]. by intros [= _ <-].
Qed.

Lemma keeps_on_in {A} id (f : ST (eenv P S) A) : keeps core (on_in id f).
Proof.
  intros e a e'. unfold runs, on_in. destruct (in_engines e !! id) as [o|]; [|done].
  destruct (f _) as [[]|]; [|done]. by intros [= _ <-].
Qed.

Lemma keeps_on_disp {A} (m : ST (dispatcher_t Q) A) : keeps core (on_disp m).
Proof. apply keeps_lift. done. Qed.
#[local] Hint Resolve keeps_on_out keeps_on_in keeps_on_disp : keeps.

Lemma keeps_process_command c : keeps core (process_command c).
Proof. unfold process_command. keeps_auto. Qed.
#[local] Hint Resolve keeps_process_command : keeps.

Lemma keeps_write_command d c : keeps core (write_command d c).
Proof. unfold write_command. keeps_auto. Qed.
#[local] Hint Resolve keeps_write_command : keeps.

Lemma keeps_route n : keeps core (route n).
Proof. induction n as [|n IH]; simpl; keeps_auto. Qed.
#[local] Hint Resolve keeps_route : keeps.

Lemma keeps_routed {A} (m : ST aenv A) : keeps core m → keeps core (routed m).
Proof. intros Hm. unfold routed. keeps_auto. Qed.

Lemma keeps_fetch_wanted n engine : ∀ m, keeps core (fetch_wanted n engine m).
Proof.
  induction n as [|n IH]; intros m; simpl; [apply keeps_crash|].
  apply keeps_bind; [by apply keeps_routed, keeps_on_in|]. intros [b m']. keeps_auto.
Qed.

#[local] Hint Resolve keeps_routed keeps_fetch_wanted : keeps.

Lemma keeps_drain_commands n source : keeps core (drain_commands n source).
Proof. induction n as [|n IH]; simpl; keeps_auto. Qed.
#[local] Hint Resolve keeps_drain_commands : keeps.

Lemma keeps_process_commands_from z : keeps core (process_commands_from z).
Proof. unfold process_commands_from. keeps_auto. Qed.
#[local] Hint Resolve keeps_process_commands_from : keeps.

(** ** Properties *)

Definition wanted (e : aenv) (m : raw_message) : Prop := Z.land (message_type m) (message_mask (api e)) ≠ 0.

(** One call of [read] on the engine of a queue. *)
Definition reads (engine : engine_id) (m : raw_message) (e : aenv) (found : bool) (m' : raw_message) (e' : aenv) : Prop :=
  runs (routed (on_in engine (in_engine_read m))) e (found, m') e'.

(** [took engine ms m e m' e']: the messages [ms] were read from the engine,
    one after another. *)
Inductive took (engine : engine_id) : list raw_message → raw_message → aenv → raw_message → aenv → Prop :=
  | took_none m e : took engine [] m e m e
  | took_one ms m e m1 e1 m' e' :
      reads engine m e true m1 e1 → took engine ms m1 e1 m' e' → took engine (m1 :: ms) m e m' e'.

Lemma fetch_wanted_took n engine : ∀ m e b m' e', runs (fetch_wanted n engine m) e (b, m') e' →
  ∃ ms m1 e1, took engine ms m e m1 e1 ∧ reads engine m1 e1 b m' e' ∧ Forall (λ x, ¬ wanted e x) ms ∧ (b = true → wanted e m').
Proof.
  induction n as [|n IH]; intros m e b m' e' Hr; [done|]. simpl in Hr.
  apply runs_bind_inv in Hr as ([retrieved m1] & e1 & H1 & Hr).
  pose proof (keeps_core_api _ _ _ _ (keeps_routed _ (keeps_on_in _ _)) H1) as Ea.
  apply runs_bind_inv in Hr as (e0 & e2 & [= <- <-] & Hr). destruct retrieved; simpl in Hr.
  - destruct (Z.eqb_spec (Z.land (message_type m1) (message_mask (api e1))) 0) as [Ez|Ez]; simpl in Hr.
    + apply IH in Hr as (ms & m2 & e3 & Ht & Hlast & Hms & Hw). exists (m1 :: ms), m2, e3.
      unfold wanted in *. rewrite Ea in Hms, Hw, Ez. split; [by eapply took_one|]. split; [done|]. split; [|done].
      constructor; [lia|done].
    + injection Hr as <- <- <-. exists [], m, e. split; [constructor|]. split; [done|]. split; [constructor|].
      intros _. unfold wanted. by rewrite <- Ea.
  - injection Hr as <- <- <-. exists [], m, e. split; [constructor|]. split; [done|]. by split; [constructor|].
Qed.

(** The thread moved on to the next queue. *)
Definition advanced (e : aenv) : aenv :=
  e <| api := api e <| current_queue := next_current (length (queues (api e))) (current_queue (api e)) |> |>.

(** [fetched k dropped e m qid m' e']: [k] queues were visited one after
    another.  Those whose reception is disabled were not read.  The others were read
    until they had nothing more, but the last one, if [qid] is not 0, until it
    gave [m'].  [dropped] are all other messages that were read. *)
Inductive fetched : nat → list raw_message → aenv → raw_message → Z → raw_message → aenv → Prop :=
  | fetched_none e m : fetched 0 [] e m 0 m e
  | fetched_disabled k dropped e m qid m' e' q :
      queues (api e) !! current_queue (api (advanced e)) = Some q → consume q = false →
      fetched k dropped (advanced e) m qid m' e' → fetched (Datatypes.S k) dropped e m qid m' e'
  | fetched_nothing k ms dropped e m qid m' e' q m1 e1 m2 e2 :
      queues (api e) !! current_queue (api (advanced e)) = Some q → consume q = true →
      took (queue_engine q) ms m (advanced e) m1 e1 → reads (queue_engine q) m1 e1 false m2 e2 →
      fetched k dropped e2 m2 qid m' e' → fetched (Datatypes.S k) (ms ++ dropped) e m qid m' e'
  | fetched_found ms e m m' e' q m1 e1 :
      queues (api e) !! current_queue (api (advanced e)) = Some q → consume q = true →
      took (queue_engine q) ms m (advanced e) m1 e1 → reads (queue_engine q) m1 e1 true m' e' →
      fetched 1 ms e m (Z.of_nat (current_queue (api (advanced e))) + 1) m' e'.

Lemma fetch_loop_fetched n : ∀ e m qid m' e',
  runs (fetch_loop n m) e (qid, m') e' → (current_queue (api e) < length (queues (api e)))%nat →
  ∃ k dropped, fetched k dropped e m qid m' e' ∧ (if qid =? 0 then k = n else (1 ≤ k ≤ n)%nat) ∧
    Forall (λ x, ¬ wanted e x) dropped ∧ (qid ≠ 0 → wanted e m') ∧
    api e' = api e <| current_queue := turn (length (queues (api e))) (current_queue (api e)) k |> ∧
    (qid ≠ 0 → qid = Z.of_nat (current_queue (api e')) + 1).
Proof.
  induction n as [|n IH]; intros e m qid m' e' Hr Hc; simpl in Hr.
  { injection Hr as <- <- <-. exists 0%nat, []. split; [constructor|]. split; [done|]. split; [constructor|]. split; [done|]. rewrite turn_0 by done.
    split; [by destruct (api e)|done]. }
  apply runs_bind_inv in Hr as ([] & e1 & [= <-] & Hr).
  apply runs_bind_inv in Hr as (e0 & e1 & [= <- <-] & Hr).
  match type of Hr with runs _ ?x _ _ => change x with (advanced e) in Hr end. cbv beta zeta in Hr.
  assert (current_queue (api (advanced e)) < length (queues (api e)))%nat as Hc' by by apply next_current_lt.
  assert (∀ k, turn (length (queues (api e))) (current_queue (api (advanced e))) k =
    turn (length (queues (api e))) (current_queue (api e)) (Datatypes.S k)) as Hturn by (intros; by apply turn_next).
  apply runs_bind_inv in Hr as (q & e1 & Hq & Hr).
  assert (queues (api e) !! current_queue (api (advanced e)) = Some q ∧ e1 = advanced e) as [Hq' ->].
  { unfold runs, st_of_option in Hq. simpl in Hq |- *.
    destruct (queues (api e) !! _); [by injection Hq as <- <-|done]. }
  destruct (consume q) eqn:Ec; simpl in Hr.
  - apply runs_bind_inv in Hr as ([found m1] & e1 & Hw & Hr).
    pose proof (keeps_core_api _ _ _ _ (keeps_fetch_wanted _ _ _) Hw) as Ea.
    apply fetch_wanted_took in Hw as (ms & m0 & e0 & Ht & Hlast & Hms & Hwant). destruct found.
    + injection Hr as <- <- <-. exists 1%nat, ms. split; [by eapply fetched_found|].
      rewrite Ea. split; [rewrite (proj2 (Z.eqb_neq _ 0)) by lia; lia|]. split; [done|]. split; [auto|].
      split; [|done]. rewrite <- (Hturn 0%nat), turn_0 by done. done.
    + apply IH in Hr as (k & dropped & Hf & Hk & Hd & Hw & Ea' & Hid); [|by rewrite Ea].
      exists (Datatypes.S k), (ms ++ dropped). split; [by eapply fetched_nothing|]. split; [destruct (qid =? 0); lia|].
      unfold wanted in *. rewrite Ea in Hd, Hw. split; [by apply Forall_app_2|]. split; [done|].
      split; [|done]. rewrite Ea', Ea. simpl. by rewrite <- Hturn.
  - apply IH in Hr as (k & dropped & Hf & Hk & Hd & Hw & Ea' & Hid); [|done].
    exists (Datatypes.S k), dropped. split; [by eapply fetched_disabled|]. split; [destruct (qid =? 0); lia|].
    split; [done|]. split; [done|]. split; [|done]. rewrite Ea'. simpl. by rewrite <- Hturn.
Qed.

(** C37: a fetch visits the queues in turn, starting after the one it visited
    last, and does not read those whose reception is disabled.  It takes
    messages from a queue, in the queue's order, up to the first that the
    mask lets through, and returns that one with the queue's number; every message it took and
    does not return is one that the mask does not let through.  It
    returns 0 exactly when it has visited all queues and every queue that it may read
    had nothing more. *)
Theorem fetch_message_fair m e qid m' e' :
  runs (fetch_message m) e (qid, m') e' → (current_queue (api e) < length (queues (api e)))%nat →
  let n := length (queues (api e)) in
  ∃ k dropped, fetched k dropped e m qid m' e' ∧ (if qid =? 0 then k = n else (1 ≤ k ≤ n)%nat) ∧
    Forall (λ x, ¬ wanted e x) dropped ∧ (qid ≠ 0 → wanted e m') ∧
    api e' = api e <| current_queue := turn n (current_queue (api e)) k |> ∧
    (qid ≠ 0 → qid = Z.of_nat (current_queue (api e')) + 1 ∧ 1 ≤ qid ≤ Z.of_nat n).
Proof.
  intros Hr Hc n. apply runs_bind_inv in Hr as (e0 & e1 & [= <- <-] & Hr).
  apply fetch_loop_fetched in Hr as (k & dropped & Hf & Hk & Hd & Hw & Ea & Hid); [|done].
  exists k, dropped. split_and!; [done..|]. intros Hne. specialize (Hid Hne).
  split; [done|]. rewrite Hid, Ea. simpl.
  assert (turn n (current_queue (api e)) k < n)%nat by (apply Nat.mod_upper_bound; lia). subst n. lia.
Qed.

(** *** Checking for commands *)

Lemma fetch_loop_ticks n : ∀ m, keeps (λ e, (ticks (api e), signals e)) (fetch_loop n m).
Proof.
  induction n as [|n IH]; intros m; simpl; [apply keeps_ret|].
  apply keeps_bind; [by apply keeps_modify|]. intros []. keeps_auto; try done.
  intros ? ? ? Hr. apply keeps_fetch_wanted in Hr. unfold core in Hr. congruence.
Qed.

Lemma fetch_message_ticks m : keeps (λ e, (ticks (api e), signals e)) (fetch_message m).
Proof. unfold fetch_message. apply keeps_bind; [apply keeps_get|]. intros e. apply fetch_loop_ticks. Qed.

Lemma blocking_receive_ticks n : ∀ qid m e r e',
  runs (blocking_receive_loop n qid m) e r e' → ticks (api e') = ticks (api e) ∨ ticks (api e') = 0.
Proof.
  induction n as [|n IH]; intros qid m e r e' Hr; simpl in Hr;
    (destruct (qid =? 0); simpl in Hr; [|injection Hr as _ <-; by left]); [done|].
  apply runs_bind_inv in Hr as (z & e1 & _ & Hr). apply runs_bind_inv in Hr as ([] & e2 & _ & Hr).
  apply runs_bind_inv in Hr as ([] & e3 & _ & Hr). apply runs_bind_inv in Hr as ([] & e4 & [= <-] & Hr).
  apply runs_bind_inv in Hr as ([qid' m'] & e5 & Hf & Hr). apply fetch_message_ticks in Hf.
  right. apply IH in Hr. simpl in Hf. injection Hf as Hf _. destruct Hr; congruence.
Qed.

Lemma non_blocking_receive_ticks m e r e' :
  runs (non_blocking_receive m) e r e' → ticks (api e') = ticks (api e).
Proof.
  intros Hr. apply runs_bind_inv in Hr as ([qid m1] & e1 & H1 & Hr). apply fetch_message_ticks in H1.
  injection H1 as H1 _. rewrite <- H1. destruct (qid =? 0); simpl in Hr; [|by injection Hr as _ <-].
  apply runs_bind_inv in Hr as (z & e2 & H2 & Hr).
  assert (api e2 = api e1) as <-.
  { apply runs_bind_inv in H2 as (e0 & e3 & [= <- <-] & H2). cbv beta zeta in H2.
    destruct (pollset_check (signals e1)) as [r' b].
    apply runs_bind_inv in H2 as ([] & e3 & [= <-] & H2). by injection H2 as _ <-. }
  destruct (z =? 0); simpl in Hr; [by injection Hr as _ <-|].
  apply runs_bind_inv in Hr as ([] & e3 & H3 & Hr).
  apply (keeps_core_api _ _ _ _ (keeps_process_commands_from _)) in H3.
  apply fetch_message_ticks in Hr. congruence.
Qed.

(** However many messages keep coming, the thread looks for commands: its
    counter of receives never reaches [api_thread_poll_rate], and a receive
    that brings it back to 0 takes all signals there are; every other receive
    advances it, or has slept for signals. *)
Theorem receive_polls m block e r e' :
  runs (api_receive m block) e r e' → 0 ≤ ticks (api e) < api_thread_poll_rate →
  0 ≤ ticks (api e') < api_thread_poll_rate ∧
  (ticks (api e') = 0 → signals e' = 0) ∧
  (ticks (api e') ≠ 0 → ticks (api e') = ticks (api e) + 1 ∨ (block = true ∧ ticks (api e') = 1)).
Proof.
  intros Hr Ht. apply runs_bind_inv in Hr as (r0 & e1 & H1 & Hr).
  assert (ticks (api e1) = ticks (api e) ∨ (block = true ∧ ticks (api e1) = 0)) as Hticks.
  { destruct block.
    - apply runs_bind_inv in H1 as ([qid m1] & e2 & H2 & H1). apply fetch_message_ticks in H2.
      injection H2 as H2 _. apply blocking_receive_ticks in H1. destruct H1; [left; congruence|by right].
    - left. by eapply non_blocking_receive_ticks. }
  assert (0 ≤ ticks (api e1) < api_thread_poll_rate) as Ht1 by (destruct Hticks as [->|[_ ->]]; lia).
  apply runs_bind_inv in Hr as ([] & e2 & [= <-] & Hr). apply runs_bind_inv in Hr as (e3 & e2 & [= <- <-] & Hr).
  apply runs_bind_inv in Hr as ([] & e2 & Hw & Hr). injection Hr as _ <-. simpl in Hw.
  apply runs_when in Hw as [[Heq Hw]|[Hne ->]]; simpl.
  - apply runs_bind_inv in Hw as (z & e3 & H3 & Hw).
    assert (signals e3 = 0) as Hz.
    { apply runs_bind_inv in H3 as (e0 & e4 & [= <- <-] & H3). simpl in H3.
      apply runs_bind_inv in H3 as ([] & e4 & [= <-] & H3). by injection H3 as _ <-. }
    apply runs_bind_inv in Hw as ([] & e4 & H4 & Hw). injection Hw as <-. simpl.
    assert (signals e4 = signals e3) as H4s.
    { apply runs_when in H4 as [[_ H4]|[_ ->]]; [|done]. apply keeps_process_commands_from in H4.
      unfold core in H4. congruence. }
    split; [unfold api_thread_poll_rate; lia|]. split; [congruence|done].
  - apply Z.eqb_neq in Hne. split; [lia|]. split; [lia|]. intros _. destruct Hticks as [->|[? ->]]; [by left|by right].
Qed.

(** *** Exchanges, queues and bindings *)

(** The objects of a thread: their names are distinct, and their engines are
    the thread's. *)
Record objects_wf (e : aenv) : Prop := {
  wf_exchange_names : NoDup (exchanges (api e)).*1;
  wf_queue_names : NoDup (queue_name <$> queues (api e));
  wf_exchange_engines x : x ∈ (exchanges (api e)).*2 → is_Some (out_engines e !! x);
  wf_queue_engines q : q ∈ queue_engine <$> queues (api e) → is_Some (in_engines e !! q) ∧ out_engines e !! q = None
}.

Lemma route_nothing n e : sent_out (reach e) = [] → runs (route n) e tt e.
Proof.
  intros E. unfold runs. destruct n; simpl; unfold mbind, st_bind, st_get, st_modify; simpl; rewrite E;
    unfold mret, st_ret; do 2 f_equal; destruct e as [? ? ? ? [] ? ? ? ?]; simpl in *; by subst.
Qed.

Lemma send_to_self e x o pipe : out_engines e !! x = Some o → sent_out (reach e) = [] →
  runs (send_command (Some (self e)) (init_engine_send_to (Some x) pipe)) e tt
    (e <| out_engines := <[x := o <| out_base := out_base o <| demux :=
        demux_send_to (P := P) (S := S) (demux (out_base o)) pipe |> |>]> (out_engines e) |>).
Proof.
  intros Ho E. eapply runs_bind; [apply runs_get|]. cbv beta iota zeta. rewrite bool_decide_true by done.
  match goal with |- runs _ _ _ ?y => apply (runs_bind _ _ _ tt y) end;
    [|eapply runs_bind; [by apply route_nothing|apply runs_ret]].
  unfold runs, process_command, init_engine_send_to, mbind, st_bind, st_get. rewrite Ho.
  rewrite bool_decide_true by eauto. unfold on_out. rewrite Ho. simpl. by destruct e.
Qed.

Lemma receive_from_self e q i pipe : in_engines e !! q = Some i → out_engines e !! q = None → sent_out (reach e) = [] →
  runs (send_command (Some (self e)) (init_engine_receive_from (Some q) pipe)) e tt
    (e <| in_engines := <[q := i <| in_base := in_base i <| mux := mux_receive_from (mux (in_base i)) pipe |> |>]> (in_engines e) |>).
Proof.
  intros Hi Ho E. eapply runs_bind; [apply runs_get|]. cbv beta iota zeta. rewrite bool_decide_true by done.
  match goal with |- runs _ _ _ ?y => apply (runs_bind _ _ _ tt y) end;
    [|eapply runs_bind; [by apply route_nothing|apply runs_ret]].
  unfold runs, process_command, init_engine_receive_from, mbind, st_bind, st_get. rewrite Ho.
  rewrite bool_decide_false by by intros []. unfold on_in. rewrite Hi. simpl. by destruct e.
Qed.

(** Binding an exchange of the thread to a queue of the thread makes one
    pipe between their engines, with the watermarks of both, to which the
    exchange sends and from which the queue receives from then on; nothing
    else changes. *)
Theorem bind_local xn qn e i x j q o n p w ot qt os qs :
  objects_wf e → sent_out (reach e) = [] →
  list_find (λ y, y.1 = xn) (exchanges (api e)) = Some (i, (xn, x)) →
  list_find (λ y, queue_name y = qn) (queues (api e)) = Some (j, q) →
  out_engines e !! x = Some o → in_engines e !! queue_engine q = Some n →
  runs new_address (world (around e)) p w →
  ∃ e', runs (bind xn qn ot qt os qs) e tt e' ∧
    Store.pipes (reach e') = <[p := pipe_new (self e) x (self e) (queue_engine q)
      (EngineInfo (0, 0) 0) (EngineInfo (in_hwm n, in_lwm n) (swap_size n))]> (Store.pipes (reach e)) ∧
    (∃ o', out_engines e' = <[x := o']> (out_engines e) ∧
       demux_pipes (demux (out_base o')) = demux_pipes (demux (out_base o)) ++ [p]) ∧
    (∃ n', in_engines e' = <[queue_engine q := n']> (in_engines e) ∧
       mux_pipes (mux (in_base n')) = mux_pipes (mux (in_base n)) ++ [p]) ∧
    api e' = api e ∧ heap (reach e') = heap (reach e) ∧ sent_out (reach e') = [] ∧ objects_wf e'.
Proof.
  intros Hwf Hs Hx Hq Ho Hn Hp.
  assert (out_engines e !! queue_engine q = None) as Hqo.
  { apply list_find_Some in Hq as (Hq & _). apply (wf_queue_engines e Hwf).
    apply list_elem_of_fmap. exists q. split; [done|]. by eapply list_elem_of_lookup_2. }
  assert (queue_engine q ≠ x) as Hne by congruence.
  set (e1 := e <| around := around e <| world := w |> |>).
  set (e2 := e1 <| reach := reach e1 <| Store.pipes := <[p := pipe_new (self e) x (self e) (queue_engine q)
      (EngineInfo (0, 0) 0) (EngineInfo (in_hwm n, in_lwm n) (swap_size n))]> (Store.pipes (reach e1)) |> |>).
  pose proof (send_to_self e2 x o p Ho Hs) as H1.
  match type of H1 with runs _ _ _ ?y => set (e3 := y) in H1 end.
  pose proof (receive_from_self e3 (queue_engine q) n p Hn) as H2.
  assert (out_engines e3 !! queue_engine q = None) as Hqo3 by (simpl; by rewrite lookup_insert_ne).
  specialize (H2 Hqo3 Hs). match type of H2 with runs _ _ _ ?y => set (e4 := y) in H2 end.
  exists e4. split; [|split; [done|]].
  - eapply runs_bind; [apply runs_get|]. cbv beta. rewrite Hx, Hq. simpl.
    eapply runs_bind; [eapply runs_bind; [apply runs_get|apply runs_ret]|]. cbv beta iota.
    eapply runs_bind; [eapply runs_bind; [apply runs_get|apply runs_ret]|]. cbv beta iota.
    eapply runs_bind; [apply runs_ret|]. cbv beta. eapply runs_bind; [apply runs_ret|]. cbv beta.
    eapply (runs_bind _ _ _ p e1).
    { unfold runs, on_runtime, on_around, on_world, st_lift in *. by rewrite Hp. }
    eapply (runs_bind _ _ _ tt e2); [|by eapply runs_bind].
    unfold runs, st_modify, info_of. simpl. by rewrite Ho, Hqo, Hn.
  - split_and!; try done.
    + eexists. split; [done|]. simpl. by destruct (demux (out_base o)).
    + eexists. split; [done|]. done.
    + destruct Hwf as [H3 H4 H5 H6]. constructor; simpl; [done|done| |].
      * intros y Hy. destruct (decide (x = y)) as [->|]; [rewrite lookup_insert_eq|rewrite lookup_insert_ne by done]; eauto.
      * intros y Hy. destruct (H6 y Hy) as [? Hny]. split.
        -- destruct (decide (queue_engine q = y)) as [<-|]; [rewrite lookup_insert_eq|rewrite lookup_insert_ne by done]; eauto.
        -- rewrite lookup_insert_ne; [done|]. congruence.
Qed.
End api_thread.
Arguments aenv P S Q L W : clear implicits.
