(* ===== verification/ApiRuns.v ===== *)
(** An application that sends to itself, and the theorems about its thread
    applied to what it does. *)
From S2P Require Import Prelude Config YQueue Channel YPipe Message Command Swap Pipe PipeRuns Store Mux Demux.
From S2P Require Import Engine Attributes Dispatcher DispatchRuns ApiThread.
Local Open Scope Z_scope.

#[local] Instance message_slots : SlotQueue raw_message (yqueue raw_message) :=
  yqueue_slot_queue message_pipe_granularity.

(** Addresses are numbered; no time stamp counter is read. *)
#[local] Instance counting_runtime : Runtime positive := {
  new_address := n ← st_get; st_put (Pos.succ n) ;; mret n;
  read_tsc := None
}.

Abbreviation cenv := (aenv (ypipe (yqueue raw_message)) unit (yqueue command_t) attr_list_t positive).

Definition started : cenv :=
  AEnv 1%positive (api_thread_new 0) ∅ ∅ (Store (MHeap ∅ 1000 []) ∅ [])
    (DEnv (dispatcher_new 2) ∅ 10%positive) 0 [] [].

(** No other threads, no engines of other threads. *)
Definition no_index : thread_id → nat := λ _, 0%nat.
Definition no_engine : engine_id → engine_info := λ _, EngineInfo (0, 0) 0.

Definition after {A} (m : ST cenv A) (e : cenv) : cenv := match m e with Ok (_, e') => e' | Crash _ => e end.

Definition with_objects : cenv :=
  after (api_thread_create ;;
         create_exchange "E"%string scope_local None None [] style_data_distribution ;;
         create_queue "Q"%string scope_local None None [] 100 50 0) started.

Definition bound : cenv :=
  after (bind no_index no_engine 10 "E"%string "Q"%string None None ""%string ""%string) with_objects.

Definition send_one (x : Z) : ST cenv (bool * raw_message) := api_send 64 no_index 10 0 (byte_message x) true.
Definition receive_one : ST cenv (Z * raw_message) := api_receive 64 no_index 10 no_message false.

(** What is sent comes back, in order, and then there is nothing more. *)
Lemma loopback : ∃ e', runs
  (send_one 7 ;; send_one 8 ;;
   '(q1, m1) ← receive_one; '(q2, m2) ← receive_one; '(q3, _) ← receive_one;
   mret (q1, vsm_data m1, q2, vsm_data m2, q3)) bound (1, [7], 1, [8], 0) e'.
Proof. eexists. vm_compute. reflexivity. Qed.

Definition sent_one : cenv := after (send_one 7) bound.

(** Three queues: reception from the second one is disabled, the third one has
    no pipe; in the pipe of the first one there are a gap and then a message. *)
Definition three_queues : cenv :=
  after (create_queue "D"%string scope_local None None [] 100 50 0 ;;
         create_queue "R"%string scope_local None None [] 100 50 0 ;;
         modify_api (λ t, t <| queues := alter (λ q, q <| consume := false |>) 1%nat (queues t) |>) ;;
         bind no_index no_engine 10 "E"%string "Q"%string None None ""%string ""%string ;;
         st_lift reach (λ r e, e <| reach := r |>) (on_pipe 14%positive pipe_gap) ;;
         send_one 7) with_objects.

Lemma fetch_runs : ∃ e e' : cenv, runs (fetch_message no_index 10 no_message) e (1, byte_message 7) e' ∧
  map consume (queues (api e)) = [true; false; true] ∧ current_queue (api e) = 0%nat ∧ message_mask (api e) = message_data ∧
  length (queues (api e)) = 3%nat ∧ current_queue (api e') = 0%nat.
Proof. exists three_queues. eexists. vm_compute. repeat split. Qed.

Lemma fetch_message_fair_witness : ∃ (e e' : cenv) dropped,
  map consume (queues (api e)) = [true; false; true] ∧ current_queue (api e) = 0%nat ∧ message_mask (api e) = message_data ∧
  runs (fetch_message no_index 10 no_message) e (1, byte_message 7) e' ∧
  fetched no_index 10 3 dropped e no_message 1 (byte_message 7) e' ∧
  Forall (λ x, ¬ wanted e x) dropped ∧ wanted e (byte_message 7) ∧
  ¬ wanted e (raw_message_init_notification no_message gap_tag).
Proof.
  destruct fetch_runs as (e & e' & Hr & Hq & Hc & Em & El & Hc').
  destruct (fetch_message_fair no_index 10 no_message e 1 (byte_message 7) e' Hr) as (k & dropped & Hf & Hk & Hd & Hw & Ea & _).
  - rewrite El, Hc. lia.
  - rewrite El in Hk. cbn [Z.eqb] in Hk. rewrite Ea in Hc'. simpl in Hc'. rewrite El, Hc in Hc'.
    assert (k = 3%nat) as -> by (destruct k as [|[|[|[|k]]]]; [lia|discriminate Hc'|discriminate Hc'|reflexivity|lia]).
    exists e, e', dropped. split_and!; [exact Hq|exact Hc|exact Em|exact Hr|exact Hf|exact Hd|apply Hw; discriminate|].
    unfold wanted. rewrite Em. intros H. apply H. reflexivity.
Defined.

Lemma receive_runs : ∃ e', runs receive_one sent_one (1, byte_message 7) e'.
Proof. eexists. vm_compute. reflexivity. Qed.

Lemma receive_polls_witness : ∃ e', runs receive_one sent_one (1, byte_message 7) e' ∧
  0 ≤ ticks (api e') < api_thread_poll_rate.
Proof.
  destruct receive_runs as [e' Hr]. exists e'. split; [exact Hr|].
  apply (receive_polls 64 no_index 10 no_message false sent_one _ e' Hr). vm_compute. split; [discriminate|reflexivity].
Defined.

Lemma with_objects_wf : objects_wf with_objects.
Proof.
  constructor.
  - vm_compute. repeat constructor; set_solver.
  - vm_compute. repeat constructor; set_solver.
  - intros x Hx. assert (x = 10%positive) as ->; [|vm_compute; eauto].
    vm_compute in Hx. by apply list_elem_of_singleton in Hx.
  - intros x Hx. assert (x = 11%positive) as ->; [|vm_compute; eauto].
    vm_compute in Hx. by apply list_elem_of_singleton in Hx.
Qed.

Lemma bind_local_witness : ∃ e',
  runs (bind no_index no_engine 10 "E"%string "Q"%string None None ""%string ""%string) with_objects tt e' ∧
  is_Some (Store.pipes (reach e') !! 12%positive).
Proof.
  destruct (bind_local no_index no_engine 10 "E"%string "Q"%string with_objects 0%nat 10%positive 0%nat
    (Queue "Q"%string 11%positive true) (out_engine_create false) (in_engine_create 100 50 0) 12%positive 13%positive
    None None ""%string ""%string with_objects_wf) as (e' & Hr & Hp & _); [vm_compute; reflexivity..|].
  exists e'. split; [exact Hr|]. rewrite Hp. vm_compute. eauto.
Defined.
