(* ===== verification/Codec.v ===== *)
(** State machines that fill and parse byte buffers
    ([src/libzmq/zmq/encoder.hpp], [zmq/decoder.hpp]), and what they need of
    the place where messages come from or go to. *)
From S2P Require Import Prelude Message MessageBody.

(** ** encoder_t <T> *)

Section encoder.
(** The actions [T] has, and the state of the derived class. *)
Context {N Y : Type}.

(** [write_pos] holds the bytes from the pointer to the end of the memory it
    points into. *)
Record encoder_t := Encoder { write_pos : list Z; to_write : nat; enc_next : N; beginning : bool }.
#[export] Instance eta_encoder : Eta encoder_t := λ e,
  Encoder (write_pos e) (to_write e) (enc_next e) (beginning e).

Context (act : N → ST (encoder_t * Y) bool).

Definition enc_next_step (write_pos_ : list Z) (to_write_ : nat) (next_ : N) (beginning_ : bool)
    : ST (encoder_t * Y) unit :=
  st_modify (λ s, (Encoder write_pos_ to_write_ next_ beginning_, s.2)).

Fixpoint encoder_loop (fuel size_ : nat) (offset : Z) (data : list Z) : ST (encoder_t * Y) (list Z * Z) :=
  match fuel with
  | O => st_crash OutOfFuel
  | S fuel =>
      if bool_decide (length data < size_) then
        s ← st_get;
        let e := s.1 in
        if bool_decide (to_write e ≠ 0) then
          let to_copy := to_write e `min` (size_ - length data) in
          st_of_option BadAccess (guard (to_copy ≤ length (write_pos e))) ;;
          st_modify (λ s, (e <| write_pos := drop to_copy (write_pos e) |> <| to_write := to_write e - to_copy |>, s.2)) ;;
          encoder_loop fuel size_ offset (data ++ take to_copy (write_pos e))
        else
          more ← act (enc_next e);
          s ← st_get;
          let starts := beginning s.1 && bool_decide (offset = (-1)%Z) in
          let offset := if starts then Z.of_nat (length data) else offset in
          st_when starts (st_modify (λ s, (s.1 <| beginning := false |>, s.2))) ;;
          (if more : bool then encoder_loop fuel size_ offset data else mret (data, offset) : ST (encoder_t * Y) _)
      else mret (data, offset)
  end.

(** The bytes put at [data_] and the offset. *)
Definition encoder_read (size_ : nat) : ST (encoder_t * Y) (list Z * Z) :=
  encoder_loop (4 * size_ + 4) size_ (-1)%Z [].

(** A buffer is never overrun. *)
Lemma encoder_loop_bound fuel size_ : ∀ offset data s r s', runs (encoder_loop fuel size_ offset data) s r s' →
  length data ≤ size_ → length r.1 ≤ size_.
Proof.
  induction fuel as [|fuel IH]; intros offset data s r s' Hr Hl; [done|]. simpl in Hr.
  case_bool_decide; [|by st_inv]. st_inv. destruct (bool_decide _).
  - st_inv. unfold runs, st_of_option in *. case_guard; [|done]. eapply IH; [exact Hr|].
    rewrite length_app, length_take. lia.
  - st_inv. destruct x; [by eapply IH|]. by st_inv.
Qed.

Lemma encoder_read_bound size_ s r s' : runs (encoder_read size_) s r s' → length r.1 ≤ size_.
Proof. intros Hr. eapply encoder_loop_bound; [exact Hr|simpl; lia]. Qed.
End encoder.
Arguments encoder_t N : clear implicits.

(** What a derived class proves of its actions, an encoder has: [inv s log out]
    relates the state, the items it has read and the bytes it has written, and
    [complete y log out] holds when there is nothing more to write; [mark log out]
    holds where the offset may be set, and [quiet log log'] while it is not. *)
Section encoder_law.
Context {N Y L : Type} (act : N → ST (encoder_t N * Y) bool) (F : fault → Prop).
Context (inv : encoder_t N * Y → L → list Z → Prop) (complete : Y → L → list Z → Prop) (grows : relation L) `{!PreOrder grows}.
Context (mark : L → list Z → Prop) (quiet : relation L) `{!PreOrder quiet}.
(** Turns of the loop that are left before bytes are copied. *)
Context (weight : encoder_t N → nat) (weight_bound : ∀ e, 1 ≤ weight e ≤ 3).
Implicit Types (s : encoder_t N * Y).

Context (inv_room : ∀ s log out, inv s log out → to_write s.1 ≤ length (write_pos s.1)).
Context (inv_copy : ∀ s log out k, inv s log out → k ≤ to_write s.1 →
  inv (s.1 <| write_pos := drop k (write_pos s.1) |> <| to_write := to_write s.1 - k |>, s.2) log (out ++ take k (write_pos s.1))).
Context (inv_beginning : ∀ s log out b, inv s log out → inv (s.1 <| beginning := b |>, s.2) log out).
Context (weight_beginning : ∀ e b, weight (e <| beginning := b |>) = weight e).
Context (act_ok : ∀ s log out, inv s log out → to_write s.1 = 0 →
  wp (act (enc_next s.1)) F (λ more s',
    (beginning s'.1 = true → mark log out) ∧
    if (more : bool) then ∃ log', grows log log' ∧ inv s' log' out ∧ weight s'.1 < weight s.1 ∧
      (beginning s'.1 = false → quiet log log')
    else inv s' log out ∧ complete s'.2 log out) s).

(** The offset: of a place where a mark is allowed, or -1. *)
Definition marked (log log' : L) (out data : list Z) (offset : Z) : Prop :=
  (offset = (-1)%Z ∧ quiet log log') ∨
  (∃ o log1, offset = Z.of_nat o ∧ o ≤ length data ∧ quiet log log1 ∧ mark log1 (out ++ take o data)).

(** What one call of [read] establishes. *)
Definition read_post (log0 log : L) (out data : list Z) (size : nat) (r : list Z * Z) (s' : encoder_t N * Y) : Prop :=
  ∃ log', inv s' log' (out ++ r.1) ∧ grows log log' ∧ data `prefix_of` r.1 ∧ length r.1 ≤ size ∧
    (length r.1 < size → complete s'.2 log' (out ++ r.1)) ∧ marked log0 log' out r.1 r.2.

Lemma read_post_grow log0 log log' out data data' size r s' : grows log log' → data `prefix_of` data' →
  read_post log0 log' out data' size r s' → read_post log0 log out data size r s'.
Proof using PreOrder0. intros Hl Hd (l & ? & ? & ? & ? & ? & ?). exists l. split_and!; [done|by etrans|by etrans|done..]. Qed.

Lemma marked_longer log log' out data more offset : marked log log' out data offset → marked log log' out (data ++ more) offset.
Proof.
  intros [H|(o & log1 & E & Ho & Hq & Hm)]; [by left|right]. exists o, log1. rewrite length_app, take_app_le by done.
  split_and!; [done|lia|done..].
Qed.

(** After an action, the offset is set if it is not yet and a mark is allowed. *)
Lemma marked_act log0 log log' out data offset (begins : bool) : marked log0 log out data offset →
  (begins = true → mark log (out ++ data)) → (begins = false → quiet log log') →
  marked log0 log' out data (if begins && bool_decide (offset = (-1)%Z) then Z.of_nat (length data) else offset).
Proof using PreOrder1.
  intros [[-> Hq]|(o & log1 & -> & Ho & Hq & Hm)] Hb Hn.
  - rewrite bool_decide_true, andb_true_r by done. destruct begins; [right|left].
    + exists (length data), log. rewrite firstn_all. split_and!; [done..|by apply Hb].
    + split; [done|]. etrans; [done|by apply Hn].
  - rewrite bool_decide_false, andb_false_r by lia. right. by exists o, log1.
Qed.

Lemma encoder_loop_ok fuel size : ∀ s log0 log out data offset,
  inv s log (out ++ data) → length data ≤ size → 4 * (size - length data) + weight s.1 ≤ fuel →
  marked log0 log out data offset →
  wp (encoder_loop act fuel size offset data) F (read_post log0 log out data size) s.
Proof using PreOrder0 PreOrder1 act_ok inv_beginning inv_copy inv_room weight_beginning weight_bound.
  induction fuel as [|fuel IH]; intros s log0 log out data offset Hi Hl Hf Hm; [pose proof (weight_bound s.1); lia|].
  simpl encoder_loop. case_bool_decide as Hlt.
  2:{ apply wp_ret. exists log. split_and!; [done..| |done]. simpl. lia. }
  wp_steps. case_bool_decide as Hz.
  - set (k := to_write s.1 `min` (size - length data)).
    pose proof (inv_room _ _ _ Hi) as Hroom. assert (k ≤ to_write s.1 ∧ 0 < k ∧ k ≤ size - length data) as Hk by lia.
    wp_steps. apply wp_guard; [lia|]. intros _. wp_steps.
    eapply wp_mono; [apply (IH _ log0 log out)|intros r s' Hp; eapply read_post_grow; [done| |exact Hp]; by apply prefix_app_r].
    + rewrite app_assoc. apply inv_copy; [done|lia].
    + rewrite length_app, length_take. lia.
    + rewrite length_app, length_take. match goal with |- _ + weight ?e ≤ _ => pose proof (weight_bound e) end.
      pose proof (weight_bound s.1). lia.
    + by apply marked_longer.
  - assert (to_write s.1 = 0) as Hz' by lia.
    wp_steps. eapply wp_mono; [by apply act_ok|]. intros more s' [Hb Hact]. cbv beta. wp_steps.
    set (starts := beginning s'.1 && bool_decide (offset = (-1)%Z)). set (offset' := if starts then _ else _).
    apply wp_mono with (Q := λ _ s1, s1 = if starts then (s'.1 <| beginning := false |>, s'.2) else s').
    { destruct starts; [by apply wp_when_true|by apply wp_when_false]. }
    intros _ s1 ->. destruct more.
    + destruct Hact as (log' & Hpre & Hi' & Hw & Hq).
      eapply wp_mono; [apply (IH _ log0 log' out); [destruct starts; [by apply inv_beginning|done]|done| |by eapply marked_act]|
        intros r s2 Hp; by eapply read_post_grow].
      assert (weight (if starts then (s'.1 <| beginning := false |>, s'.2) else s').1 = weight s'.1) as -> by (destruct starts; simpl; [apply weight_beginning|done]).
      lia.
    + destruct Hact as [Hi' E]. wp_steps. exists log.
      split_and!; [destruct starts; [by apply inv_beginning|done]|done..|by destruct starts|eapply marked_act; [done..|reflexivity]].
Qed.

Lemma encoder_read_ok s log out size : inv s log out →
  wp (encoder_read act size) F (read_post log log out [] size) s.
Proof using PreOrder0 PreOrder1 act_ok inv_beginning inv_copy inv_room weight_beginning weight_bound.
  intros Hi. apply encoder_loop_ok; [by rewrite app_nil_r|simpl; lia| |by left]. pose proof (weight_bound s.1). simpl length. lia.
Qed.
End encoder_law.

(** ** decoder_t <T> *)

Section decoder.
(** The actions of the derived class, its state, and the objects it reads
    data into with the way to write there, at an offset. *)
Context {N T Y : Type}.

Record decoder_t := Decoder { read_ptr : option (T * nat); to_read : nat; dec_next : N }.
#[export] Instance eta_decoder : Eta decoder_t := λ d, Decoder (read_ptr d) (to_read d) (dec_next d).

Context (act : N → ST (decoder_t * Y) bool) (poke : T → nat → list Z → ST Y unit).

Definition dec_next_step (read_ptr_ : T) (to_read_ : nat) (next_ : N) : ST (decoder_t * Y) unit :=
  st_modify (λ s, (Decoder (Some (read_ptr_, 0)) to_read_ next_, s.2)).

(** [while (!to_read) if (!next ()) return pos;]: whether the loop ended by
    itself.  The actions of a size-prefixed protocol ask for data after at
    most three of them. *)
Fixpoint decoder_actions (fuel : nat) : ST (decoder_t * Y) bool :=
  s ← st_get;
  if bool_decide (to_read s.1 ≠ 0) then mret true
  else
    match fuel with
    | O => st_crash OutOfFuel
    | S fuel =>
        more ← act (dec_next s.1);
        (if more : bool then decoder_actions fuel else mret false : ST (decoder_t * Y) _)
    end.

Definition decoder_take (b : list Z) : ST (decoder_t * Y) unit :=
  s ← st_get;
  (match read_ptr s.1 with
   | Some (t, o) =>
       st_lift snd (λ y s, (s.1, y)) (poke t o b) ;;
       st_modify (λ s, (s.1 <| read_ptr := Some (t, o + length b) |>, s.2))
   | None => mret tt
   end : ST (decoder_t * Y) unit) ;;
  st_modify (λ s, (s.1 <| to_read := to_read s.1 - length b |>, s.2)).

Fixpoint decoder_loop (fuel : nat) (data : list Z) (pos : nat) : ST (decoder_t * Y) nat :=
  match fuel with
  | O => st_crash OutOfFuel
  | S fuel =>
      s ← st_get;
      let to_copy := to_read s.1 `min` length data in
      decoder_take (take to_copy data) ;;
      let data := drop to_copy data in
      let pos := pos + to_copy in
      go ← decoder_actions 4;
      (if negb go then mret pos
       else if bool_decide (data = []) then mret pos
       else decoder_loop fuel data pos : ST (decoder_t * Y) _)
  end.

(** The number of bytes parsed. *)
Definition decoder_write (data_ : list Z) : ST (decoder_t * Y) nat := decoder_loop (length data_ + 1) data_ 0.

(** No more is parsed than was given. *)
Lemma decoder_loop_bound fuel : ∀ data pos s n s', runs (decoder_loop fuel data pos) s n s' →
  pos ≤ n ≤ pos + length data.
Proof.
  induction fuel as [|fuel IH]; intros data pos s n s' Hr; [done|]. simpl in Hr. st_inv.
  set (k := to_read _ `min` length data) in *. assert (k ≤ length data) by (unfold k; lia).
  destruct (negb _); [st_inv; lia|]. case_bool_decide; [st_inv; lia|].
  apply IH in Hr. rewrite length_drop in Hr. lia.
Qed.

Lemma decoder_write_bound data s n s' : runs (decoder_write data) s n s' → n ≤ length data.
Proof. intros Hr%decoder_loop_bound. lia. Qed.
End decoder.
Arguments decoder_t N T : clear implicits.

(** ** Where messages come from and go to *)

(** A world with a heap of messages. *)
Class HasHeap (X : Type) := { heap_of : X → mheap; set_heap : mheap → X → X }.
Definition in_heap {X A} `{HasHeap X} : ST mheap A → ST X A := st_lift heap_of set_heap.

Class HasHeapLaws (X : Type) `{HasHeap X} := {
  heap_of_set h x : heap_of (set_heap h x) = h;
  set_heap_set h h' x : set_heap h (set_heap h' x) = set_heap h x;
  set_heap_of x : set_heap (heap_of x) x = x
}.

(** [mux->read (&message)] and [demux->write (message)]. *)
Class MessageSource (X : Type) := { source_read : raw_message → ST X (bool * raw_message) }.
Class MessageSink (X : Type) := { sink_write : raw_message → ST X (bool * raw_message) }.

(** A source hands over messages, in exchange for the previous one;
    [source_held x m log]: it has given those with the bodies [log], and the
    caller holds [m]; [source_spent x]: it has no message to give.
    [source_fault] is what it may fail with. *)
Class SourceLaws (X : Type) `{HasHeap X, MessageSource X} := {
  source_held : X → raw_message → list (list Z) → Prop;
  source_spent : X → Prop;
  source_fault : fault → Prop;
  source_read_law x m log : source_held x m log →
    wp (source_read m) source_fault (λ '(b, m') x',
      if (b : bool) then ∃ body, source_held x' m' (log ++ [body]) ∧ body_of (heap_of x') m' body
      else source_held x' m' log ∧ source_spent x') x
}.

(** A sink takes messages or refuses them; [sink_messages] are those it holds
    [sink_view x log] says that they are those with the bodies [log], and
    [sink_full x] that it refuses a message. *)
Class SinkLaws (X : Type) `{HasHeap X, MessageSink X} := {
  sink_view : X → list (list Z) → Prop;
  sink_messages : X → list raw_message;
  sink_full : X → Prop;
  sink_messages_heap h x : sink_messages (set_heap h x) = sink_messages x;
  sink_view_heap h x log : sink_view x log →
    (∀ m, m ∈ sink_messages x → raw_message_bytes h m = raw_message_bytes (heap_of x) m) →
    sink_view (set_heap h x) log;
  sink_write_law x m log b : sink_view x log → heap_ok (heap_of x) (m :: sink_messages x) →
    body_of (heap_of x) m b → shared m = false ∨ is_plain m = true →
    wp (sink_write m) no_fault (λ '(ok, m') x',
      if (ok : bool) then sink_view x' (log ++ [b]) ∧ heap_ok (heap_of x') (m' :: sink_messages x') ∧
        length (vsm_data m') = length (vsm_data m)
      else x' = x ∧ m' = m ∧ sink_full x) x
}.
