(* ===== verification/BpCodec.v ===== *)
(** The wire format of 0MQ's backend protocol
    ([src/libzmq/bp_encoder.cpp], [bp_decoder.cpp]): a message is its size,
    in one byte or in 0xff and eight bytes, followed by its body. *)
From S2P Require Import Prelude Config Wire Message MessageBody Codec.
Local Open Scope Z_scope.

Section bp_codec.
Context {X : Type} `{!HasHeap X, !MessageSource X, !MessageSink X}.

(** The memory from where [raw_message_data] points. *)
Definition message_region (m : raw_message) : ST mheap (list Z) :=
  p ← raw_message_data m;
  match p with
  | VsmBody => mret (vsm_data m)
  | NullBody => mret []
  | BlockBody l _ => '(_, c) ← deref (content m); mret (bytes c)
  end.

(** [message.rebuild (size)]. *)
Definition rebuild (m : raw_message) (size_ : Z) : ST X raw_message :=
  in_heap (raw_message_destroy m) ;; in_heap (raw_message_init m size_).

(** ** bp_encoder_t *)

Inductive enc_step := enc_size_ready | enc_message_ready.

(** What the encoder has besides the state of its base, and what it reaches. *)
Record enc_env := EncEnv { e_message : raw_message; e_tmpbuf : list Z; e_io : X }.
#[export] Instance eta_enc_env : Eta enc_env := λ y, EncEnv (e_message y) (e_tmpbuf y) (e_io y).

Abbreviation enc_state := (encoder_t enc_step * enc_env)%type.

Definition enc_on_io {A} : ST X A → ST enc_state A :=
  st_lift (λ s, e_io s.2) (λ x s, (s.1, s.2 <| e_io := x |>)).
Definition enc_modify (f : enc_env → enc_env) : ST enc_state unit := st_modify (λ s, (s.1, f s.2)).

Definition bp_encoder_new (message_ : raw_message) (x : X) : enc_state :=
  (Encoder [] 0 enc_message_ready true, EncEnv message_ (replicate 9 0) x).

Definition bp_encoder_reset : ST enc_state unit :=
  s ← st_get;
  m ← enc_on_io (rebuild (e_message s.2) 0);
  enc_modify (λ y, y <| e_message := m |>) ;;
  enc_next_step [] 0 enc_message_ready true.

Definition bp_size_ready : ST enc_state bool :=
  s ← st_get;
  region ← enc_on_io (in_heap (message_region (e_message s.2)));
  size ← enc_on_io (in_heap (raw_message_size (e_message s.2)));
  enc_next_step region (Z.to_nat size) enc_message_ready false ;;
  mret true.

Definition bp_enc_message_ready : ST enc_state bool :=
  s ← st_get;
  r ← enc_on_io (source_read (e_message s.2));
  let '(retrieved, m) := r : bool * raw_message in
  enc_modify (λ y, y <| e_message := m |>) ;;
  (if negb retrieved then mret false
   else
     size ← enc_on_io (in_heap (raw_message_size m));
     (if size <? 255 then
        enc_modify (λ y, y <| e_tmpbuf := <[0%nat := u8 size]> (e_tmpbuf y) |>) ;;
        s ← st_get;
        enc_next_step (e_tmpbuf s.2) 1 enc_size_ready true
      else
        enc_modify (λ y, y <| e_tmpbuf := 255 :: put_uint64 (drop 1 (e_tmpbuf y)) size |>) ;;
        s ← st_get;
        enc_next_step (e_tmpbuf s.2) 9 enc_size_ready true : ST enc_state unit) ;;
     mret true : ST enc_state bool).

Definition bp_enc_act (n : enc_step) : ST enc_state bool :=
  match n with enc_size_ready => bp_size_ready | enc_message_ready => bp_enc_message_ready end.

Definition bp_encoder_read (size_ : nat) : ST enc_state (list Z * Z) := encoder_read bp_enc_act size_.

(** ** bp_decoder_t *)

Inductive dec_step := one_byte_size_ready | eight_byte_size_ready | dec_message_ready.
Inductive dec_target := to_tmpbuf | to_message.

Record dec_env := DecEnv { d_message : raw_message; d_tmpbuf : list Z; d_io : X }.
#[export] Instance eta_dec_env : Eta dec_env := λ y, DecEnv (d_message y) (d_tmpbuf y) (d_io y).

Abbreviation dec_state := (decoder_t dec_step dec_target * dec_env)%type.

Definition dec_on_io {A} : ST X A → ST dec_state A :=
  st_lift (λ s, d_io s.2) (λ x s, (s.1, s.2 <| d_io := x |>)).
Definition dec_modify (f : dec_env → dec_env) : ST dec_state unit := st_modify (λ s, (s.1, f s.2)).

Definition bp_poke (t : dec_target) (o : nat) (b : list Z) : ST dec_env unit :=
  y ← st_get;
  match t with
  | to_tmpbuf => l ← st_of_option BadAccess (overwrite o b (d_tmpbuf y)); st_put (y <| d_tmpbuf := l |>)
  | to_message =>
      m ← st_lift d_io (λ x y, y <| d_io := x |>) (in_heap (raw_message_poke (d_message y) o b));
      st_modify (λ y, y <| d_message := m |>)
  end.

Definition bp_decoder_new (message_ : raw_message) (x : X) : dec_state :=
  (Decoder (Some (to_tmpbuf, 0%nat)) 1 one_byte_size_ready, DecEnv message_ (replicate 8 0) x).

Definition dec_rebuild (size_ : Z) : ST dec_state unit :=
  s ← st_get;
  m ← dec_on_io (rebuild (d_message s.2) size_);
  dec_modify (λ y, y <| d_message := m |>).

Definition bp_decoder_reset : ST dec_state unit :=
  dec_rebuild 0 ;; dec_next_step to_tmpbuf 1 one_byte_size_ready.

Definition bp_one_byte_size_ready : ST dec_state bool :=
  s ← st_get;
  let size := byte_at (d_tmpbuf s.2) 0 in
  (if size =? 255 then dec_next_step to_tmpbuf 8 eight_byte_size_ready
   else dec_rebuild size ;; dec_next_step to_message (Z.to_nat size) dec_message_ready : ST dec_state unit) ;;
  mret true.

Definition bp_eight_byte_size_ready : ST dec_state bool :=
  s ← st_get;
  dec_rebuild (get_uint64 (d_tmpbuf s.2)) ;;
  s ← st_get;
  size ← dec_on_io (in_heap (raw_message_size (d_message s.2)));
  dec_next_step to_message (Z.to_nat size) dec_message_ready ;;
  mret true.

Definition bp_dec_message_ready : ST dec_state bool :=
  s ← st_get;
  r ← dec_on_io (sink_write (d_message s.2));
  let '(taken, m) := r : bool * raw_message in
  dec_modify (λ y, y <| d_message := m |>) ;;
  (if negb taken then mret false
   else dec_next_step to_tmpbuf 1 one_byte_size_ready ;; mret true : ST dec_state bool).

Definition bp_dec_act (n : dec_step) : ST dec_state bool :=
  match n with
  | one_byte_size_ready => bp_one_byte_size_ready
  | eight_byte_size_ready => bp_eight_byte_size_ready
  | dec_message_ready => bp_dec_message_ready
  end.

Definition bp_decoder_write (data_ : list Z) : ST dec_state nat := decoder_write bp_dec_act bp_poke data_.
End bp_codec.
Arguments enc_env X : clear implicits.
Arguments dec_env X : clear implicits.
