(* ===== verification/BpEncoding.v ===== *)
(** What the encoder writes: the messages it reads, framed, whatever the sizes
    of the buffers it is given. *)
From S2P Require Import Prelude Config Wire Message MessageBody Codec BpCodec.
Local Open Scope Z_scope.

#[local] Arguments put_uint64 : simpl never.

(** A message on the wire. *)
Definition size_field (n : Z) : list Z := if n <? 255 then [n] else 255 :: put_uint64 (replicate 8 0) n.
Definition frame (body : list Z) : list Z := size_field (Z.of_nat (length body)) ++ body.
Definition frames (bodies : list (list Z)) : list Z := concat (frame <$> bodies).

Lemma frames_app l1 l2 : frames (l1 ++ l2) = frames l1 ++ frames l2.
Proof. unfold frames. by rewrite fmap_app, concat_app. Qed.

Lemma frames_snoc l b : frames (l ++ [b]) = frames l ++ frame b.
Proof. rewrite frames_app. unfold frames. simpl. by rewrite app_nil_r. Qed.

Lemma body_region h m b : body_of h m b →
  ∃ region, runs (message_region m) h region h ∧ (length b ≤ length region)%nat ∧ take (length b) region = b.
Proof.
  intros (Hb & Hs & Hw). unfold message_region, raw_message_data, raw_message_size, raw_message_bytes, message_wf in *.
  destruct (content m) as [t|l] eqn:Ec.
  - destruct (decide (t = vsm_tag)) as [->|Ht].
    + rewrite bool_decide_true in Hb, Hs by done. rewrite bool_decide_true by done.
      exists (vsm_data m). injection Hs as Hs. rewrite Hs in Hb.
      destruct (Z.leb_spec (Z.of_nat (length b)) (Z.of_nat (length (vsm_data m)))); [|done].
      injection Hb as Hb. rewrite Nat2Z.id in Hb. split; [done|]. split; [lia|done].
    + rewrite (bool_decide_false (t = vsm_tag)) in Hb by done. injection Hb as <-.
      unfold is_plain in Hw. rewrite Ec in Hw.
      rewrite (bool_decide_false (Tag t = Tag vsm_tag)) in Hw |- * by congruence.
      rewrite orb_false_r in Hw. rewrite Hw. exists []. done.
  - unfold mbind, st_bind, deref in *. simpl in *. destruct (contents h !! l) as [c|] eqn:El; [|done].
    simpl in *. injection Hs as Hs. rewrite Hs in Hb.
    destruct (Z.leb_spec (Z.of_nat (length b)) (Z.of_nat (length (bytes c)))); [|done].
    injection Hb as Hb. rewrite Nat2Z.id in Hb. exists (bytes c).
    split; [|split; [lia|done]]. unfold runs. cbn. rewrite El. cbn. by rewrite El.
Qed.

Section encoding.
Context {X : Type} `{!HasHeap X, !HasHeapLaws X, !MessageSource X, !SourceLaws X}.

Abbreviation state := (encoder_t enc_step * enc_env X)%type.

(** [out]: the bytes written so far; [log]: the bodies of the messages read. *)
Record enc_inv (s : state) (log : list (list Z)) (out : list Z) : Prop := {
  enc_room : (to_write s.1 ≤ length (write_pos s.1))%nat;
  enc_tmpbuf : length (e_tmpbuf s.2) = 9%nat;
  enc_held : source_held (e_io s.2) (e_message s.2) log;
  enc_out : match enc_next s.1 with
    | enc_message_ready => out ++ take (to_write s.1) (write_pos s.1) = frames log
    | enc_size_ready => ∃ log' body, log = log' ++ [body] ∧
        body_of (heap_of (e_io s.2)) (e_message s.2) body ∧
        out ++ take (to_write s.1) (write_pos s.1) ++ body = frames log
    end
}.

Lemma bp_encoder_new_inv m x : source_held x m [] → enc_inv (bp_encoder_new m x) [] [].
Proof. intros. by constructor. Qed.

(** What is left to do, in turns of the loop. *)
Definition weight (e : encoder_t enc_step) : nat :=
  match enc_next e, to_write e with
  | enc_size_ready, O => 3
  | enc_size_ready, _ => 1
  | enc_message_ready, _ => 2
  end.

(** Bytes leave the encoder for the buffer. *)
Lemma enc_inv_copy (s : state) log out k : enc_inv s log out → (k ≤ to_write s.1)%nat →
  enc_inv (s.1 <| write_pos := drop k (write_pos s.1) |> <| to_write := (to_write s.1 - k)%nat |>, s.2)
    log (out ++ take k (write_pos s.1)).
Proof.
  intros [Hr Ht Hh Ho] Hk. constructor; simpl; [rewrite length_drop; lia|done|done|].
  assert (take k (write_pos s.1) ++ take (to_write s.1 - k) (drop k (write_pos s.1)) =
    take (to_write s.1) (write_pos s.1)) as E.
  { rewrite take_take_drop. f_equal. lia. }
  destruct (enc_next s.1).
  - destruct Ho as (log' & body & ? & ? & E'). exists log', body. split; [done|]. split; [done|].
    rewrite <- E', <- E, <- !app_assoc. done.
  - by rewrite <- app_assoc, E.
Qed.

Lemma enc_size_ready_ok s log out : enc_inv s log out → enc_next s.1 = enc_size_ready → to_write s.1 = 0%nat →
  wp bp_size_ready no_fault (λ more s', more = true ∧ enc_inv s' log out ∧ enc_next s'.1 = enc_message_ready ∧
    beginning s'.1 = false) s.
Proof.
  intros [Hr Ht Hh Ho] Hn Hz. rewrite Hn, Hz in Ho. destruct Ho as (log' & body & -> & Hb & E). simpl in E.
  destruct (body_region _ _ _ Hb) as (region & Hreg & Hlen & Htake). pose proof Hb as (_ & Hs & _).
  assert (s = (s.1, s.2)) as Es by by destruct s.
  unfold bp_size_ready. wp_steps. eapply (runs_wp _ _ _ _ region s).
  { unfold runs, enc_on_io, in_heap, st_lift in *. rewrite Hreg, set_heap_of. by destruct s as [? []]. }
  wp_steps. eapply (runs_wp _ _ _ _ (Z.of_nat (length body)) s).
  { unfold runs, enc_on_io, in_heap, st_lift in *. rewrite Hs, set_heap_of. by destruct s as [? []]. }
  wp_steps. unfold enc_next_step. wp_steps. split; [done|]. rewrite Nat2Z.id. split; [|done].
  constructor; simpl; [lia|done|done|]. by rewrite Htake.
Qed.

(** The size field fits the temporary buffer. *)
Lemma size_field_tmpbuf (tmp : list Z) (n : nat) : length tmp = 9%nat → Z.of_nat n < 255 →
  take 1 (<[0%nat := u8 (Z.of_nat n)]> tmp) = size_field (Z.of_nat n).
Proof.
  intros Ht Hn. destruct tmp as [|x tmp]; [done|]. simpl. unfold size_field.
  destruct (Z.ltb_spec (Z.of_nat n) 255); [|lia]. by rewrite wrap_small by (unfold in_u; lia).
Qed.

Lemma size_field_tmpbuf_long (tmp : list Z) (n : nat) : length tmp = 9%nat → 255 ≤ Z.of_nat n →
  take 9 (255 :: put_uint64 (drop 1 tmp) (Z.of_nat n)) = size_field (Z.of_nat n).
Proof.
  intros Ht Hn. unfold size_field. destruct (Z.ltb_spec (Z.of_nat n) 255); [lia|].
  assert (length (drop 1 tmp) = 8%nat) as Hd by (rewrite length_drop; lia).
  rewrite (wire_put_irrel (n := 8) (put := put_uint64) (get := get_uint64) (drop 1 tmp) (replicate 8 0)) by done.
  apply take_ge. rewrite length_cons, (wire_put_length (n := 8) (put := put_uint64) (get := get_uint64)). done.
Qed.

Lemma enc_message_ready_ok s log out : enc_inv s log out → enc_next s.1 = enc_message_ready → to_write s.1 = 0%nat →
  wp bp_enc_message_ready source_fault (λ more s',
    if (more : bool) then ∃ body, enc_inv s' (log ++ [body]) out ∧ enc_next s'.1 = enc_size_ready ∧
      (0 < to_write s'.1)%nat ∧ beginning s'.1 = true
    else enc_inv s' log out ∧ s'.1 = s.1 ∧ source_spent (e_io s'.2)) s.
Proof.
  intros [Hr Ht Hh Ho] Hn Hz. rewrite Hn, Hz in Ho. rewrite app_nil_r in Ho.
  unfold bp_enc_message_ready. wp_steps. apply wp_lift.
  eapply wp_mono; [by apply source_read_law|]. intros [retrieved m] x' Hread. cbv beta iota zeta.
  wp_steps. unfold enc_modify. wp_steps. destruct retrieved; simpl negb; cbv iota; wp_steps.
  - destruct Hread as (body & Hheld & Hbody). pose proof Hbody as (_ & Hs & _).
    match goal with |- wp _ _ _ ?y => set (s1 := y) end.
    eapply (runs_wp _ _ _ _ (Z.of_nat (length body)) s1).
    { unfold runs, enc_on_io, in_heap, st_lift, s1. simpl. rewrite Hs, set_heap_of. done. }
    destruct (Z.ltb_spec (Z.of_nat (length body)) 255); unfold enc_next_step; wp_steps; exists body;
      (split; [|split; [done|split; [simpl; lia|done]]]); constructor; simpl; try done.
    + rewrite length_insert. lia.
    + by rewrite length_insert.
    + exists log, body. split; [done|]. split; [done|].
      rewrite size_field_tmpbuf by done. by rewrite Ho, frames_snoc.
    + rewrite (wire_put_length (n := 8) (put := put_uint64) (get := get_uint64)), length_drop. lia.
    + rewrite (wire_put_length (n := 8) (put := put_uint64) (get := get_uint64)), length_drop. lia.
    + exists log, body. split; [done|]. split; [done|].
      pose proof (size_field_tmpbuf_long (e_tmpbuf s.2) (length body) Ht ltac:(done)) as E. simpl in E.
      rewrite app_comm_cons, E. by rewrite Ho, frames_snoc.
  - destruct Hread as [Hheld Hspent]. split; [|done]. constructor; simpl; try done. rewrite Hn, Hz. by rewrite app_nil_r.
Qed.

(** One turn of the loop that asks for the next step. *)
Lemma enc_act_ok s log out : enc_inv s log out → to_write s.1 = 0%nat →
  wp (bp_enc_act (enc_next s.1)) source_fault (λ more s',
    (beginning s'.1 = true → out = frames log) ∧
    if (more : bool) then ∃ log', log `prefix_of` log' ∧ enc_inv s' log' out ∧ (weight s'.1 < weight s.1)%nat ∧
      (beginning s'.1 = false → log = log')
    else enc_inv s' log out ∧ out = frames log ∧ source_spent (e_io s'.2)) s.
Proof using HasHeapLaws0.
  intros Hi Hz. destruct (enc_next s.1) eqn:En; simpl.
  - apply (wp_fault no_fault); [by intros ? []|]. eapply wp_mono; [by eapply enc_size_ready_ok|].
    intros more s' (-> & Hi' & Hn & Hb). split; [by rewrite Hb|]. exists log. split_and!; [done..| |done].
    unfold weight. rewrite Hn, En, Hz. lia.
  - assert (out = frames log) as Ho by (destruct Hi as [_ _ _ Ho]; rewrite En, Hz in Ho; by rewrite <- Ho, app_nil_r).
    eapply wp_mono; [by eapply enc_message_ready_ok|]. intros [] s'.
    + intros (body & Hi' & Hn & Hw & Hb). split; [done|]. exists (log ++ [body]).
      split_and!; [by apply prefix_app_r|done| |by rewrite Hb]. unfold weight. rewrite Hn, En. destruct (to_write s'.1); lia.
    + intros (Hi' & _ & Hspent). by split.
Qed.

Lemma bp_encoder_read_ok s log out size : enc_inv s log out →
  wp (bp_encoder_read size) source_fault (read_post enc_inv (λ y log out, out = frames log ∧ source_spent (e_io y)) prefix (λ log out, out = frames log) eq log log out [] size) s.
Proof using HasHeapLaws0.
  apply (encoder_read_ok bp_enc_act source_fault enc_inv (λ y log out, out = frames log ∧ source_spent (e_io y)) prefix (λ log out, out = frames log) eq weight).
  - intros e. unfold weight. destruct (enc_next e), (to_write e); lia.
  - intros ? ? ? []. done.
  - intros. by apply enc_inv_copy.
  - intros ? ? ? ? []. by constructor.
  - done.
  - apply enc_act_ok.
Qed.

(** Calls of [read] with buffers of the given sizes, and what they give. *)
Fixpoint read_all (sizes : list nat) : ST state (list (list Z)) :=
  match sizes with
  | [] => mret []
  | size :: sizes =>
      r ← bp_encoder_read size;
      rest ← read_all sizes;
      mret (r.1 :: rest)
  end.

Lemma read_all_ok sizes : ∀ s log out, enc_inv s log out →
  wp (read_all sizes) source_fault (λ chunks s', Forall2 (λ n d, length d ≤ n)%nat sizes chunks ∧
    ∃ log', enc_inv s' log' (out ++ concat chunks) ∧ log `prefix_of` log') s.
Proof using HasHeapLaws0.
  induction sizes as [|n sizes IH]; intros s log out Hi; simpl.
  - apply wp_ret. split; [done|]. exists log. by rewrite app_nil_r.
  - wp_steps. eapply wp_mono; [by apply bp_encoder_read_ok|]. intros r s1 (log1 & Hi1 & Hp1 & _ & Hl & _).
    wp_steps. eapply wp_mono; [by apply IH|]. intros chunks s2 (Hf & log2 & Hi2 & Hp2). wp_steps.
    split; [by constructor|]. exists log2. rewrite <- app_assoc in Hi2. split; [done|by etrans].
Qed.

Lemma enc_inv_rest s log out : enc_inv s log out → ∃ rest, out ++ rest = frames log.
Proof using. intros [_ _ _ Ho]. destruct (enc_next s.1); [|by eexists]. destruct Ho as (l & b & _ & _ & E). by eexists. Qed.

(** C23: the encoder overruns no buffer and does not loop, and what it has
    written after any number of calls, with buffers of any sizes, is the
    sequence of the messages it has read, each with its size in front, up to a
    part of the last one that is still to come.  It fills its buffer, whatever
    it was given before, unless there is nothing left: then it has asked for a
    message and there was none, and all that it has read is written. *)
Theorem bp_encoder_frames sizes size m x : source_held x m [] →
  wp (chunks ← read_all sizes; r ← bp_encoder_read size; mret (chunks, r.1)) source_fault
    (λ '(chunks, last) s', Forall2 (λ n d, length d ≤ n)%nat sizes chunks ∧ (length last ≤ size)%nat ∧
      ∃ log rest, source_held (e_io s'.2) (e_message s'.2) log ∧ concat chunks ++ last ++ rest = frames log ∧
        ((length last < size)%nat → rest = [] ∧ source_spent (e_io s'.2)))
    (bp_encoder_new m x).
Proof using HasHeapLaws0.
  intros Hh. wp_steps. eapply wp_mono; [apply (read_all_ok sizes _ [] []); by apply bp_encoder_new_inv|].
  intros chunks s (Hf & log & Hi & _). wp_steps. eapply wp_mono; [by eapply bp_encoder_read_ok|].
  intros r s' (log' & Hi' & _ & _ & Hl & Hs & _). wp_steps. split; [done|]. split; [done|]. simpl app in Hi', Hs.
  destruct (decide (length r.1 < size)%nat) as [Hlt|Hge].
  - destruct (Hs Hlt) as [E Hspent]. exists log', []. rewrite app_nil_r. split_and!; [apply Hi'|done|by intros _].
  - destruct (enc_inv_rest _ _ _ Hi') as [rest E]. exists log', rest. rewrite <- app_assoc in E.
    split_and!; [apply Hi'|done|lia].
Qed.
End encoding.
