(* ===== verification/BpDecoding.v ===== *)
(** What the decoder makes of framed messages, however the stream is cut into
    pieces. *)
From S2P Require Import Prelude Config Wire Atomics Message MessageBody Codec BpCodec BpEncoding.
Local Open Scope Z_scope.

#[local] Arguments put_uint64 : simpl never.
#[local] Arguments get_uint64 : simpl never.
#[local] Arguments raw_message_init : simpl never.

Section decoding.
Context {X : Type} `{!HasHeap X, !HasHeapLaws X, !MessageSink X, !SinkLaws X}.

Abbreviation state := (decoder_t dec_step dec_target * dec_env X)%type.

(** The decoder's objects are in order, and the sink has taken [done]. *)
Record dec_good (y : dec_env X) (done : list (list Z)) : Prop := {
  good_view : sink_view (d_io y) done;
  good_heap : heap_ok (heap_of (d_io y)) (d_message y :: sink_messages (d_io y));
  good_tmpbuf : length (d_tmpbuf y) = 8%nat;
  good_vsm : length (vsm_data (d_message y)) = Z.to_nat max_vsm_size
}.

(** The decoder is at a field of [n] bytes, has [q] of them in [t], and
    [rest] is yet to come. *)
Definition at_field (d : decoder_t dec_step dec_target) (t : dec_target) (q : list Z) (n : nat) : Prop :=
  read_ptr d = Some (t, length q) ∧ (length q + to_read d = n)%nat.

Definition dec_phase (s : state) (todo : list (list Z)) (rest : list Z) : Prop :=
  match dec_next s.1 with
  | one_byte_size_ready => ∃ q, at_field s.1 to_tmpbuf q 1 ∧ take (length q) (d_tmpbuf s.2) = q ∧
      q ++ rest = frames todo
  | eight_byte_size_ready => ∃ q b todo', at_field s.1 to_tmpbuf q 8 ∧ take (length q) (d_tmpbuf s.2) = q ∧
      todo = b :: todo' ∧ 255 ≤ Z.of_nat (length b) ∧
      q ++ rest = put_uint64 (replicate 8 0) (Z.of_nat (length b)) ++ b ++ frames todo'
  | dec_message_ready => ∃ q b todo', at_field s.1 to_message q (length b) ∧
      holds (heap_of (d_io s.2)) (d_message s.2) q (length b) ∧
      todo = b :: todo' ∧ q ++ rest = b ++ frames todo'
  end.

(** Sizes that fit the memory of the platform. *)
Definition fits (b : list Z) : Prop := Z.of_nat (length b) + sizeof_content < 2 ^ 64.

Definition dec_inv (s : state) (done todo : list (list Z)) (rest : list Z) : Prop :=
  dec_good s.2 done ∧ dec_phase s todo rest ∧ Forall fits todo.

Lemma frames_cons b l : frames (b :: l) = frame b ++ frames l.
Proof. done. Qed.

(** *** Taking data from the buffer *)

Lemma app_prefix_same (q c rest rest' l : list Z) : c ++ rest' = rest → q ++ rest = l → (q ++ c) ++ rest' = l.
Proof. intros <- <-. by rewrite app_assoc. Qed.

Lemma poke_tmpbuf_ok (y : dec_env X) q c done : dec_good y done → take (length q) (d_tmpbuf y) = q →
  (length q + length c ≤ 8)%nat →
  wp (bp_poke to_tmpbuf (length q) c) no_fault (λ _ y', dec_good y' done ∧
    take (length (q ++ c)) (d_tmpbuf y') = q ++ c ∧ d_message y' = d_message y ∧ d_io y' = d_io y) y.
Proof.
  intros [Hv Hh Ht Hvd] Hq Hn. unfold bp_poke. wp_steps.
  destruct (overwrite_spec (length q) c (d_tmpbuf y)) as (l' & E & El & Et); [lia|].
  apply (wp_of_option _ _ _ l'); [done|]. unfold wp, st_put. simpl.
  split; [constructor; simpl; congruence|]. rewrite length_app, Et, Hq. done.
Qed.

Lemma poke_message_ok (y : dec_env X) q c done n : dec_good y done →
  holds (heap_of (d_io y)) (d_message y) q n → (length q + length c ≤ n)%nat →
  wp (bp_poke to_message (length q) c) no_fault (λ _ y', dec_good y' done ∧
    holds (heap_of (d_io y')) (d_message y') (q ++ c) n) y.
Proof.
  intros [Hv Hh Ht Hvd] Hq Hn. unfold bp_poke. wp_steps. apply wp_lift. apply wp_lift.
  destruct (poke_ok _ _ _ _ _ c Hh Hq Hn) as (m' & h' & Hr & Hh' & Hq' & Hl & Hb).
  eapply runs_wp; [exact Hr|]. wp_steps. simpl. rewrite heap_of_set. split; [|done].
  constructor; simpl; [by apply sink_view_heap| |done|congruence].
  by rewrite heap_of_set, sink_messages_heap.
Qed.

Lemma decoder_take_ok s done todo rest c rest' : dec_inv s done todo rest →
  rest = c ++ rest' → (length c ≤ to_read s.1)%nat →
  wp (decoder_take bp_poke c) no_fault (λ _ s', dec_inv s' done todo rest' ∧ dec_next s'.1 = dec_next s.1 ∧
    to_read s'.1 = (to_read s.1 - length c)%nat) s.
Proof using HasHeapLaws0.
  intros (Hg & Hp & Hf) Hc Hn. unfold decoder_take. wp_steps.
  assert (∃ t (q : list Z) n, read_ptr s.1 = Some (t, length q) ∧ (length q + to_read s.1 = n)%nat ∧
    wp (bp_poke t (length q) c) no_fault (λ _ y', dec_good y' done ∧
      dec_phase (Decoder (Some (t, (length q + length c)%nat)) (to_read s.1 - length c) (dec_next s.1), y') todo rest') s.2)
    as (t & q & n & Hr & Hl & Hw).
  { unfold dec_phase in *. destruct (dec_next s.1).
    - destruct Hp as (q & [Hr Hl] & Hq & E). exists to_tmpbuf, q, 1%nat. split; [done|]. split; [done|].
      eapply wp_mono; [eapply (poke_tmpbuf_ok _ q c done); [done|done|lia]|].
      intros _ y' (Hg' & Ht & _ & _). split; [done|]. simpl. exists (q ++ c). unfold at_field. simpl.
      rewrite length_app in *. split_and!; [done|lia|done|]. by eapply app_prefix_same.
    - destruct Hp as (q & b & todo' & [Hr Hl] & Hq & Et & Hb & E). exists to_tmpbuf, q, 8%nat. split; [done|]. split; [done|].
      eapply wp_mono; [eapply (poke_tmpbuf_ok _ q c done); [done|done|lia]|].
      intros _ y' (Hg' & Ht & _ & _). split; [done|]. simpl. exists (q ++ c), b, todo'. unfold at_field. simpl.
      rewrite length_app in *. split_and!; [done|lia|done|done|done|]. by eapply app_prefix_same.
    - destruct Hp as (q & b & todo' & [Hr Hl] & Hq & Et & E). exists to_message, q, (length b). split; [done|]. split; [done|].
      eapply wp_mono; [eapply (poke_message_ok _ q c done); [done|done|lia]|].
      intros _ y' (Hg' & Ht). split; [done|]. simpl. exists (q ++ c), b, todo'. unfold at_field. simpl.
      rewrite length_app. split_and!; [done|lia|done|done|]. by eapply app_prefix_same. }
  rewrite Hr. wp_steps. apply wp_lift. eapply wp_mono; [exact Hw|]. intros _ y' [Hg' Hp']. wp_steps.
  split; [|done]. split; [done|]. split; [exact Hp'|done].
Qed.

(** *** Actions *)

Lemma rebuild_ok x m log (n : nat) : sink_view x log → heap_ok (heap_of x) (m :: sink_messages x) →
  length (vsm_data m) = Z.to_nat max_vsm_size → Z.of_nat n + sizeof_content < 2 ^ 64 →
  wp (rebuild m (Z.of_nat n)) only_assert (λ m' x', sink_view x' log ∧
    heap_ok (heap_of x') (m' :: sink_messages x') ∧ holds (heap_of x') m' [] n ∧
    length (vsm_data m') = Z.to_nat max_vsm_size) x.
Proof using HasHeapLaws0.
  intros Hv Hh Hl Hn. unfold rebuild. wp_steps. apply wp_lift.
  destruct (destroy_ok _ _ _ Hh) as (h1 & Hr & Hh1 & _ & _ & Hk). eapply runs_wp; [exact Hr|].
  apply wp_lift. rewrite heap_of_set.
  eapply wp_mono; [by eapply (init_holds h1 m (sink_messages x) n Hh1); [apply (heap_few _ _ Hh)|..]|].
  intros m' h2 (Hh2 & Hq & Hl2 & Hb). rewrite set_heap_set, heap_of_set, sink_messages_heap.
  split_and!; [|done|done|congruence]. apply sink_view_heap; [done|]. intros m2 Hm2. rewrite Hb by done.
  apply bytes_kept; [done|]. intros l El. by eapply live_block.
Qed.

Lemma dec_rebuild_ok s done (n : nat) : dec_good s.2 done → Z.of_nat n + sizeof_content < 2 ^ 64 →
  wp (dec_rebuild (Z.of_nat n)) only_assert (λ _ s', dec_good s'.2 done ∧ s'.1 = s.1 ∧
    holds (heap_of (d_io s'.2)) (d_message s'.2) [] n) s.
Proof using HasHeapLaws0.
  intros [Hv Hh Ht Hl] Hn. unfold dec_rebuild, dec_modify. wp_steps. apply wp_lift.
  eapply wp_mono; [by apply rebuild_ok|]. intros m' x' (? & ? & ? & ?). wp_steps.
  split; [by constructor|done].
Qed.

(** Messages went from those to come to the sink. *)
Definition moved (done todo done' todo' : list (list Z)) : Prop := ∃ l, done' = done ++ l ∧ todo = l ++ todo'.

Lemma moved_refl done todo : moved done todo done todo.
Proof. exists []. by rewrite app_nil_r. Qed.
Lemma moved_trans d t d1 t1 d2 t2 : moved d t d1 t1 → moved d1 t1 d2 t2 → moved d t d2 t2.
Proof. intros (l1 & -> & ->) (l2 & -> & ->). exists (l1 ++ l2). by rewrite <- !app_assoc. Qed.
Lemma moved_one done b todo : moved done (b :: todo) (done ++ [b]) todo.
Proof. by exists [b]. Qed.
Lemma moved_from_nil todo done' todo' : moved [] todo done' todo' → todo = done' ++ todo'.
Proof. by intros (l & -> & ->). Qed.

#[local] Hint Resolve moved_refl moved_one moved_trans : core.

(** What an action leaves: the next field asked for, or, when the sink
    refuses a message, everything as it was. *)
Definition act_post (s : state) (done todo : list (list Z)) (rest : list Z) (more : bool) (s' : state) : Prop :=
  if more then ∃ done' todo', moved done todo done' todo' ∧ dec_inv s' done' todo' rest ∧
    (to_read s'.1 ≠ 0 ∨ (dec_next s'.1 = dec_message_ready ∧ dec_next s.1 ≠ dec_message_ready))%nat
  else dec_inv s' done todo rest ∧ s'.1 = s.1 ∧ dec_next s.1 = dec_message_ready ∧ sink_full (d_io s'.2).

Lemma frames_uncons x rest todo : Forall fits todo → x :: rest = frames todo →
  ∃ b todo', todo = b :: todo' ∧ fits b ∧
    if Z.of_nat (length b) <? 255 then x = Z.of_nat (length b) ∧ rest = b ++ frames todo'
    else x = 255 ∧ rest = put_uint64 (replicate 8 0) (Z.of_nat (length b)) ++ b ++ frames todo'.
Proof.
  intros Hf E. destruct todo as [|b todo']; [done|]. inversion Hf; subst. exists b, todo'. split; [done|].
  split; [done|]. rewrite frames_cons in E. unfold frame, size_field in E.
  destruct (Z.of_nat (length b) <? 255); simpl in E; rewrite <- ?app_assoc in E; injection E as -> ->; done.
Qed.

Lemma one_byte_ok s done todo rest : dec_inv s done todo rest → to_read s.1 = 0%nat →
  dec_next s.1 = one_byte_size_ready →
  wp bp_one_byte_size_ready only_assert (act_post s done todo rest) s.
Proof using HasHeapLaws0.
  intros (Hg & Hp & Hf) Hz Hn. unfold dec_phase in Hp. rewrite Hn in Hp.
  destruct Hp as (q & [Hr Hl] & Hq & E). rewrite Hz in Hl. destruct q as [|x [|]]; simpl in Hl; try lia.
  pose proof (good_tmpbuf _ _ Hg) as Ht.
  assert (byte_at (d_tmpbuf s.2) 0 = x) as Hx.
  { unfold byte_at. destruct (d_tmpbuf s.2); simpl in *; [done|congruence]. }
  destruct (frames_uncons x rest todo Hf E) as (b & todo' & -> & Hfit & Hb). inversion Hf; subst todo'.
  unfold bp_one_byte_size_ready. wp_steps. rewrite Hx. destruct (Z.ltb_spec (Z.of_nat (length b)) 255).
  - destruct Hb as [-> ->]. destruct (Z.eqb_spec (Z.of_nat (length b)) 255); [lia|]. wp_steps.
    eapply wp_mono; [by apply (dec_rebuild_ok s done)|]. intros _ s' (Hg' & _ & Hh). unfold dec_next_step. wp_steps.
    rewrite Nat2Z.id. exists done, (b :: l). split; [eauto|]. split; [|right; split; [done|congruence]].
    split; [done|]. split; [|done]. exists [], b, l. done.
  - destruct Hb as [-> ->]. simpl. unfold dec_next_step. wp_steps.
    exists done, (b :: l). split; [eauto|]. split; [|left; simpl; lia].
    split; [done|]. split; [|done]. exists [], b, l. done.
Qed.

Lemma eight_byte_ok s done todo rest : dec_inv s done todo rest → to_read s.1 = 0%nat →
  dec_next s.1 = eight_byte_size_ready →
  wp bp_eight_byte_size_ready only_assert (act_post s done todo rest) s.
Proof using HasHeapLaws0.
  intros (Hg & Hp & Hf) Hz Hn. unfold dec_phase in Hp. rewrite Hn in Hp.
  destruct Hp as (q & b & todo' & [Hr Hl] & Hq & -> & Hb & E). rewrite Hz, Nat.add_0_r in Hl.
  pose proof (good_tmpbuf _ _ Hg) as Ht. rewrite Hl, take_ge in Hq by lia.
  apply app_inj_1 in E as [E ->].
  2:{ rewrite (wire_put_length (n := 8) (put := put_uint64) (get := get_uint64)). done. }
  assert (fits b) as Hfit by by inversion Hf.
  assert (get_uint64 (d_tmpbuf s.2) = Z.of_nat (length b)) as Hget.
  { rewrite Hq, E, (wire_get_put (n := 8) (put := put_uint64) (get := get_uint64)) by done.
    apply wrap_small. unfold fits, sizeof_content in Hfit. unfold in_u. simpl. lia. }
  unfold bp_eight_byte_size_ready. wp_steps. rewrite Hget.
  eapply wp_mono; [by apply (dec_rebuild_ok s done)|]. intros _ s' (Hg' & _ & Hh). wp_steps. apply wp_lift. apply wp_lift.
  eapply (runs_wp _ _ _ _ (Z.of_nat (length b)) (heap_of (d_io s'.2))).
  { unfold runs. unfold holds in Hh. unfold raw_message_size.
    destruct (content (d_message s'.2)) as [t|l] eqn:Ec.
    - destruct Hh as (-> & -> & _). done.
    - destruct Hh as (_ & c & Hc & Hs & _). rewrite !bool_decide_false by done. unfold mbind, st_bind. simpl. rewrite Hc. simpl. by rewrite Hs. }
  rewrite set_heap_of. unfold dec_next_step. wp_steps. rewrite Nat2Z.id.
  exists done, (b :: todo'). split; [eauto|]. split; [|right; split; [done|congruence]].
  split; [by destruct Hg'|]. split; [|done]. exists [], b, todo'. done.
Qed.

Lemma message_ready_ok s done todo rest : dec_inv s done todo rest → to_read s.1 = 0%nat →
  dec_next s.1 = dec_message_ready →
  wp bp_dec_message_ready only_assert (act_post s done todo rest) s.
Proof using HasHeapLaws0.
  intros (Hg & Hp & Hf) Hz Hn. unfold dec_phase in Hp. rewrite Hn in Hp.
  destruct Hp as (q & b & todo' & [Hr Hl] & Hq & -> & E). rewrite Hz, Nat.add_0_r in Hl.
  apply app_inj_1 in E as [-> ->]; [|done]. destruct Hg as [Hv Hh Ht Hvd].
  destruct (holds_body _ _ _ Hq) as [Hb Hs].
  unfold bp_dec_message_ready, dec_modify. wp_steps. apply wp_lift.
  apply (wp_fault no_fault); [by intros ? []|].
  eapply wp_mono; [by apply (sink_write_law (d_io s.2) (d_message s.2) done b)|].
  intros [taken m'] x' Hpost. cbv beta iota zeta. wp_steps. destruct taken; simpl negb; cbv iota.
  - destruct Hpost as (Hv' & Hh' & Hl'). unfold dec_next_step. wp_steps.
    exists (done ++ [b]), todo'. split; [eauto|]. split; [|left; simpl; lia].
    split; [constructor; simpl; congruence|]. split; [|by inversion Hf]. by exists [].
  - destruct Hpost as (-> & -> & Hfull). wp_steps. split; [|done]. split; [by constructor|]. split; [|done].
    unfold dec_phase. simpl. rewrite Hn. exists b, b, todo'. unfold at_field. rewrite Hz. split_and!; done || lia.
Qed.

Lemma dec_act_ok s done todo rest : dec_inv s done todo rest → to_read s.1 = 0%nat →
  wp (bp_dec_act (dec_next s.1)) only_assert (act_post s done todo rest) s.
Proof using HasHeapLaws0.
  intros. destruct (dec_next s.1) eqn:E; simpl.
  - by apply one_byte_ok.
  - by apply eight_byte_ok.
  - by apply message_ready_ok.
Qed.

(** *** Whole calls *)

(** The sink has refused a message, which the decoder keeps. *)
Definition refused (s : state) : Prop :=
  to_read s.1 = 0%nat ∧ dec_next s.1 = dec_message_ready ∧ sink_full (d_io s.2).

Definition actions_post (done todo : list (list Z)) (rest : list Z) (go : bool) (s' : state) : Prop :=
  ∃ done' todo', moved done todo done' todo' ∧ dec_inv s' done' todo' rest ∧
    if go then (to_read s'.1 ≠ 0)%nat else refused s'.

Lemma decoder_actions_ok fuel : ∀ s done todo rest, dec_inv s done todo rest →
  (match dec_next s.1 with dec_message_ready => 1 | _ => 2 end ≤ fuel)%nat →
  wp (decoder_actions bp_dec_act fuel) only_assert (actions_post done todo rest) s.
Proof using HasHeapLaws0.
  induction fuel as [|fuel IH]; intros s done todo rest Hi Hf; simpl decoder_actions; wp_steps;
    case_bool_decide as Hz; [apply wp_ret; exists done, todo; eauto| |apply wp_ret; exists done, todo; eauto|].
  { exfalso. destruct (dec_next s.1); lia. }
  assert (to_read s.1 = 0%nat) as Hz' by lia. wp_steps.
  eapply wp_mono; [by apply dec_act_ok|]. intros [] s' Hpost.
  - destruct Hpost as (done' & todo' & Em & Hi' & Hor). destruct (decide (to_read s'.1 = 0%nat)) as [E0|].
    + destruct Hor as [|[En Hn]]; [done|]. eapply wp_mono; [apply (IH _ done' todo' rest Hi')|].
      * rewrite En. destruct (dec_next s.1); [lia..|done].
      * intros go s2 (d2 & t2 & Em2 & H2). exists d2, t2. split; [eauto|done].
    + destruct fuel; simpl; wp_steps; rewrite bool_decide_true by done; wp_steps; exists done', todo'; eauto.
  - destruct Hpost as (Hi' & Es & En & Hfull). wp_steps. exists done, todo. split; [eauto|]. split; [done|].
    unfold refused. by rewrite Es.
Qed.

Definition write_post (done todo : list (list Z)) (data rest : list Z) (pos n : nat) (s' : state) : Prop :=
  ∃ k done' todo', n = (pos + k)%nat ∧ (k ≤ length data)%nat ∧ moved done todo done' todo' ∧
    dec_inv s' done' todo' (drop k data ++ rest) ∧
    (refused s' ∨ (k = length data ∧ to_read s'.1 ≠ 0%nat)).

Lemma decoder_loop_ok fuel : ∀ s done todo data rest pos, dec_inv s done todo (data ++ rest) →
  (1 ≤ fuel)%nat → (length data + (if decide (to_read s.1 = 0) then 1 else 0) ≤ fuel)%nat →
  wp (decoder_loop bp_dec_act bp_poke fuel data pos) only_assert (write_post done todo data rest pos) s.
Proof using HasHeapLaws0.
  induction fuel as [|fuel IH]; intros s done todo data rest pos Hi Hf1 Hf; [lia|]. simpl decoder_loop. wp_steps.
  set (k := (to_read s.1 `min` length data)%nat).
  eapply wp_mono; [apply (wp_fault no_fault); [by intros ? []|];
    eapply (decoder_take_ok s done todo _ (take k data) (drop k data ++ rest)); [exact Hi| |]|].
  { by rewrite app_assoc, take_drop. }
  { rewrite length_take. lia. }
  intros _ s1 (Hi1 & _ & _). wp_steps.
  eapply wp_mono; [apply (decoder_actions_ok 4 _ _ _ _ Hi1); destruct (dec_next s1.1); lia|].
  intros go s2 (d2 & t2 & Em & Hi2 & Hgo). destruct go; simpl negb; cbv iota.
  - case_bool_decide as Hd.
    + wp_steps. exists k, d2, t2. assert (k = length data) as Ek.
      { apply (f_equal length) in Hd. rewrite length_drop in Hd. simpl in Hd. lia. }
      split_and!; [done|lia|done|done|by right].
    + assert (k < length data)%nat as Hk.
      { destruct (decide (k < length data)%nat); [done|]. destruct Hd. apply drop_ge. lia. }
      assert (to_read s.1 = k)%nat as Hrk by lia.
      eapply wp_mono; [apply (IH s2 d2 t2 (drop k data) rest); [done| |]|].
      * destruct (decide (to_read s.1 = 0%nat)); lia.
      * rewrite decide_False by done. rewrite length_drop. destruct (decide (to_read s.1 = 0%nat)); lia.
      * intros n s3 (k3 & d3 & t3 & -> & Hk3 & Em3 & Hi3 & Hor). rewrite length_drop in *.
        exists (k + k3)%nat, d3, t3. rewrite drop_drop in Hi3.
        split_and!; [lia|lia|eauto|done|]. destruct Hor as [|[-> ?]]; [by left|right]. split; [lia|done].
  - wp_steps. exists k, d2, t2. split_and!; [done|lia|eauto|done|by left].
Qed.

Lemma bp_decoder_write_ok s done todo data rest : dec_inv s done todo (data ++ rest) →
  wp (bp_decoder_write data) only_assert (write_post done todo data rest 0) s.
Proof using HasHeapLaws0.
  intros Hi. apply decoder_loop_ok; [done|lia|]. destruct (decide (to_read s.1 = 0%nat)); lia.
Qed.

(** The pieces of a stream, one after the other, until one is not parsed to
    its end. *)
Fixpoint feed (pieces : list (list Z)) : ST state nat :=
  match pieces with
  | [] => mret 0%nat
  | c :: pieces =>
      n ← bp_decoder_write c;
      if bool_decide (n < length c)%nat then mret n
      else r ← feed pieces; mret (n + r)%nat
  end.

Lemma feed_ok pieces : ∀ s done todo rest, dec_inv s done todo (concat pieces ++ rest) →
  wp (feed pieces) only_assert (λ n s', ∃ done' todo', moved done todo done' todo' ∧ (n ≤ length (concat pieces))%nat ∧
    dec_inv s' done' todo' (drop n (concat pieces) ++ rest) ∧
    (refused s' ∨ (n = length (concat pieces) ∧ (pieces = [] → s' = s) ∧ (pieces ≠ [] → to_read s'.1 ≠ 0%nat)))) s.
Proof using HasHeapLaws0.
  induction pieces as [|c pieces IH]; intros s done todo rest Hi; simpl feed.
  - wp_steps. exists done, todo. split_and!; [eauto|simpl; lia|done|by right].
  - simpl concat in Hi. rewrite <- app_assoc in Hi. wp_steps.
    eapply wp_mono; [by apply bp_decoder_write_ok|]. intros n s1 (k & d1 & t1 & -> & Hk & Em & Hi1 & Hor). simpl.
    rewrite length_app. case_bool_decide as Hlt.
    + wp_steps. exists d1, t1. split_and!; [done|lia| |left].
      * rewrite drop_app_le by lia. by rewrite <- app_assoc.
      * destruct Hor as [|[? _]]; [done|lia].
    + assert (k = length c) as -> by lia. rewrite drop_all in Hi1. wp_steps.
      eapply wp_mono; [by apply (IH s1 d1 t1 rest)|]. intros n s2 (d2 & t2 & Em2 & Hn & Hi2 & Hor2). wp_steps.
      exists d2, t2. split_and!; [eauto|lia| |].
      * rewrite drop_app_add. done.
      * destruct Hor2 as [|(-> & He & Hne)]; [by left|]. destruct pieces as [|c' pieces].
        -- rewrite He by done. destruct Hor as [|[_ ?]]; [by left|]. right. split; [simpl; lia|done].
        -- right. split; [done|]. split; [done|]. intros _. by apply Hne.
Qed.

Lemma bp_decoder_new_inv m x msgs : sink_view x [] → heap_ok (heap_of x) (m :: sink_messages x) →
  length (vsm_data m) = Z.to_nat max_vsm_size → Forall fits msgs →
  dec_inv (bp_decoder_new m x) [] msgs (frames msgs).
Proof. intros. split; [by constructor|]. split; [|done]. exists []. done. Qed.

(** Nothing is left of the stream: all messages are with the sink, or it has
    refused the one the decoder keeps. *)
Lemma dec_inv_end s done todo : dec_inv s done todo [] → to_read s.1 ≠ 0%nat → todo = [].
Proof.
  intros (_ & Hp & _) Hz. unfold dec_phase in Hp. destruct (dec_next s.1).
  - destruct Hp as (q & [_ Hl] & _ & E). destruct q; simpl in Hl; [|lia]. destruct todo as [|b todo]; [done|].
    rewrite frames_cons in E. unfold frame, size_field in E. by destruct (Z.of_nat (length b) <? 255).
  - destruct Hp as (q & b & todo' & [_ Hl] & _ & _ & _ & E). apply (f_equal length) in E.
    rewrite !length_app, (wire_put_length (n := 8) (put := put_uint64) (get := get_uint64)) in E. simpl in E. lia.
  - destruct Hp as (q & b & todo' & [_ Hl] & _ & _ & E). apply (f_equal length) in E. rewrite !length_app in E. simpl in E. lia.
Qed.

(** C22: the decoder gives the sink the messages of the stream, in order and
    with their bodies, however the stream is cut into pieces; it stops early
    only because the sink refused a message, and then it has parsed no more
    than that message.  It fails only when there is no memory for one. *)
Theorem bp_decoder_bodies m x msgs pieces rest :
  sink_view x [] → heap_ok (heap_of x) (m :: sink_messages x) →
  length (vsm_data m) = Z.to_nat max_vsm_size → Forall fits msgs →
  concat pieces ++ rest = frames msgs →
  wp (feed pieces) only_assert (λ n s', ∃ done todo, msgs = done ++ todo ∧
    sink_view (d_io s'.2) done ∧ heap_ok (heap_of (d_io s'.2)) (d_message s'.2 :: sink_messages (d_io s'.2)) ∧
    (refused s' ∨ n = length (concat pieces)) ∧
    (refused s' → ∃ b todo', todo = b :: todo' ∧ holds (heap_of (d_io s'.2)) (d_message s'.2) b (length b) ∧
       drop n (concat pieces) ++ rest = frames todo') ∧
    (rest = [] → todo = [] ∨ refused s')) (bp_decoder_new m x).
Proof using HasHeapLaws0.
  intros Hv Hh Hl Hf E.
  eapply wp_mono; [apply (feed_ok pieces _ [] msgs rest); rewrite E; by apply bp_decoder_new_inv|].
  intros n s' (done & todo & Em & Hn & Hi & Hor). exists done, todo. pose proof Hi as (Hg & Hp & _).
  split; [by apply moved_from_nil|]. split; [apply Hg|]. split; [apply Hg|].
  split; [destruct Hor as [|[? _]]; auto|]. split.
  - intros (Hz & En & _). unfold dec_phase in Hp. rewrite En in Hp.
    destruct Hp as (q & b & todo' & [_ Hlq] & Hq & -> & Eq). rewrite Hz, Nat.add_0_r in Hlq.
    apply app_inj_1 in Eq as [-> Eq]; [|done]. by exists b, todo'.
  - intros ->. destruct Hor as [|(-> & He & Hne)]; [by right|left].
    rewrite drop_all in Hi. apply (dec_inv_end _ _ _ Hi).
    destruct (decide (pieces = [])) as [->|Hp']; [rewrite He by done; simpl; lia|by apply Hne].
Qed.
End decoding.
