(* ===== verification/CodecRuns.v ===== *)
(** The round trip of the backend protocol, and its theorems applied to a
    concrete source and sink. *)
From S2P Require Import Prelude Config Wire Message MessageBody Codec BpCodec BpEncoding BpDecoding.
Local Open Scope Z_scope.

(** C20: what one peer encodes the other decodes: the messages that the encoder
    has read arrive at the decoder's sink with the same bodies in the same
    order, whatever buffers the encoder filled and however the network cut
    the stream into pieces; messages are missing only at the end, where they
    are still in the encoder, or refused by the sink. *)
Theorem bp_round_trip {X Y : Type} `{!HasHeap X, !HasHeapLaws X, !MessageSource X, !SourceLaws X}
    `{!HasHeap Y, !HasHeapLaws Y, !MessageSink Y, !SinkLaws Y} sizes m (x : X) m' (y : Y) :
  source_held x m [] → sink_view y [] → heap_ok (heap_of y) (m' :: sink_messages y) →
  length (vsm_data m') = Z.to_nat max_vsm_size →
  wp (read_all sizes) source_fault (λ chunks s, ∃ log rest, source_held (e_io s.2) (e_message s.2) log ∧
    concat chunks ++ rest = frames log ∧
    ∀ pieces, Forall fits log → concat pieces = concat chunks →
      wp (feed pieces) only_assert (λ n s', ∃ done todo, log = done ++ todo ∧ sink_view (d_io s'.2) done ∧
        (rest = [] → todo = [] ∨ refused s')) (bp_decoder_new m' y)) (bp_encoder_new m x).
Proof.
  intros Hx Hy Hh Hl. eapply wp_mono; [by apply (read_all_ok sizes _ [] []), bp_encoder_new_inv|].
  intros chunks s (_ & log & [_ _ Hheld Ho] & _).
  assert (∃ rest, concat chunks ++ rest = frames log) as [rest E].
  { destruct (enc_next s.1); [|by eexists]. destruct Ho as (l & b & _ & _ & E). by eexists. }
  exists log, rest. split; [done|]. split; [done|]. intros pieces Hf Ep.
  eapply wp_mono; [apply (feed_ok pieces _ [] log rest); rewrite Ep, E; by apply bp_decoder_new_inv|].
  intros n s' (done & todo & Em & Hn & Hi & Hor). exists done, todo. split; [by apply moved_from_nil|]. split; [apply Hi|].
  intros ->. destruct Hor as [|(-> & He & Hne)]; [by right|left].
  rewrite drop_all in Hi. apply (dec_inv_end _ _ _ Hi).
  destruct (decide (pieces = [])) as [->|Hp']; [rewrite He by done; simpl; lia|by apply Hne].
Qed.

(** Integers survive the trip through network byte order: for each width,
    the bytes that [put] writes do not depend on what the buffer held, [get]
    reads the value back from them modulo the width, and the rest of the
    buffer is untouched. *)
Theorem wire_round_trip (pre8 pre16 pre32 pre64 post : list Z) (v : Z) :
  length pre8 = 1%nat → length pre16 = 2%nat → length pre32 = 4%nat → length pre64 = 8%nat →
  (get_uint8 (put_uint8 (pre8 ++ post) v) = u8 v ∧ put_uint8 (pre8 ++ post) v = put_uint8 pre8 v ++ post) ∧
  (get_uint16 (put_uint16 (pre16 ++ post) v) = u16 v ∧ put_uint16 (pre16 ++ post) v = put_uint16 pre16 v ++ post) ∧
  (get_uint32 (put_uint32 (pre32 ++ post) v) = u32 v ∧ put_uint32 (pre32 ++ post) v = put_uint32 pre32 v ++ post) ∧
  (get_uint64 (put_uint64 (pre64 ++ post) v) = u64 v ∧ put_uint64 (pre64 ++ post) v = put_uint64 pre64 v ++ post).
Proof.
  intros H1 H2 H3 H4.
  assert (∀ n put get (pre : list Z), WireFormat n put get → length pre = n →
    get (put (pre ++ post) v) = wrap (8 * Z.of_nat n) v ∧ put (pre ++ post) v = put pre v ++ post) as H.
  { intros n put get pre W Hp. split; [|by apply wire_put_app]. apply wire_get_put. rewrite length_app. lia. }
  split; [by apply (H 1%nat _ _ _ _)|]. split; [by apply (H 2%nat _ _ _ _)|].
  split; [by apply (H 4%nat _ _ _ _)|by apply (H 8%nat _ _ _ _)].
Qed.

Lemma wire_round_trip_witness :
  get_uint64 (put_uint64 [0; 0; 0; 0; 0; 0; 0; 0; 9] 258) = 258.
Proof.
  pose proof (wire_round_trip [0] [0; 0] [0; 0; 0; 0] [0; 0; 0; 0; 0; 0; 0; 0] [9] 258 eq_refl eq_refl eq_refl eq_refl) as H.
  destruct H as (_ & _ & _ & H & _). exact H.
Defined.

(** ** A source of short messages, and a sink without limits *)

(** It keeps what it has given. *)
Record outbox := Outbox { outbox_heap : mheap; given : list (list Z); queue : list (list Z) }.

#[local] Instance outbox_has_heap : HasHeap outbox := {
  heap_of := outbox_heap; set_heap h x := Outbox h (given x) (queue x)
}.
#[local] Instance outbox_has_heap_laws : HasHeapLaws outbox.
Proof. split; intros; simpl; by try destruct x. Qed.

#[local] Instance outbox_source : MessageSource outbox := {
  source_read m x := Ok (match queue x with
    | [] => ((false, m), x)
    | b :: q => ((true, RawMessage (Tag vsm_tag) false (Z.of_nat (length b)) b), Outbox (outbox_heap x) (given x ++ [b]) q)
    end)
}.

Lemma short_body h b : body_of h (RawMessage (Tag vsm_tag) false (Z.of_nat (length b)) b) b.
Proof.
  unfold body_of, raw_message_bytes. simpl. rewrite Z.leb_refl. split; [by rewrite Nat2Z.id, firstn_all|].
  split; done.
Qed.

#[local] Instance outbox_laws : SourceLaws outbox.
Proof.
  refine {| source_held x _ log := log = given x; source_spent x := queue x = []; source_fault := no_fault |}.
  intros [h g [|b q]] m log ->; unfold wp; simpl; [done|]. exists b. split; [done|]. apply short_body.
Defined.

Record inbox := Inbox { inbox_heap : mheap; taken_messages : list raw_message }.

#[local] Instance inbox_has_heap : HasHeap inbox := {
  heap_of := inbox_heap; set_heap h x := Inbox h (taken_messages x)
}.
#[local] Instance inbox_has_heap_laws : HasHeapLaws inbox.
Proof. split; intros; simpl; by try destruct x. Qed.

(** It refuses only the message that would be one too many to count. *)
#[local] Instance inbox_sink : MessageSink inbox := {
  sink_write m x :=
    if Z.of_nat (length (taken_messages x)) + 2 <? 2 ^ 32
    then Ok ((true, m <| content := Tag vsm_tag |> <| vsm_size := 0 |>),
             Inbox (inbox_heap x) (taken_messages x ++ [m]))
    else Ok ((false, m), x)
}.

#[local] Instance inbox_laws : SinkLaws inbox.
Proof.
  refine {| sink_view x log := Forall2 (λ m b, raw_message_bytes (inbox_heap x) m = Some b) (taken_messages x) log;
            sink_messages := taken_messages;
            sink_full x := 2 ^ 32 ≤ Z.of_nat (length (taken_messages x)) + 2 |}; [done|..].
  - intros h x log Hv Hb. simpl in *. apply Forall2_same_length_lookup_2; [by eapply Forall2_length|].
    intros i m b Hm Hlb. rewrite Hb by by eapply list_elem_of_lookup_2. exact (Forall2_lookup_lr _ _ _ _ _ _ Hv Hm Hlb).
  - intros x m log b Hv Hh Hb Hs. unfold wp. simpl in *.
    destruct (Z.ltb_spec (Z.of_nat (length (taken_messages x)) + 2) (2 ^ 32)); [|done]. simpl.
    split; [apply Forall2_app; [done|]; constructor; [apply Hb|constructor]|]. split; [|done].
    apply heap_ok_plain_cons; [|done|rewrite length_app; simpl; lia].
    eapply heap_ok_perm; [|exact Hh]. solve_Permutation.
Defined.

Definition two_messages : outbox := Outbox (MHeap ∅ 1000 []) [] [[1; 2; 3]; []].
Definition empty_inbox : inbox := Inbox (MHeap ∅ 1000 []) [].

Lemma empty_inbox_ok : heap_ok (inbox_heap empty_inbox) [no_message].
Proof. apply heap_ok_plain_cons; [|done|simpl; lia]. constructor; [done|constructor|simpl; lia]. Qed.

Lemma two_messages_runs : ∃ s,
  runs (read_all [2%nat; 10%nat]) (bp_encoder_new no_message two_messages) [[3; 1]; [2; 3; 0]] s ∧ given (e_io s.2) = [[1; 2; 3]; []].
Proof. eexists. split; [vm_compute; reflexivity|reflexivity]. Qed.

Definition buffers_then_one : ST (encoder_t enc_step * enc_env outbox) (list (list Z) * list Z) :=
  chunks ← read_all [2%nat; 3%nat]; r ← bp_encoder_read 10; mret (chunks, r.1).

Lemma buffers_then_one_runs : ∃ s,
  runs buffers_then_one (bp_encoder_new no_message two_messages) ([[3; 1]; [2; 3; 0]], []) s ∧ given (e_io s.2) = [[1; 2; 3]; []].
Proof. eexists. split; [vm_compute; reflexivity|reflexivity]. Qed.

(** The third buffer stays empty: there is no message left. *)
Lemma bp_encoder_frames_witness : ∃ s,
  runs buffers_then_one (bp_encoder_new no_message two_messages) ([[3; 1]; [2; 3; 0]], []) s ∧
  [3; 1] ++ [2; 3; 0] = frames [[1; 2; 3]; []] ∧ queue (e_io s.2) = [].
Proof.
  destruct buffers_then_one_runs as (s & Hr & Hg). exists s. split; [exact Hr|].
  pose proof (bp_encoder_frames [2%nat; 3%nat] 10 no_message two_messages eq_refl) as H.
  destruct (wp_runs _ _ _ _ _ _ H Hr) as (_ & _ & log & rest & Hh & E & Hs). simpl in Hh. rewrite Hg in Hh. subst log.
  destruct Hs as [-> Hs]; [simpl; lia|]. split; [rewrite <- E; reflexivity|exact Hs].
Defined.

Lemma small_fits : Forall fits [[1; 2; 3]; []].
Proof. repeat constructor; unfold fits, sizeof_content; simpl; lia. Qed.

Lemma bp_decoder_bodies_witness :
  wp (feed [[3; 1]; [2]; [3; 0]]) only_assert (λ n s', ∃ done todo, [[1; 2; 3]; []] = done ++ todo ∧
    sink_view (d_io s'.2) done) (bp_decoder_new no_message empty_inbox).
Proof.
  eapply wp_mono; [apply (bp_decoder_bodies no_message empty_inbox [[1; 2; 3]; []] [[3; 1]; [2]; [3; 0]] [])|].
  - constructor.
  - apply empty_inbox_ok.
  - reflexivity.
  - apply small_fits.
  - reflexivity.
  - intros n s' (done & todo & E & Hv & _). exists done, todo. split; [exact E|exact Hv].
Defined.

(** The stream is cut elsewhere than the encoder's buffers were. *)
Lemma bp_round_trip_witness : ∃ s,
  runs (read_all [2%nat; 10%nat]) (bp_encoder_new no_message two_messages) [[3; 1]; [2; 3; 0]] s ∧
  wp (feed [[3; 1]; [2]; [3; 0]]) only_assert (λ n s', ∃ done todo, [[1; 2; 3]; []] = done ++ todo ∧ sink_view (d_io s'.2) done ∧
    (todo = [] ∨ refused s')) (bp_decoder_new no_message empty_inbox).
Proof.
  destruct two_messages_runs as (s & Hr & Hg). exists s. split; [exact Hr|].
  pose proof (bp_round_trip [2%nat; 10%nat] no_message two_messages no_message empty_inbox
    eq_refl (Forall2_nil_2 _ _ _) empty_inbox_ok eq_refl) as H.
  destruct (wp_runs _ _ _ _ _ _ H Hr) as (log & rest & Hh & E & Hd). simpl in Hh. rewrite Hg in Hh. subst log.
  assert (rest = []) as -> by (apply (f_equal length) in E; destruct rest; [reflexivity|discriminate]).
  eapply wp_mono; [exact (Hd [[3; 1]; [2]; [3; 0]] small_fits eq_refl)|].
  intros n s' (done & todo & Ed & Hv & Ht). exists done, todo. split; [exact Ed|]. split; [exact Hv|by apply Ht].
Defined.
