(* ===== verification/TcpSocket.v ===== *)
(** TCP sockets over the calls of the operating system
    ([src/libzmq/tcp_socket.cpp], [tcp_listener.cpp], [ip.cpp], the POSIX
    variants). *)
From S2P Require Import Prelude.
Local Open Scope Z_scope.

(** ** The operating system *)

Definition fd_t : Type := Z.
Definition retired_fd : fd_t := -1.

Inductive errno := EAGAIN | EINTR | ECONNRESET | ECONNREFUSED | ETIMEDOUT | EADDRNOTAVAIL | EHOSTUNREACH
  | EINPROGRESS | ECONNABORTED | EBADF | EOTHER.
#[export] Instance errno_eq_dec : EqDecision errno.
Proof. solve_decision. Defined.

(** Characters of C strings, without the terminator. *)
Abbreviation cstring := (list Z).

(** An IPv4 address in host byte order. *)
Abbreviation in_addr := Z.
Record sockaddr_in := SockAddr { sin_addr : in_addr; sin_port : Z }.

Class Sockets (N : Type) := {
  sys_getaddrinfo : cstring → ST N (option in_addr);
  sys_socket : ST N fd_t;
  (** [fcntl] with [O_NONBLOCK], and the other flag that is set. *)
  sys_nonblocking : fd_t → ST N bool;
  sys_nodelay : fd_t → ST N bool;
  (** [None]: success. *)
  sys_connect : fd_t → sockaddr_in → ST N (option errno);
  sys_close : fd_t → ST N bool;
  (** The number of bytes taken, the bytes received. *)
  sys_send : fd_t → list Z → ST N (Z + errno);
  sys_recv : fd_t → nat → bool → ST N (list Z + errno);
  (** [SO_ERROR], or the error of [getsockopt]; [None] is 0. *)
  sys_so_error : fd_t → ST N (option errno);
  sys_accept : fd_t → ST N (fd_t + errno)
}.

(** What the code relies on: new descriptors are not [retired_fd], which is
    not a descriptor; transfers are no longer than asked for. *)
Class SocketsLaws (N : Type) `{Sockets N} := {
  sys_socket_law s f s' : runs sys_socket s f s' → f = -1 ∨ 0 ≤ f;
  sys_accept_law l s f s' : runs (sys_accept l) s (inl f) s' → 0 ≤ f;
  sys_send_law f bs s n s' : runs (sys_send f bs) s (inl n) s' → 0 ≤ n ≤ Z.of_nat (length bs);
  sys_recv_law f n b s bs s' : runs (sys_recv f n b) s (inl bs) s' → (length bs ≤ n)%nat;
  sys_recv_retired n b s : sys_recv retired_fd n b s = Ok (inr EBADF, s)
}.

(** ** ip.cpp *)

Definition colon : Z := 58.

(** [strchr (s, c)]: the characters before the first [c], and those after. *)
Fixpoint split_at (c : Z) (s : cstring) : option (cstring * cstring) :=
  match s with
  | [] => None
  | x :: s => if x =? c then Some ([], s) else '(a, b) ← split_at c s; Some (x :: a, b)
  end.

Definition is_digit (c : Z) : bool := (48 <=? c) && (c <=? 57).
Definition is_space (c : Z) : bool := (c =? 32) || ((9 <=? c) && (c <=? 13)).

Fixpoint digits_value (acc : Z) (s : cstring) : Z :=
  match s with
  | c :: s => if is_digit c then digits_value (10 * acc + (c - 48)) s else acc
  | [] => acc
  end.

Fixpoint skip_spaces (s : cstring) : cstring :=
  match s with c :: t => if is_space c then skip_spaces t else s | [] => [] end.

(** [atoi], for values that fit an [int]. *)
Definition atoi (s : cstring) : Z :=
  match skip_spaces s with
  | c :: t => if c =? 45 then - digits_value 0 t else if c =? 43 then digits_value 0 t else digits_value 0 (c :: t)
  | [] => 0
  end.

Section sockets.
Context {N : Type} `{!Sockets N}.

(** [htons] of the port is left to the reading of [sin_port]. *)
Definition resolve_ip_hostname (hostname_ : cstring) : ST N sockaddr_in :=
  match split_at colon hostname_ with
  | None => st_crash AssertFailed
  | Some (hostname, port) =>
      st_assert (bool_decide (length hostname < 256)%nat) ;;
      res ← sys_getaddrinfo hostname;
      addr ← st_of_option AssertFailed res;
      mret (SockAddr addr (u16 (atoi port)))
  end.

(** ** tcp_socket_t *)

Record tcp_socket_t := TcpSocket { s : fd_t; hostname : cstring; block : bool }.
#[export] Instance eta_tcp_socket : Eta tcp_socket_t := λ t, TcpSocket (s t) (hostname t) (block t).

Definition tcp_close (t : tcp_socket_t) : ST N tcp_socket_t :=
  st_assert (negb (s t =? retired_fd)) ;;
  rc ← sys_close (s t);
  st_assert rc ;;
  mret (t <| s := retired_fd |>).

(** The options every socket gets. *)
Definition tcp_options (t : tcp_socket_t) : ST N unit :=
  st_when (negb (block t)) (rc ← sys_nonblocking (s t); st_assert rc) ;;
  rc ← sys_nodelay (s t);
  st_assert rc.

Definition tcp_reopen (t : tcp_socket_t) : ST N tcp_socket_t :=
  st_assert (s t =? retired_fd) ;;
  st_assert (bool_decide (hostname t ≠ [])) ;;
  ip_address ← resolve_ip_hostname (hostname t);
  f ← sys_socket;
  st_assert (negb (f =? -1)) ;;
  let t := t <| s := f |> in
  tcp_options t ;;
  rc ← sys_connect (s t) ip_address;
  st_when (block t) (st_assert (bool_decide (rc = None))) ;;
  if bool_decide (rc = None) || bool_decide (rc = Some EINPROGRESS) then mret t else tcp_close t.

Definition tcp_socket_new (hostname_ : cstring) (block_ : bool) : ST N tcp_socket_t :=
  tcp_reopen (TcpSocket retired_fd hostname_ block_).

Definition tcp_socket_from (fd_ : fd_t) (block_ : bool) : ST N tcp_socket_t :=
  let t := TcpSocket fd_ [] block_ in
  st_assert (negb (s t =? retired_fd)) ;;
  tcp_options t ;;
  mret t.

Definition tcp_write (t : tcp_socket_t) (data : list Z) : ST N Z :=
  nbytes ← sys_send (s t) data;
  match nbytes with
  | inr e =>
      if bool_decide (e = EAGAIN) || bool_decide (e = EINTR) then mret 0
      else if bool_decide (e = ECONNRESET) then mret (-1)
      else st_crash AssertFailed
  | inl n => mret n
  end.

(** The bytes read; [None] is -1. *)
Definition tcp_read (t : tcp_socket_t) (size : nat) : ST N (option (list Z)) :=
  nbytes ← sys_recv (s t) size (block t);
  match nbytes with
  | inr e =>
      if bool_decide (e = EAGAIN) || bool_decide (e = EINTR) then mret (Some [])
      else if bool_decide (e = ECONNRESET) || bool_decide (e = ECONNREFUSED) then mret None
      else st_crash AssertFailed
  | inl [] => mret None
  | inl bs => mret (Some bs)
  end.

Definition recoverable (e : errno) : bool :=
  bool_decide (e ∈ [ECONNREFUSED; ETIMEDOUT; ECONNRESET; EADDRNOTAVAIL; EHOSTUNREACH]).

Definition socket_error (t : tcp_socket_t) : ST N bool :=
  err ← sys_so_error (s t);
  match err with
  | None => mret false
  | Some e => st_assert (recoverable e) ;; mret true
  end.

(** ** tcp_listener_t *)

Definition tcp_accept (s : fd_t) : ST N fd_t :=
  sock ← sys_accept s;
  match sock with
  | inr e => if bool_decide (e ∈ [EAGAIN; EINTR; ECONNABORTED]) then mret retired_fd else st_crash AssertFailed
  | inl f => mret f
  end.

Definition listener_close (s : fd_t) : ST N fd_t :=
  st_assert (negb (s =? retired_fd)) ;;
  rc ← sys_close s;
  st_assert rc ;;
  mret retired_fd.

End sockets.

(** ** Proofs *)

Section sockets_laws.
Context {N : Type} `{SocketsLaws N}.

Lemma tcp_close_spec t n t' n' : runs (tcp_close t) n t' n' → s t ≠ retired_fd ∧ t' = t <| s := retired_fd |>.
Proof.
  unfold tcp_close. intros Hr. st_inv. split; [|done].
  match goal with H : negb _ = true |- _ => by apply negb_true_iff, Z.eqb_neq in H end.
Qed.

(** A reopened socket has a descriptor, or is closed again after a failed
    connection; the host it connects to stays. *)
Lemma tcp_reopen_spec t n t' n' : runs (tcp_reopen t) n t' n' →
  s t = retired_fd ∧ (s t' = retired_fd ∨ 0 ≤ s t') ∧ hostname t' = hostname t ∧ block t' = block t.
Proof.
  unfold tcp_reopen. intros Hr. st_inv.
  repeat match goal with H : (_ =? _) = true |- _ => apply Z.eqb_eq in H end.
  match goal with H : runs sys_socket _ _ _ |- _ => apply sys_socket_law in H as Hf end.
  destruct (_ || _); [|apply tcp_close_spec in Hr as [_ ->]]; simplify_eq/=; st_inv; simpl; try (split_and!; [done|by left|done..]).
  split_and!; [done| |done..]. destruct Hf; [by left|by right].
Qed.

Lemma tcp_write_spec t data n k n' : runs (tcp_write t data) n k n' → k = -1 ∨ 0 ≤ k ≤ Z.of_nat (length data).
Proof.
  unfold tcp_write. intros Hr. st_inv. match goal with H : runs (sys_send _ _) _ ?x _ |- _ => destruct x end.
  - st_inv. right. by eapply sys_send_law.
  - destruct (_ || _); st_inv; [right; lia|]. destruct (bool_decide _); st_inv. by left.
Qed.

Lemma tcp_read_spec t size n o n' : runs (tcp_read t size) n o n' → from_option (λ bs, length bs ≤ size)%nat True o.
Proof.
  unfold tcp_read. intros Hr. st_inv. match goal with H : runs (sys_recv _ _ _) _ ?x _ |- _ => destruct x as [[|b bs]|] end.
  - by st_inv.
  - st_inv. simpl. by eapply (sys_recv_law _ _ _ _ (b :: bs)).
  - destruct (_ || _); st_inv; [simpl; lia|]. by destruct (_ || _); st_inv.
Qed.

Lemma tcp_read_open t size n o n' : runs (tcp_read t size) n o n' → s t ≠ retired_fd.
Proof.
  intros Hr E. unfold runs, tcp_read, mbind, st_bind in Hr. by rewrite E, sys_recv_retired in Hr.
Qed.

(** Reading a closed socket ends the program. *)
Lemma tcp_read_closed t size n : s t = retired_fd → tcp_read t size n = Crash AssertFailed.
Proof. intros E. unfold tcp_read, mbind, st_bind. by rewrite E, sys_recv_retired. Qed.
End sockets_laws.

(** ** fd_set *)

Definition FD_SETSIZE : Z := 1024.

(** [FD_SET], [FD_CLR] and [FD_ISSET]. *)
Definition fd_set_add (f : fd_t) (fds : gset Z) : option (gset Z) := guard (0 ≤ f < FD_SETSIZE);; Some ({[f]} ∪ fds).
Definition fd_set_clr (f : fd_t) (fds : gset Z) : option (gset Z) := guard (0 ≤ f < FD_SETSIZE);; Some (fds ∖ {[f]}).
Definition fd_isset (f : fd_t) (fds : gset Z) : option bool := guard (0 ≤ f < FD_SETSIZE);; Some (bool_decide (f ∈ fds)).
