(* ===== verification/Listening.v ===== *)
(** Network interfaces, listening sockets, and the socket pairs of OpenVMS
    ([src/libzmq/ip.cpp], [tcp_listener.cpp], [ysocketpair.cpp]). *)
From S2P Require Import Prelude TcpSocket.
Local Open Scope Z_scope.

(** ** The operating system *)

(** A network interface with an address of some family. *)
Record ifaddr := IfAddr { ifa_name : cstring; ifa_addr : option (Z * in_addr) }.
Definition af_inet : Z := 2.
Definition inaddr_any : in_addr := 0.
Definition inaddr_none : in_addr := 2 ^ 32 - 1.

Class IpCalls (N : Type) `{Sockets N} := {
  sys_dgram_socket : ST N fd_t;
  (** The number of interfaces; the names of so many; the address of one, by
      [SIOCGLIFADDR] with its family and by [SIOCGIFADDR]. *)
  sys_lifnum : fd_t → ST N (option Z);
  sys_lifconf : fd_t → Z → ST N (option (list cstring));
  sys_lifaddr : fd_t → cstring → ST N (option (Z * in_addr));
  sys_ifaddr : fd_t → cstring → ST N (option in_addr);
  sys_getifaddrs : ST N (option (list ifaddr));
  (** The result and the address. *)
  sys_inet_pton : cstring → ST N (Z * in_addr);
  sys_inet_addr : cstring → ST N in_addr
}.

Class ListenCalls (N : Type) `{Sockets N} := {
  sys_reuseaddr : fd_t → ST N bool;
  sys_nodelack : fd_t → ST N bool;
  sys_bind : fd_t → sockaddr_in → ST N bool;
  sys_getsockname : fd_t → ST N (option sockaddr_in);
  sys_listen : fd_t → Z → ST N bool;
  (** Into buffers of such sizes. *)
  sys_gethostname : nat → ST N (option cstring);
  sys_inet_ntop : in_addr → nat → ST N (option cstring)
}.

(** ** ip.cpp: resolve_nic_name, a variant for each platform *)

Section nic.
Context {N : Type} `{!Sockets N, !IpCalls N}.

(** [None] is the null pointer. *)
Definition is_any (interface_ : option cstring) : bool := bool_decide (interface_ = None ∨ interface_ = Some [42]).

(** [addr_] is the content of the output parameter before. *)
Definition nic_number (interface_ : cstring) : ST N in_addr :=
  '(rc, addr) ← sys_inet_pton interface_;
  st_assert (negb (rc =? 0)) ;;
  st_assert (rc =? 1) ;;
  mret addr.

(** The interfaces up to the first with the name and an IPv4 address. *)
Fixpoint nic_first (fd : fd_t) (interface_ : cstring) (names : list cstring) : ST N (option in_addr) :=
  match names with
  | [] => mret None
  | n :: names =>
      if bool_decide (interface_ = n) then
        r ← sys_lifaddr fd n;
        '(family, addr) ← st_of_option AssertFailed r;
        if family =? af_inet then mret (Some addr) else nic_first fd interface_ names
      else nic_first fd interface_ names
  end.

Definition resolve_nic_solaris (addr_ : in_addr) (interface_ : option cstring) : ST N in_addr :=
  if is_any interface_ then mret inaddr_any
  else
    interface_ ← st_of_option BadAccess interface_;
    fd ← sys_dgram_socket;
    st_assert (negb (fd =? -1)) ;;
    rc ← sys_lifnum fd;
    count ← st_of_option AssertFailed rc;
    rc ← sys_lifconf fd count;
    names ← st_of_option AssertFailed rc;
    found ← nic_first fd interface_ names;
    sys_close fd ;;
    match found with Some addr => mret addr | None => nic_number interface_ end.

(** The name is copied to an array of 16 characters. *)
Definition resolve_nic_aix (addr_ : in_addr) (interface_ : option cstring) : ST N in_addr :=
  if is_any interface_ then mret inaddr_any
  else
    interface_ ← st_of_option BadAccess interface_;
    sd ← sys_dgram_socket;
    st_assert (negb (sd =? -1)) ;;
    rc ← sys_ifaddr sd (take 16 interface_);
    addr ← match rc with
    | Some addr => mret addr
    | None =>
        '(rc, addr) ← sys_inet_pton interface_;
        st_assert (negb (rc =? 0)) ;;
        mret (if rc =? 1 then addr else addr_)
    end;
    sys_close sd ;;
    mret addr.

Definition resolve_nic_windows (addr_ : in_addr) (interface_ : option cstring) : ST N in_addr :=
  if is_any interface_ then mret inaddr_any
  else
    interface_ ← st_of_option BadAccess interface_;
    addr ← sys_inet_addr interface_;
    st_assert (negb (addr =? inaddr_none)) ;;
    mret addr.

(** The last of the interfaces with the name and an IPv4 address. *)
Fixpoint nic_last (interface_ : cstring) (ifa : list ifaddr) (found : option in_addr) : option in_addr :=
  match ifa with
  | [] => found
  | ifp :: ifa => nic_last interface_ ifa
      match ifa_addr ifp with
      | Some (family, addr) => if (family =? af_inet) && bool_decide (interface_ = ifa_name ifp) then Some addr else found
      | None => found
      end
  end.

Definition resolve_nic_ifaddrs (addr_ : in_addr) (interface_ : option cstring) : ST N in_addr :=
  if is_any interface_ then mret inaddr_any
  else
    interface_ ← st_of_option BadAccess interface_;
    rc ← sys_getifaddrs;
    ifa ← st_of_option AssertFailed rc;
    st_assert (bool_decide (ifa ≠ [])) ;;
    match nic_last interface_ ifa None with Some addr => mret addr | None => nic_number interface_ end.

Definition resolve_nic_other (addr_ : in_addr) (interface_ : option cstring) : ST N in_addr :=
  if is_any interface_ then mret inaddr_any
  else interface_ ← st_of_option BadAccess interface_; nic_number interface_.

(** The platform's variant of [resolve_nic_name]. *)
Context (resolve_nic_name : in_addr → option cstring → ST N in_addr).

Definition resolve_ip_interface (interface_ : cstring) : ST N sockaddr_in :=
  match split_at colon interface_ with
  | None => addr ← resolve_nic_name 0 (Some interface_); mret (SockAddr addr 0)
  | Some (name, port) =>
      st_assert (bool_decide (length name < 256)%nat) ;;
      addr ← resolve_nic_name 0 (Some name);
      mret (SockAddr addr (u16 (atoi port)))
  end.
End nic.

(** ** tcp_listener.cpp *)

(** A number in decimal digits, at most so many. *)
Fixpoint decimal (digits : nat) (n : Z) : cstring :=
  match digits with
  | O => []
  | S digits => (if n <? 10 then [] else decimal digits (n `div` 10)) ++ [48 + n `mod` 10]
  end.

Section listening.
Context {N : Type} `{!Sockets N, !IpCalls N, !ListenCalls N}.
Context (resolve_nic_name : in_addr → option cstring → ST N in_addr).

(** The port, if none was asked for the one that the system chose, and the
    name of the host or the address, for a buffer with room for [sz]. *)
Definition bound_address (sz : nat) (ip_address : sockaddr_in) (s : fd_t) : ST N (cstring * Z) :=
  port ← (if sin_port ip_address =? 0 then r ← sys_getsockname s; addr ← st_of_option AssertFailed r; mret (sin_port addr)
          else mret (sin_port ip_address));
  name ← (if sin_addr ip_address =? inaddr_any then sys_gethostname sz else sys_inet_ntop (sin_addr ip_address) sz);
  name ← st_of_option AssertFailed name;
  mret (name, port).

(** What [snprintf] writes to a buffer of 256 bytes. *)
Definition address_string (scheme name : cstring) (port : Z) : cstring := take 255 (scheme ++ name ++ colon :: decimal 5 port).

Record tcp_listener_t := TcpListener { iface : cstring; ls : fd_t }.

Definition tcp_listener_new (iface_ : cstring) (block : bool) : ST N tcp_listener_t :=
  ip_address ← resolve_ip_interface resolve_nic_name iface_;
  s ← sys_socket;
  st_assert (negb (s =? -1)) ;;
  rc ← sys_reuseaddr s;
  st_assert rc ;;
  st_when (negb block) (rc ← sys_nonblocking s; st_assert rc) ;;
  rc ← sys_bind s ip_address;
  st_assert rc ;;
  '(name, port) ← bound_address 256 ip_address s;
  rc ← sys_listen s 10;
  st_assert rc ;;
  mret (TcpListener (address_string [] name port) s).

Definition tcp_listener_get_fd (l : tcp_listener_t) : fd_t := ls l.
Definition tcp_listener_get_interface (l : tcp_listener_t) : cstring := iface l.
Definition tcp_listener_accept (l : tcp_listener_t) : ST N fd_t := tcp_accept (ls l).
Definition tcp_listener_close (l : tcp_listener_t) : ST N tcp_listener_t := s ← listener_close (ls l); mret (TcpListener (iface l) s).
Definition tcp_listener_delete (l : tcp_listener_t) : ST N unit := tcp_listener_close l ;; mret tt.

(** ** The socket pairs of OpenVMS *)

Definition localhost : in_addr := 127 * 2 ^ 24 + 1.

(** The results of the second [socket] are not looked at: its check is of the
    result before. *)
Definition vms_socketpair : ST N (fd_t * fd_t) :=
  listener ← sys_socket;
  st_assert (negb (listener =? -1)) ;;
  rc ← sys_nodelay listener;
  st_assert rc ;;
  rc ← sys_nodelack listener;
  st_assert rc ;;
  rc ← sys_bind listener (SockAddr localhost 0);
  st_assert rc ;;
  r ← sys_getsockname listener;
  lcladdr ← st_of_option AssertFailed r;
  rc ← sys_listen listener 1;
  st_assert rc ;;
  w ← sys_socket;
  rc ← sys_nodelay w;
  st_assert rc ;;
  rc ← sys_nodelack w;
  st_assert rc ;;
  rc ← sys_connect w lcladdr;
  st_assert (bool_decide (rc = None)) ;;
  r ← sys_accept listener;
  match r with
  | inr _ => st_crash AssertFailed
  | inl r => sys_close listener ;; mret (w, r)
  end.
End listening.
