(* ===== verification/Addresses.v ===== *)
(** Addresses of listeners, and the look-up of interfaces on different
    platforms. *)
From S2P Require Import Prelude TcpSocket Listening.
Local Open Scope Z_scope.

(** ** Numbers *)

Definition digits (s : cstring) : Prop := Forall (λ c, is_digit c = true) s.

Lemma decimal_digits k : ∀ n, 0 ≤ n → digits (decimal k n).
Proof.
  induction k as [|k IH]; intros n Hn; [constructor|]. simpl. apply Forall_app. split.
  - destruct (n <? 10); [constructor|]. apply IH, Z.div_pos; lia.
  - repeat constructor. unfold is_digit. pose proof (Z.mod_pos_bound n 10). apply andb_true_iff. split; apply Z.leb_le; lia.
Qed.

Lemma decimal_value k : ∀ n t, 0 ≤ n < 10 ^ Z.of_nat k → (0 < k)%nat → digits_value 0 (decimal k n ++ t) = digits_value n t.
Proof.
  induction k as [|k IH]; intros n t Hn Hk; [lia|]. cbn [decimal]. rewrite <- app_assoc. simpl.
  assert (digits_value (10 * (n `div` 10) + (48 + n `mod` 10 - 48)) t = digits_value n t) as E.
  { f_equal. pose proof (Z.div_mod n 10). lia. }
  pose proof (Z.mod_pos_bound n 10 ltac:(lia)).
  assert (is_digit (48 + n `mod` 10) = true) as Hd by (unfold is_digit; apply andb_true_iff; split; apply Z.leb_le; lia).
  destruct (Z.ltb_spec n 10) as [Hs|Hs].
  - simpl. rewrite Hd, <- E. f_equal. rewrite Z.div_small; lia.
  - rewrite IH; [simpl; by rewrite Hd| |].
    + rewrite Nat2Z.inj_succ, Z.pow_succ_r in Hn by lia. split; [apply Z.div_pos; lia|apply Z.div_lt_upper_bound; lia].
    + destruct k; [simpl in Hn; lia|lia].
Qed.

Lemma decimal_nonempty k n : (0 < k)%nat → ∃ c t, decimal k n = c :: t.
Proof.
  destruct k; [lia|]. intros _. simpl. destruct ((if n <? 10 then [] else decimal k (n `div` 10))) eqn:E; simpl; eauto.
Qed.

(** [atoi] reads what [%d] has written. *)
Lemma atoi_decimal n : 0 ≤ n < 65536 → atoi (decimal 5 n) = n.
Proof.
  intros Hn. destruct (decimal_nonempty 5 n) as (c & t & E); [lia|].
  pose proof (decimal_digits 5 n ltac:(lia)) as Hd. pose proof (decimal_value 5 n [] ltac:(lia) ltac:(lia)) as Hv.
  rewrite app_nil_r in Hv. rewrite E in Hd, Hv |- *. apply Forall_cons in Hd as [Hc _]. unfold is_digit in Hc.
  apply andb_true_iff in Hc as [H1%Z.leb_le H2%Z.leb_le]. unfold atoi. simpl skip_spaces. unfold is_space.
  rewrite !(proj2 (Z.eqb_neq _ _)) by lia. rewrite (proj2 (Z.leb_gt c 13)) by lia. rewrite andb_false_r. simpl orb. cbv iota.
  rewrite !(proj2 (Z.eqb_neq c _)) by lia. exact Hv.
Qed.

Lemma decimal_length k n : (length (decimal k n) ≤ k)%nat.
Proof.
  revert n. induction k as [|k IH]; intros n; [done|]. simpl. rewrite length_app. simpl. destruct (n <? 10); simpl; [lia|].
  specialize (IH (n `div` 10)). lia.
Qed.

Lemma split_at_app c a b : c ∉ a → split_at c (a ++ c :: b) = Some (a, b).
Proof.
  induction a as [|x a IH]; simpl; intros Hn; [by rewrite Z.eqb_refl|].
  apply not_elem_of_cons in Hn as [H1 H2]. rewrite (proj2 (Z.eqb_neq x c)) by done. by rewrite IH.
Qed.

(** ** What a listener is reached by *)

(** A name has no colon, a port 16 bits. *)
Class NameLaws (N : Type) `{ListenCalls N} := {
  gethostname_law k n r n' : runs (sys_gethostname k) n (Some r) n' → colon ∉ r;
  inet_ntop_law a k n r n' : runs (sys_inet_ntop a k) n (Some r) n' → colon ∉ r;
  getsockname_law f n r n' : runs (sys_getsockname f) n (Some r) n' → 0 ≤ sin_port r < 65536
}.

Section listener.
Context {N : Type} `{IpCalls N, !ListenCalls N, !NameLaws N}.
Implicit Types (n : N).

Lemma bound_address_names k a f n name port n' : 0 ≤ sin_port a < 65536 → runs (bound_address k a f) n (name, port) n' →
  colon ∉ name ∧ 0 ≤ port < 65536 ∧ (sin_port a ≠ 0 → port = sin_port a).
Proof using NameLaws0.
  intros Ha Hr. unfold bound_address in Hr. call_inv.
  match goal with H : runs (if sin_port a =? 0 then _ else _) _ ?p _ |- _ => assert (0 ≤ p < 65536 ∧ (sin_port a ≠ 0 → p = sin_port a)) end.
  { destruct (Z.eqb_spec (sin_port a) 0) as [E|E]; call_inv; subst; (split; [|done]); [by eapply getsockname_law|done]. }
  subst. split; [|done]. destruct (sin_addr a =? inaddr_any); [by eapply gethostname_law|by eapply inet_ntop_law].
Qed.

Lemma interface_port resolve interface_ n a n' : runs (resolve_ip_interface resolve interface_) n a n' →
  0 ≤ sin_port a < 65536 ∧ ∀ name port, split_at colon interface_ = Some (name, port) → sin_port a = u16 (atoi port).
Proof using.
  unfold resolve_ip_interface. intros Hr. destruct (split_at colon interface_) as [[name port]|]; call_inv; simpl; [|split; [lia|done]].
  split; [by apply (wrap_range 16)|]. intros ? ? E. by simplify_eq.
Qed.

(** What a listener calls its address. *)
Record address_of (interface_ : cstring) (l : tcp_listener_t) (name : cstring) (port : Z) : Prop := {
  ao_name : colon ∉ name;
  ao_port : 0 ≤ port < 65536;
  ao_asked host p : split_at colon interface_ = Some (host, p) → u16 (atoi p) ≠ 0 → port = u16 (atoi p);
  ao_iface : iface l = take 255 (name ++ colon :: decimal 5 port)
}.

Lemma listener_has_address resolve interface_ block n l n' : runs (tcp_listener_new resolve interface_ block) n l n' →
  ∃ name port, address_of interface_ l name port.
Proof using NameLaws0.
  unfold tcp_listener_new. intros Hr. call_inv. repeat match goal with x : cstring * Z |- _ => destruct x end. call_inv.
  match goal with H : runs (bound_address _ _ _) _ (?name, ?port) _, H' : runs (resolve_ip_interface _ _) _ _ _ |- _ =>
    apply interface_port in H' as [Hp Ha]; apply bound_address_names in H as (H1' & H2' & H3'); [|done]; exists name, port end.
  split; [done|done| |done]. intros host p E Hne. rewrite H3'; [by eapply Ha|]. by rewrite (Ha _ _ E).
Qed.

Lemma address_resolves {M} `{!Sockets M} interface_ l name port (m : M) : address_of interface_ l name port → (length name ≤ 249)%nat →
  resolve_ip_hostname (tcp_listener_get_interface l) m = (res ← sys_getaddrinfo name; addr ← st_of_option AssertFailed res; mret (SockAddr addr port)) m.
Proof using.
  intros [Hc Hp _ El] Hl. unfold tcp_listener_get_interface. pose proof (decimal_length 5 port).
  rewrite El, take_ge by (rewrite length_app; cbn [length]; lia). unfold resolve_ip_hostname. rewrite split_at_app by done.
  rewrite atoi_decimal by done. rewrite (wrap_small 16 port) by (unfold in_u; lia). rewrite bool_decide_true by lia. done.
Qed.
End listener.

(** A listener is reached by the address it gives: that is a name and the
    port it listens on, the one that was asked for if any was, and a process
    that connects to it looks up the name and takes that very port. *)
Theorem listener_reached {N M} `{IpCalls N, !ListenCalls N, !NameLaws N, !Sockets M} resolve interface_ block (n : N) l n' :
  runs (tcp_listener_new resolve interface_ block) n l n' →
  ∃ name port, address_of interface_ l name port ∧ ((length name ≤ 249)%nat → ∀ m : M,
    resolve_ip_hostname (tcp_listener_get_interface l) m =
    (res ← sys_getaddrinfo name; addr ← st_of_option AssertFailed res; mret (SockAddr addr port)) m).
Proof.
  intros Hr. destruct (listener_has_address _ _ _ _ _ _ Hr) as (name & port & Ha). exists name, port. split; [done|].
  intros Hl m. by eapply address_resolves.
Qed.

(** ** Interfaces on different platforms *)

(** What the calls tell of the host's interfaces: each has a name of its own,
    with less than 16 characters, and an IPv4 address. *)
Class HostLaws (N : Type) `{IpCalls N} := {
  nics : list (cstring * in_addr);
  ip_number : cstring → option in_addr;
  nics_some : nics ≠ [];
  nics_names : NoDup nics.*1;
  nics_short : Forall (λ p, length p.1 < 16)%nat nics;
  dgram_socket_host n : wp sys_dgram_socket no_fault (λ f _, f ≠ -1) n;
  close_host f n : wp (sys_close f) no_fault (λ _ _, True) n;
  lifnum_host f n : wp (sys_lifnum f) no_fault (λ r _, r = Some (Z.of_nat (length nics))) n;
  lifconf_host f n : wp (sys_lifconf f (Z.of_nat (length nics))) no_fault (λ r _, r = Some nics.*1) n;
  lifaddr_host f i a n : (i, a) ∈ nics → wp (sys_lifaddr f i) no_fault (λ r _, r = Some (af_inet, a)) n;
  ifaddr_host f i n : wp (sys_ifaddr f i) no_fault (λ r _, ∀ a, r = Some a ↔ (i, a) ∈ nics) n;
  getifaddrs_host n : wp sys_getifaddrs no_fault (λ r _, r = Some ((λ p, IfAddr p.1 (Some (af_inet, p.2))) <$> nics)) n;
  inet_pton_host i n : wp (sys_inet_pton i) no_fault (λ r _, r.1 = (if ip_number i is Some _ then 1 else 0) ∧ ∀ a, ip_number i = Some a → r.2 = a) n
}.

(** The interface with the name, or the address that the name is. *)
Definition host_address (N : Type) `{HostLaws N} (i : cstring) : option in_addr :=
  if bool_decide (i = [42]) then Some inaddr_any
  else match (list_to_map nics : gmap cstring in_addr) !! i with Some a => Some a | None => ip_number i end.

(** A computation of an address, or a failed assertion if there is none. *)
Definition finds {N} (o : option in_addr) (m : ST N in_addr) : Prop := ∀ n,
  match o with Some a => wp m no_fault (λ r _, r = a) n | None => wp m only_assert (λ _ _, False) n end.

Section platforms.
Context {N : Type} `{HostLaws N}.

Lemma nic_number_finds i : finds (ip_number i) (nic_number i : ST N in_addr).
Proof.
  intros n. unfold nic_number. destruct (ip_number i) as [a|] eqn:E; wp_steps.
  - eapply wp_mono; [apply inet_pton_host|]. intros [rc b] n' [E1 E2]. simpl in *. rewrite E in E1. subst rc. wp_steps.
    apply wp_assert; [done|]. wp_steps. apply wp_assert; [done|]. wp_steps. by apply E2.
  - apply (wp_fault no_fault); [by intros ? []|]. eapply wp_mono; [apply inet_pton_host|]. intros [rc b] n' [E1 _]. simpl in *.
    rewrite E in E1. by subst rc.
Qed.

(** A call that does not fail, before. *)
Lemma finds_bind {A} o (m : ST N A) (k : A → ST N in_addr) (Q : A → Prop) : (∀ n, wp m no_fault (λ a _, Q a) n) →
  (∀ a, Q a → finds o (k a)) → finds o (m ≫= k).
Proof.
  intros Hm Hk n. specialize (Hm n). destruct o as [x|]; wp_steps.
  - eapply wp_mono; [exact Hm|]. intros a n' Ha. exact (Hk a Ha n').
  - apply (wp_fault no_fault); [by intros ? []|]. eapply wp_mono; [exact Hm|]. intros a n' Ha. exact (Hk a Ha n').
Qed.
Lemma finds_ret a : finds (Some a) (mret a : ST N in_addr).
Proof. by intros n. Qed.

Abbreviation table := (list_to_map nics : gmap cstring in_addr).

Lemma nic_or_number i : finds (match table !! i with Some a => Some a | None => ip_number i end)
  (match table !! i with Some a => mret a | None => nic_number i end : ST N in_addr).
Proof. destruct (table !! i); [apply finds_ret|apply nic_number_finds]. Qed.

Lemma table_in i a : (i, a) ∈ nics ↔ table !! i = Some a.
Proof. apply elem_of_list_to_map, nics_names. Qed.

Lemma first_in_table f i l : l ⊆ nics → ∀ n, wp (nic_first f i l.*1 : ST N _) no_fault (λ r _, r = (list_to_map l : gmap cstring in_addr) !! i) n.
Proof.
  induction l as [|[j b] l IH]; intros Hl n; simpl; [done|]. destruct (decide (i = j)) as [->|Hne].
  - rewrite bool_decide_true, lookup_insert_eq by done. wp_steps.
    eapply wp_mono; [apply (lifaddr_host f j b n), Hl; set_solver|]. cbv beta. intros r n' ->. wp_steps. done.
  - rewrite bool_decide_false, lookup_insert_ne by done. apply IH. set_solver.
Qed.

Lemma last_in_table i l : NoDup l.*1 → ∀ o, nic_last i ((λ p, IfAddr p.1 (Some (af_inet, p.2))) <$> l) o =
  match (list_to_map l : gmap cstring in_addr) !! i with Some a => Some a | None => o end.
Proof.
  induction l as [|[j b] l IH]; intros Hn o; [done|]. apply NoDup_cons in Hn as [Hj Hn]. simpl. rewrite IH by done.
  destruct (decide (i = j)) as [->|Hne].
  - rewrite bool_decide_true, lookup_insert_eq by done. by rewrite (not_elem_of_list_to_map_1 l).
  - rewrite bool_decide_false, lookup_insert_ne by done. done.
Qed.

Lemma short_in_table i a : (take 16 i, a) ∈ nics ↔ (i, a) ∈ nics.
Proof.
  pose proof nics_short as Hs. rewrite Forall_forall in Hs.
  destruct (decide (length i < 16)%nat) as [Hl|Hl]; [by rewrite take_ge by lia|].
  split; intros Hi; apply Hs in Hi; simpl in Hi; rewrite ?length_take in Hi; lia.
Qed.

Lemma solaris_finds i : i ≠ [42] → finds (host_address N i) (resolve_nic_solaris 0 (Some i) : ST N in_addr).
Proof.
  intros Hi. unfold host_address, resolve_nic_solaris, is_any. rewrite !bool_decide_false by naive_solver.
  eapply (finds_bind _ _ _ (λ j, j = i)); [done|]. intros ? ->.
  eapply finds_bind; [apply dgram_socket_host|]. intros f Hf.
  eapply (finds_bind _ _ _ (λ _, True)); [intros n; apply wp_assert; [by apply negb_true_iff, Z.eqb_neq|done]|]. intros _ _.
  eapply finds_bind; [apply lifnum_host|]. intros ? ->.
  eapply (finds_bind _ _ _ (λ k, k = Z.of_nat (length nics))); [done|]. intros ? ->.
  eapply finds_bind; [apply lifconf_host|]. intros ? ->.
  eapply (finds_bind _ _ _ (λ l, l = nics.*1)); [done|]. intros ? ->.
  eapply finds_bind; [intros n; by apply (first_in_table f i nics)|]. intros ? ->.
  eapply finds_bind; [apply close_host|]. intros _ _. apply nic_or_number.
Qed.

Lemma ifaddrs_finds i : i ≠ [42] → finds (host_address N i) (resolve_nic_ifaddrs 0 (Some i) : ST N in_addr).
Proof.
  intros Hi. unfold host_address, resolve_nic_ifaddrs, is_any. rewrite !bool_decide_false by naive_solver.
  eapply (finds_bind _ _ _ (λ j, j = i)); [done|]. intros ? ->.
  eapply finds_bind; [apply getifaddrs_host|]. intros ? ->.
  eapply (finds_bind _ _ _ (λ l, l = (λ p, IfAddr p.1 (Some (af_inet, p.2))) <$> nics)); [done|]. intros ? ->.
  eapply (finds_bind _ _ _ (λ _, True)).
  { intros n. apply wp_assert; [|done]. apply bool_decide_true. pose proof nics_some. by destruct nics. }
  intros _ _. rewrite last_in_table by apply nics_names. pose proof (nic_or_number i) as Hf. by destruct (table !! i).
Qed.

Lemma aix_finds i : i ≠ [42] → finds (host_address N i) (resolve_nic_aix 0 (Some i) : ST N in_addr).
Proof.
  intros Hi. unfold host_address, resolve_nic_aix, is_any. rewrite !bool_decide_false by naive_solver.
  eapply (finds_bind _ _ _ (λ j, j = i)); [done|]. intros ? ->.
  eapply finds_bind; [apply dgram_socket_host|]. intros f Hf.
  eapply (finds_bind _ _ _ (λ _, True)); [intros n; apply wp_assert; [by apply negb_true_iff, Z.eqb_neq|done]|]. intros _ _.
  eapply finds_bind; [apply ifaddr_host|]. intros r Hr. cbv beta in Hr.
  assert (r = table !! i) as ->.
  { apply option_eq. intros a. rewrite <- table_in, <- short_in_table. apply Hr. }
  destruct (table !! i) as [a|].
  - eapply (finds_bind _ _ _ (λ x, x = a)); [done|]. intros ? ->. eapply finds_bind; [apply close_host|]. intros _ _. apply finds_ret.
  - intros n. destruct (ip_number i) as [a|] eqn:E; wp_steps.
    + eapply wp_mono; [apply inet_pton_host|]. intros [rc b] n1 [E1 E2]. simpl in *. rewrite E in E1. subst rc. wp_steps.
      apply wp_assert; [done|]. wp_steps. eapply wp_mono; [apply close_host|]. intros _ n2 _. wp_steps. by apply E2.
    + apply (wp_fault no_fault); [by intros ? []|]. eapply wp_mono; [apply inet_pton_host|]. intros [rc b] n1 [E1 _]. simpl in *.
      rewrite E in E1. by subst rc.
Qed.
End platforms.

(** The ways to look up an interface agree: by the list of addresses, by the
    calls of Solaris and by those of AIX and HP-UX, a name gives the address of
    that interface, a star any address, and another string the address that it
    denotes; if it denotes none, all of them fail an assertion. *)
Theorem nic_platforms (N : Type) `{HostLaws N} i :
  Forall (λ resolve, finds (host_address N i) (resolve 0 (Some i)))
    [resolve_nic_ifaddrs; resolve_nic_solaris; resolve_nic_aix : in_addr → option cstring → ST N in_addr].
Proof.
  destruct (decide (i = [42])) as [->|Hi].
  - unfold host_address, resolve_nic_ifaddrs, resolve_nic_solaris, resolve_nic_aix, is_any. simpl.
    repeat constructor; by intros n.
  - repeat constructor; [by apply ifaddrs_finds|by apply solaris_finds|by apply aix_finds].
Qed.

(** ** Runs on a host *)

(** ** A host *)

(** Its interfaces; [lo] and [eth0] are two of them. *)
Abbreviation lo := [108; 111].
Abbreviation eth0 := [101; 116; 104; 48].
Abbreviation host_name := [104; 111; 115; 116].

Section host.
Context (table : list (cstring * in_addr)).

#[local] Instance host_sockets : Sockets unit := {
  sys_getaddrinfo h := mret (if bool_decide (h = host_name) then Some 42 else None); sys_socket := mret 5;
  sys_nonblocking _ := mret true; sys_nodelay _ := mret true; sys_connect _ _ := mret None; sys_close _ := mret true;
  sys_send _ _ := mret (inr EAGAIN); sys_recv _ _ _ := mret (inr EAGAIN); sys_so_error _ := mret None; sys_accept _ := mret (inl 6)
}.
#[local] Instance host_calls : IpCalls unit := {
  sys_dgram_socket := mret 4;
  sys_lifnum _ := mret (Some (Z.of_nat (length table)));
  sys_lifconf _ k := mret (Some (take (Z.to_nat k) table.*1));
  sys_lifaddr _ i := mret ((λ x, (af_inet, x.2.2)) <$> list_find (λ p, p.1 = i) table);
  sys_ifaddr _ i := mret ((λ x, x.2.2) <$> list_find (λ p, p.1 = i) table);
  sys_getifaddrs := mret (Some ((λ p, IfAddr p.1 (Some (af_inet, p.2))) <$> table));
  sys_inet_pton i := mret (if bool_decide (i = [49]) then (1, 1) else (0, 0));
  sys_inet_addr i := mret (if bool_decide (i = [49]) then 1 else inaddr_none)
}.
End host.

Definition two_nics : list (cstring * in_addr) := [(lo, localhost); (eth0, 3232235777)].

#[local] Existing Instance host_sockets.
#[local] Instance host2 : IpCalls unit := host_calls two_nics.
#[local] Instance host_listens : ListenCalls unit := {
  sys_reuseaddr _ := mret true; sys_nodelack _ := mret true; sys_bind _ _ := mret true;
  sys_getsockname _ := mret (Some (SockAddr 0 40123)); sys_listen _ _ := mret true;
  sys_gethostname _ := mret (Some host_name); sys_inet_ntop _ _ := mret (Some [49])
}.
#[local] Instance host_names : NameLaws unit.
Proof.
  split; intros * E; vm_compute in E; simplify_eq; [set_solver by done..|done].
Defined.

Lemma two_nics_names : NoDup two_nics.*1.
Proof. by apply (bool_decide_unpack _), I. Qed.

Lemma find_in_table i l : (λ x, x.2.2) <$> list_find (λ p, p.1 = i) l = (list_to_map l : gmap cstring in_addr) !! i.
Proof.
  induction l as [|[j b] l IH]; [done|]. simpl. destruct (decide (j = i)) as [->|Hne]; [by rewrite lookup_insert_eq|].
  rewrite lookup_insert_ne by done. rewrite <- IH. by destruct (list_find _ l) as [[k x]|].
Qed.

Lemma find_two_nics i a : (i, a) ∈ two_nics ↔ (λ x, x.2.2) <$> list_find (λ p, p.1 = i) two_nics = Some a.
Proof. rewrite find_in_table. apply elem_of_list_to_map, two_nics_names. Qed.

#[local] Instance host_laws : HostLaws unit.
Proof.
  refine {| nics := two_nics; ip_number i := if bool_decide (i = [49]) then Some 1 else None |}; try done.
  - apply two_nics_names.
  - repeat constructor; simpl; lia.
  - intros f i a n Hi%find_two_nics. apply fmap_Some in Hi as (x & Hx & ->).
    change (((λ x, (af_inet, x.2.2)) <$> list_find (λ p, p.1 = i) two_nics) = Some (af_inet, x.2.2)). by rewrite Hx.
  - intros f i n. intros a. symmetry. apply find_two_nics.
  - intros i n. unfold wp. simpl. case_bool_decide; simpl; (split; [done|naive_solver]).
Defined.

(** ** Runs *)

(** ["eth0:7777"] and ["*"]. *)
Definition asked_port : cstring := eth0 ++ [58; 55; 55; 55; 55].

Lemma listener_on_star : runs (tcp_listener_new resolve_nic_ifaddrs [42] false) tt
  (TcpListener (host_name ++ [58; 52; 48; 49; 50; 51]) 5) tt.
Proof. vm_compute. done. Qed.

Lemma listener_reached_witness : ∃ name port, (length name ≤ 249)%nat ∧
  (∀ m : unit, resolve_ip_hostname (host_name ++ [58; 52; 48; 49; 50; 51]) m =
    (res ← sys_getaddrinfo name; addr ← st_of_option AssertFailed res; mret (SockAddr addr port)) m).
Proof.
  destruct (listener_reached (M := unit) resolve_nic_ifaddrs [42] false tt _ tt listener_on_star) as (name & port & Ha & Hr).
  assert (length name ≤ 249)%nat as Hl.
  { pose proof (ao_iface _ _ _ _ Ha) as E. apply (f_equal length) in E. rewrite length_take, length_app in E. change (length (iface _)) with 10%nat in E.
    cbn [length] in E. lia. }
  exists name, port. split; [exact Hl|]. intros m. exact (Hr Hl m).
Defined.

Lemma nic_platforms_witness : host_address unit eth0 = Some 3232235777 ∧
  Forall (λ resolve, finds (host_address unit eth0) (resolve 0 (Some eth0)))
    [resolve_nic_ifaddrs; resolve_nic_solaris; resolve_nic_aix : in_addr → option cstring → ST unit in_addr].
Proof. split; [vm_compute; reflexivity|apply (nic_platforms unit eth0)]. Defined.

(** An interface with two addresses: the list of addresses gives the last,
    Solaris the first. *)
#[local] Instance host_twice : IpCalls unit := host_calls [(eth0, 1); (eth0, 2)].
Lemma first_and_last_differ :
  runs (resolve_nic_ifaddrs 0 (Some eth0)) tt 2 tt ∧ runs (resolve_nic_solaris 0 (Some eth0)) tt 1 tt.
Proof. vm_compute. done. Qed.

(** On AIX a name of more than 16 characters is taken for the interface that
    its beginning names. *)
Definition name16 : cstring := replicate 16 97.
#[local] Instance host_long : IpCalls unit := host_calls [(name16, 7)].
Lemma long_name_is_cut : runs (resolve_nic_aix 0 (Some (name16 ++ eth0))) tt 7 tt ∧
  resolve_nic_ifaddrs 0 (Some (name16 ++ eth0)) tt = Crash AssertFailed.
Proof. vm_compute. done. Qed.
