(* ===== verification/Signaler.v ===== *)
(** Signals that a poller can wait for ([src/libzmq/ysocketpair.cpp], the
    variants over eventfd and over a socket pair). *)
From S2P Require Import Prelude Atomics TcpSocket PollSet.
Local Open Scope Z_scope.

(** ** The operating system *)

Class SignalFds (K : Type) `{Sockets K} := {
  sys_eventfd : ST K fd_t;
  sys_eventfd_write : fd_t → Z → ST K (Z + errno);
  sys_eventfd_read : fd_t → ST K (Z + errno);
  sys_socketpair : ST K (option (fd_t * fd_t))
}.

(** An eventfd adds the values written to a counter, whose reading sets it to
    zero; a socket pair is a queue of bytes, from which a read takes some. *)
Class SignalFdsLaws (K : Type) `{SignalFds K} := {
  counter : fd_t → K → Z;
  queue : fd_t → fd_t → K → list Z;
  eventfd_write_law f v k : 0 ≤ v → counter f k + v ≤ 2 ^ 64 - 2 →
    ∃ k', runs (sys_eventfd_write f v) k (inl 8) k' ∧ counter f k' = counter f k + v;
  eventfd_read_law f k : ∃ r k', runs (sys_eventfd_read f) k r k' ∧ counter f k' = 0 ∧
    r = (if counter f k =? 0 then inr EAGAIN else inl (counter f k));
  pair_send_law w r b k : ∃ k', runs (sys_send w [b]) k (inl 1) k' ∧ queue w r k' = queue w r k ++ [b];
  pair_recv_law w r n k : (0 < n)%nat → ∃ a k', runs (sys_recv r n false) k a k' ∧
    match queue w r k with
    | [] => a = inr EAGAIN ∧ queue w r k' = []
    | q => ∃ bs, a = inl bs ∧ bs ≠ [] ∧ q = bs ++ queue w r k'
    end
}.

Section ysocketpair.
Context {K : Type} `{SignalFds K}.

(** ** Over eventfd *)

Definition eventfd_new : ST K fd_t :=
  fd ← sys_eventfd;
  st_assert (negb (fd =? -1)) ;;
  rc ← sys_nonblocking fd;
  st_assert rc ;;
  mret fd.

Definition eventfd_delete (fd : fd_t) : ST K unit := rc ← sys_close fd; st_assert rc.

Definition eventfd_signal (fd : fd_t) (signal_ : Z) : ST K unit :=
  st_assert ((0 <=? signal_) && (signal_ <? 64)) ;;
  sz ← sys_eventfd_write fd (u64 (Z.shiftl 1 signal_));
  st_assert (bool_decide (sz = inl 8)).

Definition eventfd_check (fd : fd_t) : ST K Z :=
  sz ← sys_eventfd_read fd;
  match sz with
  | inl val => mret val
  | inr EAGAIN => mret 0
  | inr _ => st_crash AssertFailed
  end.

(** ** Over a socket pair *)

Record pair_t := Pair { w : fd_t; r : fd_t }.

Definition pair_new : ST K pair_t :=
  sv ← sys_socketpair;
  '(w, r) ← st_of_option AssertFailed sv;
  rc ← sys_nonblocking r;
  st_assert rc ;;
  mret (Pair w r).

Definition pair_delete (p : pair_t) : ST K unit := sys_close (w p) ;; sys_close (r p) ;; mret tt.

Definition pair_signal (p : pair_t) (signal_ : Z) : ST K unit :=
  st_assert ((0 <=? signal_) && (signal_ <? 64)) ;;
  nbytes ← sys_send (w p) [u8 signal_];
  st_assert (bool_decide (nbytes = inl 1)).

(** [for (pos = 0; pos != nbytes; pos ++)] *)
Fixpoint collect_signals (buffer : list Z) (signals : Z) : res Z :=
  match buffer with
  | [] => Ok signals
  | b :: buffer => if b <? 64 then collect_signals buffer (Z.lor signals (u64 (Z.shiftl 1 b))) else Crash AssertFailed
  end.

Definition pair_check (p : pair_t) : ST K Z :=
  nbytes ← sys_recv (r p) 32 false;
  match nbytes with
  | inl buffer => match collect_signals buffer 0 with Ok signals => mret signals | Crash f => st_crash f end
  | inr _ => st_crash AssertFailed
  end.

(** ** Both are sets of signals *)

Context {L : SignalFdsLaws K}.

(** The signals [S] are pending. *)
Definition eventfd_rep (fd : fd_t) (S : gset Z) (k : K) : Prop := in_u 64 (counter fd k) ∧ signals_in 64 (counter fd k) = S.
Definition pair_rep (p : pair_t) (S : gset Z) (k : K) : Prop :=
  list_to_set (queue (w p) (r p) k) = S ∧ NoDup (queue (w p) (r p) k) ∧ Forall (in_u 6) (queue (w p) (r p) k).

Lemma shiftl_in_u i : 0 ≤ i < 64 → u64 (Z.shiftl 1 i) = 2 ^ i.
Proof.
  intros Hi. rewrite Z.shiftl_mul_pow2, Z.mul_1_l by lia. apply wrap_small. split; [by apply Z.pow_nonneg|].
  apply Z.pow_lt_mono_r; lia.
Qed.

Lemma testbit_pow2 i j : 0 ≤ i → 0 ≤ j → Z.testbit (2 ^ i) j = (j =? i).
Proof. intros Hi Hj. rewrite <- (Z.mul_1_l (2 ^ i)), <- Z.shiftl_mul_pow2 by done. by apply testbit_shiftl_1. Qed.

Lemma signals_in_lor x y : signals_in 64 (Z.lor x y) = signals_in 64 x ∪ signals_in 64 y.
Proof.
  apply set_eq. intros i. rewrite elem_of_union, !elem_of_signals_in, Z.lor_spec, orb_true_iff. naive_solver.
Qed.

Lemma signals_in_pow2 i : 0 ≤ i < 64 → signals_in 64 (2 ^ i) = {[i]}.
Proof.
  intros Hi. apply set_eq. intros j. rewrite elem_of_signals_in, elem_of_singleton. split.
  - intros [Hj Hb]. rewrite testbit_pow2, Z.eqb_eq in Hb by lia. done.
  - intros ->. split; [done|]. rewrite testbit_pow2 by lia. by apply Z.eqb_eq.
Qed.

(** Adding a bit that is not set. *)
Lemma add_new_bit x i : 0 ≤ x → 0 ≤ i → Z.testbit x i = false → x + 2 ^ i = Z.lor x (2 ^ i).
Proof.
  intros Hx Hi Hb. rewrite <- Z.lxor_lor; [apply Z.add_nocarry_lxor|]; apply Z.bits_inj'; intros j Hj;
    rewrite Z.land_spec, testbit_pow2, Z.bits_0 by done; destruct (Z.eqb_spec j i) as [->|]; by rewrite ?Hb, ?andb_false_r.
Qed.

Lemma in_u_lor x y : in_u 64 x → in_u 64 y → in_u 64 (Z.lor x y).
Proof.
  intros Hx Hy. pose proof (wrap_range 64 (Z.lor x y) ltac:(lia)) as Hw. replace (Z.lor x y) with (wrap 64 (Z.lor x y)); [done|].
  unfold wrap. rewrite <- !Z.land_ones, Z.land_lor_distr_l, !Z.land_ones by lia.
  by rewrite !Z.mod_small by (unfold in_u in *; lia).
Qed.

Lemma eventfd_signal_spec fd S i k : 0 ≤ i < 64 → i ∉ S → S ∪ {[i]} ≠ signals_in 64 (2 ^ 64 - 1) → eventfd_rep fd S k →
  ∃ k', runs (eventfd_signal fd i) k tt k' ∧ eventfd_rep fd (S ∪ {[i]}) k'.
Proof.
  intros Hi HiS Hall [Hu HS]. assert (Z.testbit (counter fd k) i = false) as Hb.
  { apply not_true_iff_false. intros Hb. apply HiS. rewrite <- HS. by apply elem_of_signals_in. }
  pose proof (shiftl_in_u i Hi) as Hsh. assert (in_u 64 (2 ^ i)) as Hp by (rewrite <- Hsh; by apply wrap_range).
  assert (0 ≤ counter fd k) as H0k by apply Hu. pose proof (add_new_bit (counter fd k) i H0k (proj1 Hi) Hb) as Hadd.
  assert (in_u 64 (counter fd k + 2 ^ i)) as Hu' by (rewrite Hadd; by apply in_u_lor).
  assert (signals_in 64 (counter fd k + 2 ^ i) = S ∪ {[i]}) as HS' by (rewrite Hadd, signals_in_lor, signals_in_pow2, HS by done; done).
  destruct (eventfd_write_law fd (2 ^ i) k) as (k' & Hr & Hk'); [apply Hp| |].
  { destruct (decide (counter fd k + 2 ^ i = 2 ^ 64 - 1)) as [E|]; [|unfold in_u in Hu'; lia].
    destruct Hall. rewrite <- HS'. by rewrite E. }
  exists k'. unfold eventfd_rep. rewrite Hk'. split; [|done]. unfold eventfd_signal. rewrite Hsh.
  eapply (runs_bind _ _ _ tt); [apply runs_assert; split; [lia|done]|].
  by eapply runs_bind.
Qed.

Lemma eventfd_check_spec fd S k : eventfd_rep fd S k →
  ∃ v k', runs (eventfd_check fd) k v k' ∧ signals_in 64 v = S ∧ eventfd_rep fd ∅ k'.
Proof.
  intros [Hu HS]. destruct (eventfd_read_law fd k) as (a & k' & Hr & Hk' & ->). exists (counter fd k), k'.
  split; [|split; [done|]].
  - eapply runs_bind; [exact Hr|]. by destruct (Z.eqb_spec (counter fd k) 0) as [->|].
  - unfold eventfd_rep. rewrite Hk'. done.
Qed.

(** A queue of signals with one more, and without those at its head. *)
Lemma queue_add (q : list Z) (S : gset Z) i : list_to_set q = S → NoDup q → Forall (in_u 6) q → 0 ≤ i < 64 → i ∉ S →
  list_to_set (q ++ [i]) = S ∪ {[i]} ∧ NoDup (q ++ [i]) ∧ Forall (in_u 6) (q ++ [i]).
Proof.
  intros HS Hn Hq Hi HiS. split_and!.
  - rewrite list_to_set_app_L, HS. set_solver.
  - apply NoDup_app. split_and!; [done| |apply NoDup_singleton]. intros x Hx Hx2%list_elem_of_singleton. subst x.
    apply HiS. rewrite <- HS. by apply elem_of_list_to_set.
  - apply Forall_app. split; [done|]. by apply Forall_singleton.
Qed.

Lemma pair_signal_spec p S i k : 0 ≤ i < 64 → i ∉ S → pair_rep p S k →
  ∃ k', runs (pair_signal p i) k tt k' ∧ pair_rep p (S ∪ {[i]}) k'.
Proof.
  intros Hi HiS (HS & Hn & Hq). destruct (pair_send_law (w p) (r p) (u8 i) k) as (k' & Hr & Hk').
  assert (u8 i = i) as E8 by (apply wrap_small; unfold in_u; lia). rewrite E8 in *. exists k'. split.
  - unfold pair_signal. rewrite E8.
    eapply (runs_bind _ _ _ tt); [apply runs_assert; split; [lia|done]|].
    by eapply runs_bind.
  - unfold pair_rep. rewrite Hk'. by apply queue_add.
Qed.

Lemma collect_signals_spec buffer : ∀ signals, Forall (in_u 6) buffer →
  ∃ v, collect_signals buffer signals = Ok v ∧ signals_in 64 v = signals_in 64 signals ∪ list_to_set buffer.
Proof.
  induction buffer as [|b buffer IH]; intros signals Hb; simpl; [exists signals; split; [done|set_solver]|].
  apply Forall_cons in Hb as [Hb Hbs]. change (0 ≤ b < 64) in Hb. destruct (Z.ltb_spec b 64); [|lia].
  destruct (IH (Z.lor signals (u64 (Z.shiftl 1 b))) Hbs) as (v & Hv & E). exists v. split; [done|].
  rewrite E, signals_in_lor, shiftl_in_u, signals_in_pow2 by done. set_solver.
Qed.

Lemma queue_take (S : gset Z) (bs q : list Z) : list_to_set (bs ++ q) = S → NoDup (bs ++ q) → Forall (in_u 6) (bs ++ q) → bs ≠ [] →
  ∃ v, collect_signals bs 0 = Ok v ∧ signals_in 64 v ≠ ∅ ∧ signals_in 64 v ⊆ S ∧
    list_to_set q = S ∖ signals_in 64 v ∧ NoDup q ∧ Forall (in_u 6) q.
Proof.
  intros HS Hn Hq Hbs. apply Forall_app in Hq as [Hq1 Hq2]. apply NoDup_app in Hn as (Hn1 & Hn12 & Hn2).
  destruct (collect_signals_spec bs 0 Hq1) as (v & Hv & E). exists v.
  assert (signals_in 64 v = list_to_set bs) as Ev by (rewrite E; apply (left_id_L ∅ (∪))).
  rewrite Ev. rewrite list_to_set_app_L in HS. split_and!; [done| | | |done..].
  - clear -Hbs. destruct bs; [done|]. set_solver.
  - clear -HS. set_solver.
  - rewrite <- HS. clear -Hn12. apply set_eq. intros x. rewrite elem_of_difference, elem_of_union, !elem_of_list_to_set. naive_solver.
Qed.

(** A check that finds signals reports some of them. *)
Lemma pair_check_spec p S k : pair_rep p S k → S ≠ ∅ →
  ∃ v k', runs (pair_check p) k v k' ∧ signals_in 64 v ≠ ∅ ∧ signals_in 64 v ⊆ S ∧ pair_rep p (S ∖ signals_in 64 v) k'.
Proof.
  intros (HS & Hn & Hq) Hne. destruct (pair_recv_law (w p) (r p) 32 k ltac:(lia)) as (a & k' & Hr & Ha).
  destruct (queue (w p) (r p) k) as [|b0 q0] eqn:Eq; [by destruct Hne; rewrite <- HS|].
  destruct Ha as (bs & -> & Hbs & Eapp). rewrite Eapp in *.
  destruct (queue_take S bs (queue (w p) (r p) k')) as (v & Hv & E1 & E2 & E3); [done..|]. exists v, k'. split; [|done].
  eapply runs_bind; [exact Hr|]. simpl. by rewrite Hv.
Qed.

(** Without a signal it ends the program, where the interface promises
    zero. *)
Lemma pair_check_empty_aborts p k : pair_rep p ∅ k → pair_check p k = Crash AssertFailed.
Proof.
  intros (HS & _ & _). destruct (pair_recv_law (w p) (r p) 32 k ltac:(lia)) as (a & k' & Hr & Ha).
  destruct (queue (w p) (r p) k) as [|b0 q0]; [|set_solver]. destruct Ha as [-> _].
  unfold pair_check, mbind, st_bind. unfold runs in Hr. by rewrite Hr.
Qed.

Lemma not_all_signals (S : gset Z) i : (size S < 63)%nat → S ∪ {[i]} ≠ signals_in 64 (2 ^ 64 - 1).
Proof.
  intros Hs E. assert (size (signals_in 64 (2 ^ 64 - 1)) = 64%nat) as H64 by (vm_compute; reflexivity).
  rewrite <- E, size_union_alt in H64. pose proof (subseteq_size ({[i]} ∖ S) {[i]} ltac:(clear; set_solver)) as Hsub.
  rewrite size_singleton in Hsub. lia.
Qed.

End ysocketpair.
