(* ===== verification/WinSockets.v ===== *)
(** The variants over Windows sockets ([src/libzmq/tcp_socket.cpp],
    [tcp_listener.cpp], [ysocketpair.cpp], [err.cpp]), and signals on every
    platform. *)
From S2P Require Import Prelude Atomics TcpSocket Listening PollSet Signaler.
Local Open Scope Z_scope.

(** ** The operating system *)

Inductive wsa_errno := WSAEWOULDBLOCK | WSAEINPROGRESS | WSAECONNRESET | WSAECONNREFUSED | WSAENOTCONN | WSAEOTHER.
#[export] Instance wsa_errno_eq_dec : EqDecision wsa_errno.
Proof. solve_decision. Defined.

(** Calls that fail give [None] or [false] and leave their reason behind;
    [Sockets] and [IpCalls] are there for the look-up of names. *)
Class WinSockets (N : Type) := {
  win_last_error : ST N wsa_errno;
  win_socket : ST N (option fd_t);
  win_ioctl_nonblocking : fd_t → ST N bool;
  win_nodelay : fd_t → ST N bool;
  win_reuseaddr : fd_t → ST N bool;
  win_connect : fd_t → sockaddr_in → ST N bool;
  win_closesocket : fd_t → ST N bool;
  win_send : fd_t → list Z → ST N (option Z);
  win_recv : fd_t → nat → ST N (option (list Z));
  win_so_error : fd_t → ST N (option Z);
  win_bind : fd_t → sockaddr_in → ST N bool;
  win_getsockname : fd_t → ST N (option sockaddr_in);
  win_listen : fd_t → Z → ST N bool;
  win_accept : fd_t → ST N (option fd_t);
  win_gethostname : nat → ST N (option cstring);
  win_inet_ntoa : in_addr → ST N cstring
}.

Section windows.
Context {N : Type} `{!Sockets N, !IpCalls N, !WinSockets N}.

(** ** err.cpp *)

(** Whether there is a message. *)
Definition wsa_error : ST N bool :=
  errcode ← win_last_error;
  mret (negb (bool_decide (errcode = WSAEWOULDBLOCK))).

Definition wsa_assert (x : bool) : ST N unit :=
  if x then mret tt else errstr ← wsa_error; st_assert (negb errstr).

Definition win_assert (x : bool) : ST N unit := st_assert x.

(** A socket that is checked not to be invalid. *)
Definition valid_socket (s : option fd_t) : ST N fd_t :=
  wsa_assert (bool_decide (is_Some s)) ;;
  mret (default retired_fd s).

(** ** tcp_socket_t *)

Definition win_tcp_close (t : tcp_socket_t) : ST N tcp_socket_t :=
  st_assert (negb (s t =? retired_fd)) ;;
  rc ← win_closesocket (s t);
  wsa_assert rc ;;
  mret (t <| s := retired_fd |>).

Definition win_tcp_options (t : tcp_socket_t) : ST N unit :=
  st_when (negb (block t)) (rc ← win_ioctl_nonblocking (s t); wsa_assert rc) ;;
  rc ← win_nodelay (s t);
  wsa_assert rc.

Definition win_tcp_reopen (t : tcp_socket_t) : ST N tcp_socket_t :=
  st_assert (s t =? retired_fd) ;;
  st_assert (bool_decide (hostname t ≠ [])) ;;
  ip_address ← resolve_ip_hostname (hostname t);
  f ← win_socket;
  f ← valid_socket f;
  let t := t <| s := f |> in
  win_tcp_options t ;;
  rc ← win_connect (s t) ip_address;
  st_when (block t) (wsa_assert rc) ;;
  if (rc : bool) then mret t
  else
    e ← win_last_error;
    if bool_decide (e = WSAEINPROGRESS) || bool_decide (e = WSAEWOULDBLOCK) then mret t else win_tcp_close t.

Definition win_tcp_socket_new (hostname_ : cstring) (block_ : bool) : ST N tcp_socket_t :=
  win_tcp_reopen (TcpSocket retired_fd hostname_ block_).

Definition win_tcp_socket_from (fd_ : fd_t) (block_ : bool) : ST N tcp_socket_t :=
  let t := TcpSocket fd_ [] block_ in
  wsa_assert (negb (s t =? retired_fd)) ;;
  win_tcp_options t ;;
  mret t.

Definition win_tcp_delete (t : tcp_socket_t) : ST N unit :=
  st_when (negb (s t =? retired_fd)) (win_tcp_close t ;; mret tt).

Definition win_tcp_write (t : tcp_socket_t) (data : list Z) : ST N Z :=
  nbytes ← win_send (s t) data;
  match nbytes with
  | None =>
      e ← win_last_error;
      if bool_decide (e = WSAEWOULDBLOCK) then mret 0
      else if bool_decide (e = WSAECONNRESET) then mret (-1)
      else wsa_assert false ;; mret (-1)
  | Some n => mret n
  end.

Definition win_tcp_read (t : tcp_socket_t) (size : nat) : ST N (option (list Z)) :=
  nbytes ← win_recv (s t) size;
  match nbytes with
  | None =>
      e ← win_last_error;
      if bool_decide (e = WSAEWOULDBLOCK) then mret (Some [])
      else if bool_decide (e ∈ [WSAECONNRESET; WSAECONNREFUSED; WSAENOTCONN]) then mret None
      else wsa_assert false ;; mret None
  | Some [] => mret None
  | Some bs => mret (Some bs)
  end.

Definition win_socket_error (t : tcp_socket_t) : ST N bool :=
  rc ← win_so_error (s t);
  wsa_assert (bool_decide (is_Some rc)) ;;
  err ← st_of_option BadAccess rc;
  mret (negb (err =? 0)).

(** ** tcp_listener_t *)

(** The result of [gethostname] or [inet_ntoa], to which the port is appended
    in an array of 256 characters. *)
Definition win_interface (ip_address : sockaddr_in) : ST N cstring :=
  name ← (if sin_addr ip_address =? inaddr_any
          then r ← win_gethostname 256; wsa_assert (bool_decide (is_Some r)) ;; st_of_option BadAccess r
          else a ← win_inet_ntoa (sin_addr ip_address); mret (take 255 a));
  let iface := name ++ colon :: decimal 5 (sin_port ip_address) in
  st_of_option BadAccess (guard (length iface < 256)%nat) ;;
  mret iface.

Definition win_listener_new (iface_ : cstring) (block : bool) : ST N tcp_listener_t :=
  ip_address ← resolve_ip_interface resolve_nic_windows iface_;
  s ← win_socket;
  s ← valid_socket s;
  rc ← win_reuseaddr s;
  wsa_assert rc ;;
  st_when (negb block) (rc ← win_ioctl_nonblocking s; wsa_assert rc) ;;
  rc ← win_bind s ip_address;
  wsa_assert rc ;;
  ip_address ← (if sin_port ip_address =? 0 then
                  addr ← win_getsockname s;
                  wsa_assert (bool_decide (is_Some addr)) ;;
                  mret (SockAddr (sin_addr ip_address) (from_option sin_port 0 addr))
                else mret ip_address);
  iface ← win_interface ip_address;
  rc ← win_listen s 1;
  wsa_assert rc ;;
  mret (TcpListener iface s).

Definition win_listener_accept (l : tcp_listener_t) : ST N fd_t :=
  sock ← win_accept (ls l);
  match sock with
  | Some f => mret f
  | None =>
      e ← win_last_error;
      if bool_decide (e = WSAEWOULDBLOCK) || bool_decide (e = WSAECONNRESET) then mret retired_fd
      else wsa_assert false ;; mret retired_fd
  end.

Definition win_listener_close (l : tcp_listener_t) : ST N tcp_listener_t :=
  st_assert (negb (ls l =? retired_fd)) ;;
  rc ← win_closesocket (ls l);
  wsa_assert rc ;;
  mret (TcpListener (iface l) retired_fd).

Definition win_listener_delete (l : tcp_listener_t) : ST N unit := win_listener_close l ;; mret tt.

(** ** ysocketpair_t *)

(** ["127.0.0.1:0"] *)
Definition any_local_port : cstring := [49; 50; 55; 46; 48; 46; 48; 46; 49; 58; 48].

Definition win_pair_new : ST N pair_t :=
  listener ← win_socket;
  listener ← valid_socket listener;
  addr ← resolve_ip_hostname any_local_port;
  rc ← win_bind listener addr;
  wsa_assert rc ;;
  name ← win_getsockname listener;
  wsa_assert (bool_decide (is_Some name)) ;;
  let addr := default addr name in
  rc ← win_listen listener 1;
  wsa_assert rc ;;
  w ← win_socket;
  w ← valid_socket w;
  rc ← win_connect w addr;
  wsa_assert rc ;;
  r ← win_accept listener;
  r ← valid_socket r;
  rc ← win_closesocket listener;
  wsa_assert rc ;;
  mret (Pair w r).

Definition win_pair_delete (p : pair_t) : ST N unit :=
  rc ← win_closesocket (w p);
  wsa_assert rc ;;
  rc ← win_closesocket (r p);
  wsa_assert rc.

Definition win_pair_signal (p : pair_t) (signal_ : Z) : ST N unit :=
  st_assert ((0 <=? signal_) && (signal_ <? 64)) ;;
  rc ← win_send (w p) [u8 signal_];
  win_assert (bool_decide (is_Some rc)).

(** Elements of the buffer are signed; a shift by a negative number is
    undefined. *)
Fixpoint win_collect (buffer : list Z) (signals : Z) : res Z :=
  match buffer with
  | [] => Ok signals
  | b :: buffer =>
      let c := swrap 8 b in
      if c <? 64 then
        if c <? 0 then Crash BadAccess else win_collect buffer (Z.lor signals (u64 (Z.shiftl 1 c)))
      else Crash AssertFailed
  end.

Definition win_pair_check (p : pair_t) : ST N Z :=
  nbytes ← win_recv (r p) 32;
  win_assert (bool_decide (is_Some nbytes)) ;;
  match win_collect (default [] nbytes) 0 with Ok signals => mret signals | Crash f => st_crash f end.
End windows.

(** ** Contracts *)

(** Transfers are no longer than asked for; a receive that fails has a reason. *)
Class WinSocketsLaws (N : Type) `{WinSockets N} := {
  win_socket_law n f n' : runs win_socket n (Some f) n' → 0 ≤ f;
  win_send_law f bs n k n' : runs (win_send f bs) n (Some k) n' → 0 ≤ k ≤ Z.of_nat (length bs);
  win_recv_law f k n bs n' : runs (win_recv f k) n (Some bs) n' → (length bs ≤ k)%nat
}.

Section contracts.
Context {N : Type} `{!Sockets N, !IpCalls N, WinSocketsLaws N}.
Implicit Types (n : N) (t : tcp_socket_t).

Lemma wsa_assert_inv x n n' : runs (wsa_assert x) n tt n' → x = true ∨ ∃ n1, runs win_last_error n WSAEWOULDBLOCK n1.
Proof.
  destruct x; [by left|]. unfold wsa_assert, wsa_error. intros Hr. st_inv.
  match goal with H : negb (negb (bool_decide _)) = true |- _ => rewrite negb_involutive in H; apply bool_decide_eq_true in H as -> end. eauto.
Qed.

Lemma win_close_spec t n t' n' : runs (win_tcp_close t) n t' n' → s t ≠ retired_fd ∧ t' = t <| s := retired_fd |>.
Proof.
  unfold win_tcp_close. intros Hr. st_inv. split; [|done].
  match goal with H : negb _ = true |- _ => by apply negb_true_iff, Z.eqb_neq in H end.
Qed.

Lemma valid_socket_spec o n f n' : runs (valid_socket o) n f n' → f = default retired_fd o.
Proof. unfold valid_socket. intros Hr. by st_inv. Qed.

Lemma win_reopen_spec t n t' n' : runs (win_tcp_reopen t) n t' n' →
  s t = retired_fd ∧ (s t' = retired_fd ∨ 0 ≤ s t') ∧ hostname t' = hostname t ∧ block t' = block t.
Proof.
  unfold win_tcp_reopen. intros Hr. st_inv.
  repeat match goal with H : (_ =? _) = true |- _ => apply Z.eqb_eq in H end.
  match goal with H : runs (valid_socket _) _ _ _ |- _ => apply valid_socket_spec in H as -> end.
  match goal with H : runs win_socket _ ?o _ |- _ => assert (default retired_fd o = retired_fd ∨ 0 ≤ default retired_fd o) as Hf by
    (destruct o; [right; by eapply win_socket_law|by left]) end.
  match goal with H : runs (if ?b then _ else _) _ _ _ |- _ => destruct b; st_inv; [by split_and!|] end.
  destruct (_ || _); [st_inv; by split_and!|].
  match goal with H : runs (win_tcp_close _) _ _ _ |- _ => apply win_close_spec in H as [_ ->] end. simpl. split_and!; [done|by left|done..].
Qed.

Lemma win_write_spec t data n k n' : runs (win_tcp_write t data) n k n' → k = -1 ∨ 0 ≤ k ≤ Z.of_nat (length data).
Proof.
  unfold win_tcp_write. intros Hr. st_inv. match goal with H : runs (win_send _ _) _ ?x _ |- _ => destruct x end.
  - st_inv. right. by eapply win_send_law.
  - st_inv. repeat case_bool_decide; st_inv; [right; lia|by left..].
Qed.

Lemma win_read_spec t size n o n' : runs (win_tcp_read t size) n o n' → from_option (λ bs, length bs ≤ size)%nat True o.
Proof.
  unfold win_tcp_read. intros Hr. st_inv. match goal with H : runs (win_recv _ _) _ ?x _ |- _ => destruct x as [[|b bs]|] end.
  - by st_inv.
  - st_inv. simpl. by eapply (win_recv_law _ _ _ (b :: bs)).
  - st_inv. repeat case_bool_decide; st_inv; simpl; (lia || done).
Qed.
End contracts.

(** ** Signals *)

(** Two connected sockets are a queue of bytes: a receive takes some, and waits
    when there are none. *)
Class WinPairLaws (N : Type) `{WinSockets N} := {
  win_queue : fd_t → fd_t → N → list Z;
  win_pair_send_law w r b n : ∃ n', runs (win_send w [b]) n (Some 1) n' ∧ win_queue w r n' = win_queue w r n ++ [b];
  win_pair_recv_law w r k n : (0 < k)%nat →
    match win_queue w r n with
    | [] => win_recv r k n = Crash Blocked
    | q => ∃ bs n', runs (win_recv r k) n (Some bs) n' ∧ bs ≠ [] ∧ q = bs ++ win_queue w r n'
    end
}.

Section win_signals.
Context {N : Type} `{WinPairLaws N}.

Definition win_pair_rep (p : pair_t) (S : gset Z) (n : N) : Prop :=
  list_to_set (win_queue (w p) (r p) n) = S ∧ NoDup (win_queue (w p) (r p) n) ∧ Forall (in_u 6) (win_queue (w p) (r p) n).

Lemma win_signal_spec p S i n : 0 ≤ i < 64 → i ∉ S → win_pair_rep p S n →
  ∃ n', runs (win_pair_signal p i) n tt n' ∧ win_pair_rep p (S ∪ {[i]}) n'.
Proof.
  intros Hi HiS (HS & Hn & Hq). destruct (win_pair_send_law (w p) (r p) (u8 i) n) as (n' & Hr & Hn').
  assert (u8 i = i) as E8 by (apply wrap_small; unfold in_u; lia). rewrite E8 in *. exists n'. split.
  - unfold win_pair_signal. rewrite E8. eapply (runs_bind _ _ _ tt); [apply runs_assert; split; [lia|done]|]. by eapply runs_bind.
  - unfold win_pair_rep. rewrite Hn'. by apply queue_add.
Qed.

(** Signals are small enough for signed characters. *)
Lemma win_collect_signals buffer : Forall (in_u 6) buffer → ∀ signals, win_collect buffer signals = collect_signals buffer signals.
Proof.
  induction 1 as [|b buffer Hb Hbs IH]; intros signals; [done|]. simpl. change (0 ≤ b < 64) in Hb.
  rewrite swrap_small by lia. rewrite (proj2 (Z.ltb_ge b 0)) by lia. by rewrite IH.
Qed.

Lemma win_check_spec p S n : win_pair_rep p S n → S ≠ ∅ →
  ∃ v n', runs (win_pair_check p) n v n' ∧ signals_in 64 v ≠ ∅ ∧ signals_in 64 v ⊆ S ∧ win_pair_rep p (S ∖ signals_in 64 v) n'.
Proof.
  intros (HS & Hn & Hq) Hne. pose proof (win_pair_recv_law (w p) (r p) 32 n ltac:(lia)) as Ha.
  destruct (win_queue (w p) (r p) n) as [|b0 q0] eqn:Eq; [by destruct Hne; rewrite <- HS|].
  destruct Ha as (bs & n' & Hr & Hbs & Eapp). rewrite Eapp in *.
  destruct (queue_take S bs (win_queue (w p) (r p) n')) as (v & Hv & E1 & E2 & E3); [done..|]. exists v, n'. split; [|done].
  eapply runs_bind; [exact Hr|]. eapply (runs_bind _ _ _ tt); [done|]. simpl. apply Forall_app in Hq as [Hq _].
  by rewrite win_collect_signals, Hv.
Qed.

(** Without a signal the check waits, where the interface promises zero. *)
Lemma win_check_waits p n : win_pair_rep p ∅ n → win_pair_check p n = Crash Blocked.
Proof.
  intros (HS & _ & _). pose proof (win_pair_recv_law (w p) (r p) 32 n ltac:(lia)) as Ha.
  destruct (win_queue (w p) (r p) n) as [|b0 q0]; [|set_solver]. unfold win_pair_check, mbind, st_bind. by rewrite Ha.
Qed.
End win_signals.

(** C40: signals are not lost and not reported twice, over eventfd, over a
    socket pair, and over two connected Windows sockets: a signal that is not
    pending becomes pending when it is sent, along with those that were, and
    the check that follows reports pending signals and nothing else (over
    eventfd all of them, over sockets at least one), which are then not pending
    any more. *)
Theorem signals_arrive (K : Type) `{SignalFdsLaws K, WinPairLaws K} fd p S i k : 0 ≤ i < 64 → i ∉ S → (size S < 63)%nat →
  (eventfd_rep fd S k → ∃ k' v k'', runs (eventfd_signal fd i) k tt k' ∧ eventfd_rep fd (S ∪ {[i]}) k' ∧
     runs (eventfd_check fd) k' v k'' ∧ signals_in 64 v = S ∪ {[i]} ∧ eventfd_rep fd ∅ k'') ∧
  (pair_rep p S k → ∃ k' v k'', runs (pair_signal p i) k tt k' ∧ pair_rep p (S ∪ {[i]}) k' ∧
     runs (pair_check p) k' v k'' ∧ signals_in 64 v ≠ ∅ ∧ signals_in 64 v ⊆ S ∪ {[i]} ∧
     pair_rep p ((S ∪ {[i]}) ∖ signals_in 64 v) k'') ∧
  (win_pair_rep p S k → ∃ k' v k'', runs (win_pair_signal p i) k tt k' ∧ win_pair_rep p (S ∪ {[i]}) k' ∧
     runs (win_pair_check p) k' v k'' ∧ signals_in 64 v ≠ ∅ ∧ signals_in 64 v ⊆ S ∪ {[i]} ∧
     win_pair_rep p ((S ∪ {[i]}) ∖ signals_in 64 v) k'').
Proof.
  intros Hi HiS Hs. assert (S ∪ {[i]} ≠ ∅) as Hne by (clear; set_solver). split_and!; intros Hrep.
  - destruct (eventfd_signal_spec fd S i k) as (k' & H1' & R1); [done..|by apply not_all_signals|done|].
    destruct (eventfd_check_spec fd _ k' R1) as (v & k'' & H2' & E & R2). by exists k', v, k''.
  - destruct (pair_signal_spec p S i k) as (k' & H1' & R1); [done..|].
    destruct (pair_check_spec p _ k' R1 Hne) as (v & k'' & H2' & Hv & Hsub & R2). by exists k', v, k''.
  - destruct (win_signal_spec p S i k) as (k' & H1' & R1); [done..|].
    destruct (win_check_spec p _ k' R1 Hne) as (v & k'' & H2' & Hv & Hsub & R2). by exists k', v, k''.
Qed.

(** ** A kernel with both *)

Record sigk := SigK { cnt : Z; q : list Z }.

#[export] Instance sigk_sockets : Sockets sigk := {
  sys_getaddrinfo _ := mret None;
  sys_socket := mret (-1);
  sys_nonblocking _ := mret true;
  sys_nodelay _ := mret true;
  sys_connect _ _ := mret None;
  sys_close _ := mret true;
  sys_send _ bs := λ k, Ok (inl (Z.of_nat (length bs)), SigK (cnt k) (q k ++ bs));
  sys_recv _ n _ := λ k, Ok (match q k with [] => inr EAGAIN | q => inl (take n q) end, SigK (cnt k) (drop n (q k)));
  sys_so_error _ := mret None;
  sys_accept _ := mret (inr EAGAIN)
}.

#[export] Instance sigk_fds : SignalFds sigk := {
  sys_eventfd := mret 3;
  sys_eventfd_write _ v := λ k, Ok (inl 8, SigK (cnt k + v) (q k));
  sys_eventfd_read _ := λ k, Ok (if cnt k =? 0 then inr EAGAIN else inl (cnt k), SigK 0 (q k));
  sys_socketpair := mret (Some (3, 4))
}.

#[export, refine] Instance sigk_laws : SignalFdsLaws sigk := { counter _ := cnt; queue _ _ := q }.
Proof.
  - intros f v k _ _. by eexists.
  - intros f k. by eexists _, _.
  - intros w r b k. by eexists.
  - intros w r n k Hn. eexists _, _. split; [done|]. simpl. destruct (q k) as [|b l]; [by destruct n|].
    exists (take n (b :: l)). split; [done|]. split; [by destruct n; [lia|]|]. by rewrite take_drop.
Defined.

(** Of connected sockets; calls fail with [WSAEWOULDBLOCK] or not at all. *)
#[export] Instance sigk_windows : WinSockets sigk := {
  win_last_error := mret WSAEWOULDBLOCK;
  win_socket := mret (Some 3);
  win_ioctl_nonblocking _ := mret true;
  win_nodelay _ := mret true;
  win_reuseaddr _ := mret true;
  win_connect _ _ := mret true;
  win_closesocket _ := mret true;
  win_send _ bs := λ k, Ok (Some (Z.of_nat (length bs)), SigK (cnt k) (q k ++ bs));
  win_recv _ n := λ k, match q k with [] => Crash Blocked | q => Ok (Some (take n q), SigK (cnt k) (drop n q)) end;
  win_so_error _ := mret (Some 0);
  win_bind _ _ := mret true;
  win_getsockname _ := mret (Some (SockAddr localhost 5000));
  win_listen _ _ := mret true;
  win_accept _ := mret (Some 4);
  win_gethostname _ := mret None;
  win_inet_ntoa _ := mret []
}.

#[export, refine] Instance sigk_pairs : WinPairLaws sigk := { win_queue _ _ := q }.
Proof.
  - intros w r b k. by eexists.
  - intros w r n k Hn. unfold runs. simpl. destruct (q k) as [|b l]; [done|]. exists (take n (b :: l)). eexists. split; [done|].
    split; [by destruct n; [lia|]|]. simpl. by rewrite take_drop.
Defined.

#[export] Instance sigk_bounds : WinSocketsLaws sigk.
Proof.
  split.
  - intros k f k' Hr. vm_compute in Hr. simplify_eq. lia.
  - intros f bs k j k' Hr. unfold runs in Hr. simpl in Hr. simplify_eq. lia.
  - intros f n k bs k' Hr. unfold runs in Hr. simpl in Hr. destruct (q k); simplify_eq. rewrite length_take. lia.
Defined.

(** What a socket reads at once: on POSIX a blocking socket waits for all
    bytes. *)
Lemma blocking_read_is_short : runs (win_tcp_read (TcpSocket 4 [] true) 5) (SigK 0 [1; 2]) (Some [1; 2]) (SigK 0 []).
Proof. done. Qed.

Lemma signals_arrive_witness : ∃ k' v k'',
  runs (win_pair_signal (Pair 3 4) 5) (SigK 0 [7]) tt k' ∧ runs (win_pair_check (Pair 3 4)) k' v k'' ∧ signals_in 64 v ≠ ∅ ∧
  signals_in 64 v ⊆ {[7; 5]}.
Proof.
  destruct (signals_arrive sigk 3 (Pair 3 4) {[7]} 5 (SigK 0 [7])) as (_ & _ & H).
  - split; [discriminate|reflexivity].
  - intros H%elem_of_singleton. discriminate H.
  - rewrite size_singleton. lia.
  - destruct H as (k' & v & k'' & H1 & _ & H2 & H3 & H4 & _).
    + split; [apply (right_id_L ∅ (∪))|]. split; [apply NoDup_singleton|]. apply Forall_singleton. split; [discriminate|reflexivity].
    + exists k', v, k''. split; [exact H1|]. split; [exact H2|]. split; [exact H3|exact H4].
Defined.
