(* ===== verification/Locator.v ===== *)
(** The client of the directory service ([src/libzmq/locator.cpp]): it
    registers and resolves global objects over a connection to
    [zmq_server]. *)
From S2P Require Import Prelude Config Attributes TcpSocket.
Local Open Scope Z_scope.

(** [zmq/server_protocol.hpp]. *)
Definition create_id : Z := 1.
Definition create_ok_id : Z := 2.
Definition get_id : Z := 3.
Definition get_ok_id : Z := 4.
Definition fail_id : Z := 5.

Definition strlen (s : string) : Z := Z.of_nat (String.length s).

Section locator.
(** [indeterminate] is what the [char] arrays on the stack hold before they
    are written. *)
Context {N : Type} `{!Sockets N} (indeterminate : list Z).

Record locator_t := Locator { global_locator : option tcp_socket_t; net : N }.
#[local] Instance eta_locator : Eta locator_t := λ l, Locator (global_locator l) (net l).

Definition on_locator_net {A} : ST N A → ST locator_t A := st_lift net (λ n l, l <| net := n |>).

(** The array that the name with the port is printed to ends with its block,
    before the name is used. *)
Definition locator_new (hostname_ : option cstring) (n : N) : res locator_t :=
  match hostname_ with
  | Some hostname =>
      match split_at colon hostname with
      | None => Crash UseAfterFree
      | Some _ => '(t, n) ← tcp_socket_new hostname true n; Ok (Locator (Some t) n)
      end
  | None => Ok (Locator None n)
  end.

Definition locator_delete : ST locator_t unit :=
  l ← st_get;
  match global_locator l with
  | Some t => st_when (negb (s t =? retired_fd)) (on_locator_net (tcp_close t) ;; mret tt)
  | None => mret tt
  end.

(** [write (&size, 1)] and [write (s, size)]; what they return is not looked
    at. *)
Definition send_string (t : tcp_socket_t) (s : string) : ST N unit :=
  let size := u8 (strlen s) in
  tcp_write t [size] ;; tcp_write t (take (Z.to_nat size) (bytes_of s)) ;; mret tt.

(** [read (&c, 1)] and [read (buf, size)]: what they return is not looked at;
    the memory keeps its contents where nothing is read. *)
Definition read_char (t : tcp_socket_t) (c : Z) : ST N Z :=
  bs ← tcp_read t 1;
  mret (match bs with Some (b :: _) => b | _ => c end).

Definition read_buf (t : tcp_socket_t) (buf : list Z) (size : Z) : ST N (list Z) :=
  bs ← tcp_read t (Z.to_nat size);
  st_of_option BadAccess (overwrite 0 (default [] bs) buf).

Definition locator_register_endpoint (name_ : string) (attrs_ : attr_list_t) : ST locator_t unit :=
  l ← st_get;
  t ← st_of_option AssertFailed (global_locator l);
  st_assert (strlen name_ <=? 255) ;;
  on_locator_net (tcp_write t [create_id]) ;;
  on_locator_net (send_string t name_) ;;
  st_for (in_key_order attrs_) (λ '(key, value),
    st_assert (strlen key <? 256) ;;
    on_locator_net (send_string t key) ;;
    st_assert (strlen value <? 256) ;;
    on_locator_net (send_string t value)) ;;
  on_locator_net (tcp_write t [0]) ;;
  cmd ← on_locator_net (read_char t create_id);
  st_assert (cmd =? create_ok_id).

(** The loop that reads attributes, [n] at most. *)
Fixpoint read_attributes (n : nat) (t : tcp_socket_t) (size : Z) (attrs_ : attr_list_t) : ST N attr_list_t :=
  if 0 <? size then
    match n with
    | O => st_crash OutOfFuel
    | S n =>
        buf ← read_buf t indeterminate size;
        let key := string_of (take (Z.to_nat size) buf) in
        size ← read_char t size;
        buf ← read_buf t buf size;
        let value := string_of (take (Z.to_nat size) buf) in
        size ← read_char t size;
        read_attributes n t size (<[key := value]> attrs_)
    end
  else mret attrs_.

Definition locator_resolve_endpoint (n : nat) (name_ : string) (attrs_ : attr_list_t) : ST locator_t attr_list_t :=
  l ← st_get;
  t ← st_of_option AssertFailed (global_locator l);
  on_locator_net (tcp_write t [get_id]) ;;
  on_locator_net (send_string t name_) ;;
  cmd ← on_locator_net (read_char t get_id);
  st_assert (cmd =? get_ok_id) ;;
  size ← on_locator_net (read_char t (u8 (strlen name_)));
  on_locator_net (read_attributes n t size attrs_).
End locator.

Arguments locator_t : clear implicits.
#[export] Existing Instance eta_locator.

(** The locator behind the interface that dispatchers use; [n] bounds the
    attributes of an object. *)
Definition locator_i_locator {N} `{!Sockets N} (indeterminate : list Z) (n : nat) : ILocator (locator_t N) := {|
  register_endpoint := locator_register_endpoint;
  resolve_endpoint := locator_resolve_endpoint indeterminate n
|}.
