(* ===== verification/DirectoryServer.v ===== *)
(** The directory server ([src/zmq_server/zmq_server.cpp]). *)
From S2P Require Import Prelude Config Attributes TcpSocket Locator.
Local Open Scope Z_scope.

Definition object_table_t := gmap string attr_list_t.

Section server.
Context {N : Type} `{!Sockets N}.

Record server_t := Server {
  objects : object_table_t;
  socket_list : list tcp_socket_t;
  source_set_fds : gset Z;
  maxfdp1 : Z;
  listening_socket : fd_t;
  server_net : N
}.
#[local] Instance eta_server : Eta server_t := λ v,
  Server (objects v) (socket_list v) (source_set_fds v) (maxfdp1 v) (listening_socket v) (server_net v).

Definition on_server_net {A} : ST N A → ST server_t A := st_lift server_net (λ n v, v <| server_net := n |>).

(** [n = s->read (buf, size); if (n != size) return -1;] *)
Definition read_all (t : tcp_socket_t) (size : Z) : ST server_t (option (list Z)) :=
  bs ← on_server_net (tcp_read t (Z.to_nat size));
  mret (match bs with Some b => if Z.of_nat (List.length b) =? size then Some b else None | None => None end).

Definition read_one (t : tcp_socket_t) : ST server_t (option Z) :=
  bs ← read_all t 1; mret (bs ≫= List.head).

Definition write_all (t : tcp_socket_t) (bs : list Z) : ST server_t (option unit) :=
  n ← on_server_net (tcp_write t bs);
  mret (if n =? Z.of_nat (List.length bs) then Some tt else None).

(** The attributes of a new object; [n] bounds their number. *)
Fixpoint receive_attributes (n : nat) (t : tcp_socket_t) (size : Z) (attrs : attr_list_t)
    : ST server_t (option attr_list_t) :=
  if 0 <? size then
    match n with
    | O => st_crash OutOfFuel
    | S n =>
        key ←? read_all t size;
        size ←? read_one t;
        value ←? read_all t size;
        size ←? read_one t;
        receive_attributes n t size (<[string_of key := string_of value]> attrs)
    end
  else mret (Some attrs).

(** [None] is the result -1. *)
Definition register_object (n : nat) (t : tcp_socket_t) : ST server_t (option unit) :=
  size ←? read_one t;
  buf ←? read_all t size;
  let name := string_of buf in
  size ←? read_one t;
  attrs ←? receive_attributes n t size ∅;
  write_all t [create_ok_id] ;;?
  st_modify (λ v, v <| objects := <[name := attrs]> (objects v) |>) ;;
  mret (Some tt).

(** [size = s.size (); write (&size, 1); write (s.c_str (), size);] *)
Definition send_sized (t : tcp_socket_t) (s : string) : ST server_t (option unit) :=
  let size := u8 (strlen s) in
  write_all t [size] ;;?
  write_all t (take (Z.to_nat size) (bytes_of s)).

Fixpoint send_attributes (t : tcp_socket_t) (attrs : list (string * string)) : ST server_t (option unit) :=
  match attrs with
  | [] => mret (Some tt)
  | (key, val) :: attrs => send_sized t key ;;? send_sized t val ;;? send_attributes t attrs
  end.

Definition query_object (t : tcp_socket_t) : ST server_t (option unit) :=
  size ←? read_one t;
  buf ←? read_all t size;
  let name := string_of buf in
  v ← st_get;
  match (objects v !! name : option attr_list_t) with
  | None => write_all t [fail_id]
  | Some attrs =>
      write_all t [get_ok_id] ;;?
      send_attributes t (in_key_order attrs) ;;?
      write_all t [0]
  end.

(** ** main *)

Inductive arguments_t := Usage | Arguments_ (port : Z) (config_file : string).

(** The command line; [n] bounds the steps. *)
Fixpoint parse_arguments (n : nat) (argv : list string) (port : Z) (config_file : string) : option (res arguments_t) :=
  match n with
  | O => None
  | S n =>
      match argv with
      | [] => Some (Ok (Arguments_ port config_file))
      | arg :: rest =>
          if bool_decide (arg = "--help"%string) then Some (Ok Usage)
          else if bool_decide (arg = "--port"%string) then
            match rest with
            | [] => Some (Crash AssertFailed)
            | p :: rest => parse_arguments n rest (u16 (atoi (bytes_of p))) config_file
            end
          else if bool_decide (arg = "--config-file"%string) then
            match rest with
            | [] => Some (Crash AssertFailed)
            | c :: rest => parse_arguments n rest port c
            end
          else parse_arguments n argv port config_file
      end
  end.

(** The nodes that the parser found: their names and locations. *)
Fixpoint load_config (nodes : list (option string * option string)) (o : object_table_t) : res object_table_t :=
  match nodes with
  | [] => Ok o
  | (Some name, Some location) :: nodes =>
      load_config nodes (map_keep name ({["location"%string := location]} : attr_list_t) o)
  | _ => Crash AssertFailed
  end.

Definition server_new (fd_int : fd_t) (o : object_table_t) (n : N) : res server_t :=
  match fd_set_add fd_int ∅ with
  | Some fds => Ok (Server o [] fds (fd_int + 1) fd_int n)
  | None => Crash BadAccess
  end.

Definition accept_connection : ST server_t unit :=
  v ← st_get;
  f ← on_server_net (tcp_accept (listening_socket v));
  t ← on_server_net (tcp_socket_from f true);
  st_modify (λ v, v <| socket_list := socket_list v ++ [t] |>) ;;
  fds ← st_of_option BadAccess (fd_set_add (s t) (source_set_fds v));
  st_modify (λ v, v <| source_set_fds := fds |>) ;;
  st_when (maxfdp1 v <=? s t) (st_modify (λ v, v <| maxfdp1 := s t + 1 |>)).

(** What the label [error] leads to. *)
Definition close_connection (pos : nat) : ST server_t unit :=
  v ← st_get;
  t ← st_of_option BadAccess (socket_list v !! pos);
  st_when (negb (s t =? retired_fd)) (on_server_net (tcp_close t) ;; mret tt) ;;
  st_modify (λ v, v <| socket_list := take pos (socket_list v) ++ drop (S pos) (socket_list v) |>) ;;
  v ← st_get;
  fds ← st_of_option BadAccess (foldl (λ fds t, fds ← fds; fd_set_add (s t) fds)
    (fd_set_add (listening_socket v) ∅) (socket_list v));
  st_modify (λ v, v <| source_set_fds := fds |>).

(** Reads a command and obeys it; [None]: go to [error]. *)
Definition serve (n : nat) (t : tcp_socket_t) : ST server_t (option Z) :=
  cmd ←? read_one t;
  let rc (o : option unit) : Z := match o with Some _ => 0 | None => -1 end in
  if cmd =? create_id then o ← register_object n t; mret (Some (rc o))
  else if cmd =? get_id then o ← query_object t; mret (Some (rc o))
  else mret None.

(** The loop over the connections.  [rc] is the variable that [select] set
    before; [turns] bounds the turns. *)
Fixpoint traverse (n turns pos : nat) (rc : Z) (result_set_fds error_set_fds : gset Z) : ST server_t unit :=
  v ← st_get;
  match socket_list v !! pos with
  | None => mret tt
  | Some t =>
      match turns with
      | O => st_crash OutOfFuel
      | S turns =>
          let next := traverse n turns (S pos) in
          if bool_decide (s t ∈ error_set_fds) then close_connection pos ;; next rc result_set_fds error_set_fds
          else
            r ← (if bool_decide (s t ∈ result_set_fds) then serve n t else mret (Some rc) : ST server_t (option Z));
            match r with
            | None => close_connection pos ;; next rc result_set_fds error_set_fds
            | Some rc =>
                if rc =? 0 then next rc result_set_fds error_set_fds
                else close_connection pos ;; next rc result_set_fds error_set_fds
            end
      end
  end.

Section rounds.
(** [select] gives a number, or -1, and the sets of readable descriptors and
    of those with errors. *)
Context (sys_select : Z → gset Z → ST N (Z * gset Z * gset Z)).

Fixpoint select_wait (n : nat) : ST server_t (Z * gset Z * gset Z) :=
  match n with
  | O => st_crash OutOfFuel
  | S n =>
      v ← st_get;
      r ← on_server_net (sys_select (maxfdp1 v) (source_set_fds v));
      let '(rc, _, _) := r in
      st_assert (negb (rc =? -1)) ;;
      (if rc =? 0 then select_wait n else mret r : ST server_t (Z * gset Z * gset Z))
  end.

(** One turn of the loop of the server. *)
Definition server_round (n : nat) : ST server_t unit :=
  r ← select_wait n;
  let '(rc, result_set_fds, error_set_fds) := r in
  v ← st_get;
  if bool_decide (listening_socket v ∈ result_set_fds) then accept_connection
  else traverse n (List.length (socket_list v)) 0 rc result_set_fds error_set_fds.
End rounds.
End server.

Arguments server_t : clear implicits.
#[export] Existing Instance eta_server.
