(* ===== verification/Directory.v ===== *)
(** The directory service: a locator and the server at the two ends of a
    connection behave as a table of objects. *)
From S2P Require Import Prelude Config Attributes TcpSocket Locator DirectoryServer.
Local Open Scope Z_scope.

(** ** A connection *)

(** The server's end of a reliable connection: the bytes that it has not read
    yet, and those that it wrote and the client has not read. *)
Record conn := Conn { incoming : list Z; outgoing : list Z }.

(** Transfers are complete, as those of blocking sockets are; a read for
    which bytes are missing waits. *)
#[export] Instance conn_sockets : Sockets conn := {
  sys_getaddrinfo _ := mret None;
  sys_socket := mret (-1);
  sys_nonblocking _ := mret true;
  sys_nodelay _ := mret true;
  sys_connect _ _ := mret None;
  sys_close _ := mret true;
  sys_send _ bs := λ c, Ok (inl (Z.of_nat (List.length bs)), Conn (incoming c) (outgoing c ++ bs));
  sys_recv _ n _ := λ c,
    if bool_decide (n ≤ List.length (incoming c))%nat
    then Ok (inl (take n (incoming c)), Conn (drop n (incoming c)) (outgoing c))
    else Crash Blocked;
  sys_so_error _ := mret None;
  sys_accept _ := mret (inr EAGAIN)
}.

(** The client's end: the rest of the system.  [live] is lost when the server
    closes the connection. *)
Record wire := Wire { peer : server_t conn; live : bool }.

Section client_end.
(** The server's bound on attributes and its socket of this connection. *)
Context (n : nat) (st : tcp_socket_t).

Definition with_net (v : server_t conn) (i o : list Z) : server_t conn := v <| server_net := Conn i o |>.

(** The server obeys a command when the client waits for bytes: a read that
    finds the connection closed gets what is left. *)
Definition wire_recv (k : nat) : ST wire (list Z + errno) := λ w,
  let take_out v l :=
    let c := server_net v in
    if bool_decide (k ≤ List.length (outgoing c))%nat || negb l
    then Ok (inl (take k (outgoing c)), Wire (with_net v (incoming c) (drop k (outgoing c))) l)
    else Crash Blocked in
  if bool_decide (k ≤ List.length (outgoing (server_net (peer w))))%nat || negb (live w)
  then take_out (peer w) (live w)
  else
    match serve n st (peer w) with
    | Ok (rc, v) => take_out v (bool_decide (rc = Some 0))
    | Crash f => Crash f
    end.

Definition wire_sockets : Sockets wire := {|
  sys_getaddrinfo _ := mret (Some 0);
  sys_socket := mret 0;
  sys_nonblocking _ := mret true;
  sys_nodelay _ := mret true;
  sys_connect _ _ := mret None;
  sys_close _ := mret true;
  sys_send _ bs := λ w,
    Ok (inl (Z.of_nat (List.length bs)),
        let c := server_net (peer w) in Wire (with_net (peer w) (incoming c ++ bs) (outgoing c)) (live w));
  sys_recv _ k _ := wire_recv k;
  sys_so_error _ := mret None;
  sys_accept _ := mret (inr EAGAIN)
|}.
End client_end.

(** ** Messages *)

(** Strings that the protocol can carry. *)
Definition carried (s : string) : Prop := 0 < strlen s < 256.
Definition carried_attrs (attrs : attr_list_t) : Prop := map_Forall (λ k v, carried k ∧ carried v) attrs.

Definition sized (s : string) : list Z := strlen s :: bytes_of s.
Fixpoint sized_attrs (kvs : list (string * string)) : list Z :=
  match kvs with [] => [0] | (k, x) :: kvs => sized k ++ sized x ++ sized_attrs kvs end.

Lemma objects_with_net v i o : objects (with_net v i o) = objects v.
Proof. done. Qed.

Lemma carried_in_order attrs : carried_attrs attrs → Forall (λ kv, carried kv.1 ∧ carried kv.2) (in_key_order attrs).
Proof.
  intros Hc. rewrite in_key_order_perm. apply map_Forall_to_list in Hc. by eapply Forall_impl; [exact Hc|intros []].
Qed.

(** ** The server *)

Section server.
Context (t : tcp_socket_t).

Lemma read_all_conn v bs i o : bs ≠ [] →
  runs (read_all t (Z.of_nat (List.length bs))) (with_net v (bs ++ i) o) (Some bs) (with_net v i o).
Proof.
  intros Hbs. assert (tcp_read t (List.length bs) (Conn (bs ++ i) o) = Ok (Some bs, Conn i o)) as E.
  { unfold tcp_read, mbind, st_bind. simpl. rewrite bool_decide_true by (rewrite List.length_app; lia).
    rewrite take_app_length, drop_app_length. by destruct bs. }
  unfold runs, read_all, on_server_net, st_lift, mbind, st_bind. simpl. rewrite Nat2Z.id, E. by rewrite Z.eqb_refl.
Qed.

Lemma read_one_conn v b i o : runs (read_one t) (with_net v (b :: i) o) (Some b) (with_net v i o).
Proof. eapply runs_bind; [by apply (read_all_conn v [b])|done]. Qed.

Lemma read_all_string v s i o : carried s →
  runs (read_all t (strlen s)) (with_net v (bytes_of s ++ i) o) (Some (bytes_of s)) (with_net v i o).
Proof.
  intros Hs. unfold carried, strlen in *. rewrite <- length_bytes_of. apply read_all_conn. intros E.
  rewrite <- length_bytes_of, E in Hs. simpl in Hs. lia.
Qed.

Lemma write_all_conn v bs i o : runs (write_all t bs) (with_net v i o) (Some tt) (with_net v i (o ++ bs)).
Proof.
  unfold runs, write_all, on_server_net, tcp_write, st_lift, mbind, st_bind. simpl. by rewrite Z.eqb_refl.
Qed.

Lemma bind_runs {S A B} (m : ST S A) (k : A → ST S B) s a s1 : runs m s a s1 → (m ≫= k) s = k a s1.
Proof. unfold runs, mbind, st_bind. by intros ->. Qed.

Lemma runs_try {S A B} (m : ST S (option A)) (k : A → ST S (option B)) s a s1 b s2 :
  runs m s (Some a) s1 → runs (k a) s1 b s2 → runs (st_try m k) s b s2.
Proof. intros Hm Hk. unfold st_try. by eapply runs_bind. Qed.

Lemma receive_attributes_conn n kvs : ∀ v attrs i o c,
  Forall (λ kv, carried kv.1 ∧ carried kv.2) kvs → (List.length kvs ≤ n)%nat → sized_attrs kvs = c :: i →
  ∀ i', runs (receive_attributes n t c attrs) (with_net v (i ++ i') o)
    (Some (foldl (λ m kv, <[kv.1 := kv.2]> m) attrs kvs)) (with_net v i' o).
Proof.
  revert n. induction kvs as [|[k x] kvs IH]; intros n v attrs i o c Hc Hn Ei i'.
  { injection Ei as <- <-. simpl. by destruct n. }
  apply Forall_cons in Hc as [[Hk Hx] Hc]. simpl in Hk, Hx, Hn. destruct n as [|n]; [lia|].
  injection Ei as <- <-. simpl. destruct (Z.ltb_spec 0 (strlen k)) as [_|]; [|unfold carried in Hk; lia].
  unfold sized. rewrite <- !app_assoc, <- app_comm_cons. eapply runs_try; [by apply read_all_string|].
  eapply runs_try; [apply read_one_conn|]. rewrite <- app_assoc. eapply runs_try; [by apply read_all_string|].
  destruct (sized_attrs kvs) as [|c i] eqn:E; [by destruct kvs as [|[]]|]. rewrite <- app_comm_cons. eapply runs_try; [apply read_one_conn|].
  rewrite !string_of_bytes_of. eapply IH; [done|lia|done].
Qed.

(** The server obeys the two commands. *)
Lemma serve_create n v name kvs i o : carried name → Forall (λ kv, carried kv.1 ∧ carried kv.2) kvs →
  (List.length kvs ≤ n)%nat →
  runs (serve n t) (with_net v (create_id :: sized name ++ sized_attrs kvs ++ i) o) (Some 0)
    (with_net (v <| objects := <[name := foldl (λ m kv, <[kv.1 := kv.2]> m) ∅ kvs]> (objects v) |>) i (o ++ [create_ok_id])).
Proof.
  intros Hname Hkvs Hn. eapply runs_try; [apply read_one_conn|]. eapply (runs_bind _ _ _ (Some tt)); [|done].
  eapply runs_try; [apply read_one_conn|]. eapply runs_try; [by apply read_all_string|].
  destruct (sized_attrs kvs) as [|c i1] eqn:E; [by destruct kvs as [|[]]|]. eapply runs_try; [apply read_one_conn|].
  eapply runs_try; [by eapply receive_attributes_conn|]. eapply runs_try; [apply write_all_conn|].
  eapply runs_bind; [done|]. by rewrite string_of_bytes_of.
Qed.

Lemma bytes_sent s : carried s → take (Z.to_nat (u8 (strlen s))) (bytes_of s) = bytes_of s.
Proof.
  intros Hs. unfold carried in Hs. rewrite wrap_small by (unfold in_u; lia). unfold strlen.
  by rewrite Nat2Z.id, <- length_bytes_of, firstn_all.
Qed.

Lemma send_sized_conn v s i o : carried s →
  runs (send_sized t s) (with_net v i o) (Some tt) (with_net v i (o ++ sized s)).
Proof.
  intros Hs. unfold send_sized. rewrite bytes_sent by done. unfold carried in Hs. rewrite wrap_small by (unfold in_u; lia).
  eapply runs_try; [apply write_all_conn|]. change (sized s) with ([strlen s] ++ bytes_of s). rewrite app_assoc. apply write_all_conn.
Qed.

Lemma send_attributes_conn kvs v i : Forall (λ kv, carried kv.1 ∧ carried kv.2) kvs →
  ∃ b, sized_attrs kvs = b ++ [0] ∧ ∀ o, runs (send_attributes t kvs) (with_net v i o) (Some tt) (with_net v i (o ++ b)).
Proof.
  induction kvs as [|[k x] kvs IH]; intros Hc.
  { exists []. split; [done|]. intros o. by rewrite app_nil_r. }
  apply Forall_cons in Hc as [[Hk Hx] Hc]. simpl in Hk, Hx. destruct (IH Hc) as (b & E & Hb).
  exists (sized k ++ sized x ++ b). split; [cbn [sized_attrs]; by rewrite E, <- !app_assoc|]. intros o.
  eapply runs_try; [by apply send_sized_conn|]. eapply runs_try; [by apply send_sized_conn|]. rewrite !app_assoc. apply Hb.
Qed.

Lemma serve_get n v name attrs i o : carried name → objects v !! name = Some attrs → carried_attrs attrs →
  runs (serve n t) (with_net v (get_id :: sized name ++ i) o) (Some 0)
    (with_net v i (o ++ get_ok_id :: sized_attrs (in_key_order attrs))).
Proof.
  intros Hname Ho Hc. eapply runs_try; [apply read_one_conn|]. eapply (runs_bind _ _ _ (Some tt)); [|done].
  eapply runs_try; [apply read_one_conn|]. eapply runs_try; [by apply read_all_string|]. eapply runs_bind; [done|].
  cbn beta. rewrite string_of_bytes_of, objects_with_net, Ho. eapply runs_try; [apply write_all_conn|].
  destruct (send_attributes_conn (in_key_order attrs) v i) as (b & E & Hb); [by apply carried_in_order|].
  rewrite E. eapply runs_try; [apply Hb|]. change (get_ok_id :: b ++ [0]) with ([get_ok_id] ++ b ++ [0]).
  rewrite !app_assoc. apply write_all_conn.
Qed.

Lemma serve_get_unknown n v name i o : carried name → objects v !! name = None →
  runs (serve n t) (with_net v (get_id :: sized name ++ i) o) (Some 0) (with_net v i (o ++ [fail_id])).
Proof.
  intros Hname Ho. eapply runs_try; [apply read_one_conn|]. eapply (runs_bind _ _ _ (Some tt)); [|done].
  eapply runs_try; [apply read_one_conn|]. eapply runs_try; [by apply read_all_string|]. eapply runs_bind; [done|].
  cbn beta. rewrite string_of_bytes_of, objects_with_net, Ho. apply write_all_conn.
Qed.
End server.

(** ** The locator *)

Section client.
Context (n : nat) (st t : tcp_socket_t) (indeterminate : list Z).
Hypothesis room : (255 ≤ List.length indeterminate)%nat.
#[local] Instance the_wire : Sockets wire := wire_sockets n st.

(** The system while the connection is open: the server, the bytes on their
    way to it and those on their way back. *)
Definition at_wire (v : server_t conn) (i o : list Z) : wire := Wire (with_net v i o) true.
Definition at_locator (v : server_t conn) (i o : list Z) : locator_t wire := Locator (Some t) (at_wire v i o).

Lemma runs_on_net {A} (m : ST wire A) g w a w' : runs m w a w' → runs (on_locator_net m) (Locator g w) a (Locator g w').
Proof. unfold runs, on_locator_net, st_lift. simpl. by intros ->. Qed.

Lemma runs_at_locator {A} (m : ST wire A) v i o a v' i' o' : runs m (at_wire v i o) a (at_wire v' i' o') →
  runs (on_locator_net m) (at_locator v i o) a (at_locator v' i' o').
Proof. apply runs_on_net. Qed.

Lemma tcp_write_wire v bs i o : ∃ k, runs (tcp_write t bs) (at_wire v i o) k (at_wire v (i ++ bs) o).
Proof. by eexists. Qed.

Lemma send_string_wire v s i o : carried s → runs (send_string t s) (at_wire v i o) tt (at_wire v (i ++ sized s) o).
Proof.
  intros Hs. unfold send_string. rewrite bytes_sent by done. unfold carried in Hs. rewrite wrap_small by (unfold in_u; lia).
  destruct (tcp_write_wire v [strlen s] i o) as [k1 H1]. destruct (tcp_write_wire v (bytes_of s) (i ++ [strlen s]) o) as [k2 H2].
  eapply runs_bind; [exact H1|]. eapply runs_bind; [exact H2|]. rewrite <- app_assoc. done.
Qed.

Lemma read_char_wire v c i b o : runs (read_char t c) (at_wire v i (b :: o)) b (at_wire v i o).
Proof. done. Qed.

(** The server obeys a command when the client waits for its answer. *)
Lemma read_char_served v v' c i i' b o : runs (serve n st) (with_net v i []) (Some 0) (with_net v' i' (b :: o)) →
  runs (read_char t c) (at_wire v i []) b (at_wire v' i' o).
Proof.
  intros Hs. unfold runs, read_char, tcp_read, mbind, st_bind. simpl. unfold wire_recv. simpl. by rewrite Hs.
Qed.

Lemma read_buf_wire v s buf i o : carried s → (255 ≤ List.length buf)%nat →
  ∃ buf', runs (read_buf t buf (strlen s)) (at_wire v i (bytes_of s ++ o)) buf' (at_wire v i o) ∧
    take (Z.to_nat (strlen s)) buf' = bytes_of s ∧ List.length buf' = List.length buf.
Proof.
  intros Hs Hl. unfold carried, strlen in *. rewrite Nat2Z.id, <- length_bytes_of in *.
  destruct (overwrite_spec 0 (bytes_of s) buf) as (buf' & E & El & Et); [lia|]. exists buf'. split; [|done].
  unfold runs, read_buf, tcp_read, mbind, st_bind. simpl. unfold wire_recv. simpl. rewrite Nat2Z.id.
  rewrite bool_decide_true by (rewrite List.length_app; lia). simpl.
  rewrite take_app_length, drop_app_length.
  destruct (bytes_of s) as [|b bs] eqn:Eb; [simpl in Hs; lia|]. simpl. by rewrite E.
Qed.

Lemma read_attributes_wire kvs : ∀ m v attrs i c o,
  Forall (λ kv, carried kv.1 ∧ carried kv.2) kvs → (List.length kvs ≤ m)%nat → sized_attrs kvs = c :: o →
  ∀ o', runs (read_attributes indeterminate m t c attrs) (at_wire v i (o ++ o'))
    (foldl (λ m kv, <[kv.1 := kv.2]> m) attrs kvs) (at_wire v i o').
Proof.
  induction kvs as [|[k x] kvs IH]; intros m v attrs i c o Hc Hm Eo o'.
  { injection Eo as <- <-. by destruct m. }
  apply Forall_cons in Hc as [[Hk Hx] Hc]. simpl in Hk, Hx, Hm. destruct m as [|m]; [lia|].
  injection Eo as <- <-. simpl. destruct (Z.ltb_spec 0 (strlen k)) as [_|]; [|unfold carried in Hk; lia].
  unfold sized. rewrite <- !app_assoc, <- app_comm_cons.
  destruct (read_buf_wire v k indeterminate i (strlen x :: (bytes_of x ++ sized_attrs kvs) ++ o')) as (buf & H1 & E1 & L1); [done..|].
  eapply runs_bind; [exact H1|]. eapply runs_bind; [apply read_char_wire|]. rewrite <- app_assoc.
  destruct (read_buf_wire v x buf i (sized_attrs kvs ++ o')) as (buf2 & H2 & E2 & _); [done|lia|].
  eapply runs_bind; [exact H2|]. rewrite E1, E2, !string_of_bytes_of.
  destruct (sized_attrs kvs) as [|c o] eqn:E; [by destruct kvs as [|[]]|]. eapply runs_bind; [apply read_char_wire|].
  eapply IH; [done|lia|done].
Qed.

Lemma send_attributes_wire kvs v o : Forall (λ kv, carried kv.1 ∧ carried kv.2) kvs →
  ∃ b, sized_attrs kvs = b ++ [0] ∧ ∀ i, runs (st_for kvs (λ '(key, value),
      st_assert (strlen key <? 256) ;; on_locator_net (send_string t key) ;;
      st_assert (strlen value <? 256) ;; on_locator_net (send_string t value)))
    (at_locator v i o) tt (at_locator v (i ++ b) o).
Proof.
  induction kvs as [|[k x] kvs IH]; intros Hc.
  { exists []. split; [done|]. intros i. by rewrite app_nil_r. }
  apply Forall_cons in Hc as [[Hk Hx] Hc]. simpl in Hk, Hx. destruct (IH Hc) as (b & E & Hb).
  exists (sized k ++ sized x ++ b). split; [cbn [sized_attrs]; by rewrite E, <- !app_assoc|]. intros i. rewrite !app_assoc.
  eapply runs_bind; [|apply Hb]. pose proof Hk as [_ Hk']. pose proof Hx as [_ Hx'].
  eapply (runs_bind _ _ _ tt); [by apply runs_assert; split; [apply Z.ltb_lt|]|].
  eapply runs_bind; [by apply runs_on_net, send_string_wire|].
  eapply (runs_bind _ _ _ tt); [by apply runs_assert; split; [apply Z.ltb_lt|]|]. by apply runs_on_net, send_string_wire.
Qed.

Lemma register_served v name attrs : carried name → carried_attrs attrs → (size attrs ≤ n)%nat →
  runs (locator_register_endpoint name attrs) (Locator (Some t) (at_wire v [] [])) tt
    (Locator (Some t) (at_wire (v <| objects := <[name := attrs]> (objects v) |>) [] [])).
Proof.
  intros Hname Hattrs Hn. pose proof (carried_in_order _ Hattrs) as Hkvs.
  destruct (send_attributes_wire _ v [] Hkvs) as (b & E & Hb). eapply runs_bind; [done|]. eapply runs_bind; [done|].
  pose proof Hname as [_ Hname']. eapply (runs_bind _ _ _ tt); [by apply runs_assert; split; [apply Z.leb_le; lia|]|].
  destruct (tcp_write_wire v [create_id] [] []) as [k1 H1]. eapply runs_bind; [by apply runs_on_net|].
  eapply runs_bind; [by apply runs_on_net, send_string_wire|]. eapply runs_bind; [apply Hb|].
  destruct (tcp_write_wire v [0] (([create_id] ++ sized name) ++ b) []) as [k2 H2]. eapply runs_bind; [by apply runs_on_net|].
  eapply (runs_bind _ _ _ create_ok_id); [apply runs_on_net|done]. rewrite <- !app_assoc, <- E. simpl.
  rewrite <- (foldl_set_in_key_order attrs) at 2. rewrite <- (app_nil_r (sized_attrs _)).
  apply read_char_served, (serve_create st n v name (in_key_order attrs) [] []); [done..|].
  rewrite in_key_order_perm. by rewrite length_map_to_list.
Qed.

(** The request of a look-up, and its answer as far as its first byte. *)
Lemma resolve_asks v name b o : carried name →
  runs (serve n st) (with_net v (get_id :: sized name) []) (Some 0) (with_net v [] (b :: o)) →
  ∀ m attrs, locator_resolve_endpoint indeterminate m name attrs (at_locator v [] []) =
    (st_assert (b =? get_ok_id) ;; size ← on_locator_net (read_char t (u8 (strlen name)));
     on_locator_net (read_attributes indeterminate m t size attrs)) (at_locator v [] o).
Proof.
  intros Hname Hs m attrs. destruct (tcp_write_wire v [get_id] [] []) as [k1 H1]. unfold locator_resolve_endpoint.
  rewrite (bind_runs _ _ _ _ _ (runs_get _)), (bind_runs (st_of_option _ _) _ _ t (at_locator v [] [])) by done.
  rewrite (bind_runs _ _ _ _ _ (runs_at_locator _ _ _ _ _ _ _ _ H1)).
  rewrite (bind_runs _ _ _ _ _ (runs_at_locator _ _ _ _ _ _ _ _ (send_string_wire v name [get_id] [] Hname))).
  by rewrite (bind_runs _ _ _ _ _ (runs_at_locator _ _ _ _ _ _ _ _ (read_char_served v v get_id _ _ _ _ Hs))).
Qed.

Lemma resolve_served v name attrs m a0 : carried name → objects v !! name = Some attrs → carried_attrs attrs →
  (size attrs ≤ m)%nat →
  runs (locator_resolve_endpoint indeterminate m name a0) (at_locator v [] []) (attrs ∪ a0) (at_locator v [] []).
Proof.
  intros Hname Ho Hattrs Hm. pose proof (serve_get st n v name attrs [] [] Hname Ho Hattrs) as Hs.
  rewrite (app_nil_r (sized name)) in Hs. unfold runs. rewrite (resolve_asks v name _ _ Hname Hs).
  destruct (sized_attrs (in_key_order attrs)) as [|c o] eqn:E; [by destruct (in_key_order attrs) as [|[]]|].
  assert (attrs ∪ a0 = foldl (λ m kv, <[kv.1 := kv.2]> m) a0 (in_key_order attrs)) as ->.
  { etransitivity; [|symmetry; apply foldl_set_app]; [by rewrite list_to_map_in_key_order|].
    rewrite in_key_order_perm. apply NoDup_fst_map_to_list. }
  eapply (runs_bind _ _ _ tt); [by apply runs_assert|]. eapply runs_bind; [by apply runs_at_locator, read_char_wire|].
  apply runs_at_locator. rewrite <- (app_nil_r o). apply read_attributes_wire; [by apply carried_in_order| |done].
  rewrite in_key_order_perm. by rewrite length_map_to_list.
Qed.

Lemma resolve_unknown v name m a0 : carried name → objects v !! name = None →
  locator_resolve_endpoint indeterminate m name a0 (at_locator v [] []) = Crash AssertFailed.
Proof.
  intros Hname Ho. pose proof (serve_get_unknown st n v name [] [] Hname Ho) as Hs.
  rewrite (app_nil_r (sized name)) in Hs. by rewrite (resolve_asks v name _ _ Hname Hs).
Qed.

(** ** The table *)

(** What the directory promises: a table. *)
#[local] Instance table_locator : ILocator object_table_t := {|
  register_endpoint name attrs := st_modify (λ o, <[name := attrs]> o);
  resolve_endpoint name attrs := o ← st_get; a ← st_of_option AssertFailed (o !! name : option attr_list_t); mret (a ∪ attrs)
|}.

#[local] Instance the_locator : ILocator (locator_t wire) := locator_i_locator indeterminate n.

Inductive dir_op := Register (name : string) (attrs : attr_list_t) | Resolve (name : string) (attrs : attr_list_t).

Definition op_carried (op : dir_op) : Prop :=
  match op with
  | Register name attrs => carried name ∧ carried_attrs attrs ∧ (size attrs ≤ n)%nat
  | Resolve name _ => carried name
  end.

#[export] Instance op_carried_dec op : Decision (op_carried op).
Proof. destruct op; unfold op_carried, carried_attrs, carried; apply _. Defined.

Fixpoint dir_run {L} `{!ILocator L} (ops : list dir_op) : ST L (list attr_list_t) :=
  match ops with
  | [] => mret []
  | Register name attrs :: ops => register_endpoint name attrs ;; dir_run ops
  | Resolve name attrs :: ops => a ← resolve_endpoint name attrs; r ← dir_run ops; mret (a :: r)
  end.

(** Between calls nothing is under way on the connection. *)
Definition dir_rel (l : locator_t wire) (o : object_table_t) : Prop :=
  ∃ v, l = at_locator v [] [] ∧ objects v = o ∧ map_Forall (λ _ attrs, carried_attrs attrs ∧ (size attrs ≤ n)%nat) o.

(** C31: as long as names, keys and values have 1 to 255 bytes and an object at most
    [n] attributes, the locator and the server at the two ends of a connection are a
    table of objects: each such register and resolve gives
    what the table gives, byte for byte, a later registration of a name
    replaces the earlier one, and a look-up of a name that is not registered
    fails its assertion. *)
Theorem directory_refines_table ops l o : Forall op_carried ops → dir_rel l o →
  match dir_run ops o with
  | Ok (answers, o') => ∃ l', runs (dir_run ops) l answers l' ∧ dir_rel l' o'
  | Crash f => dir_run ops l = Crash f
  end.
Proof.
  intros Hops. revert l o. induction Hops as [|[name attrs|name a0] ops Hop Hops IH]; intros l o Hl.
  { by exists l. }
  all: destruct Hl as (v & -> & <- & Hc).
  - destruct Hop as (Hname & Hattrs & Hn). simpl. unfold mbind, st_bind. simpl.
    pose proof (register_served v name attrs Hname Hattrs Hn) as Hr.
    specialize (IH (at_locator (v <| objects := <[name := attrs]> (objects v) |>) [] []) (<[name := attrs]> (objects v))).
    assert (dir_rel (at_locator (v <| objects := <[name := attrs]> (objects v) |>) [] []) (<[name := attrs]> (objects v))) as Hrel.
    { eexists. split_and!; [done..|]. by apply map_Forall_insert_2. }
    apply IH in Hrel. unfold runs in *. fold (at_locator v [] []) in Hr. rewrite Hr. exact Hrel.
  - simpl. unfold mbind, st_bind. simpl. destruct (objects v !! name) as [attrs|] eqn:E.
    + pose proof (resolve_served v name attrs n a0 Hop E (proj1 (Hc name attrs E)) (proj2 (Hc name attrs E))) as Hs.
      unfold runs in Hs. simpl. specialize (IH (at_locator v [] []) (objects v)).
      destruct (dir_run ops (objects v)) as [[answers o']|f]; [|by rewrite Hs, IH by by exists v].
      destruct IH as (l' & Hr & Hl'); [by exists v|]. simpl. exists l'. split; [|done]. unfold runs in *. by rewrite Hs, Hr.
    + by rewrite resolve_unknown.
Qed.
End client.

(** ** Runs, and what goes wrong *)

Definition demo_socket : tcp_socket_t := TcpSocket 3 [] true.
Definition demo_stack : list Z := replicate 255 170.
Definition demo_server : server_t conn := Server ∅ [demo_socket] {[3; 4]} 5 4 (Conn [] []).

Definition at_port (location : string) : attr_list_t := {["location"%string := location]}.

Definition demo_ops : list dir_op :=
  [Register "feed" (at_port "zmq.tcp://10.0.0.1:5555"); Register "sink" (at_port "zmq.tcp://10.0.0.2:1");
   Register "feed" (at_port "zmq.tcp://10.0.0.1:5556"); Resolve "sink" ∅; Resolve "feed" ∅].

Definition demo_run := @dir_run _ (@locator_i_locator _ (wire_sockets 2 demo_socket) demo_stack 2).

Lemma directory_refines_table_witness :
  Forall (op_carried 2) demo_ops ∧
  ∃ l', runs (demo_run demo_ops) (at_locator demo_socket demo_server [] [])
    [at_port "zmq.tcp://10.0.0.2:1"; at_port "zmq.tcp://10.0.0.1:5556"] l'.
Proof.
  assert (Forall (op_carried 2) demo_ops) as Hops.
  { apply (bool_decide_unpack _). vm_compute. exact I. }
  split; [exact Hops|].
  pose proof (directory_refines_table 2 demo_socket demo_socket demo_stack ltac:(simpl; lia) demo_ops
    (at_locator demo_socket demo_server [] []) ∅ Hops) as H.
  destruct H as (l' & Hr & _); [exists demo_server; split; [reflexivity|split; [reflexivity|apply map_Forall_empty]]|].
  exists l'. exact Hr.
Defined.

(** An empty value closes the connection: the server takes the end of a read
    of no bytes for a failure, and the locator aborts. *)
Lemma empty_value_aborts :
  demo_run [Register "feed" (at_port "")] (at_locator demo_socket demo_server [] []) = Crash AssertFailed.
Proof. vm_compute. reflexivity. Qed.

#[local] Arguments wire_recv : simpl never.

(** When the server closes the connection within an answer, the locator
    reads forever. *)
Lemma locator_spins k st t indeterminate v n c attrs : (255 ≤ length indeterminate)%nat → 0 < c < 256 →
  @read_attributes _ (wire_sockets k st) indeterminate n t c attrs (Wire (with_net v [] []) false) = Crash OutOfFuel.
Proof.
  intros Hl Hc. revert attrs. induction n as [|n IH]; intros attrs; simpl; (destruct (Z.ltb_spec 0 c); [|lia]); [done|].
  set (w := Wire (with_net v [] []) false).
  assert (∀ k', wire_recv k st k' w = Ok (inl [], w)) as Hrecv.
  { intros k'. unfold wire_recv. simpl. rewrite orb_true_r. by destruct k'. }
  assert (∀ buf, runs (@read_buf _ (wire_sockets k st) t buf c) w buf w) as Hbuf.
  { intros buf. unfold runs, read_buf, tcp_read, mbind, st_bind. simpl. rewrite Hrecv. simpl. done. }
  assert (runs (@read_char _ (wire_sockets k st) t c) w c w) as Hchar.
  { unfold runs, read_char, tcp_read, mbind, st_bind, sys_recv, wire_sockets. change (Z.to_nat 1) with 1%nat. by rewrite Hrecv. }
  rewrite (bind_runs _ _ _ _ _ (Hbuf _)), (bind_runs _ _ _ _ _ Hchar), (bind_runs _ _ _ _ _ (Hbuf _)), (bind_runs _ _ _ _ _ Hchar).
  apply IH.
Qed.

(** A connection on which nothing happened is closed when another one is
    ready: the loop takes the number of ready connections for a failure. *)
Lemma idle_connection_closed {N} `{!Sockets N} n turns pos rc result_set_fds error_set_fds (v : server_t N) t :
  socket_list v !! pos = Some t → s t ∉ result_set_fds → s t ∉ error_set_fds → rc ≠ 0 →
  traverse n (S turns) pos rc result_set_fds error_set_fds v =
  (close_connection pos ;; traverse n turns (S pos) rc result_set_fds error_set_fds) v.
Proof.
  intros Ht Hr He Hrc. simpl. rewrite (bind_runs _ _ _ _ _ (runs_get _)), Ht, !bool_decide_false by done.
  rewrite (bind_runs _ _ _ _ _ (runs_ret _ _)). destruct (Z.eqb_spec rc 0); done.
Qed.

(** An argument that the server does not know keeps it in its loop. *)
Lemma unknown_argument_loops n arg argv port config_file :
  arg ∉ ["--help"; "--port"; "--config-file"]%string → parse_arguments n (arg :: argv) port config_file = None.
Proof.
  intros Ha. induction n as [|n IH]; [done|]. simpl. rewrite !bool_decide_false by set_solver. exact IH.
Qed.
