(* ===== verification/BpTcpEngine.v ===== *)
(** The engine at the end of a TCP connection, and the listener that makes
    such engines ([src/libzmq/bp_tcp_engine.cpp], [bp_tcp_listener.cpp]). *)
From S2P Require Import Prelude Config Channel Message MessageBody Command Swap Pipe Store Mux Demux Engine Codec BpCodec TcpSocket Listening.
Local Open Scope Z_scope.

(** [i_poller], as engines see it ([zmq/i_poller.hpp]): a handle is a
    descriptor or the address of an entry. *)
Abbreviation handle_t := Z.

Class IPoller (Q : Type) := {
  po_add_fd : fd_t → engine_id → ST Q handle_t;
  po_rm_fd : handle_t → ST Q unit;
  po_set_pollin : handle_t → ST Q unit;
  po_reset_pollin : handle_t → ST Q unit;
  po_set_pollout : handle_t → ST Q unit;
  po_reset_pollout : handle_t → ST Q unit;
  po_add_timer : engine_id → ST Q unit
}.

(** The descriptors that are polled and the engines they call, and the
    engines that wait for a timer. *)
Class IPollerLaws (Q : Type) `{IPoller Q} := {
  po_fds : Q → gmap handle_t (fd_t * engine_id);
  po_timers : Q → list engine_id;
  po_add_fd_law f e q h q' : runs (po_add_fd f e) q h q' →
    po_fds q !! h = None ∧ po_fds q' = <[h := (f, e)]> (po_fds q) ∧ po_timers q' = po_timers q;
  po_rm_fd_law h q u q' : runs (po_rm_fd h) q u q' → po_fds q' = delete h (po_fds q) ∧ po_timers q' = po_timers q;
  po_set_pollin_law h : keeps (λ q, (po_fds q, po_timers q)) (po_set_pollin h);
  po_reset_pollin_law h : keeps (λ q, (po_fds q, po_timers q)) (po_reset_pollin h);
  po_set_pollout_law h : keeps (λ q, (po_fds q, po_timers q)) (po_set_pollout h);
  po_reset_pollout_law h : keeps (λ q, (po_fds q, po_timers q)) (po_reset_pollout h);
  po_add_timer_law e q u q' : runs (po_add_timer e) q u q' →
    po_fds q' = po_fds q ∧ po_timers q' = po_timers q ++ [e]
}.

Section objects.
Context {P S : Type} `{!Channel raw_message P, !Swap S}.

(** The encoder reads from the engine's [mux], the decoder writes to its
    [demux]. *)
#[export] Instance eenv_heap : HasHeap (eenv P S) := {
  heap_of e := heap (objs e);
  set_heap h e := e <| objs := objs e <| heap := h |> |>
}.
#[export] Instance eenv_source : MessageSource (eenv P S) := { source_read := in_engine_read }.
#[export] Instance eenv_sink : MessageSink (eenv P S) := { sink_write := out_engine_write }.
End objects.

Inductive engine_state_t := engine_connecting | engine_connected | engine_waiting_for_reconnect | engine_shutting_down.
#[export] Instance engine_state_eq_dec : EqDecision engine_state_t.
Proof. solve_decision. Defined.

(** [writebuf] and [readbuf] hold the bytes below [write_size] and
    [read_size]. *)
Record bp_tcp_engine_t := BpTcpEngine {
  t_base : engine_base_t;
  writebuf : list Z;
  write_size : Z;
  write_pos : Z;
  readbuf : list Z;
  read_size : Z;
  read_pos : Z;
  t_encoder : encoder_t enc_step;
  t_enc_message : raw_message;
  t_enc_tmpbuf : list Z;
  t_decoder : decoder_t dec_step dec_target;
  t_dec_message : raw_message;
  t_dec_tmpbuf : list Z;
  pipe_cnt : Z;
  handle : handle_t;
  local_object : cstring;
  reconnect_flag : bool;
  state : engine_state_t;
  socket : tcp_socket_t
}.
#[export] Instance eta_bp_tcp_engine : Eta bp_tcp_engine_t := λ t,
  BpTcpEngine (t_base t) (writebuf t) (write_size t) (write_pos t) (readbuf t) (read_size t) (read_pos t)
    (t_encoder t) (t_enc_message t) (t_enc_tmpbuf t) (t_decoder t) (t_dec_message t) (t_dec_tmpbuf t)
    (pipe_cnt t) (handle t) (local_object t) (reconnect_flag t) (state t) (socket t).

Section bp_tcp_engine.
Context {P S N Q : Type} `{!Channel raw_message P, !Swap S, !Sockets N, !IPoller Q}.

(** The engine, the objects of its thread, the operating system and the
    poller of its thread. *)
Record tworld := TWorld { te : bp_tcp_engine_t; tobjs : store P S; net : N; poll : Q }.
#[export] Instance eta_tworld : Eta tworld := λ w, TWorld (te w) (tobjs w) (net w) (poll w).

Definition te_modify (f : bp_tcp_engine_t → bp_tcp_engine_t) : ST tworld unit := st_modify (λ w, w <| te := f (te w) |>).
Definition on_net {A} : ST N A → ST tworld A := st_lift net (λ n w, w <| net := n |>).
Definition on_poll {A} : ST Q A → ST tworld A := st_lift poll (λ q w, w <| poll := q |>).
Definition on_tobjs {A} : ST (store P S) A → ST tworld A := st_lift tobjs (λ o w, w <| tobjs := o |>).
Definition on_base {A} : ST (eenv P S) A → ST tworld A :=
  st_lift (λ w, EEnv (t_base (te w)) (tobjs w)) (λ e w, w <| te := te w <| t_base := base e |> |> <| tobjs := objs e |>).

Definition on_encoder {A} : ST (encoder_t enc_step * enc_env (eenv P S)) A → ST tworld A :=
  st_lift (λ w, (t_encoder (te w), EncEnv (t_enc_message (te w)) (t_enc_tmpbuf (te w)) (EEnv (t_base (te w)) (tobjs w))))
    (λ s w, w <| te := te w <| t_encoder := s.1 |> <| t_enc_message := e_message s.2 |> <| t_enc_tmpbuf := e_tmpbuf s.2 |>
                          <| t_base := base (e_io s.2) |> |> <| tobjs := objs (e_io s.2) |>).

Definition on_decoder {A} : ST (decoder_t dec_step dec_target * dec_env (eenv P S)) A → ST tworld A :=
  st_lift (λ w, (t_decoder (te w), DecEnv (t_dec_message (te w)) (t_dec_tmpbuf (te w)) (EEnv (t_base (te w)) (tobjs w))))
    (λ s w, w <| te := te w <| t_decoder := s.1 |> <| t_dec_message := d_message s.2 |> <| t_dec_tmpbuf := d_tmpbuf s.2 |>
                          <| t_base := base (d_io s.2) |> |> <| tobjs := objs (d_io s.2) |>).

(** [socket.f ()] for the functions that change the socket. *)
Definition on_socket (f : tcp_socket_t → ST N tcp_socket_t) : ST tworld unit :=
  w ← st_get;
  t ← on_net (f (socket (te w)));
  te_modify (λ e, e <| socket := t |>).

(** The engine's address, the handler the user has registered, and a bound
    on the messages left in a pipe that is deleted. *)
Context (this : engine_id) (error_handler : option (cstring → bool)) (fuel : nat).

(** ** Making an engine *)

Definition engine_fields (base : engine_base_t) (local_object_ : cstring) (flag : bool) (st : engine_state_t)
    (sock : tcp_socket_t) : bp_tcp_engine_t :=
  BpTcpEngine base [] 0 0 [] 0 0
    (Encoder [] 0 enc_message_ready true) no_message (replicate 9 0)
    (Decoder (Some (to_tmpbuf, 0%nat)) 1 one_byte_size_ready) no_message (replicate 8 0)
    0 0 local_object_ flag st sock.

(** [calling_thread_->send_command (thread_, command)]. *)
Definition send_register (calling_thread_ thread_ : thread_id) : ST (store P S) unit :=
  st_modify (λ o, o <| sent_out := sent_out o ++ [Sent calling_thread_ thread_ (init_register_engine (Some this))] |>).

Definition bp_tcp_engine_connect (calling_thread_ thread_ : thread_id) (hostname_ local_object_ : cstring)
    (load_balancing_ : bool) : ST (store P S * N) bp_tcp_engine_t :=
  sock ← st_lift snd (λ n s, (s.1, n)) (tcp_socket_new hostname_ false);
  st_lift fst (λ o s, (o, s.2)) (send_register calling_thread_ thread_) ;;
  mret (engine_fields (engine_base_new load_balancing_) local_object_ true engine_connecting sock).

Definition bp_tcp_engine_accepted (calling_thread_ thread_ : thread_id) (fd_ : fd_t) (local_object_ : cstring)
    : ST (store P S * N) bp_tcp_engine_t :=
  sock ← st_lift snd (λ n s, (s.1, n)) (tcp_socket_from fd_ false);
  st_lift fst (λ o s, (o, s.2)) (send_register calling_thread_ thread_) ;;
  mret (engine_fields (engine_base_new false) local_object_ false engine_connected sock).

(** ** Errors *)

Definition is_state (w : tworld) (st : engine_state_t) : bool := bool_decide (state (te w) = st).

Definition start_timer : ST tworld unit :=
  on_poll (po_add_timer this) ;; te_modify (λ e, e <| state := engine_waiting_for_reconnect |>).

Definition tcp_reconnect : ST tworld unit :=
  w ← st_get;
  st_when (is_state w engine_connected || is_state w engine_connecting)
    (on_poll (po_rm_fd (handle (te w))) ;;
     on_socket tcp_close ;;
     te_modify (λ e, e <| read_pos := read_size e |> <| write_pos := write_size e |>)) ;;
  if is_state w engine_connecting then start_timer
  else
    on_socket tcp_reopen ;;
    w ← st_get;
    if s (socket (te w)) =? retired_fd then start_timer
    else
      h ← on_poll (po_add_fd (s (socket (te w))) this);
      te_modify (λ e, e <| handle := h |>) ;;
      on_poll (po_set_pollout h) ;;
      te_modify (λ e, e <| state := engine_connecting |>).

Definition tcp_shutdown : ST tworld unit :=
  w ← st_get;
  on_poll (po_rm_fd (handle (te w))) ;;
  on_socket tcp_close ;;
  w ← st_get;
  on_tobjs (demux_initialise_shutdown (demux (t_base (te w)))) ;;
  on_tobjs (mux_initialise_shutdown (mux (t_base (te w)))) ;;
  te_modify (λ e, e <| state := engine_shutting_down |>).

Definition tcp_error : ST tworld unit :=
  w ← st_get;
  st_when (is_state w engine_connected)
    (on_tobjs (demux_gap (demux (t_base (te w)))) ;;
     on_encoder bp_encoder_reset ;;
     on_decoder bp_decoder_reset) ;;
  st_assert (match error_handler with Some eh => eh (local_object (te w)) | None => true end) ;;
  if reconnect_flag (te w) then tcp_reconnect else tcp_shutdown.

(** ** Events *)

Definition tcp_get_watermarks : Z * Z := (bp_hwm, bp_lwm).
Definition tcp_get_swap_size : Z := 0.

Definition tcp_register_event : ST tworld unit :=
  w ← st_get;
  if s (socket (te w)) =? retired_fd then start_timer
  else
    h ← on_poll (po_add_fd (s (socket (te w))) this);
    te_modify (λ e, e <| handle := h |>) ;;
    (if is_state w engine_connecting then on_poll (po_set_pollout h)
     else st_when (0 <? pipe_cnt (te w)) (on_poll (po_set_pollin h))).

(** The bytes in the read buffer that the decoder has not taken. *)
Definition unread (e : bp_tcp_engine_t) : list Z :=
  drop (Z.to_nat (read_pos e)) (take (Z.to_nat (read_size e)) (readbuf e)).
Definition unwritten (e : bp_tcp_engine_t) : list Z :=
  drop (Z.to_nat (write_pos e)) (take (Z.to_nat (write_size e)) (writebuf e)).

(** The part of [in_event] after the socket was read. *)
Definition process_input (stuck : bool) : ST tworld unit :=
  w ← st_get;
  st_when (read_pos (te w) <? read_size (te w))
    (nbytes ← on_decoder (bp_decoder_write (unread (te w)));
     te_modify (λ e, e <| read_pos := read_pos e + Z.of_nat nbytes |>) ;;
     w ← st_get;
     (if stuck : bool then
        st_when (read_pos (te w) =? read_size (te w)) (on_poll (po_set_pollin (handle (te w))))
      else
        st_when (read_pos (te w) <? read_size (te w)) (on_poll (po_reset_pollin (handle (te w))))) ;;
     st_when (bool_decide (0 < nbytes)%nat) (on_tobjs (demux_flush (demux (t_base (te w)))))).

Definition tcp_in_event : ST tworld unit :=
  w ← st_get;
  if is_state w engine_connecting then
    rc ← on_net (socket_error (socket (te w)));
    st_assert rc ;;
    tcp_error
  else
    let stuck := read_pos (te w) <? read_size (te w) in
    if read_pos (te w) =? read_size (te w) then
      data ← on_net (tcp_read (socket (te w)) (Z.to_nat bp_in_batch_size));
      match data with
      | None => te_modify (λ e, e <| read_size := -1 |> <| read_pos := 0 |>) ;; tcp_error
      | Some bs =>
          te_modify (λ e, e <| readbuf := bs |> <| read_size := Z.of_nat (length bs) |> <| read_pos := 0 |>) ;;
          process_input stuck
      end
    else process_input stuck.

(** The part of [out_event] that writes to the socket. *)
Definition process_output : ST tworld unit :=
  w ← st_get;
  if write_pos (te w) <? write_size (te w) then
    nbytes ← on_net (tcp_write (socket (te w)) (unwritten (te w)));
    if nbytes =? -1 then tcp_error
    else te_modify (λ e, e <| write_pos := write_pos e + nbytes |>)
  else mret tt.

Definition tcp_out_event : ST tworld unit :=
  w ← st_get;
  if is_state w engine_connecting then
    rc ← on_net (socket_error (socket (te w)));
    if (rc : bool) then tcp_error
    else
      st_when (mux_empty (mux (t_base (te w)))) (on_poll (po_reset_pollout (handle (te w)))) ;;
      st_when (0 <? pipe_cnt (te w)) (on_poll (po_set_pollin (handle (te w)))) ;;
      te_modify (λ e, e <| state := engine_connected |>)
  else
    st_when (write_pos (te w) =? write_size (te w))
      ('(data, _) ← on_encoder (bp_encoder_read (Z.to_nat bp_out_batch_size));
       te_modify (λ e, e <| writebuf := data |> <| write_size := Z.of_nat (length data) |> <| write_pos := 0 |>) ;;
       w ← st_get;
       st_when (write_size (te w) =? 0) (on_poll (po_reset_pollout (handle (te w))))) ;;
    process_output.

Definition tcp_timer_event : ST tworld unit :=
  w ← st_get;
  st_assert (is_state w engine_waiting_for_reconnect) ;;
  tcp_reconnect.

Definition tcp_unregister_event : ST tworld unit :=
  w ← st_get;
  st_when (negb (is_state w engine_waiting_for_reconnect) && negb (is_state w engine_shutting_down))
    (on_poll (po_rm_fd (handle (te w))) ;; on_socket tcp_close).

(** ** Commands *)

Definition tcp_revive (pipe_ : pipe_id) : ST tworld unit :=
  on_base (engine_revive true pipe_) ;;
  w ← st_get;
  st_when (is_state w engine_connected && (write_size (te w) =? 0))
    (on_poll (po_set_pollout (handle (te w))) ;; tcp_out_event).

Definition tcp_head (pipe_ : pipe_id) (position_ : Z) : ST tworld unit :=
  on_base (engine_head true pipe_ position_) ;;
  tcp_in_event.

Definition tcp_send_to (pipe_ : pipe_id) : ST tworld unit :=
  te_modify (λ e, e <| pipe_cnt := i32 (pipe_cnt e + 1) |>) ;;
  w ← st_get;
  st_when (is_state w engine_connected && (pipe_cnt (te w) =? 1)) (on_poll (po_set_pollin (handle (te w)))) ;;
  on_base (engine_send_to true pipe_).

Definition tcp_receive_from (pipe_ : pipe_id) : ST tworld unit :=
  on_base (engine_receive_from true pipe_) ;;
  w ← st_get;
  st_when (is_state w engine_shutting_down) (on_tobjs (on_pipe pipe_ pipe_terminate_reader)) ;;
  te_modify (λ e, e <| pipe_cnt := i32 (pipe_cnt e + 1) |>) ;;
  w ← st_get;
  st_when (is_state w engine_connected)
    (on_poll (po_set_pollout (handle (te w))) ;;
     st_when (pipe_cnt (te w) =? 1) (on_poll (po_set_pollin (handle (te w))))).

(** The commands, those the engine overrides and those of its base. *)
Definition tcp_process (engcmd : engine_command_t) : ST tworld unit :=
  match engcmd with
  | ec_revive pipe => tcp_revive pipe
  | ec_head pipe position => tcp_head pipe position
  | ec_send_to pipe => tcp_send_to pipe
  | ec_receive_from pipe => tcp_receive_from pipe
  | _ => on_base (engine_process true true fuel engcmd)
  end.

End bp_tcp_engine.
Arguments tworld P S N Q : clear implicits.

(** ** bp_tcp_listener_t *)

Section bp_tcp_listener.
Context {P S N Q : Type} `{!Channel raw_message P, !Swap S, !Sockets N, !IPoller Q}.

Record bp_tcp_listener_t := BpTcpListener {
  source : bool;
  peer_thread : thread_id;
  peer_engine : engine_id;
  peer_name : cstring;
  listener : fd_t;
  l_handle : handle_t;
  handler_threads : list thread_id;
  current_handler_thread : nat
}.
#[export] Instance eta_listener : Eta bp_tcp_listener_t := λ l,
  BpTcpListener (source l) (peer_thread l) (peer_engine l) (peer_name l) (listener l) (l_handle l)
    (handler_threads l) (current_handler_thread l).

(** [engines] are the engines made so far and their threads; objects are
    made at [next_address] and above. *)
Record lworld := LWorld {
  lis : bp_tcp_listener_t;
  lobjs : store P S;
  lnet : N;
  lpoll : Q;
  engines : list (engine_id * thread_id * bp_tcp_engine_t);
  next_address : positive
}.
#[export] Instance eta_lworld : Eta lworld := λ w,
  LWorld (lis w) (lobjs w) (lnet w) (lpoll w) (engines w) (next_address w).

Definition lis_modify (f : bp_tcp_listener_t → bp_tcp_listener_t) : ST lworld unit :=
  st_modify (λ w, w <| lis := f (lis w) |>).
Definition on_lpoll {A} : ST Q A → ST lworld A := st_lift lpoll (λ q w, w <| lpoll := q |>).
Definition on_lnet {A} : ST N A → ST lworld A := st_lift lnet (λ n w, w <| lnet := n |>).

(** The listener's address, its thread, and what its peer answers to the
    constructor of a pipe. *)
Context (this : engine_id) (lthread : thread_id) (peer_info : engine_info).

Definition listener_new (interface_fd : fd_t) (handler_threads_ : list thread_id) (source_ : bool)
    (peer_thread_ : thread_id) (peer_engine_ : engine_id) (peer_name_ : cstring) : res bp_tcp_listener_t :=
  if bool_decide (length handler_threads_ ≠ 0%nat)
  then Ok (BpTcpListener source_ peer_thread_ peer_engine_ peer_name_ interface_fd 0 handler_threads_ 0)
  else Crash AssertFailed.

Definition listener_register_event : ST lworld unit :=
  w ← st_get;
  h ← on_lpoll (po_add_fd (listener (lis w)) this);
  lis_modify (λ l, l <| l_handle := h |>) ;;
  on_lpoll (po_set_pollin h).

Definition send_from_listener (destination_ : thread_id) (cmd_ : command_t) : ST lworld unit :=
  st_modify (λ w, w <| lobjs := lobjs w <| sent_out := sent_out (lobjs w) ++ [Sent lthread destination_ cmd_] |> |>).

Definition new_object : ST lworld positive :=
  w ← st_get;
  st_modify (λ w, w <| next_address := Pos.succ (next_address w) |>) ;;
  mret (next_address w).

Definition new_tcp_engine (thread_ : thread_id) (fd_ : fd_t) : ST lworld engine_id :=
  w ← st_get;
  a ← new_object;
  e ← st_lift (λ w, (lobjs w, lnet w)) (λ s w, w <| lobjs := s.1 |> <| lnet := s.2 |>)
    (bp_tcp_engine_accepted a lthread thread_ fd_ (peer_name (lis w)));
  st_modify (λ w, w <| engines := engines w ++ [(a, thread_, e)] |>) ;;
  mret a.

Definition new_pipe (st : thread_id) (se : engine_id) (dt : thread_id) (de : engine_id) (si di : engine_info)
    : ST lworld pipe_id :=
  a ← new_object;
  st_modify (λ w, w <| lobjs := lobjs w <| pipes := <[a := pipe_new st se dt de si di]> (pipes (lobjs w)) |> |>) ;;
  mret a.

Definition tcp_info : engine_info := EngineInfo tcp_get_watermarks tcp_get_swap_size.

Definition listener_in_event : ST lworld unit :=
  w ← st_get;
  let l := lis w in
  fd ← on_lnet (tcp_accept (listener l));
  if fd =? retired_fd then mret tt
  else
    thread ← st_of_option BadAccess (handler_threads l !! current_handler_thread l);
    engine ← new_tcp_engine thread fd;
    (if source l then
       pipe ← new_pipe thread engine (peer_thread l) (peer_engine l) tcp_info peer_info;
       send_from_listener thread (init_engine_send_to (Some engine) pipe) ;;
       send_from_listener (peer_thread l) (init_engine_receive_from (Some (peer_engine l)) pipe)
     else
       pipe ← new_pipe (peer_thread l) (peer_engine l) thread engine peer_info tcp_info;
       send_from_listener thread (init_engine_receive_from (Some engine) pipe) ;;
       send_from_listener (peer_thread l) (init_engine_send_to (Some (peer_engine l)) pipe)) ;;
    lis_modify (λ l, l <| current_handler_thread :=
      let n := Datatypes.S (current_handler_thread l) in
      if bool_decide (n = length (handler_threads l)) then 0%nat else n |>).

Definition listener_unregister_event : ST lworld unit :=
  w ← st_get;
  on_lpoll (po_rm_fd (l_handle (lis w))) ;;
  f ← on_lnet (listener_close (listener (lis w)));
  lis_modify (λ l, l <| listener := f |>).

(** There are never pipes to a listener, and it uses neither output events
    nor timers. *)
Definition listener_get_watermarks : ST lworld unit := st_assert false.
Definition listener_get_swap_size : ST lworld unit := st_assert false.
Definition listener_out_event : ST lworld unit := st_assert false.
Definition listener_timer_event : ST lworld unit := st_assert false.
End bp_tcp_listener.
Arguments lworld P S N Q : clear implicits.

Section listening.
Context {P S N : Type} `{!Sockets N, !IpCalls N, !ListenCalls N}.
Context (resolve_nic_name : in_addr → option cstring → ST N in_addr).

(** The engine and its listening socket. *)
Definition bp_tcp_listener_new (this : engine_id) (calling_thread_ thread_ : thread_id) (interface_ : cstring)
    (handler_threads_ : list thread_id) (source_ : bool) (peer_thread_ : thread_id) (peer_engine_ : engine_id) (peer_name_ : cstring)
    : ST (store P S * N) (bp_tcp_listener_t * tcp_listener_t) :=
  t ← st_lift snd (λ n s, (s.1, n)) (tcp_listener_new resolve_nic_name interface_ false);
  match listener_new (ls t) handler_threads_ source_ peer_thread_ peer_engine_ peer_name_ with
  | Crash f => st_crash f
  | Ok l =>
      st_modify (λ s, (s.1 <| sent_out := sent_out s.1 ++ [Sent calling_thread_ thread_ (init_register_engine (Some this))] |>, s.2)) ;;
      mret (l, t)
  end.

(** ["zmq.tcp://"] and the address, in an array of 256 characters. *)
Definition tcp_scheme : cstring := [122; 109; 113; 46; 116; 99; 112; 58; 47; 47].
Definition listener_get_arguments (t : tcp_listener_t) : cstring := take 255 (tcp_scheme ++ tcp_listener_get_interface t).
End listening.
