(* ===== verification/TcpEngineStates.v ===== *)
(** The life of a TCP engine: whatever its peer, its pipes and the other
    engines of its thread do, its socket is open and polled exactly while it
    connects or is connected, it waits for exactly one timer while it is to
    reconnect, and its buffers are never overrun. *)
From S2P Require Import Prelude Config Channel Message Command Swap Pipe Store Mux Demux Engine Codec BpCodec TcpSocket BpTcpEngine.
Local Open Scope Z_scope.

Section tcp_engine.
Context {P S N Q : Type} `{!Channel raw_message P, !Swap S, !Sockets N, !SocketsLaws N, !IPoller Q, !IPollerLaws Q}.
Context (this : engine_id) (error_handler : option (cstring → bool)) (fuel : nat).
Implicit Types w : tworld P S N Q.

(** ** What the invariant is about *)

Record tcore := TCore {
  k_handle : handle_t; k_flag : bool; k_state : engine_state_t; k_fd : fd_t;
  k_wlen : nat; k_wsize : Z; k_wpos : Z; k_rlen : nat; k_rsize : Z; k_rpos : Z;
  k_fds : gmap handle_t (fd_t * engine_id); k_timers : list engine_id
}.

#[local] Instance eta_tcore : Eta tcore := λ k,
  TCore (k_handle k) (k_flag k) (k_state k) (k_fd k) (k_wlen k) (k_wsize k) (k_wpos k) (k_rlen k) (k_rsize k) (k_rpos k)
    (k_fds k) (k_timers k).

Definition core w : tcore :=
  TCore (handle (te w)) (reconnect_flag (te w)) (state (te w)) (s (socket (te w)))
    (length (writebuf (te w))) (write_size (te w)) (write_pos (te w))
    (length (readbuf (te w))) (read_size (te w)) (read_pos (te w)) (po_fds (poll w)) (po_timers (poll w)).

Definition active (st : engine_state_t) : bool :=
  bool_decide (st = engine_connecting) || bool_decide (st = engine_connected).

(** The timers of this engine. *)
Definition my_timers (l : list engine_id) : nat := length (filter (eq this) l).

(** Only descriptor [f] is polled for this engine, under [h]. *)
Definition polled (m : gmap handle_t (fd_t * engine_id)) (h : handle_t) (f : fd_t) : Prop :=
  ∀ h' f', m !! h' = Some (f', this) ↔ h' = h ∧ f' = f.
Definition not_polled (m : gmap handle_t (fd_t * engine_id)) : Prop := ∀ h f, m !! h ≠ Some (f, this).

Record buffers_ok (k : tcore) : Prop := {
  ok_write : 0 ≤ k_wpos k ≤ k_wsize k ∧ k_wsize k = Z.of_nat (k_wlen k) ∧ k_wsize k ≤ bp_out_batch_size;
  ok_read : -1 ≤ k_rsize k ≤ bp_in_batch_size ∧ k_rsize k ≤ Z.of_nat (k_rlen k);
  ok_rpos : k_rpos k = k_rsize k ∨ 0 ≤ k_rpos k ≤ k_rsize k ∨ k_rsize k = -1 ∧ k_rpos k = 0
}.

(** The socket, the poller and the timer of an engine in state [st]. *)
Definition socket_ok (k : tcore) (st : engine_state_t) : Prop :=
  (if active st then polled (k_fds k) (k_handle k) (k_fd k) ∧ k_fd k ≠ retired_fd
   else not_polled (k_fds k) ∧ k_fd k = retired_fd) ∧
  my_timers (k_timers k) = if bool_decide (st = engine_waiting_for_reconnect) then 1%nat else 0%nat.

Definition flag_ok (k : tcore) : Prop :=
  if k_flag k then k_state k ≠ engine_shutting_down
  else k_state k = engine_connected ∨ k_state k = engine_shutting_down.

Definition core_ok (k : tcore) : Prop := buffers_ok k ∧ socket_ok k (k_state k) ∧ flag_ok k.
Definition tcp_ok w : Prop := core_ok (core w).

(** *** What leaves all that alone *)

Lemma keeps_on_tobjs {A} (m : ST (store P S) A) : keeps core (on_tobjs m).
Proof. by apply keeps_lift. Qed.
Lemma keeps_on_base {A} (m : ST (eenv P S) A) : keeps core (on_base m).
Proof. by apply keeps_lift. Qed.
Lemma keeps_on_encoder {A} (m : ST _ A) : keeps core (on_encoder m).
Proof. by apply keeps_lift. Qed.
Lemma keeps_on_decoder {A} (m : ST _ A) : keeps core (on_decoder m).
Proof. by apply keeps_lift. Qed.
Lemma keeps_on_net {A} (m : ST N A) : keeps core (on_net m).
Proof. by apply keeps_lift. Qed.

Lemma keeps_on_poll {A} (m : ST Q A) : keeps (λ q, (po_fds q, po_timers q)) m → keeps core (on_poll m).
Proof.
  intros Hm w a w'. unfold runs, on_poll, st_lift. destruct (m (poll w)) as [[b q']|] eqn:E; [|done].
  intros [= <- <-]. apply Hm in E. simpl in E. injection E as E1 E2. unfold core. simpl. by rewrite E1, E2.
Qed.

Lemma keeps_set_pollin h : keeps core (on_poll (po_set_pollin h)).
Proof. apply keeps_on_poll, po_set_pollin_law. Qed.
Lemma keeps_reset_pollin h : keeps core (on_poll (po_reset_pollin h)).
Proof. apply keeps_on_poll, po_reset_pollin_law. Qed.
Lemma keeps_set_pollout h : keeps core (on_poll (po_set_pollout h)).
Proof. apply keeps_on_poll, po_set_pollout_law. Qed.
Lemma keeps_reset_pollout h : keeps core (on_poll (po_reset_pollout h)).
Proof. apply keeps_on_poll, po_reset_pollout_law. Qed.

#[local] Hint Resolve keeps_on_tobjs keeps_on_base keeps_on_encoder keeps_on_decoder keeps_on_net
  keeps_set_pollin keeps_reset_pollin keeps_set_pollout keeps_reset_pollout : keeps.

(** ** Triples over the core *)

Definition triple {A} (I : tcore → Prop) (m : ST (tworld P S N Q) A) (O : A → tcore → Prop) : Prop :=
  ∀ w a w', I (core w) → runs m w a w' → O a (core w').

Lemma triple_keeps {A} I (m : ST _ A) : keeps core m → triple I m (λ _, I).
Proof. intros Hk w a w' HI Hr. by rewrite (Hk _ _ _ Hr). Qed.

Lemma triple_bind {A B} I J O (m : ST _ A) (k : A → ST _ B) :
  triple I m J → (∀ a, triple (J a) (k a) O) → triple I (m ≫= k) O.
Proof. intros Hm Hk w b w' HI (a & w1 & H1 & H2)%runs_bind_inv. eapply Hk; [by eapply Hm|done]. Qed.

Lemma triple_weaken {A} (I I' : tcore → Prop) (O O' : A → tcore → Prop) m :
  triple I' m O' → (∀ k, I k → I' k) → (∀ a k, O' a k → O a k) → triple I m O.
Proof. intros Hm HI HO w a w' Hi Hr. by eapply HO, Hm; [apply HI|]. Qed.

(** The state that was read, for what follows. *)
Lemma triple_get {A} I (k : tworld P S N Q → ST _ A) O :
  (∀ w, I (core w) → triple (λ c, c = core w) (k w) O) → triple I (st_get ≫= k) O.
Proof.
  intros Hk w a w' HI (w0 & w1 & H1 & H2)%runs_bind_inv. unfold runs, st_get in H1. simplify_eq. by eapply Hk.
Qed.

Lemma triple_when I b (m : ST _ unit) O : (b = true → triple I m (λ _, O)) → (b = false → ∀ k, I k → O k) →
  triple I (st_when b m) (λ _, O).
Proof. intros H1 H2. destruct b; [by apply H1|]. intros w a w' HI [= <- <-]. by apply H2. Qed.

Lemma triple_modify (I : tcore → Prop) f (g : tcore → tcore) (O : tcore → Prop) :
  (∀ w, core (w <| te := f (te w) |>) = g (core w)) → (∀ k, I k → O (g k)) → triple I (te_modify f) (λ _, O).
Proof. intros Hg HO w a w' HI [= _ <-]. specialize (HO _ HI). rewrite <- Hg in HO. exact HO. Qed.

(** *** The calls that change the core *)

Lemma triple_close (I : tcore → Prop) (O : tcore → Prop) :
  (∀ k, I k → O (k <| k_fd := retired_fd |>)) → triple I (on_socket tcp_close) (λ _, O).
Proof.
  intros HO w a w' HI Hr. unfold on_socket in Hr. st_inv. unfold runs, on_net, st_lift in *.
  destruct (tcp_close _ _) as [[t n]|] eqn:E; [|done]. simplify_eq. apply tcp_close_spec in E as [_ ->].
  unfold te_modify, st_modify in Hr. simplify_eq. exact (HO _ HI).
Qed.

Lemma triple_reopen (I : tcore → Prop) (O : tcore → Prop) :
  (∀ k f, I k → k_fd k = retired_fd → f = retired_fd ∨ 0 ≤ f →
    O (k <| k_fd := f |>)) → triple I (on_socket tcp_reopen) (λ _, O).
Proof.
  intros HO w a w' HI Hr. unfold on_socket in Hr. st_inv. unfold runs, on_net, st_lift in *.
  destruct (tcp_reopen _ _) as [[t n]|] eqn:E; [|done]. simplify_eq. apply tcp_reopen_spec in E as (E1 & E2 & _).
  unfold te_modify, st_modify in Hr. simplify_eq. exact (HO _ _ HI E1 E2).
Qed.

Lemma triple_rm_fd (I : tcore → Prop) h (O : tcore → Prop) :
  (∀ k, I k → O (k <| k_fds := delete h (k_fds k) |>)) → triple I (on_poll (po_rm_fd h)) (λ _, O).
Proof.
  intros HO w a w' HI Hr. unfold runs, on_poll, st_lift in Hr.
  destruct (po_rm_fd h (poll w)) as [[u q]|] eqn:E; [|done]. simplify_eq. apply po_rm_fd_law in E as [E1 E2].
  specialize (HO _ HI). unfold core in *. simpl in *. by rewrite E1, E2.
Qed.

Lemma triple_add_fd (I : tcore → Prop) f (O : handle_t → tcore → Prop) :
  (∀ k h, I k → k_fds k !! h = None → O h (k <| k_fds := <[h := (f, this)]> (k_fds k) |>)) →
  triple I (on_poll (po_add_fd f this)) O.
Proof.
  intros HO w a w' HI Hr. unfold runs, on_poll, st_lift in Hr.
  destruct (po_add_fd f this (poll w)) as [[h q]|] eqn:E; [|done]. simplify_eq. apply po_add_fd_law in E as (E0 & E1 & E2).
  specialize (HO _ a HI E0). unfold core in *. simpl in *. by rewrite E1, E2.
Qed.

(** The timer and the state that goes with it. *)
Lemma triple_start_timer (I : tcore → Prop) (O : tcore → Prop) :
  (∀ k, I k → O (k <| k_state := engine_waiting_for_reconnect |> <| k_timers := k_timers k ++ [this] |>)) → triple I (start_timer this) (λ _, O).
Proof.
  intros HO w a w' HI Hr. unfold start_timer in Hr. st_inv. unfold runs, on_poll, st_lift in *.
  destruct (po_add_timer this (poll w)) as [[u q]|] eqn:E; [|done]. simplify_eq. apply po_add_timer_law in E as [E1 E2].
  unfold te_modify, st_modify in Hr. simplify_eq. specialize (HO _ HI). unfold core in *. simpl in *. by rewrite E1, E2.
Qed.

(** ** Reconnecting and shutting down *)

(** An engine that is about to reconnect, whose timer if any has expired. *)
Definition to_reconnect (k : tcore) : Prop :=
  buffers_ok k ∧ k_flag k = true ∧ k_state k ≠ engine_shutting_down ∧ my_timers (k_timers k) = 0%nat ∧
  if active (k_state k) then polled (k_fds k) (k_handle k) (k_fd k) else not_polled (k_fds k) ∧ k_fd k = retired_fd.

Lemma polled_delete m h f : polled m h f → not_polled (delete h m).
Proof.
  intros Hp h' f' [Hh Hl]%lookup_delete_Some. apply Hp in Hl as [-> _]. done.
Qed.

Lemma polled_insert m h f : not_polled m → m !! h = None → polled (<[h := (f, this)]> m) h f.
Proof.
  intros Hn Hh h' f'. rewrite lookup_insert_Some. split.
  - intros [[-> [= ->]]|[_ Hl]]; [done|by apply Hn in Hl].
  - intros [-> ->]. by left.
Qed.

Lemma my_timers_snoc l : my_timers (l ++ [this]) = Datatypes.S (my_timers l).
Proof. unfold my_timers. rewrite filter_app, length_app, filter_cons_True by done. simpl. lia. Qed.

(** The socket is reopened, and polled or waited for. *)
Lemma triple_reopened : triple
  (λ k, buffers_ok k ∧ k_flag k = true ∧ my_timers (k_timers k) = 0%nat ∧ not_polled (k_fds k) ∧ k_fd k = retired_fd)
  (on_socket tcp_reopen ;;
   w ← st_get;
   if s (socket (te w)) =? retired_fd then start_timer this
   else
     h ← on_poll (po_add_fd (s (socket (te w))) this);
     te_modify (λ e, e <| handle := h |>) ;;
     on_poll (po_set_pollout h) ;;
     te_modify (λ e, e <| state := engine_connecting |>)) (λ _, core_ok).
Proof.
  eapply triple_bind.
  { apply (triple_reopen _ (λ k, buffers_ok k ∧ k_flag k = true ∧ my_timers (k_timers k) = 0%nat ∧ not_polled (k_fds k))).
    intros k f (Hb & Hf & Ht & Hn & _) _ _. split_and!; try done. by destruct Hb. }
  intros ?. apply triple_get. intros w (Hb & Hf & Ht & Hn).
  destruct (Z.eqb_spec (s (socket (te w))) retired_fd) as [E|E].
  - apply triple_start_timer. intros k ->. split; [by destruct Hb|]. split.
    + split; [done|]. simpl in *. by rewrite my_timers_snoc, Ht.
    + unfold flag_ok. simpl in *. by rewrite Hf.
  - eapply triple_bind; [apply (triple_add_fd _ _ (λ h k, k = core w <| k_fds := <[h := (k_fd (core w), this)]> (k_fds (core w)) |> ∧
      k_fds (core w) !! h = None))|].
    { by intros k h -> Hh. }
    intros h. eapply triple_bind; [apply (triple_modify _ _ (λ k, k <| k_handle := h |>) (λ k, ∃ k0, k = k0 <| k_handle := h |> ∧ 
       k0 = core w <| k_fds := <[h := (k_fd (core w), this)]> (k_fds (core w)) |> ∧ k_fds (core w) !! h = None)); [done|]|].
    { intros k [-> Hh]. eauto. }
    intros ?. eapply triple_bind; [apply triple_keeps; auto with keeps|]. intros ?.
    apply (triple_modify _ _ (λ k, k <| k_state := engine_connecting |>)); [done|].
    intros k (k0 & -> & -> & Hh). split; [by destruct Hb|]. split.
    + split; [|done]. simpl. split; [|done]. by apply polled_insert.
    + unfold flag_ok. simpl in *. by rewrite Hf.
Qed.

Lemma active_spec st : active st = true ↔ st = engine_connecting ∨ st = engine_connected.
Proof. by destruct st; split; intros; try done; auto; destruct H. Qed.

Lemma triple_reconnect : triple to_reconnect (tcp_reconnect this) (λ _, core_ok).
Proof.
  unfold tcp_reconnect. apply triple_get. intros w (Hb & Hf & Hs & Ht & Ha).
  set (J := λ k, buffers_ok k ∧ k_flag k = true ∧ my_timers (k_timers k) = 0%nat ∧ not_polled (k_fds k) ∧ k_fd k = retired_fd).
  apply (triple_bind _ (λ _, J)).
  - apply triple_when.
    + intros Hact. eapply triple_bind; [apply (triple_rm_fd _ _ (λ k, k = core w <| k_fds := delete (k_handle (core w)) (k_fds (core w)) |>))|].
      { by intros k ->. }
      intros ?. eapply triple_bind; [apply (triple_close _ (λ k, k = core w <| k_fds := delete (k_handle (core w)) (k_fds (core w)) |> <| k_fd := retired_fd |>))|].
      { by intros k ->. }
      intros ?. apply (triple_modify _ _ (λ k, k <| k_rpos := k_rsize k |> <| k_wpos := k_wsize k |>)); [done|].
      intros k ->. assert (active (k_state (core w)) = true) as E by (unfold is_state in Hact; rewrite orb_comm in Hact; exact Hact).
      rewrite E in Ha. destruct Hb as [H1 H2 H3]. split; [constructor; simpl in *; [lia|done|by left]|].
      split; [done|]. split; [done|]. split; [by eapply polled_delete|done].
    + intros Hact k ->. assert (active (k_state (core w)) = false) as E by (unfold is_state in Hact; rewrite orb_comm in Hact; exact Hact).
      rewrite E in Ha. by destruct Ha.
  - intros ?. destruct (is_state w engine_connecting); [|apply triple_reopened].
    apply triple_start_timer. intros k (Hb' & Hf' & Ht' & Hn & Hr). split; [by destruct Hb'|]. split.
    + split; [done|]. simpl in *. by rewrite my_timers_snoc, Ht'.
    + unfold flag_ok. simpl. by rewrite Hf'.
Qed.

Lemma triple_shutdown : triple (λ k, core_ok k ∧ k_flag k = false ∧ k_state k = engine_connected)
  tcp_shutdown (λ _, core_ok).
Proof.
  unfold tcp_shutdown. apply triple_get. intros w ((Hb & (Ha & Ht) & Hf) & Hff & Hs). rewrite Hs in Ha, Ht.
  eapply triple_bind; [apply (triple_rm_fd _ _ (λ k, k = core w <| k_fds := delete (k_handle (core w)) (k_fds (core w)) |>))|].
  { by intros k ->. }
  intros ?. eapply triple_bind; [apply (triple_close _ (λ k, k = core w <| k_fds := delete (k_handle (core w)) (k_fds (core w)) |> <| k_fd := retired_fd |>))|].
  { by intros k ->. }
  intros ?. apply triple_get. intros w' Hw'.
  eapply triple_bind; [apply triple_keeps; auto with keeps|]. intros ?.
  eapply triple_bind; [apply triple_keeps; auto with keeps|]. intros ?.
  apply (triple_modify _ _ (λ k, k <| k_state := engine_shutting_down |>)); [done|]. intros k ->. rewrite Hw'.
  split; [by destruct Hb|]. split; [|unfold flag_ok; simpl in *; rewrite Hff; by right].
  split; [|done]. split; [by eapply polled_delete, Ha|done].
Qed.

Lemma triple_error : triple (λ k, core_ok k ∧ active (k_state k) = true) (tcp_error this error_handler) (λ _, core_ok).
Proof.
  unfold tcp_error. apply triple_get. intros w (Hok & Hact).
  eapply triple_bind; [apply triple_keeps; keeps_auto|]. intros ?.
  eapply triple_bind; [apply triple_keeps; keeps_auto|]. intros ?.
  destruct Hok as (Hb & (Ha & Ht) & Hf). destruct (reconnect_flag (te w)) eqn:Ef.
  - eapply triple_weaken; [apply triple_reconnect| |done]. intros k ->. rewrite Hact in Ha. split; [done|].
    split; [done|]. unfold flag_ok in Hf. simpl in Hf. rewrite Ef in Hf. split; [done|]. rewrite Hact. split; [|by destruct Ha].
    rewrite Ht. simpl in *. by apply active_spec in Hact as [->| ->].
  - eapply triple_weaken; [apply triple_shutdown| |done]. intros k ->. split; [done|]. split; [done|].
    unfold flag_ok in Hf. simpl in *. rewrite Ef in Hf. destruct Hf as [|E]; [done|]. by rewrite E in Hact.
Qed.

(** ** Events *)

Lemma triple_decoder w data : triple (λ k, k = core w) (on_decoder (bp_decoder_write data))
  (λ n k, k = core w ∧ (n ≤ length data)%nat).
Proof.
  intros w0 n w1 E Hr. split; [by rewrite <- E, (keeps_on_decoder _ _ _ _ Hr)|].
  unfold runs, on_decoder, st_lift in Hr. destruct (bp_decoder_write data _) as [[n' s']|] eqn:Ed; [|done].
  simplify_eq. by eapply decoder_write_bound.
Qed.

Lemma triple_process_input stuck : triple core_ok (process_input stuck) (λ _, core_ok).
Proof.
  unfold process_input. apply triple_get. intros w Hok. apply triple_when; [|by intros _ k ->].
  intros Hlt%Z.ltb_lt. pose proof Hok as ([Hw Hr Hp] & Hs & Hf). simpl in Hr, Hp.
  eapply triple_bind; [apply triple_decoder|]. intros n. simpl.
  eapply triple_bind; [apply (triple_modify _ _ (λ k, k <| k_rpos := k_rpos k + Z.of_nat n |>) core_ok); [done|]|].
  { intros k [-> Hn]. split; [|done]. constructor; [done..|]. right; left.
    unfold unread in Hn. rewrite length_drop, length_take in Hn. simpl. lia. }
  intros ?. apply triple_get. intros w1 Hok1.
  apply (triple_weaken _ core_ok _ (λ _, core_ok)); [|by intros k ->|done].
  eapply triple_bind; [apply triple_keeps; keeps_auto|]. intros ?. apply triple_keeps. keeps_auto.
Qed.

Lemma triple_read w n : triple (λ k, k = core w) (on_net (tcp_read (socket (te w)) n))
  (λ o k, k = core w ∧ k_fd k ≠ retired_fd ∧ from_option (λ bs, length bs ≤ n)%nat True o).
Proof.
  intros w0 o w1 E Hr. pose proof (keeps_on_net _ _ _ _ Hr) as Ek. unfold runs, on_net, st_lift in Hr.
  destruct (tcp_read _ _ _) as [[o' n']|] eqn:Ed; [|done]. injection Hr as <- <-. split; [by rewrite Ek|].
  split; [|by eapply tcp_read_spec]. apply tcp_read_open in Ed. rewrite Ek, E. exact Ed.
Qed.

Lemma triple_in_event : triple core_ok (tcp_in_event this error_handler) (λ _, core_ok).
Proof.
  unfold tcp_in_event. apply triple_get. intros w Hok. destruct (is_state w engine_connecting) eqn:Est.
  - apply bool_decide_eq_true in Est. eapply triple_bind; [apply triple_keeps; auto with keeps|]. intros ?.
    eapply triple_bind; [apply triple_keeps; auto with keeps|]. intros ?.
    eapply triple_weaken; [apply triple_error| |done]. intros k ->. split; [done|]. simpl. by rewrite Est.
  - destruct (read_pos (te w) =? read_size (te w)).
    + eapply triple_bind; [apply triple_read|]. intros [bs|].
      * pose proof Hok as ([Hw Hr Hp] & Hs & Hf).
        eapply triple_bind; [apply (triple_modify _ _ (λ k, k <| k_rlen := length bs |> <| k_rsize := Z.of_nat (length bs) |> <| k_rpos := 0 |>) core_ok); [done|]|].
        { intros k (-> & _ & Hl). simpl in Hl. change (Z.to_nat bp_in_batch_size) with (Z.to_nat 8192) in Hl.
          split; [|done]. constructor; simpl; [done| |lia]. unfold bp_in_batch_size. lia. }
        intros ?. apply triple_process_input.
      * pose proof Hok as ([Hw Hr Hp] & [Ha Ht] & Hf).
        eapply triple_bind; [apply (triple_modify _ _ (λ k, k <| k_rsize := -1 |> <| k_rpos := 0 |>)
          (λ k, core_ok k ∧ active (k_state k) = true)); [done|]|].
        { intros k (-> & Hfd & _). split; [|].
          - split; [|done]. constructor; simpl; [done| |by right; right]. unfold bp_in_batch_size. lia.
          - simpl. simpl in Ha, Hfd. destruct (active (state (te w))); [done|]. by destruct Ha. }
        intros ?. apply triple_error.
    + eapply triple_weaken; [apply triple_process_input|by intros k ->|done].
Qed.

Lemma triple_write w : triple (λ k, k = core w) (on_net (tcp_write (socket (te w)) (unwritten (te w))))
  (λ n k, k = core w ∧ (n = -1 ∨ 0 ≤ n ≤ Z.of_nat (length (unwritten (te w))))).
Proof.
  intros w0 n w1 E Hr. pose proof (keeps_on_net _ _ _ _ Hr) as Ek. unfold runs, on_net, st_lift in Hr.
  destruct (tcp_write _ _ _) as [[n' net']|] eqn:Ed; [|done]. injection Hr as <- <-. split; [by rewrite Ek|].
  by eapply tcp_write_spec.
Qed.

Lemma triple_process_output : triple (λ k, core_ok k ∧ active (k_state k) = true)
  (process_output this error_handler) (λ _, core_ok).
Proof.
  unfold process_output. apply triple_get. intros w (Hok & Hact).
  destruct (Z.ltb_spec (write_pos (te w)) (write_size (te w))) as [Hlt|]; [|by intros w0 u w1 E [= _ <-]; rewrite E].
  eapply triple_bind; [apply triple_write|]. intros n. destruct (Z.eqb_spec n (-1)) as [->|Hn].
  - eapply triple_weaken; [apply triple_error| |done]. by intros k [-> _].
  - apply (triple_modify _ _ (λ k, k <| k_wpos := k_wpos k + n |>)); [done|]. intros k [-> Hl].
    destruct Hok as ([Hw Hr Hp] & Hs & Hf). split; [|done]. constructor; [|done..].
    unfold unwritten in Hl. rewrite length_drop, length_take in Hl. simpl in *. lia.
Qed.

Lemma triple_encoder w n : triple (λ k, k = core w) (on_encoder (bp_encoder_read n))
  (λ r k, k = core w ∧ (length r.1 ≤ n)%nat).
Proof.
  intros w0 r w1 E Hr. pose proof (keeps_on_encoder _ _ _ _ Hr) as Ek. split; [by rewrite Ek|].
  unfold runs, on_encoder, st_lift in Hr. destruct (bp_encoder_read n _) as [[r' s']|] eqn:Ed; [|done].
  injection Hr as <- _. by eapply encoder_read_bound.
Qed.

Lemma triple_out_event : triple (λ k, core_ok k ∧ active (k_state k) = true)
  (tcp_out_event this error_handler) (λ _, core_ok).
Proof.
  unfold tcp_out_event. apply triple_get. intros w (Hok & Hact). destruct (is_state w engine_connecting) eqn:Est.
  - apply bool_decide_eq_true in Est. eapply triple_bind; [apply triple_keeps; auto with keeps|]. intros [].
    + eapply triple_weaken; [apply triple_error| |done]. by intros k ->.
    + eapply triple_bind; [apply triple_keeps; keeps_auto|]. intros ?.
      eapply triple_bind; [apply triple_keeps; keeps_auto|]. intros ?.
      apply (triple_modify _ _ (λ k, k <| k_state := engine_connected |>)); [done|]. intros k ->.
      destruct Hok as (Hb & [Ha Ht] & Hf). simpl in Ha, Ht. rewrite Est in Ha, Ht. split; [by destruct Hb|].
      split; [by split|]. unfold flag_ok in *. simpl in *. rewrite Est in Hf.
      destruct (reconnect_flag (te w)); [done|by left].
  - eapply triple_bind; [|intros ?; apply triple_process_output]. simpl. apply triple_when; [|by intros _ k ->].
    intros _. eapply triple_bind; [apply triple_encoder|]. intros [data off]. simpl.
    eapply triple_bind; [apply (triple_modify _ _ (λ k, k <| k_wlen := length data |> <| k_wsize := Z.of_nat (length data) |> <| k_wpos := 0 |>)
      (λ k, core_ok k ∧ active (k_state k) = true)); [done|]|].
    { intros k [-> Hl]. split; [|done]. destruct Hok as ([Hw Hr Hp] & Hs & Hf). split; [|done].
      change (Z.to_nat bp_out_batch_size) with (Z.to_nat 8192) in Hl. constructor; simpl; [|done..].
      unfold bp_out_batch_size. lia. }
    intros ?. apply triple_get. intros w1 Hok1.
    apply (triple_weaken _ (λ k, core_ok k ∧ active (k_state k) = true) _ (λ _ k, core_ok k ∧ active (k_state k) = true)); [|by intros k ->|done].
    apply triple_keeps. keeps_auto.
Qed.

Lemma triple_process c : triple core_ok (tcp_process this error_handler fuel c) (λ _, core_ok).
Proof.
  assert (∀ p, triple core_ok (tcp_revive this error_handler p) (λ _, core_ok)) as Hrev.
  { intros p. unfold tcp_revive. eapply triple_bind; [apply triple_keeps; auto with keeps|]. intros ?.
    apply triple_get. intros w Hok. apply triple_when; [|by intros _ k ->]. intros [Hs%bool_decide_eq_true _]%andb_true_iff.
    eapply triple_bind; [apply triple_keeps; auto with keeps|]. intros ?.
    eapply triple_weaken; [apply triple_out_event| |done]. intros k ->. split; [done|]. simpl. by rewrite Hs. }
  assert (∀ p pos, triple core_ok (tcp_head this error_handler p pos) (λ _, core_ok)) as Hhead.
  { intros p pos. eapply triple_bind; [apply triple_keeps; auto with keeps|]. intros ?. apply triple_in_event. }
  assert (∀ f, (∀ w, core (w <| te := f (te w) |>) = core w) → keeps core (te_modify f)) as Hmod.
  { intros f Hf. apply keeps_modify. exact Hf. }
  destruct c; simpl; [apply Hrev|apply Hhead|apply triple_keeps..]; [..|by auto with keeps|by auto with keeps].
  - unfold tcp_send_to. apply keeps_bind; [by apply Hmod|]. intros ?. keeps_auto.
  - unfold tcp_receive_from. apply keeps_bind; [auto with keeps|]. intros ?. apply keeps_bind; [auto with keeps|]. intros ?.
    apply keeps_bind; [keeps_auto|]. intros ?. apply keeps_bind; [by apply Hmod|]. intros ?. keeps_auto.
Qed.

(** ** The life of an engine *)

(** What may happen to a registered engine: the poller calls it, for a
    descriptor polled for it or after taking its timer; a command arrives; or
    something happens to the rest of the thread. *)
Inductive tstep w : tworld P S N Q → Prop :=
  | ts_in h f w' : po_fds (poll w) !! h = Some (f, this) →
      runs (tcp_in_event this error_handler) w tt w' → tstep w w'
  | ts_out h f w' : po_fds (poll w) !! h = Some (f, this) →
      runs (tcp_out_event this error_handler) w tt w' → tstep w w'
  | ts_timer q w' : po_timers (poll w) ≡ₚ this :: po_timers q → po_fds q = po_fds (poll w) →
      runs (tcp_timer_event this) (w <| poll := q |>) tt w' → tstep w w'
  | ts_command c w' : runs (tcp_process this error_handler fuel c) w tt w' → tstep w w'
  | ts_elsewhere o n q : (∀ h f, po_fds q !! h = Some (f, this) ↔ po_fds (poll w) !! h = Some (f, this)) →
      my_timers (po_timers q) = my_timers (po_timers (poll w)) →
      tstep w (w <| tobjs := o |> <| net := n |> <| poll := q |>).

(** An engine that was just made, for its host or for a descriptor. *)
Definition just_made (e : bp_tcp_engine_t) : Prop :=
  ∃ ct t obj o n s', (∃ host lb, runs (bp_tcp_engine_connect (P := P) (S := S) this ct t host obj lb) (o, n) e s') ∨
    (∃ f, runs (bp_tcp_engine_accepted (P := P) (S := S) this ct t f obj) (o, n) e s').

Lemma polled_active k h f : core_ok k → k_fds k !! h = Some (f, this) → active (k_state k) = true.
Proof. intros (_ & [Ha _] & _) Hl. destruct (active (k_state k)); [done|]. destruct Ha as [Hn _]. by apply Hn in Hl. Qed.

Lemma tstep_ok w w' : tcp_ok w → tstep w w' → tcp_ok w'.
Proof.
  intros Hok [h f w1 Hl Hr|h f w1 Hl Hr|q w1 Ht Hf Hr|c w1 Hr|o n q Hf Ht].
  - by eapply triple_in_event.
  - eapply triple_out_event; [|exact Hr]. split; [done|]. by eapply polled_active.
  - unfold tcp_timer_event in Hr. st_inv. eapply triple_reconnect; [|exact Hr].
    destruct Hok as (Hb & [Ha Htm] & Hfl). assert (state (te w) = engine_waiting_for_reconnect) as Es.
    { match goal with H : is_state _ _ = true |- _ => by apply bool_decide_eq_true in H end. }
    simpl in Ha, Htm. rewrite Es in Ha, Htm. simpl in Ha, Htm. split; [by destruct Hb|]. unfold flag_ok in Hfl. simpl in *.
    rewrite Es in *. destruct (reconnect_flag (te w)) eqn:Efl; [|by destruct Hfl]. simpl.
    split_and!; [done..| |rewrite Hf; apply Ha|apply Ha].
    unfold my_timers in *. rewrite Ht, filter_cons_True in Htm by done. simpl in Htm. lia.
  - by eapply triple_process.
  - destruct Hok as (Hb & [Ha Htm] & Hfl). split; [by destruct Hb|]. split; [|done]. split; [|simpl in *; congruence].
    simpl in *. destruct (active (state (te w))).
    + destruct Ha as [Hp Hs]. split; [|done]. intros h f. rewrite Hf. apply Hp.
    + destruct Ha as [Hp Hs]. split; [|done]. intros h f Hl%Hf. by apply Hp in Hl.
Qed.

Definition unregistered (k : tcore) : Prop :=
  buffers_ok k ∧ flag_ok k ∧ not_polled (k_fds k) ∧ my_timers (k_timers k) = 0%nat ∧ active (k_state k) = true ∧
  (k_fd k = retired_fd → k_flag k = true).

Lemma triple_register : triple unregistered (tcp_register_event this) (λ _, core_ok).
Proof.
  unfold tcp_register_event. apply triple_get. intros w (Hb & Hf & Hn & Ht & Ha & Hret).
  destruct (Z.eqb_spec (s (socket (te w))) retired_fd) as [Es|Es].
  - apply triple_start_timer. intros k ->. specialize (Hret Es). split; [by destruct Hb|]. split.
    + split; [done|]. simpl in *. by rewrite my_timers_snoc, Ht.
    + unfold flag_ok in *. simpl in *. by rewrite Hret.
  - eapply triple_bind; [apply (triple_add_fd _ _ (λ h k, k = core w <| k_fds := <[h := (k_fd (core w), this)]> (k_fds (core w)) |> ∧
      k_fds (core w) !! h = None))|].
    { by intros k h -> Hh. }
    intros h. eapply triple_bind; [apply (triple_modify _ _ (λ k, k <| k_handle := h |>) core_ok); [done|]|].
    { intros k [-> Hh]. split; [by destruct Hb|]. split; [|done]. unfold socket_ok. simpl in *. rewrite Ha, Ht. split.
      - split; [|done]. by apply polled_insert.
      - by apply active_spec in Ha as [->| ->]. }
    intros ?. apply triple_keeps. keeps_auto.
Qed.

Lemma register_ok e w w' : just_made e → te w = e → not_polled (po_fds (poll w)) → my_timers (po_timers (poll w)) = 0%nat →
  runs (tcp_register_event this) w tt w' → tcp_ok w'.
Proof.
  intros Hmade He Hn Ht Hr.
  assert (∃ base obj sock, e = engine_fields base obj true engine_connecting sock ∨
    e = engine_fields base obj false engine_connected sock ∧ s sock ≠ retired_fd) as (base & obj & sock & Hcase).
  { destruct Hmade as (ct & t & obj & o & n & s' & [(host & lb & Hm)|(f & Hm)]).
    - unfold bp_tcp_engine_connect in Hm. st_inv. eauto.
    - unfold bp_tcp_engine_accepted in Hm. apply runs_bind_inv in Hm as (sock & s1 & H1 & Hm). st_inv.
      unfold runs, st_lift in H1. simpl in H1. destruct (tcp_socket_from f false n) as [[t1 n1]|] eqn:E; [|done].
      injection H1 as <- _. unfold tcp_socket_from in E.
      apply runs_bind_inv in E as (u & n2 & Hu & E). apply runs_assert in Hu as [Hu ->].
      apply runs_bind_inv in E as (u2 & n3 & _ & E). injection E as <- _. apply negb_true_iff, Z.eqb_neq in Hu.
      exists (engine_base_new false), obj, (TcpSocket f [] false). by right. }
  eapply triple_register; [|exact Hr].
  subst e. destruct Hcase as [E|[E Hs]]; unfold unregistered, flag_ok; simpl; rewrite E; simpl;
    (split_and!; [constructor; simpl; rewrite ?E; simpl; unfold bp_out_batch_size, bp_in_batch_size; lia|auto|done..]).
Qed.

(** C32: An engine that was registered keeps its descriptor polled exactly while
    it connects or is connected, with an open socket; otherwise its socket is
    closed and nothing is polled for it.  It has one timer running exactly
    while it waits to reconnect.  Its buffers hold what their positions say,
    and only an engine that does not reconnect shuts down.  This holds
    whatever the peer, the other engines and the order of events. *)
Theorem tcp_engine_invariant e w0 w1 w : just_made e → te w0 = e →
  not_polled (po_fds (poll w0)) → my_timers (po_timers (poll w0)) = 0%nat →
  runs (tcp_register_event this) w0 tt w1 → rtc tstep w1 w → tcp_ok w.
Proof.
  intros Hmade He Hn Ht Hr Hs. assert (tcp_ok w1) as H1 by by eapply register_ok.
  clear Hr. induction Hs as [|w1 w2 w3 H12 _ IH]; [done|]. apply IH. by eapply tstep_ok.
Qed.
End tcp_engine.
