(* ===== verification/TcpRuns.v ===== *)
(** What follows for TCP engines and listeners, and runs of them over a small
    kernel and poller. *)
From S2P Require Import Prelude Config YQueue Channel YPipe Message Command Swap Pipe PipeRuns Store Mux Demux Engine Codec BpCodec TcpSocket BpTcpEngine TcpEngineStates.
Local Open Scope Z_scope.

Section consequences.
Context {P S N Q : Type} `{!Channel raw_message P, !Swap S, !Sockets N, !SocketsLaws N, !IPoller Q, !IPollerLaws Q}.

(** A [head] command runs [in_event] in whatever state the engine is: in one
    that waits to reconnect, it reads the closed socket. *)
Lemma tcp_head_waiting_aborts (this : engine_id) eh (w w1 : tworld P S N Q) pipe pos :
  tcp_ok this w → state (te w) = engine_waiting_for_reconnect → read_pos (te w) = read_size (te w) →
  runs (on_base (engine_head true pipe pos)) w tt w1 →
  tcp_head this eh pipe pos w = Crash AssertFailed.
Proof.
  intros (_ & [Ha _] & _) Hs Hr H1. pose proof (keeps_on_base _ _ _ _ H1) as Hk.
  simpl in Ha. rewrite Hs in Ha. destruct Ha as [_ Hfd].
  assert (state (te w1) = engine_waiting_for_reconnect ∧ read_pos (te w1) = read_size (te w1) ∧
    s (socket (te w1)) = retired_fd) as (Hs1 & Hr1 & Hfd1).
  { unfold core in Hk. injection Hk as _ _ E1 E2 _ _ _ _ E3 E4 _ _. split_and!; congruence. }
  unfold tcp_head, tcp_in_event, mbind, st_bind. unfold runs in H1. rewrite H1. simpl. unfold is_state.
  rewrite Hs1, Hr1, Z.eqb_refl. simpl. unfold on_net, st_lift. by rewrite tcp_read_closed.
Qed.

Lemma accepted_sends a ct t f obj (s : store P S * N) e s' :
  runs (bp_tcp_engine_accepted a ct t f obj) s e s' →
  s'.1 = s.1 <| sent_out := sent_out s.1 ++ [Sent ct t (init_register_engine (Some a))] |>.
Proof.
  unfold bp_tcp_engine_accepted. intros (sock & s1 & H1 & Hr)%runs_bind_inv.
  apply runs_bind_inv in Hr as (u & s2 & H2 & Hr). injection Hr as <- <-. injection H2 as _ <-.
  unfold runs, st_lift in H1. destruct (tcp_socket_from _ _ _) as [[]|]; [|done]. by injection H1 as <- <-.
Qed.

Lemma new_tcp_engine_spec lthread thread fd (w : lworld P S N Q) a w' :
  runs (new_tcp_engine lthread thread fd) w a w' → a = next_address w ∧ next_address w' = Pos.succ (next_address w) ∧
  lis w' = lis w ∧ lobjs w' = lobjs w <| sent_out := sent_out (lobjs w) ++
    [Sent lthread thread (init_register_engine (Some a))] |> ∧ ∃ e, engines w' = engines w ++ [(a, thread, e)].
Proof.
  unfold new_tcp_engine. intros (w0 & w1 & H1 & Hr)%runs_bind_inv. injection H1 as <- <-.
  apply runs_bind_inv in Hr as (b & w1 & H1 & Hr). injection H1 as <- <-.
  apply runs_bind_inv in Hr as (e & w1 & H1 & Hr). unfold runs, st_lift in H1.
  destruct (bp_tcp_engine_accepted _ _ _ _ _ _) as [[e' s']|] eqn:Ee; [|done]. apply accepted_sends in Ee.
  injection H1 as <- <-. apply runs_bind_inv in Hr as (u & w1 & H1 & Hr). injection H1 as _ <-. injection Hr as <- <-.
  simpl in *. split_and!; [done..|eauto].
Qed.

Lemma next_turn (c n : nat) : (c < n)%nat →
  (if bool_decide (Datatypes.S c = n) then 0%nat else Datatypes.S c) = ((c + 1) `mod` n)%nat.
Proof.
  intros Hc. case_bool_decide as E; [subst n|rewrite Nat.mod_small; lia].
  by rewrite Nat.add_1_r, Nat.Div0.mod_same.
Qed.

(** C38: A listener gives each connection to the next of its threads, in turn:
    it makes one engine for it there and one pipe between that engine and its
    peer, in the direction it was made for, and tells the thread to register
    the engine before both ends learn of the pipe.  Without a connection it
    changes nothing of its own. *)
Theorem listener_accepts (lthread : thread_id) (peer_info : engine_info) (w w' : lworld P S N Q) :
  (current_handler_thread (lis w) < length (handler_threads (lis w)))%nat →
  runs (listener_in_event lthread peer_info) w tt w' →
  (lis w' = lis w ∧ lobjs w' = lobjs w ∧ engines w' = engines w) ∨
  ∃ thread engine pipe e,
    let l := lis w in
    handler_threads l !! current_handler_thread l = Some thread ∧
    engines w' = engines w ++ [(engine, thread, e)] ∧ engine ≠ pipe ∧
    lis w' = l <| current_handler_thread := ((current_handler_thread l + 1) `mod` length (handler_threads l))%nat |> ∧
    heap (lobjs w') = heap (lobjs w) ∧
    pipes (lobjs w') = <[pipe :=
      if source l then pipe_new thread engine (peer_thread l) (peer_engine l) tcp_info peer_info
      else pipe_new (peer_thread l) (peer_engine l) thread engine peer_info tcp_info]> (pipes (lobjs w)) ∧
    sent_out (lobjs w') = sent_out (lobjs w) ++
      [Sent lthread thread (init_register_engine (Some engine));
       Sent lthread thread (if source l then init_engine_send_to (Some engine) pipe
                            else init_engine_receive_from (Some engine) pipe);
       Sent lthread (peer_thread l) (if source l then init_engine_receive_from (Some (peer_engine l)) pipe
                                     else init_engine_send_to (Some (peer_engine l)) pipe)].
Proof.
  intros Hc Hr. unfold listener_in_event in Hr. apply runs_bind_inv in Hr as (w0 & w1 & H1 & Hr).
  unfold runs, st_get in H1. injection H1 as <- <-.
  apply runs_bind_inv in Hr as (f & w1 & H1 & Hr). unfold runs, on_lnet, st_lift in H1.
  destruct (tcp_accept (listener (lis w)) (lnet w)) as [[f' n']|] eqn:Ea; [|done]. injection H1 as <- <-.
  destruct (f' =? retired_fd).
  { left. unfold runs, mret, st_ret in Hr. by injection Hr as <-. }
  right. destruct (handler_threads (lis w) !! current_handler_thread (lis w)) as [thread|] eqn:Et;
    [|by apply lookup_ge_None in Et; lia].
  apply runs_bind_inv in Hr as (th & w2 & H1 & Hr). injection H1 as <- <-.
  apply runs_bind_inv in Hr as (a & w2 & H1 & Hr). apply new_tcp_engine_spec in H1 as (Ea' & En & El & Eo & e & Ee).
  simpl in Ea', En, El, Eo, Ee. subst a.
  apply runs_bind_inv in Hr as (u & w3 & H1 & Hr). injection Hr as <-. exists thread, (next_address w), (Pos.succ (next_address w)), e.
  simpl. destruct (source (lis w)) eqn:Esrc; injection H1 as _ <-; simpl; rewrite El, Eo, Ee, En, next_turn by done; simpl;
    rewrite <- !app_assoc; (split_and!; rewrite ?Esrc; try done; lia).
Qed.
End consequences.

(** ** A kernel and a poller *)

#[local] Instance slots2 : SlotQueue raw_message (yqueue raw_message) := yqueue_slot_queue 2.

(** What the next calls report: errors of connections, data received, and
    connections made to a listener. *)
Record kernel := Kernel { so_errors : list (option errno); inbox : list (list Z + errno); callers : list nat }.

#[export] Instance kernel_sockets : Sockets kernel := {
  sys_getaddrinfo _ := mret (Some 0);
  sys_socket := mret 5;
  sys_nonblocking _ := mret true;
  sys_nodelay _ := mret true;
  sys_connect _ _ := mret (Some EINPROGRESS);
  sys_close _ := mret true;
  sys_send _ bs := mret (inl (Z.of_nat (length bs)));
  sys_recv f n _ := λ k,
    if f =? retired_fd then Ok (inr EBADF, k)
    else match inbox k with
         | [] => Ok (inr EAGAIN, k)
         | inl bs :: l => Ok (inl (take n bs), Kernel (so_errors k) l (callers k))
         | inr e :: l => Ok (inr e, Kernel (so_errors k) l (callers k))
         end;
  sys_so_error _ := λ k,
    match so_errors k with [] => Ok (None, k) | e :: l => Ok (e, Kernel l (inbox k) (callers k)) end;
  sys_accept _ := λ k,
    match callers k with
    | [] => Ok (inr EAGAIN, k)
    | f :: l => Ok (inl (Z.of_nat f), Kernel (so_errors k) (inbox k) l)
    end
}.

#[export] Instance kernel_laws : SocketsLaws kernel.
Proof.
  constructor; unfold runs; simpl.
  - intros s f s' [= <- _]. by right.
  - intros _ s f s'. destruct (callers s); intros [= <- _]. lia.
  - intros f bs s n s' [= <- _]. lia.
  - intros f n _ s bs s'. destruct (f =? retired_fd); [done|]. destruct (inbox s) as [|[b|] l]; intros [= <- _].
    rewrite length_take. lia.
  - done.
Defined.

Record table := Table { t_fds : gmap handle_t (fd_t * engine_id); t_timers : list engine_id }.

#[export] Instance table_poller : IPoller table := {
  po_add_fd f e := λ q, let h := fresh (dom (t_fds q)) in Ok (h, Table (<[h := (f, e)]> (t_fds q)) (t_timers q));
  po_rm_fd h := st_modify (λ q, Table (delete h (t_fds q)) (t_timers q));
  po_set_pollin _ := mret tt;
  po_reset_pollin _ := mret tt;
  po_set_pollout _ := mret tt;
  po_reset_pollout _ := mret tt;
  po_add_timer e := st_modify (λ q, Table (t_fds q) (t_timers q ++ [e]))
}.

#[export] Instance table_laws : IPollerLaws table.
Proof.
  refine {| po_fds := t_fds; po_timers := t_timers |}; try (intros h; apply keeps_ret).
  - intros f e q h q' [= <- <-]. simpl. split; [|done]. apply not_elem_of_dom, is_fresh.
  - by intros h q u q' [= _ <-].
  - by intros e q u q' [= _ <-].
Defined.

(** ** An engine that loses its peer twice *)

Abbreviation demo_world := (tworld (ypipe (yqueue raw_message)) unit kernel table).

Definition no_objects : store (ypipe (yqueue raw_message)) unit := Store (MHeap ∅ 1000 []) ∅ [].
Definition demo_host : cstring := [104; 58; 53].
Definition demo_kernel : kernel := Kernel [Some ECONNREFUSED; None] [inr ECONNRESET] [].

Definition demo_engine : res (bp_tcp_engine_t * (store (ypipe (yqueue raw_message)) unit * kernel)) :=
  bp_tcp_engine_connect 1 2 3 demo_host [111] true (no_objects, demo_kernel).

Abbreviation got r := (match r with Ok (_, w) => Some w | Crash _ => None end).

(** One call of the poller, checked to be due. *)
Inductive demo_event := DIn | DOut | DTimer.
Definition demo_exec (w : demo_world) (ev : demo_event) : option demo_world :=
  match ev with
  | DIn => guard (t_fds (poll w) !! handle (te w) = Some (5, 1%positive));; got (tcp_in_event 1 None w)
  | DOut => guard (t_fds (poll w) !! handle (te w) = Some (5, 1%positive));; got (tcp_out_event 1 None w)
  | DTimer => guard (t_timers (poll w) = [1%positive]);; got (tcp_timer_event 1 (w <| poll := Table (t_fds (poll w)) [] |>))
  end.

Lemma demo_exec_sound w ev w' : demo_exec w ev = Some w' → tstep 1 None 0 w w'.
Proof.
  destruct ev; simpl; intros E; case_guard as Hg; try discriminate; simpl in E.
  - destruct (tcp_in_event 1 None w) as [[[] w1]|] eqn:Er; [|discriminate]. injection E as <-. by eapply ts_in.
  - destruct (tcp_out_event 1 None w) as [[[] w1]|] eqn:Er; [|discriminate]. injection E as <-. by eapply ts_out.
  - destruct (tcp_timer_event 1 _) as [[[] w1]|] eqn:Er; [|discriminate]. injection E as <-.
    apply (ts_timer 1 None 0 w (Table (t_fds (poll w)) [])); [|reflexivity|exact Er].
    change (t_timers (poll w) ≡ₚ [1%positive]). by rewrite Hg.
Qed.

(** The states an engine goes through. *)
Fixpoint demo_run (w : demo_world) (evs : list demo_event) : option (demo_world * list engine_state_t) :=
  match evs with
  | [] => Some (w, [state (te w)])
  | ev :: evs => w1 ← demo_exec w ev; '(w2, l) ← demo_run w1 evs; Some (w2, state (te w) :: l)
  end.

Lemma demo_run_sound evs : ∀ w w' l, demo_run w evs = Some (w', l) → rtc (tstep 1 None 0) w w'.
Proof.
  induction evs as [|ev evs IH]; intros w w' l E; simpl in E; [injection E as <- _; reflexivity|].
  destruct (demo_exec w ev) as [w1|] eqn:E1; [|discriminate]. simpl in E.
  destruct (demo_run w1 evs) as [[w2 l2]|] eqn:E2; [|discriminate]. simpl in E. injection E as <- _.
  eapply rtc_l; [by eapply demo_exec_sound|by eapply IH].
Qed.

(** The connection is refused, is made after a while, and is reset. *)
Definition demo_events : list demo_event := [DOut; DTimer; DOut; DIn].
Definition demo_states : list engine_state_t :=
  [engine_connecting; engine_waiting_for_reconnect; engine_connecting; engine_connected; engine_connecting].

Definition demo_life : option (demo_world * list engine_state_t) :=
  match demo_engine with
  | Ok (e, (o, k)) => w1 ← got (tcp_register_event 1 (TWorld e o k (Table ∅ []))); demo_run w1 demo_events
  | Crash _ => None
  end.

Lemma demo_engine_runs : ∃ e s' w1 w l, runs (bp_tcp_engine_connect 1 2 3 demo_host [111] true) (no_objects, demo_kernel) e s' ∧
  runs (tcp_register_event 1) (TWorld e s'.1 s'.2 (Table ∅ [])) tt w1 ∧ rtc (tstep 1 None 0) w1 w ∧
  bool_decide (l = demo_states) = true.
Proof.
  destruct (option_computes (λ r, bool_decide (r.2 = demo_states)) demo_life) as ([w l] & E & Hs); [vm_compute; reflexivity|].
  unfold demo_life, demo_engine in E.
  destruct (bp_tcp_engine_connect 1 2 3 demo_host [111] true (no_objects, demo_kernel)) as [[e [o k]]|] eqn:Ec; [|discriminate].
  destruct (tcp_register_event 1 (TWorld e o k (Table ∅ []))) as [[[] w1]|] eqn:Er; [|discriminate].
  exists e, (o, k), w1, w, l. split; [exact Ec|]. split; [exact Er|]. split; [|exact Hs].
  by eapply demo_run_sound.
Qed.

Lemma tcp_engine_invariant_witness : ∃ (w : demo_world) l, bool_decide (l = demo_states) = true ∧ tcp_ok 1 w.
Proof.
  destruct demo_engine_runs as (e & s' & w1 & w & l & Hc & Hr & Hs & Hl). exists w, l. split; [exact Hl|].
  apply (tcp_engine_invariant 1 None 0 e (TWorld e s'.1 s'.2 (Table ∅ [])) w1 w).
  - exists 2%positive, 3%positive, [111], no_objects, demo_kernel, s'. left. exists demo_host, true. exact Hc.
  - reflexivity.
  - intros h f Hh. exact (eq_ind None (λ o, match o with None => True | Some _ => False end) I _ Hh).
  - reflexivity.
  - exact Hr.
  - exact Hs.
Defined.

(** ** A listener with two threads *)

Definition demo_listener : lworld (ypipe (yqueue raw_message)) unit kernel table :=
  LWorld (BpTcpListener true 7 8 [113] 4 0 [10; 11]%positive 1) no_objects (Kernel [] [] [9%nat]) (Table ∅ []) [] 20.

Lemma demo_listener_runs : ∃ w', runs (listener_in_event 2 (EngineInfo (-1, -1) 0)) demo_listener tt w' ∧
  bool_decide (current_handler_thread (lis w') = 0%nat ∧ (engines w').*1 = [(20, 11)]%positive) = true.
Proof.
  destruct (option_computes (λ w', bool_decide (current_handler_thread (lis w') = 0%nat ∧ (engines w').*1 = [(20, 11)]%positive))
    (got (listener_in_event 2 (EngineInfo (-1, -1) 0) demo_listener))) as (w' & E & Hs); [vm_compute; reflexivity|].
  exists w'. split; [|exact Hs]. unfold runs. destruct (listener_in_event _ _ demo_listener) as [[[] w1]|]; [|discriminate].
  by injection E as ->.
Qed.

Lemma listener_accepts_witness : ∃ w' : lworld (ypipe (yqueue raw_message)) unit kernel table,
  bool_decide (current_handler_thread (lis w') = 0%nat ∧ (engines w').*1 = [(20, 11)]%positive) = true ∧
  ((lis w' = lis demo_listener ∧ lobjs w' = lobjs demo_listener ∧ engines w' = engines demo_listener) ∨
   ∃ thread engine e, handler_threads (lis demo_listener) !! 1%nat = Some thread ∧
     engines w' = [(engine, thread, e)]).
Proof.
  destruct demo_listener_runs as (w' & Hr & Hs). exists w'. split; [exact Hs|].
  assert (1 < 2)%nat as Hc by repeat constructor.
  destruct (listener_accepts 2 (EngineInfo (-1, -1) 0) demo_listener w' Hc Hr) as [H|(t & en & p & e & H1 & H2 & _)].
  - left. exact H.
  - right. exists t, en, e. split; [exact H1|exact H2].
Defined.
