(* ===== verification/Poller.v ===== *)
(** The I/O thread ([src/libzmq/zmq/poller.hpp]): it waits for events on
    descriptors, passes them to engines, and obeys the commands of other
    threads.  How it waits is the template's parameter. *)
From S2P Require Import Prelude Config Command TcpSocket BpTcpEngine.
Local Open Scope Z_scope.

Inductive event_t := event_in | event_out | event_err.

(** What the template asks of its parameter [T] ([event_monitor]); engines
    may be NULL. *)
Class EventMonitor (M : Type) := {
  em_add_fd : fd_t → option engine_id → ST M handle_t;
  em_rm_fd : handle_t → ST M unit;
  em_set_pollin : handle_t → ST M unit;
  em_reset_pollin : handle_t → ST M unit;
  em_set_pollout : handle_t → ST M unit;
  em_reset_pollout : handle_t → ST M unit
}.

Record poller_t (M : Type) := Poller {
  event_monitor : M;
  timers : list engine_id;
  engines : list engine_id;
  thread_id : nat;
  signaler_handle : handle_t
}.
Arguments Poller {M}.
Arguments event_monitor {M}.
Arguments timers {M}.
Arguments engines {M}.
Arguments thread_id {M}.
Arguments signaler_handle {M}.
#[export] Instance eta_poller {M} : Eta (poller_t M) := λ p,
  Poller (event_monitor p) (timers p) (engines p) (thread_id p) (signaler_handle p).

Section i_poller.
Context {M : Type} `{!EventMonitor M}.

Definition on_monitor {A} : ST M A → ST (poller_t M) A :=
  st_lift event_monitor (λ m p, p <| event_monitor := m |>).

(** The constructor, given the identifier that the dispatcher allocated. *)
Definition poller_new (signaler_fd : fd_t) (id : nat) (m : M) : res (poller_t M) :=
  '(h, m) ← em_add_fd signaler_fd None m;
  '(_, m) ← em_set_pollin h m;
  Ok (Poller m [] [] id h).

Definition cancel_timer (engine_ : engine_id) : ST (poller_t M) unit :=
  st_modify (λ p, match list_find (eq engine_) (timers p) with
                  | Some (i, _) => p <| timers := take i (timers p) ++ drop (S i) (timers p) |>
                  | None => p
                  end).

#[export] Instance poller_i_poller : IPoller (poller_t M) := {
  po_add_fd f e := on_monitor (em_add_fd f (Some e));
  po_rm_fd h := on_monitor (em_rm_fd h);
  po_set_pollin h := on_monitor (em_set_pollin h);
  po_reset_pollin h := on_monitor (em_reset_pollin h);
  po_set_pollout h := on_monitor (em_set_pollout h);
  po_reset_pollout h := on_monitor (em_reset_pollout h);
  po_add_timer e := st_modify (λ p, p <| timers := timers p ++ [e] |>)
}.
End i_poller.

(** ** The thread *)

(** The objects of the thread, seen from the poller: its own state, its
    engines behind their interface, its signaler and the dispatcher. *)
Class PollerWorld (W M : Type) := {
  poller_of : W → poller_t M;
  set_poller : poller_t M → W → W;
  en_register_event : engine_id → ST W unit;
  en_unregister_event : engine_id → ST W unit;
  en_in_event : engine_id → handle_t → ST W unit;
  en_out_event : engine_id → handle_t → ST W unit;
  en_timer_event : engine_id → ST W unit;
  en_command : engine_id → engine_command_t → ST W unit;
  signaler_check : ST W Z;
  disp_thread_count : W → nat;
  disp_read : nat → nat → ST W (option command_t)
}.

Section poller.
Context {W M : Type} `{!PollerWorld W M}.

Definition modify_poller (f : poller_t M → poller_t M) : ST W unit :=
  st_modify (λ w, set_poller (f (poller_of w)) w).

(** [false]: the thread should end. *)
Definition poller_process_command (command_ : command_t) : ST W bool :=
  match command_ with
  | c_stop => mret false
  | c_register_engine e =>
      engine ← st_of_option BadAccess e;
      en_register_event engine ;;
      modify_poller (λ p, p <| engines := engines p ++ [engine] |>) ;;
      mret true
  | c_unregister_engine e =>
      engine ← st_of_option BadAccess e;
      en_unregister_event engine ;;
      mret true
  | c_engine_command e engcmd =>
      engine ← st_of_option BadAccess e;
      en_command engine engcmd ;;
      mret true
  end.

(** The commands of one thread; [n] bounds those that arrive meanwhile.
    [true]: one of them was [stop]. *)
Fixpoint read_commands (n : nat) (source_thread_id : nat) : ST W bool :=
  match n with
  | O => st_crash OutOfFuel
  | S n =>
      w ← st_get;
      c ← disp_read source_thread_id (thread_id (poller_of w));
      match c with
      | None => mret false
      | Some c =>
          go ← poller_process_command c;
          (if negb go then mret true else read_commands n source_thread_id : ST W bool)
      end
  end.

(** The loop over the threads that sent a signal. *)
Fixpoint read_all_commands (n : nat) (signals : Z) (sources : list nat) : ST W bool :=
  match sources with
  | [] => mret false
  | source_thread_id :: sources =>
      stop ← (if Z.testbit signals (Z.of_nat source_thread_id) then read_commands n source_thread_id else mret false);
      (if (stop : bool) then mret true else read_all_commands n signals sources : ST W bool)
  end.

Definition poller_process_event (n : nat) (handle_ : handle_t) (engine_ : option engine_id) (event_ : event_t) : ST W bool :=
  match engine_ with
  | None =>
      signals ← signaler_check;
      st_assert (negb (signals =? 0)) ;;
      w ← st_get;
      read_all_commands n signals (seq 0 (disp_thread_count w))
  | Some engine =>
      (match event_ with
       | event_out => en_out_event engine handle_
       | event_err | event_in => en_in_event engine handle_
       end) ;;
      mret false
  end.

Definition poller_timer_event : ST W unit :=
  w ← st_get;
  let t := timers (poller_of w) in
  modify_poller (λ p, p <| timers := [] |>) ;;
  st_for t en_timer_event.

(** [loop], for [n] rounds of [process_events] at most. *)
Fixpoint poller_rounds (process_events : bool → ST W bool) (n : nat) : ST W unit :=
  match n with
  | O => st_crash OutOfFuel
  | S n =>
      w ← st_get;
      stop ← process_events (bool_decide (timers (poller_of w) ≠ []));
      (if (stop : bool) then mret tt else poller_rounds process_events n : ST W unit)
  end.

Definition poller_loop (process_events : bool → ST W bool) (n : nat) : ST W unit :=
  poller_rounds process_events n ;;
  w ← st_get;
  st_for (engines (poller_of w)) en_unregister_event.
End poller.
