(* ===== verification/PollThread.v ===== *)
(** Waiting with [poll] ([src/libzmq/poll_thread.cpp]): descriptors are kept
    in the array that the system call takes, and a table finds their place in
    it.  A descriptor that is removed leaves a hole until the end of the
    round. *)
From S2P Require Import Prelude Config Command TcpSocket BpTcpEngine Poller.
Local Open Scope Z_scope.

Definition POLLIN : Z := 1.
Definition POLLOUT : Z := 4.
Definition POLLERR : Z := 8.
Definition POLLHUP : Z := 16.
Definition POLLNVAL : Z := 32.

Record pollfd := PollFd { p_fd : fd_t; p_events : Z; p_revents : Z }.
#[export] Instance eta_pollfd : Eta pollfd := λ p, PollFd (p_fd p) (p_events p) (p_revents p).

Record fd_entry_t := FdEntry { index : Z; engine : option engine_id }.
#[export] Instance eta_fd_entry : Eta fd_entry_t := λ e, FdEntry (index e) (engine e).

Record poll_t := Poll { fd_table : list fd_entry_t; pollset : list pollfd; retired : bool }.
#[export] Instance eta_poll : Eta poll_t := λ p, Poll (fd_table p) (pollset p) (retired p).

(** [limit] descriptors may be open. *)
Definition poll_new (limit : nat) : poll_t := Poll (replicate limit (FdEntry retired_fd None)) [] false.

(** [v [i]] of a vector; other indices are out of its memory. *)
Definition at_ {A} (l : list A) (i : Z) : option A := guard (0 ≤ i);; l !! Z.to_nat i.

Definition entry_of (fd_ : fd_t) : ST poll_t fd_entry_t := p ← st_get; st_of_option BadAccess (at_ (fd_table p) fd_).

Definition set_entry (fd_ : fd_t) (e : fd_entry_t) : ST poll_t unit :=
  st_modify (λ p, p <| fd_table := <[Z.to_nat fd_ := e]> (fd_table p) |>).

Definition poll_add_fd (fd_ : fd_t) (engine_ : option engine_id) : ST poll_t handle_t :=
  st_modify (λ p, p <| pollset := pollset p ++ [PollFd fd_ 0 0] |>) ;;
  e ← entry_of fd_;
  st_assert (index e =? retired_fd) ;;
  p ← st_get;
  set_entry fd_ (FdEntry (Z.of_nat (length (pollset p)) - 1) engine_) ;;
  mret fd_.

(** [pollset [index].f = ...] *)
Definition update_pollfd (i : Z) (f : pollfd → pollfd) : ST poll_t unit :=
  p ← st_get;
  st_of_option BadAccess (at_ (pollset p) i) ;;
  st_modify (λ p, p <| pollset := alter f (Z.to_nat i) (pollset p) |>).

Definition poll_rm_fd (handle_ : handle_t) : ST poll_t unit :=
  e ← entry_of handle_;
  st_assert (negb (index e =? retired_fd)) ;;
  update_pollfd (index e) (λ p, p <| p_fd := retired_fd |>) ;;
  set_entry handle_ (e <| index := retired_fd |>) ;;
  st_modify (λ p, p <| retired := true |>).

Definition change_events (handle_ : handle_t) (f : Z → Z) : ST poll_t unit :=
  e ← entry_of handle_;
  update_pollfd (index e) (λ p, p <| p_events := f (p_events p) |>).

Definition poll_set_pollin (handle_ : handle_t) : ST poll_t unit := change_events handle_ (λ ev, Z.lor ev POLLIN).
Definition poll_reset_pollin (handle_ : handle_t) : ST poll_t unit := change_events handle_ (λ ev, Z.ldiff ev POLLIN).
Definition poll_set_pollout (handle_ : handle_t) : ST poll_t unit := change_events handle_ (λ ev, Z.lor ev POLLOUT).
Definition poll_reset_pollout (handle_ : handle_t) : ST poll_t unit := change_events handle_ (λ ev, Z.ldiff ev POLLOUT).

#[export] Instance poll_monitor : EventMonitor poll_t := {
  em_add_fd := poll_add_fd;
  em_rm_fd := poll_rm_fd;
  em_set_pollin := poll_set_pollin;
  em_reset_pollin := poll_reset_pollin;
  em_set_pollout := poll_set_pollout;
  em_reset_pollout := poll_reset_pollout
}.

(** ** process_events *)

Section process_events.
(** The world of the thread and the monitor in it; the calls of the poller;
    the system call, which gives the events of each descriptor or an error. *)
Context {W : Type} (mon : W → poll_t) (set_mon : poll_t → W → W).
Context (process_event : handle_t → option engine_id → event_t → ST W bool) (timer_event : ST W unit).
Context (sys_poll : list (fd_t * Z) → Z → ST W (list Z + errno)).

Definition on_mon {A} : ST poll_t A → ST W A := st_lift mon set_mon.

(** [while (true) { rc = poll (...); ... }], interrupted [n] times at most. *)
Fixpoint poll_wait (n : nat) (timeout : Z) : ST W (list Z) :=
  match n with
  | O => st_crash OutOfFuel
  | S n =>
      w ← st_get;
      rc ← sys_poll ((λ p, (p_fd p, p_events p)) <$> pollset (mon w)) timeout;
      match rc with
      | inl revents => mret revents
      | inr EINTR => poll_wait n timeout
      | inr _ => st_crash AssertFailed
      end
  end.

Definition set_revents (revents : list Z) (l : list pollfd) : list pollfd :=
  zip_with (λ p r, p <| p_revents := r |>) l revents.

(** The events of the descriptor at [i] that are in [mask] are reported,
    unless it was removed meanwhile.  [true]: the thread should end. *)
Definition report (i : nat) (handle : handle_t) (engine : option engine_id) (mask : Z) (event : event_t) : ST W bool :=
  w ← st_get;
  p ← st_of_option BadAccess (pollset (mon w) !! i);
  if p_fd p =? retired_fd then mret false
  else if Z.land (p_revents p) mask =? 0 then mret false
  else process_event handle engine event.

(** One turn of the loop.  The table is read before it is checked that there
    still is a descriptor: where it was removed before its turn, at -1. *)
Definition report_all (i : nat) : ST W bool :=
  w ← st_get;
  p ← st_of_option BadAccess (pollset (mon w) !! i);
  st_assert (Z.land (p_revents p) POLLNVAL =? 0) ;;
  e ← st_of_option BadAccess (at_ (fd_table (mon w)) (p_fd p));
  let engine := engine e in
  if p_fd p =? retired_fd then mret false
  else
    stop ← report i (p_fd p) engine (Z.lor POLLERR POLLHUP) event_err;
    if (stop : bool) then mret true
    else
      stop ← report i (p_fd p) engine POLLOUT event_out;
      if (stop : bool) then mret true
      else report i (p_fd p) engine POLLIN event_in.

(** [for (i = 0; i < pollset.size (); i ++)]; [n] bounds the turns. *)
Fixpoint report_loop (n i : nat) : ST W bool :=
  w ← st_get;
  if bool_decide (i < length (pollset (mon w)))%nat then
    match n with
    | O => st_crash OutOfFuel
    | S n =>
        stop ← report_all i;
        (if (stop : bool) then mret true else report_loop n (S i) : ST W bool)
    end
  else mret false.

(** The loop that closes the holes, at [i]: what is left of the array, and
    the table brought up to date. *)
Fixpoint close_holes (i : nat) (l : list pollfd) (t : list fd_entry_t) : list pollfd * list fd_entry_t :=
  match l with
  | [] => ([], t)
  | p :: l =>
      if p_fd p =? retired_fd then close_holes i l t
      else
        let t := alter (λ e, e <| index := Z.of_nat i |>) (Z.to_nat (p_fd p)) t in
        let '(l, t) := close_holes (S i) l t in
        (p :: l, t)
  end.

Definition clean_up : ST poll_t unit :=
  p ← st_get;
  st_when (retired p)
    (let '(l, t) := close_holes 0 (pollset p) (fd_table p) in
     st_modify (λ p, p <| pollset := l |> <| fd_table := t |> <| retired := false |>)).

(** [interrupts] bounds the interrupted waits and [turns] the descriptors,
    those added meanwhile included. *)
Definition poll_process_events (interrupts turns : nat) (timers_ : bool) : ST W bool :=
  revents ← poll_wait interrupts (if timers_ then max_timer_period else -1);
  on_mon (st_modify (λ p, p <| pollset := set_revents revents (pollset p) |>)) ;;
  if bool_decide (Forall (eq 0) revents) then timer_event ;; mret false
  else
    stop ← report_loop turns 0;
    (if (stop : bool) then mret true else on_mon clean_up ;; mret false : ST W bool).
End process_events.
