(* ===== verification/PollRounds.v ===== *)
(** A round of [poll_t] passes events to engines only for descriptors that
    are registered with them at that moment, whatever the engines add and
    remove meanwhile. *)
From S2P Require Import Prelude Config Command TcpSocket BpTcpEngine Poller PollThread.
Local Open Scope Z_scope.

(** ** Consistency of the array and the table *)

(** The array and the table agree; holes are accounted for. *)
Record poll_ok (m : poll_t) : Prop := {
  ok_set i p : pollset m !! i = Some p → p_fd p ≠ retired_fd →
    ∃ e, at_ (fd_table m) (p_fd p) = Some e ∧ index e = Z.of_nat i;
  ok_table h e : at_ (fd_table m) h = Some e → index e ≠ retired_fd →
    ∃ p, at_ (pollset m) (index e) = Some p ∧ p_fd p = h;
  ok_holes : retired m = false → ∀ p, p ∈ pollset m → p_fd p ≠ retired_fd
}.

(** [h] is registered for [e] (the signaler has none), at [i]. *)
Definition registered_at (m : poll_t) (h : handle_t) (i : Z) (e : option engine_id) : Prop :=
  at_ (fd_table m) h = Some (FdEntry i e) ∧ i ≠ retired_fd.
Definition registered (m : poll_t) (h : handle_t) (e : option engine_id) : Prop := ∃ i, registered_at m h i e.

(** What may become of the monitor within a round: places in the array are
    only emptied, and a descriptor that keeps its place keeps its engine. *)
Definition evolves (m m' : poll_t) : Prop :=
  ∀ i p, pollset m !! i = Some p → ∃ p', pollset m' !! i = Some p' ∧ p_revents p' = p_revents p ∧
    (p_fd p' = retired_fd ∨ p_fd p' = p_fd p ∧
      ∀ e, registered_at m (p_fd p) (Z.of_nat i) e → registered_at m' (p_fd p) (Z.of_nat i) e).

(** Descriptors that are added have no events yet. *)
Definition quiet_additions (m m' : poll_t) : Prop :=
  ∀ i p, pollset m !! i = None → pollset m' !! i = Some p → p_revents p = 0.

#[export] Instance evolves_preorder : PreOrder evolves.
Proof.
  split.
  - intros m i p Hp. exists p. split; [done|]. split; [done|]. right. auto.
  - intros m1 m2 m3 H12 H23 i p Hp. destruct (H12 i p Hp) as (p2 & Hp2 & Hr2 & H2).
    destruct (H23 i p2 Hp2) as (p3 & Hp3 & Hr3 & H3). exists p3. split; [done|]. split; [congruence|].
    destruct H3 as [?|[E3 H3]]; [by left|]. destruct H2 as [E2|[E2 H2]]; [left; congruence|].
    right. split; [congruence|]. intros e He. rewrite E2 in H3. auto.
Qed.

(** Within a round. *)
Definition changes (m m' : poll_t) : Prop := evolves m m' ∧ quiet_additions m m'.

#[export] Instance changes_preorder : PreOrder changes.
Proof.
  split.
  - intros m. split; [done|]. intros i p H1 H2. congruence.
  - intros m1 m2 m3 [H12 Q12] [H23 Q23]. split; [by trans m2|]. intros i p H1 H3.
    destruct (pollset m2 !! i) as [p2|] eqn:E2; [|by eapply Q23].
    destruct (H23 i p2 E2) as (p3 & E3 & Hr & _). assert (p3 = p) as -> by congruence. rewrite Hr. by eapply Q12.
Qed.

Lemma at_Some {A} (l : list A) i x : at_ l i = Some x ↔ 0 ≤ i ∧ l !! Z.to_nat i = Some x.
Proof. unfold at_. case_guard; simpl; naive_solver. Qed.

Lemma at_nat {A} (l : list A) (i : nat) : at_ l (Z.of_nat i) = l !! i.
Proof. unfold at_. rewrite option_guard_True by lia. by rewrite Nat2Z.id. Qed.

Lemma at_insert {A} (l : list A) h h' x y : at_ l h = Some x →
  at_ (<[Z.to_nat h := y]> l) h' = if decide (h' = h) then Some y else at_ l h'.
Proof.
  intros [Hh Hl]%at_Some. unfold at_. case_decide as E; [subst h'|].
  - rewrite option_guard_True by done. simpl. apply list_lookup_insert_eq. by eapply lookup_lt_Some.
  - case_guard; [|done]. simpl. apply list_lookup_insert_ne. lia.
Qed.

Lemma list_lookup_alter_Some {A} (f : A → A) (l : list A) i j x : alter f i l !! j = Some x →
  (i = j ∧ ∃ y, l !! i = Some y ∧ x = f y) ∨ (i ≠ j ∧ l !! j = Some x).
Proof.
  rewrite list_lookup_alter. case_decide as E; [|by right]. subst j. destruct (l !! i); [|done].
  intros [= <-]. left. eauto.
Qed.

Lemma poll_new_ok n : poll_ok (poll_new n).
Proof.
  constructor; simpl; [done| |].
  - intros h e [_ Hl]%at_Some. apply lookup_replicate in Hl as [-> _]. done.
  - by intros _ p ?%elem_of_nil.
Qed.

(** ** The operations *)

Lemma add_fd_spec m f e h m' : poll_ok m → runs (poll_add_fd f e) m h m' →
  poll_ok m' ∧ changes m m' ∧ h = f ∧ (∃ x, at_ (fd_table m) f = Some x ∧ index x = retired_fd) ∧
  fd_table m' = <[Z.to_nat f := FdEntry (Z.of_nat (length (pollset m))) e]> (fd_table m).
Proof.
  intros Hok Hr. unfold poll_add_fd, entry_of, set_entry in Hr. call_inv. simpl in *.
  match goal with H : at_ (fd_table ?m0) _ = Some ?y |- _ => rename H into Ex; rename y into x; try rename m0 into m end.
  match goal with H : (_ =? _) = true |- _ => apply Z.eqb_eq in H; rename H into Hx end.
  rewrite length_app. simpl. replace (Z.of_nat (length (pollset m) + 1) - 1) with (Z.of_nat (length (pollset m))) by lia.
  split; [|split; [|eauto 6]].
  - destruct Hok as [H1 H2 H3]. constructor; simpl.
    + intros i p [Hp|[Hi Hp]]%lookup_app_Some Hfd.
      * destruct (H1 i p Hp Hfd) as (y & Hy & Hi). rewrite (at_insert _ _ _ x) by done.
        case_decide as E; [|eauto]. rewrite E in Hy. assert (y = x) as -> by congruence. unfold retired_fd in Hx. lia.
      * destruct (i - length (pollset m))%nat as [|k] eqn:Ek; [|destruct k; done]. simpl in Hp. simplify_eq. simpl.
        rewrite (at_insert _ _ _ x), decide_True by done. eexists. split; [done|]. simpl. lia.
    + intros h' y Hy Hi. rewrite (at_insert _ _ _ x) in Hy by done. case_decide as E.
      * simplify_eq. simpl in *. exists (PollFd h 0 0). rewrite at_nat. split; [|done].
        rewrite lookup_app_r, Nat.sub_diag by lia. done.
      * destruct (H2 h' y Hy Hi) as (p & [Hp0 Hp]%at_Some & Hpf). exists p. split; [|done]. apply at_Some. split; [done|].
        by apply lookup_app_l_Some.
    + intros Hret p [Hp|Hp%list_elem_of_singleton]%elem_of_app; [by eapply H3|]. subst p. simpl.
      apply at_Some in Ex. unfold retired_fd. lia.
  - split; [|intros i p Hn [Hp|[Hi Hp]]%lookup_app_Some; [congruence|]; by apply list_lookup_singleton_Some in Hp as [_ <-]].
    intros i p Hp. exists p. simpl. split; [by apply lookup_app_l_Some|]. split; [done|]. right. split; [done|].
    intros y [Hy Hi]. split; [|done]. simpl. rewrite (at_insert _ _ _ x) by done.
    case_decide as E; [|done]. rewrite E in Hy. by simplify_eq.
Qed.

Lemma update_pollfd_spec i f m u m' : runs (update_pollfd i f) m u m' →
  ∃ p, at_ (pollset m) i = Some p ∧ m' = m <| pollset := alter f (Z.to_nat i) (pollset m) |>.
Proof.
  intros Hr. unfold update_pollfd in Hr. call_inv. eauto.
Qed.

Lemma rm_fd_spec m h u m' : poll_ok m → runs (poll_rm_fd h) m u m' →
  poll_ok m' ∧ changes m m' ∧ ∃ x, at_ (fd_table m) h = Some x ∧ index x ≠ retired_fd ∧
  fd_table m' = <[Z.to_nat h := x <| index := retired_fd |>]> (fd_table m).
Proof.
  intros Hok Hr. unfold poll_rm_fd, entry_of, set_entry in Hr. call_inv. simpl in *.
  match goal with H : at_ (fd_table ?m0) _ = Some ?y |- _ => rename H into Ex; rename y into x; try rename m0 into m end.
  match goal with H : negb _ = true |- _ => apply negb_true_iff, Z.eqb_neq in H; rename H into Hx end.
  match goal with H : runs (update_pollfd _ _) _ _ _ |- _ => apply update_pollfd_spec in H as (p & Hp & ->) end.
  simpl. destruct Hok as [H1 H2 H3]. destruct (H2 _ _ Ex Hx) as (p' & Hp' & Hpf). rewrite Hp in Hp'. simplify_eq.
  apply at_Some in Hp as [Hx0 Hp]. split; [|split; [|eauto]].
  - constructor; simpl; [| |done].
    + intros i q [[-> (p0 & Hp0 & ->)]|[Hne Hq]]%list_lookup_alter_Some Hfd; [done|].
      destruct (H1 i q Hq Hfd) as (y & Hy & Hi). rewrite (at_insert _ _ _ x) by done.
      case_decide as E; [|eauto]. rewrite E in Hy. assert (y = x) as -> by congruence. lia.
    + intros h' y Hy Hi. rewrite (at_insert _ _ _ x) in Hy by done. case_decide as E; [by simplify_eq|].
      destruct (H2 h' y Hy Hi) as (q & [Hq0 Hq]%at_Some & Hqf). exists q. split; [|done]. apply at_Some. split; [done|].
      rewrite list_lookup_alter_ne; [done|]. intros En. rewrite <- En, Hp in Hq. congruence.
  - split; [|intros i q Hn Hq; apply list_lookup_alter_Some in Hq as [(<- & y & Hy & _)|[_ Hq]]; congruence].
    intros i q Hq. simpl. destruct (decide (i = Z.to_nat (index x))) as [->|Hne].
    + rewrite list_lookup_alter_eq, Hq. simpl. eexists. split; [done|]. split; [done|]. by left.
    + rewrite list_lookup_alter_ne by done. exists q. split; [done|]. split; [done|]. right. split; [done|].
      intros e [He Hi]. split; [|done]. simpl. rewrite (at_insert _ _ _ x) by done.
      case_decide as E; [|done]. rewrite E, Ex in He. simplify_eq. simpl in Hne. lia.
Qed.

Lemma change_events_spec m h f u m' : poll_ok m → runs (change_events h f) m u m' →
  poll_ok m' ∧ changes m m' ∧ fd_table m' = fd_table m.
Proof.
  intros Hok Hr. unfold change_events, entry_of in Hr. call_inv. apply update_pollfd_spec in Hr as (p & Hp & ->).
  set (i := Z.to_nat _). destruct Hok as [H1 H2 H3]. split; [|split; [|done]].
  - constructor; simpl.
    + intros j q [[-> (p0 & Hp0 & ->)]|[Hne Hq]]%list_lookup_alter_Some Hfd; [by apply (H1 _ p0)|by apply (H1 _ q)].
    + intros h' y Hy Hi. destruct (H2 h' y Hy Hi) as (q & [Hq0 Hq]%at_Some & Hqf).
      destruct (decide (i = Z.to_nat (index y))) as [E|E].
      * exists (q <| p_events := f (p_events q) |>). split; [|done]. apply at_Some. split; [done|].
        by rewrite E, list_lookup_alter_eq, Hq.
      * exists q. split; [|done]. apply at_Some. split; [done|]. by rewrite list_lookup_alter_ne.
    + intros Hret q [j Hq]%list_elem_of_lookup. apply list_lookup_alter_Some in Hq as [[-> (p0 & Hp0 & ->)]|[_ Hq]].
      * apply (H3 Hret p0). by eapply list_elem_of_lookup_2.
      * apply (H3 Hret q). by eapply list_elem_of_lookup_2.
  - split; [|intros j q Hn Hq; apply list_lookup_alter_Some in Hq as [(<- & y & Hy & _)|[_ Hq]]; congruence].
    intros j q Hq. simpl. destruct (decide (j = i)) as [->|Hne].
    + rewrite list_lookup_alter_eq, Hq. simpl. eexists. split; [done|]. split; [done|]. by right.
    + rewrite list_lookup_alter_ne by done. exists q. split; [done|]. split; [done|]. by right.
Qed.

(** ** The end of a round *)

Lemma close_holes_filter l : ∀ i t l' t', close_holes i l t = (l', t') → l' = filter (λ p, p_fd p ≠ retired_fd) l.
Proof.
  induction l as [|p l IH]; intros i t l' t' E; simpl in E; [by simplify_eq|].
  destruct (Z.eqb_spec (p_fd p) retired_fd) as [Ep|Ep]; [rewrite filter_cons_False by auto; by eapply IH|].
  destruct (close_holes (S i) l _) as [l1 t1] eqn:E1. simplify_eq. rewrite filter_cons_True by done. f_equal. by eapply IH.
Qed.

Lemma close_holes_spec l : ∀ i t l' t', close_holes i l t = (l', t') →
  (∀ p, p ∈ l' → is_Some (at_ t (p_fd p))) → NoDup (p_fd <$> l') →
  l' = filter (λ p, p_fd p ≠ retired_fd) l ∧
  (∀ k p e, l' !! k = Some p → at_ t (p_fd p) = Some e →
    at_ t' (p_fd p) = Some (e <| index := Z.of_nat (i + k) |>)) ∧
  (∀ h, h ∉ p_fd <$> l' → at_ t' h = at_ t h).
Proof.
  assert (∀ f t h e, at_ t h = Some e → alter f (Z.to_nat h) t = <[Z.to_nat h := f e]> (t : list fd_entry_t)) as Halter.
  { intros f t h e [_ Hl]%at_Some. apply list_eq. intros j. destruct (decide (j = Z.to_nat h)) as [->|Hj].
    - rewrite list_lookup_alter_eq, Hl, list_lookup_insert_eq by by eapply lookup_lt_Some. done.
    - by rewrite list_lookup_alter_ne, list_lookup_insert_ne. }
  induction l as [|p l IH]; intros i t l' t' E Hin Hnd; simpl in E.
  { simplify_eq. split_and!; [done| |done]. intros k p e Hk. by rewrite lookup_nil in Hk. }
  destruct (Z.eqb_spec (p_fd p) retired_fd) as [Ep|Ep].
  { rewrite filter_cons_False by auto. by apply IH. }
  destruct (close_holes (S i) l _) as [l1 t1] eqn:E1. simplify_eq. simpl in Hnd. apply NoDup_cons in Hnd as [Hni Hnd].
  destruct (Hin p) as [e He]; [by left|]. remember (alter _ _ t) as t2 eqn:Et. rewrite (Halter _ _ _ e He) in Et.
  assert (∀ h, at_ t2 h = if decide (h = p_fd p) then Some (e <| index := Z.of_nat i |>) else at_ t h) as Ht2.
  { intros h. rewrite Et. by apply (at_insert _ _ _ e). }
  assert (∀ h, h ≠ p_fd p → at_ t2 h = at_ t h) as Hother.
  { intros h Hh. by rewrite Ht2, decide_False. }
  destruct (IH _ _ _ _ E1) as (-> & H1 & H2); [|done|].
  { intros q Hq. rewrite Hother; [by apply Hin; right|]. intros Eq. apply Hni. rewrite <- Eq. by apply list_elem_of_fmap_2. }
  rewrite filter_cons_True by done. split; [done|]. split.
  - intros [|k] q x Hk Hx; simpl in Hk.
    + injection Hk as <-. assert (x = e) as -> by congruence.
      by rewrite H2, Ht2, decide_True, Nat.add_0_r by done.
    + replace (i + S k)%nat with (S i + k)%nat by lia. apply H1; [done|]. rewrite Hother; [done|].
      intros Eq. apply Hni. rewrite <- Eq. apply list_elem_of_fmap_2. by eapply list_elem_of_lookup_2.
  - intros h [Hh1 Hh2]%not_elem_of_cons. rewrite H2 by done. by apply Hother.
Qed.

Lemma poll_ok_nodup m : poll_ok m → NoDup (p_fd <$> filter (λ p, p_fd p ≠ retired_fd) (pollset m)).
Proof.
  intros [H1 _ _].
  assert (∀ i j p q, pollset m !! i = Some p → pollset m !! j = Some q → p_fd p ≠ retired_fd → p_fd p = p_fd q → i = j) as Hinj.
  { intros i j p q Hp Hq Hf E. destruct (H1 i p Hp Hf) as (e & He & Hi).
    destruct (H1 j q Hq) as (e' & He' & Hj); [congruence|]. rewrite <- E, He in He'. simplify_eq. lia. }
  clear H1. induction (pollset m) as [|p l IH]; [by constructor|].
  assert (∀ i j p q, l !! i = Some p → l !! j = Some q → p_fd p ≠ retired_fd → p_fd p = p_fd q → i = j) as Hinj'.
  { intros i j q q' H1 H2 H3 H4. specialize (Hinj (S i) (S j) q q' H1 H2 H3 H4). lia. }
  destruct (decide (p_fd p = retired_fd)) as [E|E]; [rewrite filter_cons_False by auto; auto|].
  rewrite filter_cons_True by done. simpl. constructor; [|auto].
  intros (q & Eq & [Hf Hq]%list_elem_of_filter)%list_elem_of_fmap. apply list_elem_of_lookup in Hq as [j Hj].
  by specialize (Hinj 0%nat (S j) p q eq_refl Hj E Eq).
Qed.

Lemma clean_up_ok m u m' : poll_ok m → runs clean_up m u m' →
  poll_ok m' ∧ retired m' = false ∧ ∀ h e, registered m' h e ↔ registered m h e.
Proof.
  intros Hok Hr. pose proof (poll_ok_nodup m Hok) as Hnd. destruct Hok as [H1 H2 H3]. unfold clean_up in Hr. st_inv.
  match goal with H : runs (st_when _ _) ?m0 _ _ |- _ => try rename m0 into m; rename H into Hr end.
  apply runs_when in Hr as [[Hret Hr]|[Hret ->]]; [|by split_and!].
  destruct (close_holes 0 _ _) as [l t] eqn:E. st_inv. simpl.
  pose proof (close_holes_filter _ _ _ _ _ E) as Hl. rewrite <- Hl in Hnd.
  assert (∀ p, p ∈ l → p_fd p ≠ retired_fd ∧ ∃ e, at_ (fd_table m) (p_fd p) = Some e ∧ index e ≠ retired_fd) as Hin.
  { rewrite Hl. intros p [Hf [i Hp]%list_elem_of_lookup]%list_elem_of_filter. split; [done|].
    destruct (H1 i p Hp Hf) as (e & He & Hi). exists e. split; [done|]. unfold retired_fd. lia. }
  assert (∀ h e, at_ (fd_table m) h = Some e → index e ≠ retired_fd → h ∈ p_fd <$> l) as Hfd.
  { intros h e He Hi. destruct (H2 h e He Hi) as (p & [_ Hp]%at_Some & <-). apply list_elem_of_fmap_2. rewrite Hl.
    apply list_elem_of_filter. apply at_Some in He as [? _]. split; [unfold retired_fd; lia|]. by eapply list_elem_of_lookup_2. }
  destruct (close_holes_spec _ _ _ _ _ E) as (_ & Ht & Hother); [naive_solver|done|].
  assert (∀ h e', at_ t h = Some e' → index e' ≠ retired_fd →
    ∃ k p e, l !! k = Some p ∧ p_fd p = h ∧ index e' = Z.of_nat k ∧
      at_ (fd_table m) h = Some e ∧ index e ≠ retired_fd ∧ engine e' = engine e) as Hnew.
  { intros h e' He' Hi. destruct (decide (h ∈ p_fd <$> l)) as [Hh|Hh].
    - apply list_elem_of_fmap in Hh as (p & -> & Hp). destruct (Hin p Hp) as (_ & e & He & Hei).
      apply list_elem_of_lookup in Hp as [k Hk]. rewrite (Ht k p e Hk He) in He'. simplify_eq. by exists k, p, e.
    - rewrite Hother in He' by done. destruct Hh. eauto. }
  split_and!; [|done|].
  - constructor; simpl.
    + intros k p Hk Hf. destruct (Hin p) as (_ & e & He & _); [by eapply list_elem_of_lookup_2|].
      eexists. split; [by eapply (Ht k p e)|done].
    + intros h e' He' Hi. destruct (Hnew h e' He' Hi) as (k & p & e & Hk & <- & -> & _). exists p. by rewrite at_nat.
    + intros _ p Hp. by apply Hin.
  - intros h e. split.
    + intros (i & Hi & Hn). destruct (Hnew h _ Hi Hn) as (k & p & [ie ee] & _ & _ & _ & He & Hie & Heq). simpl in *. subst ee.
      by exists ie.
    + intros (i & Hi & Hn). destruct (list_elem_of_fmap_1 _ _ _ (Hfd h _ Hi Hn)) as (p & -> & Hp).
      apply list_elem_of_lookup in Hp as [k Hk]. exists (Z.of_nat k). split; [|unfold retired_fd; lia].
      by apply (Ht k p _ Hk Hi).
Qed.

(** ** A round *)

Definition mask_of (event : event_t) : Z :=
  match event with event_err => Z.lor POLLERR POLLHUP | event_out => POLLOUT | event_in => POLLIN end.

(** The system reported [event] of [h]. *)
Definition happened (m : poll_t) (h : handle_t) (event : event_t) : Prop :=
  ∃ i p, pollset m !! i = Some p ∧ p_fd p = h ∧ Z.land (p_revents p) (mask_of event) ≠ 0.

Definition valid (m : poll_t) : Prop := ∀ i p, pollset m !! i = Some p → Z.land (p_revents p) POLLNVAL = 0.

Lemma valid_changes m m' : changes m m' → valid m → valid m'.
Proof.
  intros [Hev Hq] Hv i p Hp. destruct (pollset m !! i) as [p0|] eqn:E; [|by rewrite (Hq i p E Hp)].
  destruct (Hev i p0 E) as (p' & Hp' & Hr & _). assert (p' = p) as -> by congruence. rewrite Hr. by eapply Hv.
Qed.

Lemma set_revents_lookup revents l i p : set_revents revents l !! i = Some p →
  ∃ p0 r, l !! i = Some p0 ∧ revents !! i = Some r ∧ p = p0 <| p_revents := r |>.
Proof. intros H. unfold set_revents in H. apply lookup_zip_with_Some in H as (p0 & r & -> & ? & ?). eauto. Qed.

Lemma set_revents_ok m revents : poll_ok m → length revents = length (pollset m) →
  poll_ok (m <| pollset := set_revents revents (pollset m) |>).
Proof.
  intros [H1 H2 H3] Hl. constructor; simpl.
  - intros i p (p0 & r & Hp & _ & ->)%set_revents_lookup Hf. by apply (H1 i p0).
  - intros h e He Hi. destruct (H2 h e He Hi) as (p & [Hi0 Hp]%at_Some & Hf).
    destruct (lookup_lt_is_Some_2 revents (Z.to_nat (index e))) as [r Hr]; [rewrite Hl; by eapply lookup_lt_Some|].
    exists (p <| p_revents := r |>). split; [|done]. apply at_Some. split; [done|]. unfold set_revents.
    by rewrite lookup_zip_with, Hp, Hr.
  - intros Hret p [i (p0 & r & Hp & _ & ->)%set_revents_lookup]%list_elem_of_lookup. apply (H3 Hret p0). by eapply list_elem_of_lookup_2.
Qed.

(** From place [n] on there are no holes. *)
Definition no_holes (n : nat) (m : poll_t) : Prop := ∀ j p, (n ≤ j)%nat → pollset m !! j = Some p → p_fd p ≠ retired_fd.

(** The descriptors whose turn is after that of [h] are not removed. *)
Definition later_stay (h : handle_t) (m m' : poll_t) : Prop :=
  ∀ i p, pollset m !! i = Some p → p_fd p = h → no_holes (S i) m → no_holes (S i) m'.

Section round.
(** [I] is an invariant of the thread's world, in which [turns] bounds the
    array; [signals] counts the interruptions that are to come.
    [ahead] is whether descriptors may be removed before their turn. *)
Context {W : Type} (mon : W → poll_t) (set_mon : poll_t → W → W).
Context (process_event : handle_t → option engine_id → event_t → ST W bool) (timer_event : ST W unit).
Context (sys_poll : list (fd_t * Z) → Z → ST W (list Z + errno)).
Context (F : fault → Prop) (I : W → Prop) (signals : W → nat) (turns : nat) (ahead : bool).
Hypothesis mon_set : ∀ m w, mon (set_mon m w) = m.
Hypothesis I_ok : ∀ w, I w → poll_ok (mon w) ∧ (length (pollset (mon w)) ≤ turns)%nat.
Hypothesis I_set : ∀ w m, I w → poll_ok m → (length (pollset m) ≤ length (pollset (mon w)))%nat → I (set_mon m w).
(** An event may be passed to the engine of a registered descriptor, if it
    happened. *)
Hypothesis process_event_law : ∀ h e event w, I w → registered (mon w) h e → happened (mon w) h event →
  wp (process_event h e event) F (λ _ w', I w' ∧ changes (mon w) (mon w') ∧ (ahead = false → later_stay h (mon w) (mon w'))) w.
Hypothesis timer_event_law : ∀ w, I w →
  wp timer_event F (λ _ w', I w' ∧ (ahead = false → no_holes 0 (mon w) → no_holes 0 (mon w'))) w.
(** The system reports events of each descriptor, or an interruption. *)
Hypothesis sys_poll_law : ∀ w timeout, I w →
  wp (sys_poll ((λ p, (p_fd p, p_events p)) <$> pollset (mon w)) timeout) F
    (λ rc w', I w' ∧ mon w' = mon w ∧
      match rc with
      | inl revents => length revents = length (pollset (mon w)) ∧ Forall (λ r, Z.land r POLLNVAL = 0) revents
      | inr e => e = EINTR ∧ (signals w' < signals w)%nat
      end) w.

(** The round itself fails only at a hole. *)
Definition round_fault (f : fault) : Prop := F f ∨ ahead = true ∧ f = BadAccess.

Lemma round_fault_F f : F f → round_fault f.
Proof. by left. Qed.

(** What it does there: it reads in front of the table. *)
Lemma hole_read_outside i p w : pollset (mon w) !! i = Some p → p_fd p = retired_fd → Z.land (p_revents p) POLLNVAL = 0 →
  report_all mon process_event i w = Crash BadAccess.
Proof.
  intros Hp Hr Hv. unfold report_all, mbind, st_bind, st_get, st_of_option, st_assert. rewrite Hp. simpl.
  rewrite Hv. simpl. by rewrite Hr.
Qed.

Lemma poll_wait_ok n timeout w : I w → (signals w < n)%nat →
  wp (poll_wait mon sys_poll n timeout) F
    (λ revents w', I w' ∧ mon w' = mon w ∧ length revents = length (pollset (mon w)) ∧
      Forall (λ r, Z.land r POLLNVAL = 0) revents) w.
Proof.
  revert w. induction n as [|n IH]; intros w HI Hn; [lia|]. simpl. wp_steps. eapply wp_mono; [by apply sys_poll_law|].
  intros rc w' (HI' & Hm & Hrc). destruct rc as [revents|e]; [by wp_steps; split_and!; try apply Hrc|].
  destruct Hrc as [-> Hs]. rewrite <- Hm. apply IH; [done|]. lia.
Qed.

(** While events of the descriptor at [i] are passed: it keeps its engine
    until it is removed, and those after it stay. *)
Definition in_turn (i : nat) (h : handle_t) (e : option engine_id) (w : W) : Prop :=
  I w ∧ valid (mon w) ∧ (ahead = false → no_holes (S i) (mon w)) ∧
  ∃ p, pollset (mon w) !! i = Some p ∧ (p_fd p = retired_fd ∨ p_fd p = h ∧ registered_at (mon w) h (Z.of_nat i) e).

Lemma report_ok i h e event w : in_turn i h e w →
  wp (report mon process_event i h e (mask_of event) event) F (λ _ w', in_turn i h e w') w.
Proof.
  intros (HI & Hv & Hn & p & Hp & Hf). unfold report. wp_steps. eapply wp_of_option; [done|].
  destruct (Z.eqb_spec (p_fd p) retired_fd) as [E|E]; [apply wp_ret; by split_and!; eauto|].
  destruct (Z.eqb_spec (Z.land (p_revents p) (mask_of event)) 0) as [Eh|Eh]; [apply wp_ret; by split_and!; eauto|].
  destruct Hf as [?|[Hf Hreg]]; [done|]. eapply wp_mono; [apply process_event_law; [done|by eexists|by exists i, p]|].
  intros stop w' (HI' & Hch & Hl). split; [done|]. split; [by eapply valid_changes|]. split.
  { intros Ha. by eapply Hl; auto. }
  destruct (proj1 Hch i p Hp) as (p' & Hp' & _ & [?|[Hf' Hreg']]); exists p'; (split; [done|]); [by left|right].
  subst h. split; [done|]. by apply Hreg'.
Qed.

(** Between the turns. *)
Definition between (i : nat) (w : W) : Prop := I w ∧ valid (mon w) ∧ (ahead = false → no_holes i (mon w)).

Lemma in_turn_between i h e w : in_turn i h e w → between (S i) w.
Proof. by intros (? & ? & ? & _). Qed.

Lemma report_all_ok i w : between i w → (i < length (pollset (mon w)))%nat →
  wp (report_all mon process_event i) round_fault (λ _ w', between (S i) w') w.
Proof.
  intros (HI & Hv & Hn) Hi. destruct (lookup_lt_is_Some_2 _ _ Hi) as [p Hp].
  destruct (decide (p_fd p = retired_fd)) as [E|E].
  { unfold wp. rewrite (hole_read_outside i p) by (done || by eapply Hv). right. split; [|done].
    destruct ahead; [done|]. destruct (Hn eq_refl i p); [lia|done..]. }
  eapply wp_fault; [apply round_fault_F|]. unfold report_all. wp_steps.
  eapply wp_of_option; [done|]. wp_steps. apply wp_assert; [by apply Z.eqb_eq, (Hv i p)|]. wp_steps.
  destruct (ok_set _ (proj1 (I_ok w HI)) i p Hp E) as (x & Hx & Hix). eapply wp_of_option; [done|].
  apply Z.eqb_neq in E as E'. rewrite E'. set (h := p_fd p) in *. set (e := engine x).
  assert (in_turn i h e w) as Hin.
  { split; [done|]. split; [done|]. split; [intros Ha j q Hj; apply (Hn Ha); lia|].
    exists p. split; [done|]. right. split; [done|]. rewrite <- Hix. split; [by destruct x|]. unfold retired_fd. lia. }
  pose proof in_turn_between as Hb.
  wp_steps. eapply wp_mono; [by apply (report_ok i h e event_err)|]. intros [] w1 Hin1; [by apply wp_ret; eapply Hb|].
  wp_steps. eapply wp_mono; [by apply (report_ok i h e event_out)|]. intros [] w2 Hin2; [by apply wp_ret; eapply Hb|].
  eapply wp_mono; [by apply (report_ok i h e event_in)|]. intros stop w3 Hin3. exact (in_turn_between _ _ _ _ Hin3).
Qed.

Lemma report_loop_ok n : ∀ i w, between i w → (turns ≤ n + i)%nat →
  wp (report_loop mon process_event n i) round_fault (λ _ w', I w') w.
Proof.
  induction n as [|n IH]; intros i w Hb Hn; pose proof (proj2 (I_ok w (proj1 Hb))) as Hl; simpl; wp_steps;
    (case_bool_decide; [|apply wp_ret; apply Hb]); [lia|].
  wp_steps. eapply wp_mono; [by apply report_all_ok|]. intros [] w' Hb'; [apply wp_ret; apply Hb'|].
  apply IH; [done|lia].
Qed.

Lemma clean_up_wp w : I w → wp (on_mon mon set_mon clean_up) F (λ _ w', I w' ∧ no_holes 0 (mon w')) w.
Proof.
  intros HI. apply wp_lift. destruct (I_ok w HI) as [Hok _].
  assert (∃ m', runs clean_up (mon w) tt m' ∧ length (pollset m') ≤ length (pollset (mon w)))%nat as (m' & Hr & Hl).
  { unfold clean_up, runs, mbind, st_bind, st_get, st_when. destruct (retired (mon w)); [|by eexists].
    destruct (close_holes 0 _ _) as [l t] eqn:E. eexists. split; [done|]. simpl.
    rewrite (close_holes_filter _ _ _ _ _ E). apply length_filter. }
  destruct (clean_up_ok _ _ _ Hok Hr) as (Hok' & Hret & _).
  eapply runs_wp; [done|]. split; [by apply I_set|]. rewrite mon_set. intros j p _ Hp. eapply (ok_holes _ Hok' Hret).
  by eapply list_elem_of_lookup_2.
Qed.

(** C34: a round of [poll_t] (wait, report the events, close the holes) asks
    of engines only what they are registered for: an event is passed to an
    engine only if the system reported it for a descriptor that is at that
    moment registered with that engine, although engines remove and add
    descriptors while events are passed.  If the round starts without holes and no engine removes a
    descriptor whose turn is still to come, the round does not fail by itself
    (no reference out of the array or the table, no failed assertion, no
    endless loop), and if the thread is to go on it leaves no holes again.  Otherwise
    it may fail in one way, a read in front of the table at a hole.
    It leaves the array and the table consistent. *)
Theorem poll_round interrupts timers_ w : I w → (signals w < interrupts)%nat → (ahead = false → no_holes 0 (mon w)) →
  wp (poll_process_events mon set_mon process_event timer_event sys_poll interrupts turns timers_) round_fault
    (λ stop w', I w' ∧ poll_ok (mon w') ∧ (ahead = false → stop = false → no_holes 0 (mon w'))) w.
Proof.
  intros HI Hs Hh. cut (wp (poll_process_events mon set_mon process_event timer_event sys_poll interrupts turns timers_) round_fault
    (λ stop w', I w' ∧ (ahead = false → stop = false → no_holes 0 (mon w'))) w).
  { intros H. eapply wp_mono; [done|]. intros ? w' [HI' ?]. split; [done|]. split; [by apply (I_ok w')|done]. }
  unfold poll_process_events. wp_steps. eapply wp_mono; [eapply wp_fault; [apply round_fault_F|by apply poll_wait_ok]|].
  intros revents w1 (HI1 & Hm & Hl & Hv). rewrite <- Hm in Hl, Hh. wp_steps. apply wp_lift, wp_modify. destruct (I_ok w1 HI1) as [Hok _].
  set (m2 := mon w1 <| pollset := set_revents revents (pollset (mon w1)) |>). set (w2 := set_mon m2 w1).
  assert (I w2) as HI2.
  { apply I_set; [done|by apply set_revents_ok|]. simpl. unfold set_revents. rewrite length_zip_with. lia. }
  assert (ahead = false → no_holes 0 (mon w2)) as Hh2.
  { intros Ha j p Hj Hp. unfold w2 in Hp. rewrite mon_set in Hp. apply set_revents_lookup in Hp as (p0 & r & Hp & _ & ->).
    by apply (Hh Ha j p0). }
  case_bool_decide.
  { wp_steps. eapply wp_mono; [eapply wp_fault; [apply round_fault_F|by apply timer_event_law]|].
    intros u w3 [HI3 Hh3]. wp_steps. auto. }
  wp_steps. eapply wp_mono; [apply report_loop_ok; [|lia]|].
  - split; [done|]. split; [|done].
    intros i p Hp. unfold w2 in Hp. rewrite mon_set in Hp. apply set_revents_lookup in Hp as (p0 & r & _ & Hr & ->).
    by apply (Forall_lookup_1 _ _ _ _ Hv Hr).
  - intros [] w3 HI3; [by apply wp_ret|]. wp_steps.
    eapply wp_mono; [eapply wp_fault; [apply round_fault_F|by apply clean_up_wp]|]. intros u w4 [HI4 Hh4]. wp_steps. auto.
Qed.
End round.

(** ** What engines rely on, and a round *)

(** ** The poller promises what engines rely on *)

(** The descriptors in the table, without the signaler. *)
Definition entry_fd (n : nat) (e : fd_entry_t) : option (fd_t * engine_id) :=
  guard (index e ≠ retired_fd);; en ← engine e; Some (Z.of_nat n, en).

Fixpoint table_fds (n : nat) (t : list fd_entry_t) : gmap handle_t (fd_t * engine_id) :=
  match t with
  | [] => ∅
  | e :: t => let m := table_fds (S n) t in
              match entry_fd n e with Some x => <[Z.of_nat n := x]> m | None => m end
  end.

Lemma table_fds_lookup t : ∀ n h, table_fds n t !! h =
  (guard (Z.of_nat n ≤ h);; e ← t !! (Z.to_nat h - n)%nat; entry_fd (Z.to_nat h) e).
Proof.
  induction t as [|e t IH]; intros n h; simpl.
  { rewrite lookup_empty. by case_guard. }
  destruct (decide (h = Z.of_nat n)) as [->|Hne].
  - rewrite option_guard_True, Nat2Z.id, Nat.sub_diag by lia. simpl. destruct (entry_fd n e) as [x|].
    + by rewrite lookup_insert_eq.
    + rewrite IH, option_guard_False by lia. done.
  - transitivity (table_fds (S n) t !! h); [destruct (entry_fd n e); [by rewrite lookup_insert_ne|done]|].
    rewrite IH. destruct (decide (Z.of_nat n ≤ h)).
    + rewrite !option_guard_True by lia. simpl. by replace (Z.to_nat h - n)%nat with (S (Z.to_nat h - S n)) by lia.
    + by rewrite !option_guard_False by lia.
Qed.

Definition poll_fds (m : poll_t) : gmap handle_t (fd_t * engine_id) := table_fds 0 (fd_table m).

Lemma poll_fds_lookup m h : poll_fds m !! h = (e ← at_ (fd_table m) h; entry_fd (Z.to_nat h) e).
Proof.
  unfold poll_fds. rewrite table_fds_lookup, Nat.sub_0_r. unfold at_. change (Z.of_nat 0) with 0. by case_guard.
Qed.

(** The entry at [h] changes to [e']. *)
Lemma poll_fds_insert m h e e' : at_ (fd_table m) h = Some e →
  table_fds 0 (<[Z.to_nat h := e']> (fd_table m)) =
  match entry_fd (Z.to_nat h) e' with Some x => <[h := x]> (poll_fds m) | None => delete h (poll_fds m) end.
Proof.
  intros He. apply map_eq. intros h'. pose proof (poll_fds_lookup (m <| fd_table := <[Z.to_nat h := e']> (fd_table m) |>) h') as E.
  unfold poll_fds in E. simpl in E. rewrite E, (at_insert _ _ _ e) by done. pose proof (poll_fds_lookup m h') as E'.
  case_decide as D; [subst h'|].
  - simpl. destruct (entry_fd _ e'); [by rewrite lookup_insert_eq|by rewrite lookup_delete_eq].
  - rewrite <- E'. destruct (entry_fd _ e'); [by rewrite lookup_insert_ne|by rewrite lookup_delete_ne].
Qed.

Lemma keeps_fd_table h f : keeps fd_table (change_events h f).
Proof.
  intros m u m' Hr. unfold change_events, entry_of in Hr. call_inv. by apply update_pollfd_spec in Hr as (p & _ & ->).
Qed.

Definition poller_fds (q : poller_t poll_t) : gmap handle_t (fd_t * engine_id) := poll_fds (event_monitor q).

Lemma runs_on_monitor {A} (m : ST poll_t A) (q : poller_t poll_t) a q' : runs (on_monitor m) q a q' →
  ∃ t, runs m (event_monitor q) a t ∧ q' = q <| event_monitor := t |>.
Proof.
  unfold runs, on_monitor, st_lift. destruct (m (event_monitor q)) as [[x t]|]; [|done]. intros [= <- <-]. eauto.
Qed.

Lemma keeps_poller_fds (m : ST poll_t unit) : keeps fd_table m →
  keeps (λ q : poller_t poll_t, (poller_fds q, timers q)) (on_monitor m).
Proof.
  intros Hm q u q' (t & Ht & ->)%runs_on_monitor. unfold poller_fds, poll_fds. simpl. by rewrite (Hm _ _ _ Ht).
Qed.

Lemma poll_fds_add f e m h m' : runs (poll_add_fd f (Some e)) m h m' →
  poll_fds m !! h = None ∧ poll_fds m' = <[h := (f, e)]> (poll_fds m).
Proof.
  intros Hr. unfold poll_add_fd, entry_of, set_entry in Hr. call_inv. simpl in *.
  match goal with H : at_ (fd_table ?m0) _ = Some ?y |- _ => rename H into Ex; rename y into x; try rename m0 into m end.
  match goal with H : (_ =? _) = true |- _ => apply Z.eqb_eq in H; rename H into Hx end.
  rewrite length_app. split.
  - rewrite poll_fds_lookup, Ex. simpl. unfold entry_fd. by rewrite option_guard_False by auto.
  - unfold poll_fds at 1. simpl. rewrite (poll_fds_insert _ _ x) by done. unfold entry_fd. simpl.
    rewrite option_guard_True by (unfold retired_fd; lia). simpl. apply at_Some in Ex as [? _]. by rewrite Z2Nat.id.
Qed.

Lemma poll_fds_rm h m u m' : runs (poll_rm_fd h) m u m' → poll_fds m' = delete h (poll_fds m).
Proof.
  intros Hr. unfold poll_rm_fd, entry_of, set_entry in Hr. call_inv. simpl in *.
  match goal with H : at_ (fd_table ?m0) _ = Some ?y |- _ => rename H into Ex; rename y into x; try rename m0 into m end.
  match goal with H : runs (update_pollfd _ _) _ _ _ |- _ => apply update_pollfd_spec in H as (p & Hp & ->) end.
  unfold poll_fds at 1. simpl. by rewrite (poll_fds_insert _ _ x) by done.
Qed.

#[export, refine] Instance poller_laws : IPollerLaws (poller_t poll_t) := {
  po_fds := poller_fds;
  po_timers := timers
}.
Proof.
  - intros f e q h q' (t & Ht & ->)%runs_on_monitor. apply poll_fds_add in Ht as [??]. by unfold poller_fds.
  - intros h q u q' (t & Ht & ->)%runs_on_monitor. apply poll_fds_rm in Ht. by unfold poller_fds.
  - intros h. apply keeps_poller_fds, keeps_fd_table.
  - intros h. apply keeps_poller_fds, keeps_fd_table.
  - intros h. apply keeps_poller_fds, keeps_fd_table.
  - intros h. apply keeps_poller_fds, keeps_fd_table.
  - by intros e q u q' [= _ <-].
Defined.

(** ** A round *)

Lemma rm_fd_runs m h e : poll_ok m → registered m h e → ∃ m', runs (poll_rm_fd h) m tt m' ∧ length (pollset m') = length (pollset m).
Proof.
  intros [H1 H2 H3] (i & Hx & Hi). destruct (H2 _ _ Hx Hi) as (p & Hp & _). simpl in Hp.
  eexists. split.
  - apply Z.eqb_neq in Hi. unfold runs, poll_rm_fd, entry_of, set_entry, update_pollfd, mbind, st_bind, st_get, st_of_option, st_assert.
    rewrite Hx. simpl. rewrite Hi. simpl. by rewrite Hp.
  - simpl. by rewrite length_alter.
Qed.

(** The system reports an error of every descriptor; the engines close. *)
Definition all_err (fds : list (fd_t * Z)) (timeout : Z) : ST poll_t (list Z + errno) :=
  mret (inl ((λ _, Z.lor POLLIN POLLERR) <$> fds)).
Definition close_it (h : handle_t) (e : option engine_id) (event : event_t) : ST poll_t bool :=
  poll_rm_fd h ;; mret false.

Definition two_fds : poll_t :=
  match (poll_add_fd 3 (Some 1%positive) ;; poll_add_fd 5 (Some 2%positive)) (poll_new 8) with
  | Ok (_, m) => m
  | Crash _ => poll_new 0
  end.

(** An engine that closes the connection of another one, at 5, once. *)
Definition close_other (h : handle_t) (e : option engine_id) (event : event_t) : ST poll_t bool :=
  m ← st_get;
  match at_ (fd_table m) 5 with
  | Some x => st_when (negb (index x =? retired_fd)) (poll_rm_fd 5)
  | None => mret tt
  end ;;
  mret false.

Lemma close_it_later h m u m' : poll_ok m → runs (poll_rm_fd h) m u m' → later_stay h m m'.
Proof.
  intros Hok Hr i p Hp Hf Hh j q Hj Hq. unfold poll_rm_fd, entry_of, set_entry in Hr. call_inv. simpl in *.
  match goal with H : runs (update_pollfd _ _) _ _ _ |- _ => apply update_pollfd_spec in H as (p0 & Hp0 & ->) end.
  match goal with H : at_ (fd_table ?m0) _ = Some ?y |- _ => rename H into Ex; rename y into x; try rename m0 into m end.
  simpl in Hq. apply list_lookup_alter_Some in Hq as [[<- (q0 & Hq0 & ->)]|[_ Hq]]; [|by apply (Hh j)].
  assert (p_fd p ≠ retired_fd) as Hn.
  { apply at_Some in Ex as [? _]. unfold retired_fd. lia. }
  destruct (ok_set _ Hok i p Hp Hn) as (y & Hy & Hi). assert (y = x) as -> by congruence. rewrite Hi in Hj. lia.
Qed.

Definition two_or_less (m : poll_t) : Prop := poll_ok m ∧ (length (pollset m) ≤ 2)%nat.

Lemma two_fds_consistent : two_or_less two_fds ∧ no_holes 0 two_fds.
Proof.
  assert (poll_ok two_fds) as Hok.
  { assert (runs (poll_add_fd 3 (Some 1%positive) ;; poll_add_fd 5 (Some 2%positive)) (poll_new 8) 5 two_fds) as (h & m & H1 & H2)%runs_bind_inv
      by (vm_compute; reflexivity).
    apply add_fd_spec in H1 as (H1 & _); [|apply poll_new_ok]. by apply add_fd_spec in H2 as (H2 & _). }
  split; [split; [exact Hok|vm_compute; lia]|].
  intros j p _ Hp. apply (ok_holes _ Hok eq_refl). by eapply list_elem_of_lookup_2.
Qed.

Lemma rm_fd_two h e m : two_or_less m → registered m h e →
  wp (poll_rm_fd h) no_fault (λ _ m', two_or_less m' ∧ changes m m' ∧ later_stay h m m') m.
Proof.
  intros [Hok Hl] He. destruct (rm_fd_runs m h e Hok He) as (m' & Hr & Hl').
  destruct (rm_fd_spec _ _ _ _ Hok Hr) as (Hok' & Hch & _). eapply runs_wp; [exact Hr|].
  split; [split; [done|lia]|]. split; [done|]. by eapply close_it_later.
Qed.

(** Both engines close their own descriptor; the first one closes that of the
    second, which is read as a hole afterwards. *)
Lemma poll_round_witness :
  map p_fd (pollset two_fds) = [3; 5] ∧
  (∃ m, poll_process_events id (λ m _, m) close_it (mret tt) all_err 1 2 false two_fds = Ok (false, m) ∧ pollset m = []) ∧
  wp (poll_process_events id (λ m _, m) close_it (mret tt) all_err 1 2 false) (round_fault no_fault false)
    (λ stop m, two_or_less m ∧ poll_ok m ∧ (false = false → stop = false → no_holes 0 m)) two_fds ∧
  poll_process_events id (λ m _, m) close_other (mret tt) (λ fds _, mret (inl (const POLLIN <$> fds))) 1 2 false two_fds = Crash BadAccess ∧
  wp (poll_process_events id (λ m _, m) close_other (mret tt) (λ fds _, mret (inl (const POLLIN <$> fds))) 1 2 false)
    (round_fault no_fault true) (λ stop m, two_or_less m ∧ poll_ok m ∧ (true = false → stop = false → no_holes 0 m)) two_fds.
Proof.
  destruct two_fds_consistent as [Htwo Hnone].
  split; [reflexivity|]. split; [eexists; split; [reflexivity|reflexivity]|]. split; [|split; [reflexivity|]].
  - apply (poll_round id (λ m _, m) close_it (mret tt) all_err no_fault two_or_less (λ _, 0%nat) 2 false); try done.
    + intros m m' [_ Hl] H' Hl'. split; [done|]. unfold id in Hl'. lia.
    + intros h e event m H Hr _. unfold close_it. apply wp_bind. eapply wp_mono; [by eapply rm_fd_two|].
      intros u m' (H' & Hch & Hl). apply wp_ret. by split_and!.
    + intros m timeout H. apply wp_ret. split; [exact H|]. split; [reflexivity|].
      split; [by rewrite !length_fmap|]. apply Forall_fmap, Forall_forall. intros x _. reflexivity.
    + lia.
  - apply (poll_round id (λ m _, m) close_other (mret tt) _ no_fault two_or_less (λ _, 0%nat) 2 true); try done.
    + intros m m' [_ Hl] H' Hl'. split; [done|]. unfold id in Hl'. lia.
    + intros h e event m H _ _. unfold close_other. wp_steps. unfold id. destruct (at_ (fd_table m) 5) as [x|] eqn:Ex; [|by apply wp_ret, wp_ret].
      destruct (Z.eqb_spec (index x) retired_fd) as [Ei|Ei]; [by apply wp_ret, wp_ret|]. simpl.
      eapply wp_mono; [apply (rm_fd_two 5 (engine x)); [done|]; exists (index x); split; [by destruct x|done]|].
      intros u m' (H' & Hch & _). apply wp_ret. by split_and!.
    + intros m timeout H. apply wp_ret. split; [exact H|]. split; [reflexivity|].
      split; [by rewrite !length_fmap|]. apply Forall_fmap, Forall_forall. intros x _. reflexivity.
    + lia.
Defined.
