(* ===== verification/SelectThread.v ===== *)
(** Waiting with [select] ([src/libzmq/select_thread.cpp]): the descriptors
    are kept in a vector and in the sets that the system call takes. *)
From S2P Require Import Prelude Config Command TcpSocket BpTcpEngine Poller.
Local Open Scope Z_scope.

Record fd_entry_t := FdEntry { fd : fd_t; engine : option engine_id }.
#[export] Instance eta_fd_entry : Eta fd_entry_t := λ e, FdEntry (fd e) (engine e).

Record select_t := Select {
  fds : list fd_entry_t;
  source_set_in : gset Z;
  source_set_out : gset Z;
  source_set_err : gset Z;
  readfds : gset Z;
  writefds : gset Z;
  exceptfds : gset Z;
  maxfd : fd_t;
  retired : bool
}.
#[export] Instance eta_select : Eta select_t := λ m,
  Select (fds m) (source_set_in m) (source_set_out m) (source_set_err m) (readfds m) (writefds m) (exceptfds m)
    (maxfd m) (retired m).

(** The sets that are polled start empty; the others hold anything. *)
Definition select_new (readfds writefds exceptfds : gset Z) : select_t :=
  Select [] ∅ ∅ ∅ readfds writefds exceptfds retired_fd false.

Definition set_of (o : option (gset Z)) : ST select_t (gset Z) := st_of_option BadAccess o.

Definition select_add_fd (fd_ : fd_t) (engine_ : option engine_id) : ST select_t handle_t :=
  st_modify (λ m, m <| fds := fds m ++ [FdEntry fd_ engine_] |>) ;;
  m ← st_get;
  err ← set_of (fd_set_add fd_ (source_set_err m));
  st_modify (λ m, m <| source_set_err := err |>) ;;
  st_when (maxfd m <? fd_) (st_modify (λ m, m <| maxfd := fd_ |>)) ;;
  mret fd_.

Definition select_set_pollin (handle_ : handle_t) : ST select_t unit :=
  m ← st_get; s ← set_of (fd_set_add handle_ (source_set_in m)); st_modify (λ m, m <| source_set_in := s |>).
Definition select_reset_pollin (handle_ : handle_t) : ST select_t unit :=
  m ← st_get; s ← set_of (fd_set_clr handle_ (source_set_in m)); st_modify (λ m, m <| source_set_in := s |>).
Definition select_set_pollout (handle_ : handle_t) : ST select_t unit :=
  m ← st_get; s ← set_of (fd_set_add handle_ (source_set_out m)); st_modify (λ m, m <| source_set_out := s |>).
Definition select_reset_pollout (handle_ : handle_t) : ST select_t unit :=
  m ← st_get; s ← set_of (fd_set_clr handle_ (source_set_out m)); st_modify (λ m, m <| source_set_out := s |>).

(** [maxfd = 0; for (...) if (it->fd > maxfd) maxfd = it->fd;] *)
Definition highest_fd (l : list fd_entry_t) : fd_t := foldl (λ a e, if a <? fd e then fd e else a) 0 l.

Definition select_rm_fd (handle_ : handle_t) : ST select_t unit :=
  select_reset_pollin handle_ ;;
  select_reset_pollout handle_ ;;
  m ← st_get;
  err ← set_of (fd_set_clr handle_ (source_set_err m));
  rd ← set_of (fd_set_clr handle_ (readfds m));
  wr ← set_of (fd_set_clr handle_ (writefds m));
  ex ← set_of (fd_set_clr handle_ (exceptfds m));
  st_modify (λ m, m <| source_set_err := err |> <| readfds := rd |> <| writefds := wr |> <| exceptfds := ex |>) ;;
  st_when (handle_ =? maxfd m) (st_modify (λ m, m <| maxfd := highest_fd (fds m) |>)) ;;
  '(i, _) ← st_of_option AssertFailed (list_find (λ e, fd e = handle_) (fds m));
  st_modify (λ m, m <| fds := alter (λ e, e <| fd := retired_fd |>) i (fds m) |> <| retired := true |>).

#[export] Instance select_monitor : EventMonitor select_t := {
  em_add_fd := select_add_fd;
  em_rm_fd := select_rm_fd;
  em_set_pollin := select_set_pollin;
  em_reset_pollin := select_reset_pollin;
  em_set_pollout := select_set_pollout;
  em_reset_pollout := select_reset_pollout
}.

(** ** process_events *)

Section process_events.
(** As for [poll_t]; the system call takes the highest descriptor and the
    three sets, gives a number or an error, and replaces the sets. *)
Context {W : Type} (mon : W → select_t) (set_mon : select_t → W → W).
Context (process_event : handle_t → option engine_id → event_t → ST W bool) (timer_event : ST W unit).
Context (sys_select : Z → gset Z → gset Z → gset Z → option Z → ST W ((Z * gset Z * gset Z * gset Z) + errno)).

#[local] Abbreviation on_mon := (st_lift mon set_mon).

(** Both loops around the system call, [n] calls at most; [false]: the time
    is over. *)
Fixpoint select_wait (n : nat) (timers_ : bool) : ST W bool :=
  match n with
  | O => st_crash OutOfFuel
  | S n =>
      w ← st_get;
      let m := mon w in
      r ← sys_select (maxfd m + 1) (readfds m) (writefds m) (exceptfds m)
        (if timers_ then Some (max_timer_period * 1000) else None);
      match r with
      | inr EINTR => select_wait n timers_
      | inr _ => st_crash AssertFailed
      | inl (rc, rd, wr, ex) =>
          on_mon (st_modify (λ m, m <| readfds := rd |> <| writefds := wr |> <| exceptfds := ex |>)) ;;
          (if timers_ && (rc =? 0) then mret false
           else if 0 <? rc then mret true else select_wait n timers_ : ST W bool)
      end
  end.

(** The descriptor at [i] is looked at again; [true]: the thread should
    end. *)
Definition select_report (i : nat) (ready : select_t → gset Z) (event : event_t) : ST W bool :=
  w ← st_get;
  e ← st_of_option BadAccess (fds (mon w) !! i);
  if fd e =? retired_fd then mret false
  else
    b ← st_of_option BadAccess (fd_isset (fd e) (ready (mon w)));
    if (b : bool) then process_event (fd e) (engine e) event else mret false.

Definition select_report_all (i : nat) : ST W bool :=
  stop ← select_report i writefds event_out;
  if (stop : bool) then mret true
  else
    stop ← select_report i readfds event_in;
    if (stop : bool) then mret true else select_report i exceptfds event_err.

Fixpoint select_report_loop (n i : nat) : ST W bool :=
  w ← st_get;
  if bool_decide (i < length (fds (mon w)))%nat then
    match n with
    | O => st_crash OutOfFuel
    | S n =>
        stop ← select_report_all i;
        (if (stop : bool) then mret true else select_report_loop n (S i) : ST W bool)
    end
  else mret false.

Definition select_clean_up : ST select_t unit :=
  m ← st_get;
  st_when (retired m)
    (st_modify (λ m, m <| fds := filter (λ e, fd e ≠ retired_fd) (fds m) |> <| retired := false |>)).

Definition select_process_events (calls turns : nat) (timers_ : bool) : ST W bool :=
  on_mon (st_modify (λ m, m <| readfds := source_set_in m |> <| writefds := source_set_out m |>
    <| exceptfds := source_set_err m |>)) ;;
  ready ← select_wait calls timers_;
  if negb ready then timer_event ;; mret false
  else
    stop ← select_report_loop turns 0;
    (if (stop : bool) then mret true else on_mon select_clean_up ;; mret false : ST W bool).
End process_events.

Lemma highest_fd_bounds l a b : a ≤ b → (∀ e, e ∈ l → fd e ≤ b) →
  let m := foldl (λ a e, if a <? fd e then fd e else a) a l in a ≤ m ≤ b ∧ ∀ e, e ∈ l → fd e ≤ m.
Proof.
  revert a. induction l as [|x l IH]; intros a Ha Hl; simpl; [split; [lia|by intros e ?%elem_of_nil]|].
  assert (fd x ≤ b) as Hx by (apply Hl; by left).
  destruct (IH (if a <? fd x then fd x else a)) as [Hm Hle]; [destruct (Z.ltb_spec a (fd x)); lia|intros e He; apply Hl; by right|].
  split; [destruct (Z.ltb_spec a (fd x)); lia|]. intros e [->|He]%elem_of_cons; [|by apply Hle].
  destruct (Z.ltb_spec a (fd x)); lia.
Qed.

(** Removing the highest descriptor leaves [maxfd] as it is: the loop that
    looks for the new maximum still finds the descriptor. *)
Lemma select_maxfd_stays h m u m' : runs (select_rm_fd h) m u m' → 0 ≤ h → maxfd m = h →
  (∀ e, e ∈ fds m → fd e ≤ h) → maxfd m' = h.
Proof.
  intros Hr Hh Hm Hall. unfold select_rm_fd, select_reset_pollin, select_reset_pollout, set_of in Hr. call_inv. simpl in *.
  match goal with H : list_find _ _ = Some ?p |- _ => destruct p as [i e]; apply list_find_Some in H as (He & Hfd & _) end.
  call_inv. simpl in *. apply list_elem_of_lookup_2 in He.
  match goal with H : runs (st_when _ _) _ _ _ |- _ => apply runs_when in H as [[_ H]|[E _]]; [|lia] end. st_inv. simpl.
  unfold highest_fd. destruct (highest_fd_bounds _ 0 _ Hh Hall) as [Hb Hle]. specialize (Hle e He). lia.
Qed.
