(* ===== verification/Epoll.v ===== *)
(** Waiting with [epoll] ([src/libzmq/epoll_thread.cpp]): the system keeps a
    pointer to an entry for each descriptor; an entry that is removed lives
    until the end of the round. *)
From S2P Require Import Prelude Config Command TcpSocket BpTcpEngine Poller.
Local Open Scope Z_scope.

Definition EPOLLIN : Z := 1.
Definition EPOLLOUT : Z := 4.
Definition EPOLLERR : Z := 8.
Definition EPOLLHUP : Z := 16.

(** The system calls.  [data.ptr] of an event is the address of an entry. *)
Class EpollCalls (K : Type) := {
  sys_epoll_create : ST K fd_t;
  sys_epoll_close : fd_t → ST K bool;
  sys_epoll_add : fd_t → fd_t → positive → Z → ST K bool;
  sys_epoll_del : fd_t → fd_t → ST K bool;
  sys_epoll_mod : fd_t → fd_t → positive → Z → ST K bool;
  sys_epoll_wait : fd_t → nat → Z → ST K (list (positive * Z) + errno)
}.

Record poll_entry_t := PollEntry { fd : fd_t; ev_events : Z; engine : option engine_id }.
#[export] Instance eta_poll_entry : Eta poll_entry_t := λ e, PollEntry (fd e) (ev_events e) (engine e).

Section epoll.
Context {K : Type} `{!EpollCalls K}.

(** [entries] are the live objects by their addresses; new ones are placed at
    [next_entry]. *)
Record epoll_t := Epoll {
  epoll_fd : fd_t;
  entries : gmap positive poll_entry_t;
  next_entry : positive;
  retired : list positive;
  epoll_calls : K
}.
#[local] Instance eta_epoll : Eta epoll_t := λ m,
  Epoll (epoll_fd m) (entries m) (next_entry m) (retired m) (epoll_calls m).

Definition on_calls {A} : ST K A → ST epoll_t A := st_lift epoll_calls (λ k m, m <| epoll_calls := k |>).

Definition epoll_new (k : K) : res epoll_t :=
  '(f, k) ← sys_epoll_create k;
  if f =? -1 then Crash AssertFailed else Ok (Epoll f ∅ 1 [] k).

Definition epoll_delete : ST epoll_t unit := m ← st_get; on_calls (sys_epoll_close (epoll_fd m)) ;; mret tt.

(** The object a handle or an event points to. *)
Definition deref_entry (p : positive) : ST epoll_t poll_entry_t :=
  m ← st_get; st_of_option UseAfterFree (entries m !! p).
Definition entry_ptr (h : handle_t) : option positive := match h with Zpos p => Some p | _ => None end.

Definition put_entry (p : positive) (e : poll_entry_t) : ST epoll_t unit :=
  st_modify (λ m, m <| entries := <[p := e]> (entries m) |>).

Definition epoll_add_fd (fd_ : fd_t) (engine_ : option engine_id) : ST epoll_t handle_t :=
  m ← st_get;
  let pe := next_entry m in
  st_modify (λ m, m <| next_entry := Pos.succ pe |>) ;;
  put_entry pe (PollEntry fd_ 0 engine_) ;;
  rc ← on_calls (sys_epoll_add (epoll_fd m) fd_ pe 0);
  st_assert rc ;;
  mret (Zpos pe).

Definition epoll_rm_fd (handle_ : handle_t) : ST epoll_t unit :=
  pe ← st_of_option BadAccess (entry_ptr handle_);
  e ← deref_entry pe;
  m ← st_get;
  rc ← on_calls (sys_epoll_del (epoll_fd m) (fd e));
  st_assert rc ;;
  put_entry pe (e <| fd := retired_fd |>) ;;
  st_modify (λ m, m <| retired := retired m ++ [pe] |>).

Definition change_events (handle_ : handle_t) (f : Z → Z) : ST epoll_t unit :=
  pe ← st_of_option BadAccess (entry_ptr handle_);
  e ← deref_entry pe;
  let e := e <| ev_events := f (ev_events e) |> in
  put_entry pe e ;;
  m ← st_get;
  rc ← on_calls (sys_epoll_mod (epoll_fd m) (fd e) pe (ev_events e));
  st_assert rc.

Definition epoll_set_pollin (handle_ : handle_t) : ST epoll_t unit := change_events handle_ (λ ev, Z.lor ev EPOLLIN).
Definition epoll_reset_pollin (handle_ : handle_t) : ST epoll_t unit := change_events handle_ (λ ev, Z.ldiff ev EPOLLIN).
Definition epoll_set_pollout (handle_ : handle_t) : ST epoll_t unit := change_events handle_ (λ ev, Z.lor ev EPOLLOUT).
Definition epoll_reset_pollout (handle_ : handle_t) : ST epoll_t unit := change_events handle_ (λ ev, Z.ldiff ev EPOLLOUT).

#[export] Instance epoll_monitor : EventMonitor epoll_t := {
  em_add_fd := epoll_add_fd;
  em_rm_fd := epoll_rm_fd;
  em_set_pollin := epoll_set_pollin;
  em_reset_pollin := epoll_reset_pollin;
  em_set_pollout := epoll_set_pollout;
  em_reset_pollout := epoll_reset_pollout
}.

(** ** process_events *)

Section process_events.
Context {W : Type} (mon : W → epoll_t) (set_mon : epoll_t → W → W).
Context (process_event : handle_t → option engine_id → event_t → ST W bool) (timer_event : ST W unit).

Definition on_epoll {A} : ST epoll_t A → ST W A := st_lift mon set_mon.

(** [while (true) { n = epoll_wait (...); ... }], interrupted [n] times at
    most. *)
Fixpoint epoll_wait (n : nat) (timeout : Z) : ST W (list (positive * Z)) :=
  match n with
  | O => st_crash OutOfFuel
  | S n =>
      w ← st_get;
      r ← on_epoll (on_calls (sys_epoll_wait (epoll_fd (mon w)) (Z.to_nat max_io_events) timeout));
      match r with
      | inl ev_buf => mret ev_buf
      | inr EINTR => epoll_wait n timeout
      | inr _ => st_crash AssertFailed
      end
  end.

(** The entry is looked at again before each kind of event; [true]: the
    thread should end. *)
Definition epoll_report (pe : positive) (events mask : Z) (event : event_t) : ST W bool :=
  e ← on_epoll (deref_entry pe);
  if fd e =? retired_fd then mret false
  else if Z.land events mask =? 0 then mret false
  else process_event (Zpos pe) (engine e) event.

Definition epoll_report_all (pe : positive) (events : Z) : ST W bool :=
  stop ← epoll_report pe events (Z.lor EPOLLERR EPOLLHUP) event_err;
  if (stop : bool) then mret true
  else
    stop ← epoll_report pe events EPOLLOUT event_out;
    if (stop : bool) then mret true else epoll_report pe events EPOLLIN event_in.

Fixpoint epoll_report_loop (ev_buf : list (positive * Z)) : ST W bool :=
  match ev_buf with
  | [] => mret false
  | (pe, events) :: ev_buf =>
      stop ← epoll_report_all pe events;
      (if (stop : bool) then mret true else epoll_report_loop ev_buf : ST W bool)
  end.

(** [delete *it] for every retired entry. *)
Definition destroy_retired : ST epoll_t unit :=
  m ← st_get;
  st_for (retired m) (λ pe, deref_entry pe ;; st_modify (λ m, m <| entries := delete pe (entries m) |>)) ;;
  st_modify (λ m, m <| retired := [] |>).

Definition epoll_process_events (interrupts : nat) (timers_ : bool) : ST W bool :=
  ev_buf ← epoll_wait interrupts (if timers_ then max_timer_period else -1);
  if bool_decide (ev_buf = []) then timer_event ;; mret false
  else
    stop ← epoll_report_loop ev_buf;
    (if (stop : bool) then mret true else on_epoll destroy_retired ;; mret false : ST W bool).
End process_events.
End epoll.

Arguments epoll_t : clear implicits.
#[export] Existing Instance eta_epoll.
