(* ===== verification/EpollRounds.v ===== *)
(** A round of [epoll_t] passes events only to engines of descriptors that
    are registered, and never touches an entry that was deleted. *)
From S2P Require Import Prelude Config Command TcpSocket BpTcpEngine Poller Epoll.
Local Open Scope Z_scope.

(** What the system promises: it knows the descriptors that were added and
    not deleted, each once, and the pointers given with them; it reports
    events of those.  [signals] interruptions are to come. *)
Class EpollLaws (K : Type) `{EpollCalls K} := {
  interest : K → gmap fd_t positive;
  signals : K → nat;
  epoll_add_law ep f p ev k k' : runs (sys_epoll_add ep f p ev) k true k' →
    0 ≤ f ∧ interest k !! f = None ∧ interest k' = <[f := p]> (interest k) ∧ signals k' = signals k;
  epoll_del_law ep f k k' : runs (sys_epoll_del ep f) k true k' →
    is_Some (interest k !! f) ∧ interest k' = delete f (interest k) ∧ signals k' = signals k;
  epoll_mod_law ep f p ev k k' : runs (sys_epoll_mod ep f p ev) k true k' →
    is_Some (interest k !! f) ∧ interest k' = <[f := p]> (interest k) ∧ signals k' = signals k;
  epoll_wait_law ep n t k : wp (sys_epoll_wait ep n t) no_fault (λ r k', interest k' = interest k ∧
    match r with
    | inl evs => signals k' = signals k ∧ Forall (λ ev, ∃ f, interest k !! f = Some ev.1) evs
    | inr e => e = EINTR ∧ (signals k' < signals k)%nat
    end) k
}.

Section rounds.
Context {K : Type} `{EpollLaws K}.

(** The system's pointers and the entries agree; entries without a
    descriptor are those that wait for deletion. *)
Record epoll_ok (m : epoll_t K) : Prop := {
  ok_fresh p e : entries m !! p = Some e → (p < next_entry m)%positive;
  ok_entry p e : entries m !! p = Some e → fd e ≠ retired_fd → interest (epoll_calls m) !! fd e = Some p;
  ok_interest f p : interest (epoll_calls m) !! f = Some p → ∃ e, entries m !! p = Some e ∧ fd e = f ∧ f ≠ retired_fd;
  ok_retired p : p ∈ retired m ↔ ∃ e, entries m !! p = Some e ∧ fd e = retired_fd;
  ok_once : NoDup (retired m)
}.

(** [h] is registered for [e]. *)
Definition registered (m : epoll_t K) (h : handle_t) (e : option engine_id) : Prop :=
  ∃ p x, h = Zpos p ∧ entries m !! p = Some x ∧ fd x ≠ retired_fd ∧ engine x = e.

(** What may become of the entries within a round: they live on, and keep
    their engine until their descriptor is removed. *)
Definition changes (m m' : epoll_t K) : Prop :=
  ∀ p e, entries m !! p = Some e → ∃ e', entries m' !! p = Some e' ∧ engine e' = engine e ∧
    (fd e' = retired_fd ∨ fd e' = fd e).

#[export] Instance changes_preorder : PreOrder changes.
Proof.
  split.
  - intros m p e He. exists e. auto.
  - intros m1 m2 m3 H12 H23 p e He. destruct (H12 p e He) as (e2 & He2 & E2 & F2).
    destruct (H23 p e2 He2) as (e3 & He3 & E3 & F3). exists e3. split; [done|]. split; [congruence|].
    destruct F3 as [?|F3]; [by left|]. rewrite F3. destruct F2; [by left|by right].
Qed.

Lemma runs_on_calls {A} (c : ST K A) (m : epoll_t K) a m' : runs (on_calls c) m a m' →
  ∃ k, runs c (epoll_calls m) a k ∧ m' = m <| epoll_calls := k |>.
Proof.
  unfold runs, on_calls, st_lift. destruct (c (epoll_calls m)) as [[x k]|]; [|done]. intros [= <- <-]. eauto.
Qed.

Lemma epoll_new_ok k m : epoll_new k = Ok m → interest (epoll_calls m) = ∅ → epoll_ok m.
Proof.
  unfold epoll_new, mbind, res_bind. destruct (sys_epoll_create k) as [[f k']|]; [|done].
  destruct (f =? -1); [done|]. intros [= <-] Hi. simpl in Hi. constructor; simpl; [done|done| |set_solver|constructor].
  intros f' p Hf. rewrite Hi in Hf. done.
Qed.

(** ** The operations *)

Lemma next_entry_fresh m : epoll_ok m → entries m !! next_entry m = None.
Proof.
  intros [Hf _ _ _ _]. destruct (entries m !! next_entry m) as [x|] eqn:E; [|done]. apply Hf in E. lia.
Qed.

Lemma epoll_add_fd_ok m f e h m' : epoll_ok m → runs (epoll_add_fd f e) m h m' →
  epoll_ok m' ∧ changes m m' ∧ registered m' h e ∧ ¬ registered m h e.
Proof.
  intros Hok Hr. pose proof (next_entry_fresh m Hok) as Hn. unfold epoll_add_fd, put_entry in Hr. call_inv.
  match goal with H : runs (on_calls _) _ ?b _, E : ?b = true |- _ => subst b; apply runs_on_calls in H as (k & Hk & ->); simpl in * end.
  match goal with H : runs (sys_epoll_add _ _ (next_entry ?m0) _) _ _ _ |- _ => try rename m0 into m end.
  apply epoll_add_law in Hk as (Hf0 & Hnew & Hi & _). destruct Hok as [H1 H2 H3 H4 H5]. split_and!.
  - constructor; simpl; [| | | |done].
    + intros p x [[<- <-]|[Hne Hp]]%lookup_insert_Some; [lia|]. apply H1 in Hp. lia.
    + intros p x [[<- <-]|[Hne Hp]]%lookup_insert_Some Hx; rewrite Hi; simpl; [apply lookup_insert_eq|].
      pose proof (H2 p x Hp Hx) as Hpx. rewrite lookup_insert_ne; [done|]. intros ->. congruence.
    + intros f' p. rewrite Hi. intros [[<- <-]|[Hne Hp]]%lookup_insert_Some.
      * rewrite lookup_insert_eq. eexists. split; [done|]. simpl. split; [done|]. unfold retired_fd. lia.
      * destruct (H3 f' p Hp) as (x & Hx & ?). exists x. split; [|done]. rewrite lookup_insert_ne; [done|]. intros <-. congruence.
    + intros p. rewrite H4. split; intros (x & Hx & Hfx); exists x; (split; [|done]).
      * rewrite lookup_insert_ne; [done|]. intros <-. congruence.
      * apply lookup_insert_Some in Hx as [[_ <-]|[_ Hx]]; [simpl in Hfx; unfold retired_fd in Hfx; lia|done].
  - intros p x Hp. exists x. simpl. rewrite lookup_insert_ne; [auto|]. intros <-. congruence.
  - eexists _, _. split; [done|]. simpl. rewrite lookup_insert_eq. split; [done|]. simpl. split; [unfold retired_fd; lia|done].
  - intros (p & x & [= <-] & Hp & _). congruence.
Qed.

Lemma epoll_rm_fd_ok m h u m' : epoll_ok m → runs (epoll_rm_fd h) m u m' →
  epoll_ok m' ∧ changes m m' ∧ (∃ e, registered m h e) ∧ ∀ h' e, registered m' h' e ↔ registered m h' e ∧ h' ≠ h.
Proof.
  intros Hok Hr. unfold epoll_rm_fd, put_entry, deref_entry in Hr. call_inv.
  match goal with H : runs (on_calls _) _ ?b _, E : ?b = true |- _ => subst b; apply runs_on_calls in H as (k & Hk & ->); simpl in * end.
  match goal with Hp : entry_ptr _ = Some ?p, He : entries _ !! ?p = Some ?y |- _ => rename p into pe, y into x, He into Hx, Hp into Hptr end.
  assert (h = Zpos pe) as -> by (destruct h; simplify_eq/=; done).
  apply epoll_del_law in Hk as ([p0 Hp0] & Hi & _). destruct Hok as [H1 H2 H3 H4 H5].
  destruct (H3 _ _ Hp0) as (x' & Hx' & Hfx & Hfd). pose proof (H2 pe x Hx Hfd) as Hpe. assert (p0 = pe) as -> by congruence.
  assert (pe ∉ retired m) as Hnr by (rewrite H4; intros (y & Hy & Hfy); congruence).
  split_and!.
  - constructor; simpl.
    + intros p y [[<- <-]|[Hne Hp]]%lookup_insert_Some; [by apply (H1 _ x)|by eapply H1].
    + intros p y [[<- <-]|[Hne Hp]]%lookup_insert_Some Hy; rewrite ?Hi; simpl; [done|].
      pose proof (H2 p y Hp Hy) as Hpy. rewrite lookup_delete_ne; [done|]. intros E. congruence.
    + intros f' p. rewrite Hi. intros [Hne Hp]%lookup_delete_Some.
      destruct (H3 f' p Hp) as (y & Hy & ? & ?). exists y. split; [|done]. rewrite lookup_insert_ne; [done|]. intros <-. congruence.
    + intros p. rewrite elem_of_app, list_elem_of_singleton, H4. split.
      * intros [(y & Hy & Hfy)| ->]; [|rewrite lookup_insert_eq; by eexists]. exists y. split; [|done].
        rewrite lookup_insert_ne; [done|]. intros <-. congruence.
      * intros (y & [[<- _]|[_ Hy]]%lookup_insert_Some & Hfy); [by right|]. left. eauto.
    + apply NoDup_app. split_and!; [done| |apply NoDup_singleton]. intros p Hp ->%list_elem_of_singleton. done.
  - intros p y Hp. simpl. destruct (decide (p = pe)) as [->|Hne].
    + rewrite lookup_insert_eq. eexists. split; [done|]. simpl. split; [congruence|by left].
    + rewrite lookup_insert_ne by done. exists y. auto.
  - by eexists _, pe, x.
  - intros h' e. split.
    + intros (p & y & -> & Hy & Hfy & He). simpl in Hy. apply lookup_insert_Some in Hy as [[<- <-]|[Hne Hy]]; [done|].
      split; [by exists p, y|]. congruence.
    + intros [(p & y & -> & Hy & Hfy & He) Hne]. exists p, y. simpl. rewrite lookup_insert_ne by congruence. done.
Qed.

Lemma change_events_ok m h f u m' : epoll_ok m → runs (change_events h f) m u m' →
  epoll_ok m' ∧ changes m m' ∧ ∀ h' e, registered m' h' e ↔ registered m h' e.
Proof.
  intros Hok Hr. unfold change_events, put_entry, deref_entry in Hr. call_inv.
  match goal with H : runs (on_calls _) _ ?b _, E : ?b = true |- _ => subst b; apply runs_on_calls in H as (k & Hk & ->); simpl in * end.
  match goal with Hp : entry_ptr _ = Some ?p, He : entries _ !! ?p = Some ?y |- _ => rename p into pe, y into x, He into Hx, Hp into Hptr end.
  apply epoll_mod_law in Hk as ([p0 Hp0] & Hi & _). destruct Hok as [H1 H2 H3 H4 H5].
  destruct (H3 _ _ Hp0) as (x' & Hx' & Hfx & Hfd). pose proof (H2 pe x Hx Hfd) as Hpe. assert (p0 = pe) as -> by congruence.
  assert (interest k = interest (epoll_calls m)) as Hi' by (rewrite Hi; by apply insert_id).
  set (x2 := PollEntry _ _ _). assert (∀ p y, <[pe := x2]> (entries m) !! p = Some y → ∃ y', entries m !! p = Some y' ∧ fd y' = fd y ∧ engine y' = engine y) as Hback.
  { intros p y [[<- <-]|[Hne Hy]]%lookup_insert_Some; [by exists x|by exists y]. }
  assert (∀ p y, entries m !! p = Some y → ∃ y', <[pe := x2]> (entries m) !! p = Some y' ∧ fd y' = fd y ∧ engine y' = engine y) as Hforth.
  { intros p y Hy. destruct (decide (p = pe)) as [->|Hne]; [|rewrite lookup_insert_ne by done; by exists y].
    rewrite lookup_insert_eq. exists x2. assert (y = x) as -> by congruence. done. }
  split_and!.
  - constructor; simpl; rewrite ?Hi'; [| | | |done].
    + intros p y Hy. destruct (Hback p y Hy) as (y' & Hy' & _). by eapply H1.
    + intros p y Hy Hf. destruct (Hback p y Hy) as (y' & Hy' & E & _). rewrite <- E in *. by apply H2.
    + intros f' p Hp. destruct (H3 f' p Hp) as (y & Hy & Hf & ?). destruct (Hforth p y Hy) as (y' & Hy' & ? & _).
      exists y'. split; [done|]. split; [congruence|done].
    + intros p. rewrite H4. split; intros (y & Hy & Hf).
      * destruct (Hforth p y Hy) as (y' & Hy' & ? & _). exists y'. split; [done|congruence].
      * destruct (Hback p y Hy) as (y' & Hy' & ? & _). exists y'. split; [done|congruence].
  - intros p y Hy. destruct (Hforth p y Hy) as (y' & Hy' & ? & ?). exists y'. auto.
  - intros h' e. split; intros (p & y & -> & Hy & Hf & He).
    + destruct (Hback p y Hy) as (y' & Hy' & ? & ?). exists p, y'. split_and!; [done|exact Hy'|congruence|congruence].
    + destruct (Hforth p y Hy) as (y' & Hy' & ? & ?). exists p, y'. split_and!; [done|exact Hy'|congruence|congruence].
Qed.

(** ** The end of a round *)

Definition destroy_entry (pe : positive) : ST (epoll_t K) unit :=
  deref_entry pe ;; st_modify (λ m, m <| entries := delete pe (entries m) |>).

Lemma destroy_entries l : ∀ m, NoDup l → (∀ p, p ∈ l → is_Some (entries m !! p)) →
  ∃ m', runs (st_for l destroy_entry) m tt m' ∧ m' = m <| entries := entries m' |> ∧
    ∀ p, entries m' !! p = if decide (p ∈ l) then None else entries m !! p.
Proof.
  induction l as [|pe l IH]; intros m Hn Hl.
  { exists m. split; [done|]. split; [by destruct m|]. intros p. by destruct (decide _) as [?%elem_of_nil|]. }
  apply NoDup_cons in Hn as [Hpe Hn]. destruct (Hl pe) as [x Hx]; [by left|].
  destruct (IH (m <| entries := delete pe (entries m) |>) Hn) as (m' & Hr & Em & Hm').
  { intros p Hp. simpl. rewrite lookup_delete_ne; [apply Hl; by right|]. intros <-. done. }
  exists m'. split; [|split; [by rewrite Em|]].
  - eapply runs_bind; [|exact Hr]. unfold runs, destroy_entry, deref_entry, mbind, st_bind, st_get, st_of_option. by rewrite Hx.
  - intros p. rewrite Hm'. simpl. destruct (decide (p = pe)) as [->|Hne].
    + rewrite decide_False by done. rewrite decide_True by by left. apply lookup_delete_eq.
    + rewrite lookup_delete_ne by done. destruct (decide (p ∈ l)); [by rewrite decide_True by by right|].
      rewrite decide_False; [done|]. by intros [->|?]%elem_of_cons.
Qed.

(** The retired entries are deleted, each once; what is left are the
    registered ones. *)
Lemma destroy_retired_ok m : epoll_ok m → ∃ m', runs destroy_retired m tt m' ∧ epoll_ok m' ∧ retired m' = [] ∧
  (∀ p e, entries m' !! p = Some e → fd e ≠ retired_fd) ∧ ∀ h e, registered m' h e ↔ registered m h e.
Proof.
  intros [H1 H2 H3 H4 H5]. destruct (destroy_entries (retired m) m H5) as (m' & Hr & Em & Hm').
  { intros p (e & He & _)%H4. eauto. }
  assert (∀ p e, entries m' !! p = Some e ↔ entries m !! p = Some e ∧ fd e ≠ retired_fd) as Hleft.
  { intros p e. rewrite Hm'. destruct (decide (p ∈ retired m)) as [Hp|Hp].
    - split; [done|]. intros [He Hf]. apply H4 in Hp as (x & Hx & Hfx). congruence.
    - split; [|by intros []]. intros He. split; [done|]. intros Hf. apply Hp, H4. eauto. }
  exists (m' <| retired := [] |>). rewrite Em in *. simpl in *. split_and!.
  - eapply runs_bind; [done|]. by eapply runs_bind.
  - constructor; simpl; [| | | |constructor].
    + intros p e [He _]%Hleft. by eapply H1.
    + intros p e [He Hf]%Hleft _. by apply H2.
    + intros f p Hp. destruct (H3 f p Hp) as (e & He & <- & Hf). exists e. rewrite Hleft. done.
    + intros p. split; [by intros ?%elem_of_nil|]. intros (e & [_ Hf]%Hleft & ?). done.
  - done.
  - intros p e [_ Hf]%Hleft. done.
  - intros h e. split; intros (p & x & -> & Hx & Hf & He); exists p, x; simpl in *.
    + apply Hleft in Hx as [Hx _]. done.
    + split; [done|]. split; [by apply Hleft|done].
Qed.

(** ** A round *)

Definition mask_of (event : event_t) : Z :=
  match event with event_err => Z.lor EPOLLERR EPOLLHUP | event_out => EPOLLOUT | event_in => EPOLLIN end.

Section round.
(** [I] is an invariant of the thread's world. *)
Context {W : Type} (mon : W → epoll_t K) (set_mon : epoll_t K → W → W).
Context (process_event : handle_t → option engine_id → event_t → ST W bool) (timer_event : ST W unit).
Context (F : fault → Prop) (I : W → Prop).
Hypothesis mon_set : ∀ m w, mon (set_mon m w) = m.
Hypothesis I_ok : ∀ w, I w → epoll_ok (mon w).
Hypothesis I_set : ∀ w m, I w → epoll_ok m → I (set_mon m w).
(** An event may be passed to the engine of a registered descriptor. *)
Hypothesis process_event_law : ∀ h e event w, I w → registered (mon w) h e →
  wp (process_event h e event) F (λ _ w', I w' ∧ changes (mon w) (mon w')) w.
Hypothesis timer_event_law : ∀ w, I w → wp timer_event F (λ _ w', I w') w.

#[local] Abbreviation on_mon := (on_epoll mon set_mon).

Definition to_come (w : W) : nat := signals (epoll_calls (mon w)).

Lemma epoll_ok_calls m k : epoll_ok m → interest k = interest (epoll_calls m) → epoll_ok (m <| epoll_calls := k |>).
Proof. intros [H1 H2 H3 H4 H5] Hi. constructor; simpl; rewrite ?Hi; done. Qed.

(** Reported entries are live. *)
Definition known (ev_buf : list (positive * Z)) (w : W) : Prop :=
  Forall (λ ev, is_Some (entries (mon w) !! ev.1)) ev_buf.

Lemma epoll_wait_ok n timeout w : I w → (to_come w < n)%nat →
  wp (epoll_wait mon set_mon n timeout) F (λ ev_buf w', I w' ∧ known ev_buf w') w.
Proof.
  revert w. induction n as [|n IH]; intros w HI Hn; [lia|]. simpl. wp_steps. unfold on_epoll, on_calls.
  apply wp_lift, wp_lift. eapply wp_mono; [eapply wp_fault; [|apply epoll_wait_law]; done|].
  intros r k (Hi & Hr). set (m := mon w <| epoll_calls := k |>).
  assert (I (set_mon m w)) as HI' by (apply I_set; [done|by apply epoll_ok_calls, Hi; apply I_ok]).
  destruct r as [evs|e].
  - apply wp_ret. split; [done|]. destruct Hr as [_ Hr]. unfold known. rewrite mon_set. eapply Forall_impl; [exact Hr|].
    intros [p ev] (f & Hf). apply (ok_interest _ (I_ok w HI)) in Hf as (x & Hx & _). by exists x.
  - destruct Hr as [-> Hs]. apply IH; [done|]. unfold to_come in *. rewrite mon_set. simpl. lia.
Qed.

(** While the events of an entry are passed, it lives and keeps its
    engine. *)
Lemma epoll_report_ok evs pe events event w : I w → known evs w → is_Some (entries (mon w) !! pe) →
  wp (epoll_report mon set_mon process_event pe events (mask_of event) event) F
    (λ _ w', I w' ∧ known evs w' ∧ is_Some (entries (mon w') !! pe)) w.
Proof.
  intros HI Hk [e He]. unfold epoll_report. wp_steps. apply wp_lift. unfold deref_entry. wp_steps.
  eapply wp_of_option; [done|]. assert (I (set_mon (mon w) w)) as HI' by (apply I_set; [done|by apply I_ok]).
  set (w1 := set_mon (mon w) w). assert (mon w1 = mon w) as Hw1 by apply mon_set.
  assert (known evs w1) as Hk1 by (unfold known; by rewrite Hw1).
  destruct (Z.eqb_spec (fd e) retired_fd) as [Ef|Ef]; [apply wp_ret; rewrite Hw1; split_and!; eauto|].
  destruct (Z.eqb_spec (Z.land events (mask_of event)) 0); [apply wp_ret; rewrite Hw1; split_and!; eauto|].
  eapply wp_mono; [apply process_event_law; [done|]; exists pe, e; by rewrite Hw1|].
  intros stop w' [HI2 Hch]. split; [done|]. split.
  - eapply Forall_impl; [exact Hk1|]. intros ev (x & Hx). by destruct (Hch _ _ Hx) as (x' & Hx' & _); exists x'.
  - rewrite Hw1 in Hch. by destruct (Hch _ _ He) as (x' & Hx' & _); exists x'.
Qed.

Lemma epoll_report_all_ok evs pe events w : I w → known evs w → is_Some (entries (mon w) !! pe) →
  wp (epoll_report_all mon set_mon process_event pe events) F (λ _ w', I w' ∧ known evs w') w.
Proof.
  intros HI Hk Hp. unfold epoll_report_all. wp_steps.
  eapply wp_mono; [by apply (epoll_report_ok evs pe events event_err)|]. intros [] w1 (HI1 & Hk1 & Hp1); [by apply wp_ret|].
  wp_steps. eapply wp_mono; [by apply (epoll_report_ok evs pe events event_out)|]. intros [] w2 (HI2 & Hk2 & Hp2); [by apply wp_ret|].
  eapply wp_mono; [by apply (epoll_report_ok evs pe events event_in)|]. by intros stop w3 (? & ? & _).
Qed.

Lemma epoll_report_loop_ok evs : ∀ w, I w → known evs w →
  wp (epoll_report_loop mon set_mon process_event evs) F (λ _ w', I w') w.
Proof.
  induction evs as [|[pe events] evs IH]; intros w HI Hk; [by apply wp_ret|]. apply Forall_cons in Hk as [Hp Hk]. simpl. wp_steps.
  eapply wp_mono; [by apply epoll_report_all_ok|]. intros [] w' [HI' Hk']; [by apply wp_ret|]. by apply IH.
Qed.

(** C35: a round of [epoll_t] passes events only to engines of descriptors that
    are registered at that moment, never touches an entry that was deleted
    and deletes none twice, and keeps the entries and the system's pointers
    consistent, although engines remove and add descriptors while events are
    passed. *)
Theorem epoll_round interrupts timers_ w : I w → (to_come w < interrupts)%nat →
  wp (epoll_process_events mon set_mon process_event timer_event interrupts timers_) F
    (λ _ w', I w' ∧ epoll_ok (mon w')) w.
Proof.
  intros HI Hs. cut (wp (epoll_process_events mon set_mon process_event timer_event interrupts timers_) F (λ _ w', I w') w).
  { intros Hw. eapply wp_mono; [exact Hw|]. intros ? w' HI'. split; [done|]. by apply (I_ok w'). }
  unfold epoll_process_events. wp_steps. eapply wp_mono; [by apply epoll_wait_ok|]. intros evs w1 [HI1 Hk1].
  case_bool_decide; [by wp_steps; eapply wp_mono; [by apply timer_event_law|]|].
  wp_steps. eapply wp_mono; [by apply epoll_report_loop_ok|]. intros [] w2 HI2; [by apply wp_ret|]. wp_steps. apply wp_lift.
  destruct (destroy_retired_ok (mon w2) (I_ok w2 HI2)) as (m' & Hr & Hok & _). eapply runs_wp; [done|].
  apply wp_ret. by apply I_set.
Qed.
End round.
End rounds.

(** ** A round over a small system *)

(** The system knows the pointer of each descriptor, and reports an error of
    every one. *)
Definition ksys : Type := gmap fd_t positive.

#[export] Instance ksys_calls : EpollCalls ksys := {
  sys_epoll_create := mret 3;
  sys_epoll_close _ := mret true;
  sys_epoll_add _ f p _ := λ k,
    if bool_decide (0 ≤ f ∧ k !! f = None) then Ok (true, <[f := p]> k) else Ok (false, k);
  sys_epoll_del _ f := λ k, if bool_decide (is_Some (k !! f)) then Ok (true, delete f k) else Ok (false, k);
  sys_epoll_mod _ f p _ := λ k, if bool_decide (is_Some (k !! f)) then Ok (true, <[f := p]> k) else Ok (false, k);
  sys_epoll_wait _ n _ := λ k, Ok (inl (take n ((λ x, (x.2, EPOLLERR)) <$> map_to_list k)), k)
}.

#[export, refine] Instance ksys_laws : EpollLaws ksys := { interest := id; signals _ := 0%nat }.
Proof.
  - intros ep f p ev k k'. unfold runs. simpl. case_bool_decide as E; [|done]. intros [= <-]. naive_solver.
  - intros ep f k k'. unfold runs. simpl. case_bool_decide as E; [|done]. intros [= <-]. naive_solver.
  - intros ep f p ev k k'. unfold runs. simpl. case_bool_decide as E; [|done]. intros [= <-]. naive_solver.
  - intros ep n t k. split; [done|]. split; [done|]. apply Forall_take, Forall_fmap, Forall_forall. intros [f p] Hp.
    exists f. by apply elem_of_map_to_list.
Defined.

Lemma epoll_rm_fd_runs (m : epoll_t ksys) h e : epoll_ok m → registered m h e → ∃ m', runs (epoll_rm_fd h) m tt m'.
Proof.
  intros Hok (p & x & -> & Hx & Hf & _). pose proof (ok_entry _ Hok p x Hx Hf) as Hi. simpl in Hi. unfold id in Hi.
  eexists. unfold runs, epoll_rm_fd, deref_entry, on_calls, put_entry, st_lift, mbind, st_bind, st_get, st_of_option. simpl.
  rewrite Hx. simpl. rewrite bool_decide_true by by eexists. done.
Qed.

(** The engines close what has an error. *)
Definition close_it (h : handle_t) (e : option engine_id) (event : event_t) : ST (epoll_t ksys) bool :=
  epoll_rm_fd h ;; mret false.

Definition two_fds : epoll_t ksys :=
  match (m ← epoll_new (∅ : ksys); (epoll_add_fd 5 (Some 1%positive) ;; epoll_add_fd 7 (Some 2%positive)) m) with
  | Ok (_, m) => m
  | Crash _ => Epoll 3 ∅ 1 [] ∅
  end.

Lemma epoll_round_witness :
  epoll_ok two_fds ∧ size (entries two_fds) = 2%nat ∧
  (∃ m, epoll_process_events id (λ m _, m) close_it (mret tt) 1 false two_fds = Ok (false, m) ∧ entries m = ∅) ∧
  wp (epoll_process_events id (λ m _, m) close_it (mret tt) 1 false) no_fault (λ _ m, epoll_ok m ∧ epoll_ok m) two_fds.
Proof.
  assert (epoll_ok two_fds) as Hok.
  { assert (runs (epoll_add_fd 5 (Some 1%positive) ;; epoll_add_fd 7 (Some 2%positive)) (Epoll 3 ∅ 1 [] (∅ : ksys)) 2 two_fds)
      as (h & m & H1 & H2)%runs_bind_inv by (vm_compute; reflexivity).
    assert (epoll_ok (Epoll 3 ∅ 1 [] (∅ : ksys))) as H0 by (apply (epoll_new_ok ∅); reflexivity).
    apply epoll_add_fd_ok in H1 as (H1 & _); [|exact H0]. by apply epoll_add_fd_ok in H2 as (H2 & _). }
  split; [exact Hok|]. split; [vm_compute; reflexivity|].
  split; [eexists; split; [vm_compute; reflexivity|reflexivity]|].
  apply (epoll_round id (λ m _, m) close_it (mret tt) no_fault epoll_ok).
  - reflexivity.
  - intros m H. exact H.
  - intros m m' _ H. exact H.
  - intros h e event m H Hr. destruct (epoll_rm_fd_runs m h e H Hr) as (m' & Hm).
    destruct (epoll_rm_fd_ok _ _ _ _ H Hm) as (Hok' & Hch & _). unfold close_it. apply wp_bind. eapply runs_wp; [exact Hm|].
    apply wp_ret. split; [exact Hok'|exact Hch].
  - intros m H. exact H.
  - exact Hok.
  - unfold to_come. simpl. lia.
Defined.
