(* ===== verification/Kqueue.v ===== *)
(** Waiting with [kqueue] ([src/libzmq/kqueue_thread.cpp]): the system is told
    of each kind of event by itself, with a pointer to the entry of the
    descriptor; an entry that is removed lives until the end of the round. *)
From S2P Require Import Prelude Config Command TcpSocket BpTcpEngine Poller.
Local Open Scope Z_scope.

Inductive filter_t := EVFILT_READ | EVFILT_WRITE.
#[export] Instance filter_eq : EqDecision filter_t.
Proof. solve_decision. Defined.
#[export] Instance filter_countable : Countable filter_t.
Proof.
  refine (inj_countable' (λ f, match f with EVFILT_READ => true | EVFILT_WRITE => false end)
    (λ b, if (b : bool) then EVFILT_READ else EVFILT_WRITE) _). by intros [].
Defined.

(** An event: [udata], [filter] and whether [flags] has [EV_EOF]. *)
Record kevent_t := Kevent { udata : positive; filter : filter_t; ev_eof : bool }.

(** The system calls; [kevent] with one change, and with none. *)
Class KqueueCalls (K : Type) := {
  sys_kqueue : ST K fd_t;
  sys_kq_close : fd_t → ST K bool;
  sys_kevent_add : fd_t → fd_t → filter_t → positive → ST K bool;
  sys_kevent_delete : fd_t → fd_t → filter_t → ST K bool;
  sys_kevent_wait : fd_t → nat → option (Z * Z) → ST K (list kevent_t + errno)
}.

Record kq_entry_t := KqEntry { fd : fd_t; flag_pollin : bool; flag_pollout : bool; engine : option engine_id }.
#[export] Instance eta_kq_entry : Eta kq_entry_t := λ e, KqEntry (fd e) (flag_pollin e) (flag_pollout e) (engine e).

Section kqueue.
Context {K : Type} `{!KqueueCalls K}.

(** [entries] are the live objects by their addresses; new ones are placed at
    [next_entry]. *)
Record kqueue_t := Kqueue {
  kqueue_fd : fd_t;
  entries : gmap positive kq_entry_t;
  next_entry : positive;
  retired : list positive;
  kq_calls : K
}.
#[local] Instance eta_kqueue : Eta kqueue_t := λ m,
  Kqueue (kqueue_fd m) (entries m) (next_entry m) (retired m) (kq_calls m).

Definition on_calls {A} : ST K A → ST kqueue_t A := st_lift kq_calls (λ k m, m <| kq_calls := k |>).

Definition kqueue_new (k : K) : res kqueue_t :=
  '(f, k) ← sys_kqueue k;
  if f =? -1 then Crash AssertFailed else Ok (Kqueue f ∅ 1 [] k).

Definition kqueue_delete : ST kqueue_t unit := m ← st_get; on_calls (sys_kq_close (kqueue_fd m)) ;; mret tt.

Definition kevent_add (fd_ : fd_t) (filter_ : filter_t) (udata_ : positive) : ST kqueue_t unit :=
  m ← st_get; rc ← on_calls (sys_kevent_add (kqueue_fd m) fd_ filter_ udata_); st_assert rc.

Definition kevent_delete (fd_ : fd_t) (filter_ : filter_t) : ST kqueue_t unit :=
  m ← st_get; rc ← on_calls (sys_kevent_delete (kqueue_fd m) fd_ filter_); st_assert rc.

(** The object a handle or an event points to. *)
Definition deref_entry (p : positive) : ST kqueue_t kq_entry_t :=
  m ← st_get; st_of_option UseAfterFree (entries m !! p).
Definition entry_ptr (h : handle_t) : option positive := match h with Zpos p => Some p | _ => None end.

Definition put_entry (p : positive) (e : kq_entry_t) : ST kqueue_t unit :=
  st_modify (λ m, m <| entries := <[p := e]> (entries m) |>).

Definition kq_add_fd (fd_ : fd_t) (engine_ : option engine_id) : ST kqueue_t handle_t :=
  m ← st_get;
  let pe := next_entry m in
  st_modify (λ m, m <| next_entry := Pos.succ pe |>) ;;
  put_entry pe (KqEntry fd_ false false engine_) ;;
  mret (Zpos pe).

Definition kq_rm_fd (handle_ : handle_t) : ST kqueue_t unit :=
  pe ← st_of_option BadAccess (entry_ptr handle_);
  e ← deref_entry pe;
  st_when (flag_pollin e) (kevent_delete (fd e) EVFILT_READ) ;;
  st_when (flag_pollout e) (kevent_delete (fd e) EVFILT_WRITE) ;;
  put_entry pe (e <| fd := retired_fd |>) ;;
  st_modify (λ m, m <| retired := retired m ++ [pe] |>).

Definition kq_set_pollin (handle_ : handle_t) : ST kqueue_t unit :=
  pe ← st_of_option BadAccess (entry_ptr handle_);
  e ← deref_entry pe;
  put_entry pe (e <| flag_pollin := true |>) ;;
  kevent_add (fd e) EVFILT_READ pe.

Definition kq_reset_pollin (handle_ : handle_t) : ST kqueue_t unit :=
  pe ← st_of_option BadAccess (entry_ptr handle_);
  e ← deref_entry pe;
  put_entry pe (e <| flag_pollin := false |>) ;;
  kevent_delete (fd e) EVFILT_READ.

Definition kq_set_pollout (handle_ : handle_t) : ST kqueue_t unit :=
  pe ← st_of_option BadAccess (entry_ptr handle_);
  e ← deref_entry pe;
  put_entry pe (e <| flag_pollout := true |>) ;;
  kevent_add (fd e) EVFILT_WRITE pe.

Definition kq_reset_pollout (handle_ : handle_t) : ST kqueue_t unit :=
  pe ← st_of_option BadAccess (entry_ptr handle_);
  e ← deref_entry pe;
  put_entry pe (e <| flag_pollout := false |>) ;;
  kevent_delete (fd e) EVFILT_WRITE.

#[export] Instance kqueue_monitor : EventMonitor kqueue_t := {
  em_add_fd := kq_add_fd;
  em_rm_fd := kq_rm_fd;
  em_set_pollin := kq_set_pollin;
  em_reset_pollin := kq_reset_pollin;
  em_set_pollout := kq_set_pollout;
  em_reset_pollout := kq_reset_pollout
}.

(** ** process_events *)

(** Seconds and nanoseconds. *)
Definition kq_timeout : Z * Z := (max_timer_period `quot` 1000, max_timer_period `rem` 1000 * 1000000).

Section process_events.
Context {W : Type} (mon : W → kqueue_t) (set_mon : kqueue_t → W → W).
Context (process_event : handle_t → option engine_id → event_t → ST W bool) (timer_event : ST W unit).

Definition on_kqueue {A} : ST kqueue_t A → ST W A := st_lift mon set_mon.

(** [while (true) { n = kevent (...); ... }], interrupted [n] times at most. *)
Fixpoint kq_wait (n : nat) (timeout : option (Z * Z)) : ST W (list kevent_t) :=
  match n with
  | O => st_crash OutOfFuel
  | S n =>
      w ← st_get;
      r ← on_kqueue (on_calls (sys_kevent_wait (kqueue_fd (mon w)) (Z.to_nat max_io_events) timeout));
      match r with
      | inl ev_buf => mret ev_buf
      | inr EINTR => kq_wait n timeout
      | inr _ => st_crash AssertFailed
      end
  end.

(** The entry is looked at again before each kind of event; [true]: the
    thread should end. *)
Definition kq_report (pe : positive) (happened : bool) (event : event_t) : ST W bool :=
  e ← on_kqueue (deref_entry pe);
  if fd e =? retired_fd then mret false
  else if negb happened then mret false
  else process_event (Zpos pe) (engine e) event.

Definition kq_report_all (ev : kevent_t) : ST W bool :=
  stop ← kq_report (udata ev) (ev_eof ev) event_err;
  if (stop : bool) then mret true
  else
    stop ← kq_report (udata ev) (bool_decide (filter ev = EVFILT_WRITE)) event_out;
    if (stop : bool) then mret true else kq_report (udata ev) (bool_decide (filter ev = EVFILT_READ)) event_in.

Fixpoint kq_report_loop (ev_buf : list kevent_t) : ST W bool :=
  match ev_buf with
  | [] => mret false
  | ev :: ev_buf =>
      stop ← kq_report_all ev;
      (if (stop : bool) then mret true else kq_report_loop ev_buf : ST W bool)
  end.

(** [delete *it] for every retired entry. *)
Definition destroy_retired : ST kqueue_t unit :=
  m ← st_get;
  st_for (retired m) (λ pe, deref_entry pe ;; st_modify (λ m, m <| entries := delete pe (entries m) |>)) ;;
  st_modify (λ m, m <| retired := [] |>).

Definition kq_process_events (interrupts : nat) (timers_ : bool) : ST W bool :=
  ev_buf ← kq_wait interrupts (if timers_ then Some kq_timeout else None);
  if bool_decide (ev_buf = []) then timer_event ;; mret false
  else
    stop ← kq_report_loop ev_buf;
    (if (stop : bool) then mret true else on_kqueue destroy_retired ;; mret false : ST W bool).
End process_events.
End kqueue.

Arguments kqueue_t : clear implicits.
#[export] Existing Instance eta_kqueue.
