(* ===== verification/KqueueRounds.v ===== *)
(** A round of [kqueue_t] passes events only to engines of descriptors that are
    registered, and never touches an entry that was deleted. *)
From S2P Require Import Prelude Config Command TcpSocket BpTcpEngine Poller Kqueue.
Local Open Scope Z_scope.

(** What the system promises: it keeps a pointer for each kind of event it was
    asked for, and reports those.  [signals] interruptions are to come. *)
Class KqueueLaws (K : Type) `{KqueueCalls K} := {
  interest : K → gmap (fd_t * filter_t) positive;
  signals : K → nat;
  kevent_add_law q f flt p k k' : runs (sys_kevent_add q f flt p) k true k' →
    interest k' = <[(f, flt) := p]> (interest k) ∧ signals k' = signals k;
  kevent_delete_law q f flt k k' : runs (sys_kevent_delete q f flt) k true k' →
    interest k' = delete (f, flt) (interest k) ∧ signals k' = signals k;
  kevent_wait_law q n t k : wp (sys_kevent_wait q n t) no_fault (λ r k', interest k' = interest k ∧
    match r with
    | inl evs => signals k' = signals k ∧ Forall (λ ev, ∃ f, interest k !! (f, filter ev) = Some (udata ev)) evs
    | inr e => e = EINTR ∧ (signals k' < signals k)%nat
    end) k
}.

Definition flag (e : kq_entry_t) (flt : filter_t) : bool :=
  match flt with EVFILT_READ => flag_pollin e | EVFILT_WRITE => flag_pollout e end.
Definition set_flag (e : kq_entry_t) (flt : filter_t) (b : bool) : kq_entry_t :=
  match flt with EVFILT_READ => e <| flag_pollin := b |> | EVFILT_WRITE => e <| flag_pollout := b |> end.

Lemma set_flag_spec e flt b : fd (set_flag e flt b) = fd e ∧ engine (set_flag e flt b) = engine e ∧
  ∀ flt', flag (set_flag e flt b) flt' = if decide (flt' = flt) then b else flag e flt'.
Proof. destruct flt; (split; [done|split; [done|]]); by intros []. Qed.

Section rounds.
Context {K : Type} `{KqueueLaws K}.
Implicit Types (m : kqueue_t K).

(** The system's pointers and the entries agree; entries without a descriptor
    are those that wait for deletion. *)
Record kq_ok m : Prop := {
  ok_fresh p e : entries m !! p = Some e → (p < next_entry m)%positive;
  ok_flag p e flt : entries m !! p = Some e → fd e ≠ retired_fd → flag e flt = true →
    interest (kq_calls m) !! (fd e, flt) = Some p;
  ok_interest f flt p : interest (kq_calls m) !! (f, flt) = Some p →
    ∃ e, entries m !! p = Some e ∧ fd e = f ∧ f ≠ retired_fd ∧ flag e flt = true;
  ok_distinct p p' e e' : entries m !! p = Some e → entries m !! p' = Some e' → fd e = fd e' → fd e ≠ retired_fd → p = p';
  ok_retired p : p ∈ retired m ↔ ∃ e, entries m !! p = Some e ∧ fd e = retired_fd;
  ok_once : NoDup (retired m)
}.

(** [h] is registered for [e]. *)
Definition registered m (h : handle_t) (e : option engine_id) : Prop :=
  ∃ p x, h = Zpos p ∧ entries m !! p = Some x ∧ fd x ≠ retired_fd ∧ engine x = e.

(** What may become of the entries within a round: they live on, and keep
    their engine until their descriptor is removed. *)
Definition changes m m' : Prop :=
  ∀ p e, entries m !! p = Some e → ∃ e', entries m' !! p = Some e' ∧ engine e' = engine e ∧
    (fd e' = retired_fd ∨ fd e' = fd e).
#[export] Instance changes_preorder : PreOrder changes.
Proof.
  split; [intros m p e He; exists e; auto|]. intros m1 m2 m3 H12 H23 p e (e2 & (e3 & He3 & E3 & F3)%H23 & E2 & F2)%H12.
  exists e3. split; [done|]. split; [congruence|]. destruct F3 as [?| ->]; [by left|]. destruct F2; auto.
Qed.

(** ** The operations *)

Lemma kq_new_ok k m : kqueue_new k = Ok m → interest (kq_calls m) = ∅ → kq_ok m.
Proof.
  unfold kqueue_new, mbind, res_bind. destruct (sys_kqueue k) as [[f k']|]; [|done].
  destruct (f =? -1); [done|]. intros [= <-] Hi. simpl in Hi.
  constructor; simpl; [done|done| |done|set_solver|constructor]. intros f' flt p Hf. by rewrite Hi in Hf.
Qed.

(** Descriptors are registered once; the code does not check it. *)
Lemma kq_add_fd_ok m f e h m' : kq_ok m → f ≠ retired_fd → (∀ p x, entries m !! p = Some x → fd x ≠ f) →
  runs (kq_add_fd f e) m h m' → kq_ok m' ∧ changes m m' ∧ registered m' h e ∧ ¬ registered m h e.
Proof.
  intros [H1 H2 H3 H4 H5 H6] Hf Hnew Hr. unfold kq_add_fd, put_entry in Hr. st_inv.
  match goal with |- context [changes ?m0 _] => try rename m0 into m end.
  assert (entries m !! next_entry m = None) as Hn.
  { destruct (entries m !! next_entry m) eqn:E; [|done]. apply H1 in E. lia. }
  assert (∀ p x, <[next_entry m := KqEntry f false false e]> (entries m) !! p = Some x →
    (p = next_entry m ∧ x = KqEntry f false false e) ∨ entries m !! p = Some x) as Hback.
  { intros p x [[<- <-]|[_ Hx]]%lookup_insert_Some; auto. }
  assert (∀ p x, entries m !! p = Some x → <[next_entry m := KqEntry f false false e]> (entries m) !! p = Some x) as Hforth.
  { intros p x Hx. rewrite lookup_insert_ne; [done|]. intros <-. congruence. }
  split_and!.
  - constructor; simpl; [| | | | |done].
    + intros p x [[-> _]|Hx]%Hback; [lia|]. apply H1 in Hx. lia.
    + intros p x flt [[-> ->]|Hx]%Hback Hfx Hb; [by destruct flt|by apply H2].
    + intros f' flt p (x & Hx & ?)%H3. exists x. split; [by apply Hforth|done].
    + intros p p' x x' [[-> ->]|Hx]%Hback [[-> ->]|Hx']%Hback E; simpl in E; [done| | |by eapply H4].
      * by destruct (Hnew p' x' Hx').
      * by destruct (Hnew p x Hx).
    + intros p. rewrite H5. split; intros (x & Hx & Hfx); exists x; (split; [|done]); [by apply Hforth|].
      by apply Hback in Hx as [[_ ->]|].
  - intros p x Hx. exists x. simpl. split; [by apply Hforth|auto].
  - eexists _, _. split; [done|]. simpl. rewrite lookup_insert_eq. done.
  - intros (p & x & [= <-] & Hp & _). congruence.
Qed.

Lemma runs_kevent_add f flt p m u m' : runs (kevent_add f flt p) m u m' →
  ∃ k, m' = m <| kq_calls := k |> ∧ interest k = <[(f, flt) := p]> (interest (kq_calls m)).
Proof.
  unfold kevent_add, on_calls. intros Hr. st_inv. subst.
  match goal with H1 : runs (st_lift _ _ _) _ _ _ |- _ => unfold runs, st_lift in H1;
    destruct (sys_kevent_add _ _ _ _ _) as [[b k]|] eqn:Ek; [|done]; injection H1 as -> <- end.
  exists k. split; [done|]. by eapply kevent_add_law.
Qed.

Lemma runs_kevent_delete f flt m u m' : runs (kevent_delete f flt) m u m' →
  ∃ k, m' = m <| kq_calls := k |> ∧ interest k = delete (f, flt) (interest (kq_calls m)).
Proof.
  unfold kevent_delete, on_calls. intros Hr. st_inv. subst.
  match goal with H1 : runs (st_lift _ _ _) _ _ _ |- _ => unfold runs, st_lift in H1;
    destruct (sys_kevent_delete _ _ _ _) as [[b k]|] eqn:Ek; [|done]; injection H1 as -> <- end.
  exists k. split; [done|]. by eapply kevent_delete_law.
Qed.

(** One kind of event is asked for, or no more. *)
Lemma set_flag_ok m p e flt (b : bool) k : kq_ok m → entries m !! p = Some e → fd e ≠ retired_fd →
  interest k = (if b then <[(fd e, flt) := p]> else delete (fd e, flt)) (interest (kq_calls m)) →
  let m' := m <| entries := <[p := set_flag e flt b]> (entries m) |> <| kq_calls := k |> in
  kq_ok m' ∧ changes m m' ∧ ∀ h' e', registered m' h' e' ↔ registered m h' e'.
Proof.
  intros [H1 H2 H3 H4 H5 H6] He Hf Hi m'. destruct (set_flag_spec e flt b) as (Ef & Ee & Eb).
  assert (∀ p' x, <[p := set_flag e flt b]> (entries m) !! p' = Some x → ∃ x', entries m !! p' = Some x' ∧ fd x' = fd x ∧ engine x' = engine x ∧
    (∀ flt', flag x flt' = if decide (p' = p ∧ flt' = flt) then b else flag x' flt')) as Hback.
  { intros p' x [[<- <-]|[Hne Hx]]%lookup_insert_Some.
    - exists e. split_and!; [done..|]. intros flt'. rewrite Eb. by repeat destruct (decide _); naive_solver.
    - exists x. split_and!; [done..|]. intros flt'. by rewrite decide_False by naive_solver. }
  assert (∀ p' x', entries m !! p' = Some x' → ∃ x, <[p := set_flag e flt b]> (entries m) !! p' = Some x ∧ fd x' = fd x ∧ engine x' = engine x ∧
    (∀ flt', flag x flt' = if decide (p' = p ∧ flt' = flt) then b else flag x' flt')) as Hforth.
  { intros p' x' Hx. destruct (decide (p' = p)) as [->|Hne].
    - rewrite lookup_insert_eq. simplify_eq. exists (set_flag e flt b). split_and!; [done..|]. intros flt'. rewrite Eb. by repeat destruct (decide _); naive_solver.
    - rewrite lookup_insert_ne by done. exists x'. split_and!; [done..|]. intros flt'. by rewrite decide_False by naive_solver. }
  split_and!.
  - constructor; simpl; [| | | | |done].
    + intros p' x (x' & Hx' & _)%Hback. by eapply H1.
    + intros p' x flt' (x' & Hx' & E1 & _ & E3)%Hback Hfx Hb. rewrite E3 in Hb. rewrite <- E1 in *. rewrite Hi.
      destruct (decide (p' = p ∧ flt' = flt)) as [[-> ->]|Hne].
      * subst b. simplify_eq. by rewrite lookup_insert_eq.
      * assert ((fd e, flt) ≠ (fd x', flt')) as Hk.
        { intros [= Ek ->]. apply Hne. split; [|done]. by eapply (H4 p' p x' e). }
        destruct b; [rewrite lookup_insert_ne by done|rewrite lookup_delete_ne by done]; by apply H2.
    + intros f' flt' p'. rewrite Hi. destruct (decide ((fd e, flt) = (f', flt'))) as [[= <- <-]|Hne].
      * destruct b; [|by rewrite lookup_delete_eq]. rewrite lookup_insert_eq. intros [= <-].
        destruct (Hforth p e He) as (x & Hx & E1 & _ & E3). exists x. split_and!; [done|by rewrite <- E1|done|]. rewrite E3. by rewrite decide_True.
      * intros Hp'. assert (interest (kq_calls m) !! (f', flt') = Some p') as Hp2.
        { destruct b; [by rewrite lookup_insert_ne in Hp'|by rewrite lookup_delete_ne in Hp']. }
        destruct (H3 _ _ _ Hp2) as (x' & Hx' & <- & Hf' & Hb'). destruct (Hforth p' x' Hx') as (x & Hx & E1 & _ & E3).
        exists x. split_and!; [done..|]. rewrite E3. rewrite decide_False; [done|]. intros [-> ->]. simplify_eq.
    + intros p1 p2 x1 x2 (y1 & Hy1 & E1 & _)%Hback (y2 & Hy2 & E2 & _)%Hback E Hf1. apply (H4 p1 p2 y1 y2); congruence.
    + intros p'. rewrite H5. split; intros (x & Hx & Hfx).
      * destruct (Hforth p' x Hx) as (y & Hy & E & _). exists y. split; [done|congruence].
      * destruct (Hback p' x Hx) as (y & Hy & E & _). exists y. split; [done|congruence].
  - intros p' x Hx. destruct (Hforth p' x Hx) as (y & Hy & E1 & E2 & _). exists y. simpl. rewrite E1. auto.
  - intros h' e'. split; intros (p' & x & -> & Hx & Hfx & <-).
    + destruct (Hback p' x Hx) as (y & Hy & E1 & E2 & _). exists p', y. split_and!; congruence.
    + destruct (Hforth p' x Hx) as (y & Hy & E1 & E2 & _). exists p', y. split_and!; [done|exact Hy|congruence|congruence].
Qed.

(** The four operations on a registered handle. *)
Lemma kq_set_ok flt (b : bool) m h u m' : kq_ok m → (∃ e, registered m h e) →
  runs (pe ← st_of_option BadAccess (entry_ptr h); e ← deref_entry pe; put_entry pe (set_flag e flt b) ;;
    if b then kevent_add (fd e) flt pe else kevent_delete (fd e) flt) m u m' →
  kq_ok m' ∧ changes m m' ∧ ∀ h' e', registered m' h' e' ↔ registered m h' e'.
Proof.
  intros Hok (_ & p & x & -> & Hx & Hf & _) Hr. unfold put_entry, deref_entry in Hr. call_inv. simplify_eq/=.
  match goal with H : entries ?m0 !! ?q = Some ?y |- _ => try rename q into p; try rename y into x end.
  match goal with |- context [changes ?m0 _] => try rename m0 into m end.
  assert (∃ k, m' = m <| entries := <[p := set_flag x flt b]> (entries m) |> <| kq_calls := k |> ∧
    interest k = (if b then <[(fd x, flt) := p]> else delete (fd x, flt)) (interest (kq_calls m))) as (k & -> & Hi).
  { destruct b; [apply runs_kevent_add in Hr as (k & -> & Hi)|apply runs_kevent_delete in Hr as (k & -> & Hi)]; by exists k. }
  by apply (set_flag_ok m p x flt b k).
Qed.

Corollary kq_set_pollin_ok m h u m' : kq_ok m → (∃ e, registered m h e) → runs (kq_set_pollin h) m u m' →
  kq_ok m' ∧ changes m m' ∧ ∀ h' e', registered m' h' e' ↔ registered m h' e'.
Proof. apply (kq_set_ok EVFILT_READ true). Qed.
Corollary kq_reset_pollin_ok m h u m' : kq_ok m → (∃ e, registered m h e) → runs (kq_reset_pollin h) m u m' →
  kq_ok m' ∧ changes m m' ∧ ∀ h' e', registered m' h' e' ↔ registered m h' e'.
Proof. apply (kq_set_ok EVFILT_READ false). Qed.
Corollary kq_set_pollout_ok m h u m' : kq_ok m → (∃ e, registered m h e) → runs (kq_set_pollout h) m u m' →
  kq_ok m' ∧ changes m m' ∧ ∀ h' e', registered m' h' e' ↔ registered m h' e'.
Proof. apply (kq_set_ok EVFILT_WRITE true). Qed.
Corollary kq_reset_pollout_ok m h u m' : kq_ok m → (∃ e, registered m h e) → runs (kq_reset_pollout h) m u m' →
  kq_ok m' ∧ changes m m' ∧ ∀ h' e', registered m' h' e' ↔ registered m h' e'.
Proof. apply (kq_set_ok EVFILT_WRITE false). Qed.

(** A kind of event that was asked for is asked for no more. *)
Lemma forget_ok m e flt u m' : (∀ q, interest (kq_calls m) !! (fd e, flt) = Some q → flag e flt = true) →
  runs (st_when (flag e flt) (kevent_delete (fd e) flt)) m u m' →
  ∃ k, m' = m <| kq_calls := k |> ∧ interest k = delete (fd e, flt) (interest (kq_calls m)).
Proof.
  intros Hq Hr. unfold st_when in Hr. destruct (flag e flt) eqn:Eb; [by eapply runs_kevent_delete|].
  st_inv. exists (kq_calls m'). split; [by destruct m'|]. symmetry. apply delete_id.
  destruct (interest (kq_calls m') !! (fd e, flt)) as [q|] eqn:E; [|done]. by specialize (Hq q eq_refl).
Qed.

Lemma flag_known m p e flt q : kq_ok m → entries m !! p = Some e → fd e ≠ retired_fd →
  interest (kq_calls m) !! (fd e, flt) = Some q → flag e flt = true.
Proof.
  intros Hok He Hf Hq. destruct (ok_interest m Hok _ _ _ Hq) as (e' & He' & Ef & _ & Hb).
  pose proof (ok_distinct m Hok _ _ _ _ He He' (eq_sym Ef) Hf) as <-. congruence.
Qed.

(** An entry loses its descriptor and waits to be deleted. *)
Lemma retire_ok m p e k : kq_ok m → entries m !! p = Some e → fd e ≠ retired_fd →
  (∀ f flt, interest k !! (f, flt) = if decide (f = fd e) then None else interest (kq_calls m) !! (f, flt)) →
  let m' := Kqueue (kqueue_fd m) (<[p := e <| fd := retired_fd |>]> (entries m)) (next_entry m) (retired m ++ [p]) k in
  kq_ok m' ∧ changes m m' ∧ ∀ h' e', registered m' h' e' ↔ registered m h' e' ∧ h' ≠ Zpos p.
Proof.
  intros [H1 H2 H3 H4 H5 H6] He Hf Hi m'.
  assert (p ∉ retired m) as Hnr by (rewrite H5; intros (y & Hy & Hfy); congruence).
  split_and!.
  - constructor; simpl.
    + intros p' x [[<- <-]|[_ Hx]]%lookup_insert_Some; [by apply (H1 _ e)|by eapply H1].
    + intros p' x flt [[<- <-]|[Hne Hx]]%lookup_insert_Some Hfx Hb; [done|]. rewrite Hi. rewrite decide_False; [by apply H2|].
      intros E. apply Hne. by apply (H4 p p' e x).
    + intros f' flt p'. rewrite Hi. destruct (decide _) as [|Hne]; [done|]. intros (x & Hx & <- & Hfx & Hb)%H3.
      exists x. split; [|done]. rewrite lookup_insert_ne; [done|]. intros <-. congruence.
    + intros p1 p2 x1 x2 [[<- <-]|[_ Hx1]]%lookup_insert_Some; [done|]. intros [[<- <-]|[_ Hx2]]%lookup_insert_Some E Hf1; [done|by eapply H4].
    + intros p'. rewrite elem_of_app, list_elem_of_singleton, H5. split.
      * intros [(y & Hy & Hfy)| ->]; [|rewrite lookup_insert_eq; by eexists]. exists y. split; [|done].
        rewrite lookup_insert_ne; [done|]. intros <-. congruence.
      * intros (y & [[<- _]|[_ Hy]]%lookup_insert_Some & Hfy); [by right|]. left. eauto.
    + apply NoDup_app. split_and!; [done| |apply NoDup_singleton]. by intros p' Hp' ->%list_elem_of_singleton.
  - intros p' y Hy. simpl. destruct (decide (p' = p)) as [->|Hne].
    + rewrite lookup_insert_eq. eexists. split; [done|]. simpl. split; [congruence|by left].
    + rewrite lookup_insert_ne by done. exists y. auto.
  - intros h' e'. split.
    + intros (p' & y & -> & Hy & Hfy & Ee). simpl in Hy. apply lookup_insert_Some in Hy as [[<- <-]|[Hne Hy]]; [done|].
      split; [by exists p', y|]. congruence.
    + intros [(p' & y & -> & Hy & Hfy & Ee) Hne]. exists p', y. simpl. rewrite lookup_insert_ne by congruence. done.
Qed.

Lemma kq_rm_fd_ok m h e u m' : kq_ok m → registered m h e → runs (kq_rm_fd h) m u m' →
  kq_ok m' ∧ changes m m' ∧ ∀ h' e', registered m' h' e' ↔ registered m h' e' ∧ h' ≠ h.
Proof.
  intros Hok (p & x & -> & Hx & Hf & _) Hr. unfold kq_rm_fd, deref_entry, put_entry in Hr. call_inv. simplify_eq/=.
  match goal with H : entries ?m0 !! ?q = Some ?y |- _ => try rename q into p; try rename y into x end.
  apply (forget_ok m x EVFILT_READ) in Hr2 as (k1 & -> & Hi1); [|intros q; by apply (flag_known m p)].
  apply (forget_ok _ x EVFILT_WRITE) in Hr3 as (k2 & -> & Hi2).
  2:{ intros q. simpl. rewrite Hi1, lookup_delete_ne by done. by apply (flag_known m p). }
  apply (retire_ok m p x k2); [done..|]. intros f flt. simpl in Hi2. rewrite Hi2, Hi1.
  destruct (decide (f = fd x)) as [->|Hne]; [|by rewrite !lookup_delete_ne by congruence].
  destruct flt; [rewrite lookup_delete_ne by done|]; apply lookup_delete_eq.
Qed.

(** ** The end of a round *)

Definition destroy_entry (pe : positive) : ST (kqueue_t K) unit :=
  deref_entry pe ;; st_modify (λ m, m <| entries := delete pe (entries m) |>).

Lemma kq_destroy_entries l : ∀ m, NoDup l → (∀ p, p ∈ l → is_Some (entries m !! p)) →
  ∃ m', runs (st_for l destroy_entry) m tt m' ∧ m' = m <| entries := entries m' |> ∧
    ∀ p, entries m' !! p = if decide (p ∈ l) then None else entries m !! p.
Proof.
  induction l as [|pe l IH]; intros m Hn Hl.
  { exists m. split; [done|]. split; [by destruct m|]. intros p. by destruct (decide _) as [?%elem_of_nil|]. }
  apply NoDup_cons in Hn as [Hpe Hn]. destruct (Hl pe) as [x Hx]; [by left|].
  destruct (IH (m <| entries := delete pe (entries m) |>) Hn) as (m' & Hr & Em & Hm').
  { intros p Hp. simpl. rewrite lookup_delete_ne; [apply Hl; by right|]. by intros <-. }
  exists m'. split; [|split; [by rewrite Em|]].
  - eapply runs_bind; [|exact Hr]. unfold runs, destroy_entry, deref_entry, mbind, st_bind, st_get, st_of_option. by rewrite Hx.
  - intros p. rewrite Hm'. simpl. destruct (decide (p ∈ pe :: l)) as [[->|Hp]%elem_of_cons|Hp].
    + by rewrite decide_False, lookup_delete_eq.
    + by rewrite decide_True.
    + rewrite not_elem_of_cons in Hp. by rewrite decide_False, lookup_delete_ne by naive_solver.
Qed.

(** The retired entries are deleted, each once; what is left are the
    registered ones. *)
Lemma kq_destroy_retired_ok m : kq_ok m → ∃ m', runs destroy_retired m tt m' ∧ kq_ok m' ∧
  ∀ p e, entries m' !! p = Some e ↔ entries m !! p = Some e ∧ fd e ≠ retired_fd.
Proof.
  intros [H1 H2 H3 H4 H5 H6]. destruct (kq_destroy_entries (retired m) m H6) as (m' & Hr & Em & Hm').
  { intros p (e & He & _)%H5. eauto. }
  assert (∀ p e, entries m' !! p = Some e ↔ entries m !! p = Some e ∧ fd e ≠ retired_fd) as Hleft.
  { intros p e. rewrite Hm'. destruct (decide (p ∈ retired m)) as [Hp|Hp].
    - split; [done|]. intros [He Hf]. apply H5 in Hp as (x & Hx & Hfx). congruence.
    - split; [|by intros []]. intros He. split; [done|]. intros Hf. apply Hp, H5. eauto. }
  exists (m' <| retired := [] |>). rewrite Em in *. simpl in *. split_and!.
  - eapply runs_bind; [done|]. by eapply runs_bind.
  - constructor; simpl; [| | | | |constructor].
    + intros p e [He _]%Hleft. by eapply H1.
    + intros p e flt [He Hf]%Hleft _. by apply H2.
    + intros f flt p (e & He & <- & Hf & Hb)%H3. exists e. rewrite Hleft. done.
    + intros p p' e e' [He _]%Hleft [He' _]%Hleft. by eapply H4.
    + intros p. split; [by intros ?%elem_of_nil|]. intros (e & [_ Hf]%Hleft & ?). done.
  - exact Hleft.
Qed.

(** ** A round *)

Section round.
(** [I] is an invariant of the thread's world. *)
Context {W : Type} (mon : W → kqueue_t K) (set_mon : kqueue_t K → W → W).
Context (process_event : handle_t → option engine_id → event_t → ST W bool) (timer_event : ST W unit).
Context (F : fault → Prop) (I : W → Prop).
Hypothesis mon_set : ∀ m w, mon (set_mon m w) = m.
Hypothesis I_ok : ∀ w, I w → kq_ok (mon w).
Hypothesis I_set : ∀ w m, I w → kq_ok m → I (set_mon m w).
(** An event may be passed to the engine of a registered descriptor. *)
Hypothesis process_event_law : ∀ h e event w, I w → registered (mon w) h e →
  wp (process_event h e event) F (λ _ w', I w' ∧ changes (mon w) (mon w')) w.
Hypothesis timer_event_law : ∀ w, I w → wp timer_event F (λ _ w', I w') w.

Definition to_come (w : W) : nat := signals (kq_calls (mon w)).

(** Reported entries are live. *)
Definition known (ev_buf : list kevent_t) (w : W) : Prop := Forall (λ ev, is_Some (entries (mon w) !! udata ev)) ev_buf.

Lemma kq_known_changes evs w w' : known evs w → changes (mon w) (mon w') → known evs w'.
Proof. intros Hk Hch. eapply Forall_impl; [exact Hk|]. intros ev (x & Hx). by destruct (Hch _ _ Hx) as (y & Hy & _); exists y. Qed.

Lemma kq_wait_ok n timeout w : I w → (to_come w < n)%nat →
  wp (kq_wait mon set_mon n timeout) F (λ ev_buf w', I w' ∧ known ev_buf w') w.
Proof.
  revert w. induction n as [|n IH]; intros w HI Hn; [lia|]. simpl. wp_steps. unfold on_kqueue, on_calls.
  apply wp_lift, wp_lift. eapply wp_mono; [eapply wp_fault; [|apply kevent_wait_law]; done|].
  intros r k (Hi & Hr). set (m := mon w <| kq_calls := k |>).
  assert (I (set_mon m w)) as HI'.
  { apply I_set; [done|]. destruct (I_ok w HI). constructor; simpl; rewrite ?Hi; done. }
  destruct r as [evs|e].
  - apply wp_ret. split; [done|]. destruct Hr as [_ Hr]. unfold known. rewrite mon_set. eapply Forall_impl; [exact Hr|].
    intros ev (f & Hf). apply (ok_interest _ (I_ok w HI)) in Hf as (x & Hx & _). by exists x.
  - destruct Hr as [-> Hs]. apply IH; [done|]. unfold to_come in *. rewrite mon_set. simpl. lia.
Qed.

(** While the events of an entry are passed, it lives and keeps its
    engine. *)
Lemma kq_report_ok ev evs happened event w : I w → known (ev :: evs) w →
  wp (kq_report mon set_mon process_event (udata ev) happened event) F (λ _ w', I w' ∧ known (ev :: evs) w') w.
Proof.
  intros HI Hk. pose proof Hk as [[e He] _]%Forall_cons. unfold kq_report. wp_steps. apply wp_lift. unfold deref_entry. wp_steps.
  eapply wp_of_option; [done|]. assert (I (set_mon (mon w) w)) as HI' by (apply I_set; [done|by apply I_ok]).
  set (w1 := set_mon (mon w) w). assert (mon w1 = mon w) as Hw1 by apply mon_set.
  assert (known (ev :: evs) w1) as Hk1 by (unfold known; by rewrite Hw1).
  destruct (Z.eqb_spec (fd e) retired_fd) as [Ef|Ef]; [by apply wp_ret|]. destruct happened; [|by apply wp_ret].
  eapply wp_mono; [apply process_event_law; [done|]; exists (udata ev), e; by rewrite Hw1|].
  intros stop w' [HI2 Hch]. split; [done|]. by eapply kq_known_changes.
Qed.

Lemma kq_report_loop_ok evs : ∀ w, I w → known evs w →
  wp (kq_report_loop mon set_mon process_event evs) F (λ _ w', I w') w.
Proof.
  induction evs as [|ev evs IH]; intros w HI Hk; [by apply wp_ret|]. simpl. unfold kq_report_all. wp_steps.
  eapply wp_mono; [by apply kq_report_ok|]. intros [] w1 [HI1 Hk1]; [by do 2 apply wp_ret|]. wp_steps.
  eapply wp_mono; [by apply kq_report_ok|]. intros [] w2 [HI2 Hk2]; [by do 2 apply wp_ret|].
  eapply wp_mono; [by apply kq_report_ok|]. intros [] w3 [HI3 Hk3]; [by apply wp_ret|].
  apply IH; [done|]. by apply Forall_cons in Hk3 as [_ ?].
Qed.

(** A round of [kqueue_t] passes events only to engines of registered
    descriptors and touches no deleted entry. *)
Theorem kqueue_round interrupts timers_ w : I w → (to_come w < interrupts)%nat →
  wp (kq_process_events mon set_mon process_event timer_event interrupts timers_) F (λ _ w', I w' ∧ kq_ok (mon w')) w.
Proof.
  intros HI Hs. cut (wp (kq_process_events mon set_mon process_event timer_event interrupts timers_) F (λ _ w', I w') w).
  { intros Hw. eapply wp_mono; [exact Hw|]. intros ? w' HI'. split; [done|]. by apply I_ok. }
  unfold kq_process_events. wp_steps. eapply wp_mono; [by apply kq_wait_ok|]. intros evs w1 [HI1 Hk1].
  case_bool_decide; [by wp_steps; eapply wp_mono; [by apply timer_event_law|]|].
  wp_steps. eapply wp_mono; [by apply kq_report_loop_ok|]. intros [] w2 HI2; [by apply wp_ret|]. wp_steps. apply wp_lift.
  destruct (kq_destroy_retired_ok (mon w2) (I_ok w2 HI2)) as (m' & Hr & Hok & _). eapply runs_wp; [done|].
  apply wp_ret. by apply I_set.
Qed.
End round.
End rounds.

(** ** A round over a small system *)

(** The system knows the pointers it was given, and reports the end of file of
    every descriptor. *)
Definition qsys : Type := gmap (fd_t * filter_t) positive.

#[export] Instance qsys_calls : KqueueCalls qsys := {
  sys_kqueue := mret 3;
  sys_kq_close _ := mret true;
  sys_kevent_add _ f flt p := λ k, Ok (true, <[(f, flt) := p]> k);
  sys_kevent_delete _ f flt := λ k, if bool_decide (is_Some (k !! (f, flt))) then Ok (true, delete (f, flt) k) else Ok (false, k);
  sys_kevent_wait _ n _ := λ k, Ok (inl (take n ((λ x, Kevent x.2 x.1.2 true) <$> map_to_list k)), k)
}.

#[export, refine] Instance qsys_laws : KqueueLaws qsys := { interest := id; signals _ := 0%nat }.
Proof.
  - intros q f flt p k k'. unfold runs. simpl. by intros [= <-].
  - intros q f flt k k'. unfold runs. simpl. case_bool_decide; [|done]. by intros [= <-].
  - intros q n t k. split; [done|]. split; [done|]. apply Forall_take, Forall_fmap, Forall_forall. intros [[f flt] p] Hp.
    exists f. by apply elem_of_map_to_list.
Defined.

(** The engines close what has an error. *)
Definition close_it (h : handle_t) (e : option engine_id) (event : event_t) : ST (kqueue_t qsys) bool :=
  kq_rm_fd h ;; mret false.

Definition reading : res (handle_t * kqueue_t qsys) :=
  m ← kqueue_new (∅ : qsys);
  '(h, m) ← kq_add_fd 5 (Some 1%positive) m;
  '(_, m) ← kq_set_pollin h m;
  '(_, m) ← kq_set_pollout h m;
  Ok (h, m).

(** Both kinds of event are reported for one descriptor, which the first
    closes: its entry is looked at again, and is deleted once, at the end. *)
Lemma closed_entry_is_kept : ∃ h m m', reading = Ok (h, m) ∧ size (kq_calls m) = 2%nat ∧
  kq_process_events id (λ m _, m) close_it (mret tt) 1 false m = Ok (false, m') ∧ entries m' = ∅.
Proof. do 3 eexists. split; [vm_compute; reflexivity|]. split; [vm_compute; reflexivity|]. split; [vm_compute; reflexivity|reflexivity]. Qed.

(** The system refuses to forget what it was not asked for, so that an engine
    that resets an event twice stops the program; the other pollers allow
    it. *)
Lemma reset_twice_aborts : ('(h, m) ← reading; (kq_reset_pollin h ;; kq_reset_pollin h) m) = Crash AssertFailed.
Proof. vm_compute. reflexivity. Qed.
