(* ===== verification/DevPoll.v ===== *)
(** Waiting with [/dev/poll] ([src/libzmq/devpoll_thread.cpp]): a table that is
    indexed by descriptors; one that is added is not reported before the
    next round. *)
From S2P Require Import Prelude Config Command TcpSocket BpTcpEngine Poller.
Local Open Scope Z_scope.

Definition POLLIN : Z := 1.
Definition POLLOUT : Z := 4.
Definition POLLERR : Z := 8.
Definition POLLHUP : Z := 16.
Definition POLLREMOVE : Z := 2048.

(** The system calls: [write] of one [pollfd] to the device, and [ioctl] with
    [DP_POLL], which gives descriptors with [revents]. *)
Class DevPollCalls (K : Type) := {
  sys_getrlimit : ST K (option nat);
  sys_open_devpoll : ST K fd_t;
  sys_close_devpoll : fd_t → ST K bool;
  sys_devpoll_write : fd_t → fd_t → Z → ST K bool;
  sys_devpoll_poll : fd_t → nat → Z → ST K (list (fd_t * Z) + errno);
  OPEN_MAX : Z
}.

Record fd_entry_t := FdEntry { events : Z; engine : option engine_id; in_use : bool; adopted : bool }.
#[export] Instance eta_fd_entry : Eta fd_entry_t := λ e, FdEntry (events e) (engine e) (in_use e) (adopted e).

Section devpoll.
Context {K : Type} `{!DevPollCalls K}.

Record devpoll_t := DevPoll {
  devpoll_fd : fd_t;
  fd_table : list fd_entry_t;
  pending_list : list fd_t;
  dp_calls : K
}.
#[local] Instance eta_devpoll : Eta devpoll_t := λ m, DevPoll (devpoll_fd m) (fd_table m) (pending_list m) (dp_calls m).

Definition on_calls {A} : ST K A → ST devpoll_t A := st_lift dp_calls (λ k m, m <| dp_calls := k |>).

Definition devpoll_new (k : K) : res devpoll_t :=
  '(rl, k) ← sys_getrlimit k;
  match rl with
  | None => Crash AssertFailed
  | Some n =>
      '(f, k) ← sys_open_devpoll k;
      if f =? -1 then Crash AssertFailed else Ok (DevPoll f (replicate n (FdEntry 0 None false false)) [] k)
  end.

Definition devpoll_delete : ST devpoll_t unit := m ← st_get; on_calls (sys_close_devpoll (devpoll_fd m)) ;; mret tt.

Definition devpoll_ctl (fd_ : fd_t) (events_ : Z) : ST devpoll_t unit :=
  m ← st_get; rc ← on_calls (sys_devpoll_write (devpoll_fd m) fd_ events_); st_assert rc.

(** [fd_table [fd_]]. *)
Definition table_index (fd_ : fd_t) : option nat := if 0 <=? fd_ then Some (Z.to_nat fd_) else None.
Definition entry_of (m : devpoll_t) (fd_ : fd_t) : option fd_entry_t := i ← table_index fd_; fd_table m !! i.
Definition get_entry (fd_ : fd_t) : ST devpoll_t fd_entry_t := m ← st_get; st_of_option BadAccess (entry_of m fd_).
Definition set_entry (fd_ : fd_t) (f : fd_entry_t → fd_entry_t) : ST devpoll_t unit :=
  e ← get_entry fd_;
  st_modify (λ m, m <| fd_table := <[Z.to_nat fd_ := f e]> (fd_table m) |>).

Definition dp_add_fd (fd_ : fd_t) (engine_ : option engine_id) : ST devpoll_t handle_t :=
  e ← get_entry fd_;
  st_assert (negb (in_use e)) ;;
  set_entry fd_ (λ _, FdEntry 0 engine_ true false) ;;
  st_modify (λ m, m <| pending_list := pending_list m ++ [fd_] |>) ;;
  devpoll_ctl fd_ 0 ;;
  mret fd_.

Definition dp_rm_fd (handle_ : handle_t) : ST devpoll_t unit :=
  e ← get_entry handle_;
  st_assert (in_use e) ;;
  devpoll_ctl handle_ POLLREMOVE ;;
  set_entry handle_ (λ e, e <| in_use := false |>).

(** The system adds up the events of a descriptor, so it is removed first. *)
Definition change_events (handle_ : handle_t) (f : Z → Z) : ST devpoll_t unit :=
  devpoll_ctl handle_ POLLREMOVE ;;
  set_entry handle_ (λ e, e <| events := f (events e) |>) ;;
  e ← get_entry handle_;
  devpoll_ctl handle_ (events e).

Definition dp_set_pollin (handle_ : handle_t) : ST devpoll_t unit := change_events handle_ (λ ev, Z.lor ev POLLIN).
Definition dp_reset_pollin (handle_ : handle_t) : ST devpoll_t unit := change_events handle_ (λ ev, Z.ldiff ev POLLIN).
Definition dp_set_pollout (handle_ : handle_t) : ST devpoll_t unit := change_events handle_ (λ ev, Z.lor ev POLLOUT).
Definition dp_reset_pollout (handle_ : handle_t) : ST devpoll_t unit := change_events handle_ (λ ev, Z.ldiff ev POLLOUT).

#[export] Instance devpoll_monitor : EventMonitor devpoll_t := {
  em_add_fd := dp_add_fd;
  em_rm_fd := dp_rm_fd;
  em_set_pollin := dp_set_pollin;
  em_reset_pollin := dp_reset_pollin;
  em_set_pollout := dp_set_pollout;
  em_reset_pollout := dp_reset_pollout
}.

(** ** process_events *)

(** Descriptors that were added since the last round. *)
Definition adopt_pending : ST devpoll_t unit :=
  m ← st_get;
  st_for (pending_list m) (λ f, set_entry f (λ e, e <| adopted := true |>)) ;;
  st_modify (λ m, m <| pending_list := [] |>).

Definition dp_nfds : Z := if OPEN_MAX <=? max_io_events then OPEN_MAX - 1 else max_io_events.

Section process_events.
Context {W : Type} (mon : W → devpoll_t) (set_mon : devpoll_t → W → W).
Context (process_event : handle_t → option engine_id → event_t → ST W bool) (timer_event : ST W unit).

Definition on_devpoll {A} : ST devpoll_t A → ST W A := st_lift mon set_mon.

(** [while (true) { n = ioctl (...); ... }], interrupted [n] times at most. *)
Fixpoint dp_wait (n : nat) (timeout : Z) : ST W (list (fd_t * Z)) :=
  match n with
  | O => st_crash OutOfFuel
  | S n =>
      w ← st_get;
      r ← on_devpoll (on_calls (sys_devpoll_poll (devpoll_fd (mon w)) (Z.to_nat dp_nfds) timeout));
      match r with
      | inl ev_buf => mret ev_buf
      | inr EINTR => dp_wait n timeout
      | inr _ => st_crash AssertFailed
      end
  end.

(** [engine] was read before the first event was passed. *)
Definition dp_report (fd : fd_t) (engine : option engine_id) (revents mask : Z) (event : event_t) : ST W bool :=
  e ← on_devpoll (get_entry fd);
  if negb (in_use e) || negb (adopted e) then mret false
  else if Z.land revents mask =? 0 then mret false
  else process_event fd engine event.

Definition dp_report_all (fd : fd_t) (revents : Z) : ST W bool :=
  e ← on_devpoll (get_entry fd);
  let engine := engine e in
  stop ← dp_report fd engine revents (Z.lor POLLERR POLLHUP) event_err;
  if (stop : bool) then mret true
  else
    stop ← dp_report fd engine revents POLLOUT event_out;
    if (stop : bool) then mret true else dp_report fd engine revents POLLIN event_in.

Fixpoint dp_report_loop (ev_buf : list (fd_t * Z)) : ST W bool :=
  match ev_buf with
  | [] => mret false
  | (fd, revents) :: ev_buf =>
      stop ← dp_report_all fd revents;
      (if (stop : bool) then mret true else dp_report_loop ev_buf : ST W bool)
  end.

Definition dp_process_events (interrupts : nat) (timers_ : bool) : ST W bool :=
  on_devpoll adopt_pending ;;
  ev_buf ← dp_wait interrupts (if timers_ then max_timer_period else -1);
  if bool_decide (ev_buf = []) then timer_event ;; mret false
  else dp_report_loop ev_buf.
End process_events.
End devpoll.

Arguments devpoll_t : clear implicits.
#[export] Existing Instance eta_devpoll.
