(* ===== verification/DevPollRounds.v ===== *)
(** A round of [devpoll_t] passes events only to the engines of descriptors
    that were registered before the round and have been since. *)
From S2P Require Import Prelude Config Command TcpSocket BpTcpEngine Poller DevPoll.
Local Open Scope Z_scope.

(** What the system promises: it watches the descriptors that were written to
    the device and not removed, and reports events of those.  [signals]
    interruptions are to come. *)
Class DevPollLaws (K : Type) `{DevPollCalls K} := {
  watched : K → gset fd_t;
  signals : K → nat;
  devpoll_write_law d f ev k k' : runs (sys_devpoll_write d f ev) k true k' →
    signals k' = signals k ∧ watched k' = if ev =? POLLREMOVE then watched k ∖ {[f]} else {[f]} ∪ watched k;
  devpoll_poll_law d n t k : wp (sys_devpoll_poll d n t) no_fault (λ r k', watched k' = watched k ∧
    match r with
    | inl evs => signals k' = signals k ∧ Forall (λ ev, ev.1 ∈ watched k) evs
    | inr e => e = EINTR ∧ (signals k' < signals k)%nat
    end) k
}.

Section rounds.
Context {K : Type} `{DevPollLaws K}.
Implicit Types (m : devpoll_t K).

(** The system and the table agree, and who waits to be adopted is on the
    list. *)
Record dp_ok m : Prop := {
  ok_watched f : f ∈ watched (dp_calls m) ↔ ∃ e, entry_of m f = Some e ∧ in_use e = true;
  ok_pending f e : entry_of m f = Some e → in_use e = true → adopted e = false → f ∈ pending_list m;
  ok_range f : f ∈ pending_list m → is_Some (entry_of m f);
  ok_events f e : entry_of m f = Some e → Z.testbit (events e) 11 = false
}.

(** [f] is registered for [e]; and was when the round began. *)
Definition registered m (f : fd_t) (e : option engine_id) : Prop :=
  ∃ x, entry_of m f = Some x ∧ in_use x = true ∧ engine x = e.
Definition settled m (f : fd_t) (e : option engine_id) : Prop :=
  ∃ x, entry_of m f = Some x ∧ in_use x = true ∧ adopted x = true ∧ engine x = e.

(** What may become of the table within a round: nothing is added that could
    be reported. *)
Record changes m m' : Prop := {
  ch_size : length (fd_table m') = length (fd_table m);
  ch_settled f e : settled m' f e → settled m f e
}.
#[export] Instance changes_preorder : PreOrder changes.
Proof. split; [by split|]. intros m1 m2 m3 [] []. split; [congruence|auto]. Qed.

Lemma changes_range m m' f : changes m m' → is_Some (entry_of m f) → is_Some (entry_of m' f).
Proof.
  intros [Hs _]. unfold entry_of. destruct (table_index f) as [i|]; [|done]. simpl.
  rewrite !lookup_lt_is_Some. by rewrite Hs.
Qed.

(** ** Single steps *)

Lemma entry_of_set m f x f' : is_Some (entry_of m f) →
  entry_of (m <| fd_table := <[Z.to_nat f := x]> (fd_table m) |>) f' = if decide (f' = f) then Some x else entry_of m f'.
Proof.
  unfold entry_of, table_index. intros Hs. destruct (Z.leb_spec 0 f); [|by destruct Hs]. simpl in *.
  destruct (decide (f' = f)) as [->|Hne].
  - destruct (Z.leb_spec 0 f); [|lia]. apply list_lookup_insert_eq. by apply lookup_lt_is_Some.
  - destruct (Z.leb_spec 0 f'); [|done]. apply list_lookup_insert_ne. lia.
Qed.

Lemma runs_set_entry f g m u m' : runs (set_entry f g) m u m' →
  ∃ x, entry_of m f = Some x ∧ m' = m <| fd_table := <[Z.to_nat f := g x]> (fd_table m) |>.
Proof. unfold set_entry, get_entry. intros Hr. call_inv. by eexists. Qed.

Lemma runs_devpoll_ctl f ev m u m' : runs (devpoll_ctl f ev) m u m' →
  ∃ k, m' = m <| dp_calls := k |> ∧ signals k = signals (dp_calls m) ∧
    watched k = if ev =? POLLREMOVE then watched (dp_calls m) ∖ {[f]} else {[f]} ∪ watched (dp_calls m).
Proof.
  unfold devpoll_ctl, on_calls. intros Hr. st_inv.
  match goal with H1 : runs (st_lift _ _ _) _ ?b _, E : ?b = true |- _ => subst b; unfold runs, st_lift in H1;
    destruct (sys_devpoll_write _ _ _ _) as [[b k]|] eqn:Ek; [|done]; injection H1 as -> <- end.
  exists k. split; [done|]. by eapply devpoll_write_law.
Qed.

(** ** The operations *)

Lemma dp_new_ok k m : devpoll_new k = Ok m → watched (dp_calls m) = ∅ → dp_ok m.
Proof.
  unfold devpoll_new, mbind, res_bind. destruct (sys_getrlimit k) as [[[n|] k1]|]; [|done..].
  destruct (sys_open_devpoll k1) as [[d k2]|]; [|done]. destruct (d =? -1); [done|]. intros [= <-] Hw. simpl in Hw.
  constructor; simpl; [|intros f e|by intros f ?%elem_of_nil|intros f e].
  - intros f. rewrite Hw. split; [set_solver|]. intros (e & He & Hu). unfold entry_of in He.
    destruct (table_index f); [|done]. apply lookup_replicate in He as [-> _]. done.
  - intros He. unfold entry_of in He. destruct (table_index f); [|done]. by apply lookup_replicate in He as [-> _].
  - intros He. unfold entry_of in He. destruct (table_index f); [|done]. by apply lookup_replicate in He as [-> _].
Qed.

(** The entry of one descriptor becomes [x]. *)
Record updates m m' (f : fd_t) (x : fd_entry_t) : Prop := {
  up_known : is_Some (entry_of m f);
  up_size : length (fd_table m') = length (fd_table m);
  up_entry f' : entry_of m' f' = if decide (f' = f) then Some x else entry_of m f';
  up_watched : watched (dp_calls m') = if in_use x then {[f]} ∪ watched (dp_calls m) else watched (dp_calls m) ∖ {[f]};
  up_pending f' : f' ∈ pending_list m' ↔ f' ∈ pending_list m ∨ (f' = f ∧ f ∈ pending_list m')
}.

Lemma updates_ok m m' f x : dp_ok m → updates m m' f x → (in_use x = true → adopted x = false → f ∈ pending_list m') →
  Z.testbit (events x) 11 = false → dp_ok m'.
Proof.
  intros [H1 H2 H3 H4] [Hk _ He Hw Hp] Hx Hev. constructor.
  - intros f'. rewrite He, Hw. destruct (decide (f' = f)) as [->|Hne].
    + destruct (in_use x) eqn:E; [|set_solver by congruence]. split; [by exists x|set_solver].
    + rewrite <- H1. destruct (in_use x); set_solver.
  - intros f' e. rewrite He. destruct (decide (f' = f)) as [->|Hne]; [intros [= <-]; auto|].
    intros. rewrite Hp. left. by eapply H2.
  - intros f' Hf'. rewrite He. destruct (decide _); [done|]. apply H3. apply Hp in Hf'. naive_solver.
  - intros f' e. rewrite He. destruct (decide _); [by intros [= <-]|apply H4].
Qed.

Lemma updates_changes m m' f x : updates m m' f x → (in_use x = true → adopted x = true → settled m f (engine x)) → changes m m'.
Proof.
  intros [Hk Hs He _ _] Hx. split; [done|]. intros f' e (y & Hy & Hu & Ha & Hen). rewrite He in Hy.
  destruct (decide (f' = f)) as [->|Hne]; [|by exists y]. simplify_eq. auto.
Qed.

Lemma updates_registered m m' f x f' e : updates m m' f x → f' ≠ f → registered m' f' e ↔ registered m f' e.
Proof. intros [_ _ He _ _] Hne. unfold registered. by rewrite He, decide_False. Qed.

Ltac dp_inv := call_inv;
  repeat match goal with
  | H : runs (set_entry _ _) _ _ _ |- _ => apply runs_set_entry in H as (? & ? & ->)
  | H : runs (devpoll_ctl _ _) _ _ _ |- _ => let k := fresh "k" in let Hs := fresh "Hs" in let Hw := fresh "Hw" in
      apply runs_devpoll_ctl in H as (k & -> & Hs & Hw)
  end;
  match goal with |- context [changes ?m0 _] => let m := fresh "m" in rename m0 into m end.

Lemma dp_add_fd_ok m f e h m' : dp_ok m → runs (dp_add_fd f e) m h m' →
  h = f ∧ dp_ok m' ∧ changes m m' ∧ registered m' f e ∧ ∀ f' e', f' ≠ f → registered m' f' e' ↔ registered m f' e'.
Proof.
  intros Hok Hr. unfold dp_add_fd, get_entry in Hr. dp_inv. change (0 =? POLLREMOVE) with false in Hw.
  match goal with Hx : entry_of m h = Some ?y |- _ => rename y into x, Hx into Hx0 end.
  match goal with |- context [dp_ok ?m1] => set (m' := m1); assert (updates m m' h (FdEntry 0 e true false)) as Hup end.
  { split; [by eexists|simpl; apply length_insert|intros f'; by apply (entry_of_set m h)|exact Hw|]. intros f'. simpl. set_solver. }
  split; [done|]. split_and!.
  - apply (updates_ok m m' h _ Hok Hup); [|done]. intros _ _. simpl. set_solver.
  - by apply (updates_changes m m' h _ Hup).
  - eexists. split; [by rewrite (up_entry _ _ _ _ Hup), decide_True|done].
  - intros f' e'. by apply updates_registered with (1 := Hup).
Qed.

Lemma dp_rm_fd_ok m f u m' : dp_ok m → runs (dp_rm_fd f) m u m' →
  dp_ok m' ∧ changes m m' ∧ (∃ e, registered m f e) ∧ ∀ f' e', registered m' f' e' ↔ registered m f' e' ∧ f' ≠ f.
Proof.
  intros Hok Hr. unfold dp_rm_fd, get_entry in Hr. dp_inv. change (POLLREMOVE =? POLLREMOVE) with true in Hw.
  match goal with Hx : entry_of m f = Some ?y, Hu : in_use ?y = true |- _ => rename y into x, Hx into Hx0, Hu into Hu0 end.
  match goal with |- context [dp_ok ?m1] => set (m' := m1) end.
  match type of m' with _ => assert (updates m m' f (x <| in_use := false |>)) as Hup end.
  { split; [by eexists|simpl; apply length_insert| |exact Hw|intros f'; simpl; naive_solver].
    intros f'. match goal with H : entry_of _ f = Some ?z |- _ => assert (z = x) as <- by (unfold entry_of in *; simpl in *; congruence) end.
    by apply (entry_of_set m f). }
  split_and!.
  - apply (updates_ok m m' f _ Hok Hup); [done|]. exact (ok_events m Hok f x Hx0).
  - by apply (updates_changes m m' f _ Hup).
  - by exists (engine x), x.
  - intros f' e'. destruct (decide (f' = f)) as [->|Hne].
    + split; [|naive_solver]. intros (y & Hy & Hu & _). rewrite (up_entry _ _ _ _ Hup), decide_True in Hy by done. by simplify_eq/=.
    + rewrite (updates_registered m m' f) by done. naive_solver.
Qed.

Lemma dp_change_events_ok m f g u m' e : dp_ok m → registered m f e →
  (∀ ev, Z.testbit ev 11 = false → Z.testbit (g ev) 11 = false) → runs (change_events f g) m u m' →
  dp_ok m' ∧ changes m m' ∧ ∀ f' e', registered m' f' e' ↔ registered m f' e'.
Proof.
  intros Hok (x & Hx & Hu & He) Hg Hr. unfold change_events, get_entry in Hr. dp_inv.
  match goal with |- context [changes ?m _] => set (m1 := m) in * end.
  match goal with H : entry_of (m1 <| dp_calls := _ |>) f = Some ?z |- _ =>
    change (entry_of m1 f = Some z) in H; rewrite Hx in H; injection H as <- end.
  set (y := x <| events := g (events x) |>) in *.
  match goal with H : entry_of _ f = Some ?z, Hw : watched k = (if events ?z =? _ then _ else _) |- _ =>
    assert (z = y) as -> by (change (entry_of (m1 <| fd_table := <[Z.to_nat f := y]> (fd_table m1) |>) f = Some z) in H;
      rewrite entry_of_set, decide_True in H by (done || by eexists); congruence) end.
  assert (Z.testbit (events y) 11 = false) as Hev by (apply Hg; exact (ok_events m1 Hok f x Hx)).
  destruct (Z.eqb_spec (events y) POLLREMOVE) as [E|_]; [by rewrite E in Hev|].
  match goal with |- dp_ok ?m2 ∧ _ => assert (updates m1 m2 f y) as Hup end.
  { split; [by eexists|simpl; apply length_insert|intros f'; by apply (entry_of_set m1 f)| |naive_solver].
    simpl. rewrite Hu. apply set_eq. intros f'. rewrite Hw. simpl. rewrite Hw0. change (POLLREMOVE =? POLLREMOVE) with true. cbv iota.
    rewrite !elem_of_union, elem_of_difference. destruct (decide (f' ∈ ({[f]} : gset fd_t))); tauto. }
  split_and!.
  - apply (updates_ok m1 _ f y Hok Hup); [|done]. intros _ Ha. by apply (ok_pending m1 Hok f x).
  - apply (updates_changes m1 _ f y Hup). intros _ Ha. by exists x.
  - intros f' e'. destruct (decide (f' = f)) as [->|Hne]; [|by apply (updates_registered m1 _ f y)].
    unfold registered. rewrite (up_entry _ _ _ _ Hup), decide_True, Hx by done. naive_solver.
Qed.

(** ** The beginning of a round *)

(** Entries were adopted, and nothing else. *)
Record adopts (l : list fd_t) m m' : Prop := {
  ad_size : length (fd_table m') = length (fd_table m);
  ad_calls : dp_calls m' = dp_calls m;
  ad_entry f e : entry_of m f = Some e → entry_of m' f = Some (if decide (f ∈ l) then e <| adopted := true |> else e)
}.

Lemma adopt_loop l : ∀ m, (∀ f, f ∈ l → is_Some (entry_of m f)) →
  ∃ m', runs (st_for l (λ f, set_entry f (λ e, e <| adopted := true |>))) m tt m' ∧ adopts l m m'.
Proof.
  induction l as [|f l IH]; intros m Hl.
  { exists m. split; [done|]. split; [done|done|]. intros f e He. rewrite He. by rewrite decide_False by apply not_elem_of_nil. }
  destruct (Hl f) as [x Hx]; [by left|].
  set (m1 := m <| fd_table := <[Z.to_nat f := x <| adopted := true |>]> (fd_table m) |>).
  assert (∀ f', entry_of m1 f' = if decide (f' = f) then Some (x <| adopted := true |>) else entry_of m f') as He
    by (intros f'; apply entry_of_set; by eexists).
  destruct (IH m1) as (m' & Hr & [Hs Hc Hf]).
  { intros f' Hf'. rewrite He. destruct (decide _); [done|]. apply Hl. by right. }
  exists m'. split.
  - eapply runs_bind; [|exact Hr]. unfold runs, set_entry, get_entry, mbind, st_bind, st_get, st_of_option. by rewrite Hx.
  - split; [rewrite Hs; simpl; apply length_insert|done|]. intros f' e He'. specialize (He f').
    destruct (decide (f' = f)) as [->|Hne].
    + rewrite (Hf _ _ He), (decide_True (P := f ∈ f :: l)) by by left. assert (e = x) as -> by congruence. by destruct (decide _).
    + rewrite He' in He. rewrite (Hf _ _ He). destruct (decide (f' ∈ l)); [by rewrite decide_True by by right|].
      rewrite decide_False; [done|]. by intros [->|?]%elem_of_cons.
Qed.

Lemma adopts_back l m m' f e' : adopts l m m' → entry_of m' f = Some e' → ∃ e, entry_of m f = Some e ∧
  e' = if decide (f ∈ l) then e <| adopted := true |> else e.
Proof.
  intros [Hs _ Hf] He'. destruct (entry_of m f) as [e|] eqn:He; [exists e; split; [done|]; rewrite (Hf _ _ He) in He'; congruence|].
  exfalso. unfold entry_of in *. destruct (table_index f) as [i|]; [|done]. simpl in *. apply lookup_lt_Some in He'. apply lookup_ge_None in He. lia.
Qed.

(** All descriptors that are registered can be reported from now on. *)
Lemma adopt_pending_ok m : dp_ok m → ∃ m', runs adopt_pending m tt m' ∧ dp_ok m' ∧ dp_calls m' = dp_calls m ∧
  ∀ f e, settled m' f e ↔ registered m f e.
Proof.
  intros [H1 H2 H3 H4]. destruct (adopt_loop (pending_list m) m H3) as (m1 & Hr & Ha). pose proof Ha as [Hs Hc Hf].
  exists (m1 <| pending_list := [] |>). split; [by eapply runs_bind; [done|]; eapply runs_bind|].
  assert (∀ f e, entry_of (m1 <| pending_list := [] |>) f = Some e ↔ entry_of m1 f = Some e) as He by done.
  assert (∀ f e, settled (m1 <| pending_list := [] |>) f e ↔ registered m f e) as Hset.
  { intros f e. split.
    - intros (y & Hy & Hu & _ & <-). destruct (adopts_back _ _ _ _ _ Ha Hy) as (x & Hx & ->).
      exists x. destruct (decide _); done.
    - intros (x & Hx & Hu & <-). pose proof (Hf _ _ Hx) as Hy. destruct (decide _) as [Hp|Hp]; [by eexists|].
      exists x. split_and!; [done..| |done]. destruct (adopted x) eqn:E; [done|]. destruct Hp. by eapply H2. }
  split; [|by simpl].
  constructor; simpl.
  - intros f. rewrite Hc, H1. split.
    + intros (e & Hx & Hu). destruct (proj2 (Hset f (engine e))) as (y & Hy & Hu' & _); [by exists e|]. by exists y.
    + intros (y & Hy & Hu). destruct (adopts_back _ _ _ _ _ Ha Hy) as (x & Hx & ->). exists x. by destruct (decide _).
  - intros f y Hy Hu Ha'. destruct (adopts_back _ _ _ _ _ Ha Hy) as (x & Hx & ->). destruct (decide _) as [Hp|Hp]; [done|].
    destruct Hp. by eapply H2.
  - by intros f ?%elem_of_nil.
  - intros f y Hy. destruct (adopts_back _ _ _ _ _ Ha Hy) as (x & Hx & ->). destruct (decide _); by eapply H4 in Hx.
Qed.

(** ** A round *)

Definition mask_of (event : event_t) : Z :=
  match event with event_err => Z.lor POLLERR POLLHUP | event_out => POLLOUT | event_in => POLLIN end.

Section round.
(** [I] is an invariant of the thread's world, in which the round begins at
    [w0]. *)
Context {W : Type} (mon : W → devpoll_t K) (set_mon : devpoll_t K → W → W).
Context (process_event : handle_t → option engine_id → event_t → ST W bool) (timer_event : ST W unit).
Context (F : fault → Prop) (I : W → Prop) (w0 : W).
Hypothesis mon_set : ∀ m w, mon (set_mon m w) = m.
Hypothesis I_ok : ∀ w, I w → dp_ok (mon w).
Hypothesis I_set : ∀ w m, I w → dp_ok m → I (set_mon m w).
(** An event may be passed to the engine of a descriptor that is registered
    and was when the round began. *)
Hypothesis process_event_law : ∀ h e event w, I w → registered (mon w) h e → registered (mon w0) h e →
  wp (process_event h e event) F (λ _ w', I w' ∧ changes (mon w) (mon w')) w.
Hypothesis timer_event_law : ∀ w, I w → wp timer_event F (λ _ w', I w') w.

Definition to_come (w : W) : nat := signals (dp_calls (mon w)).

(** Within the round: what could be reported was registered at its beginning,
    and descriptors that are reported are in the table. *)
Definition within (w : W) : Prop := I w ∧ ∀ f e, settled (mon w) f e → registered (mon w0) f e.
Definition known (ev_buf : list (fd_t * Z)) (w : W) : Prop := Forall (λ ev, is_Some (entry_of (mon w) ev.1)) ev_buf.

Lemma within_changes w w' : within w → I w' → changes (mon w) (mon w') → within w'.
Proof. intros [_ Hs] HI Hch. split; [done|]. intros f e He. by apply Hs, (ch_settled _ _ Hch). Qed.

Lemma known_changes evs w w' : known evs w → changes (mon w) (mon w') → known evs w'.
Proof. intros Hk Hch. eapply Forall_impl; [exact Hk|]. intros ev. by apply changes_range. Qed.

Lemma dp_ok_calls m k : dp_ok m → watched k = watched (dp_calls m) → dp_ok (m <| dp_calls := k |>).
Proof. intros [H1 H2 H3 H4] Hw. constructor; simpl; rewrite ?Hw; done. Qed.

Lemma dp_wait_ok n timeout w : within w → (to_come w < n)%nat →
  wp (dp_wait mon set_mon n timeout) F (λ ev_buf w', within w' ∧ known ev_buf w') w.
Proof.
  revert w. induction n as [|n IH]; intros w [HI Hin] Hn; [lia|]. simpl. wp_steps. unfold on_devpoll, on_calls.
  apply wp_lift, wp_lift. eapply wp_mono; [eapply wp_fault; [|apply devpoll_poll_law]; done|].
  intros r k (Hw & Hr). set (m := mon w <| dp_calls := k |>).
  assert (within (set_mon m w)) as HI'.
  { split; [apply I_set; [done|by apply dp_ok_calls, Hw; apply I_ok]|]. rewrite mon_set. exact Hin. }
  destruct r as [evs|e].
  - apply wp_ret. split; [done|]. destruct Hr as [_ Hr]. unfold known. rewrite mon_set. eapply Forall_impl; [exact Hr|].
    intros [f ev] Hf. apply (ok_watched _ (I_ok w HI)) in Hf as (x & Hx & _). by exists x.
  - destruct Hr as [-> Hs]. apply IH; [done|]. unfold to_come in *. rewrite mon_set. simpl. lia.
Qed.

(** The state when the entry of [f] was read. *)
Lemma dp_report_ok evs f x revents event w1 w : within w → known evs w → entry_of (mon w1) f = Some x → changes (mon w1) (mon w) →
  wp (dp_report mon set_mon process_event f (engine x) revents (mask_of event) event) F
    (λ _ w', within w' ∧ known evs w' ∧ changes (mon w1) (mon w')) w.
Proof.
  intros [HI Hin] Hk Hx Hch. unfold dp_report. wp_steps. apply wp_lift. unfold get_entry. wp_steps.
  destruct (changes_range _ _ f Hch) as [y Hy]; [by exists x|]. eapply wp_of_option; [done|].
  set (w2 := set_mon (mon w) w). assert (mon w2 = mon w) as Hw2 by apply mon_set.
  assert (within w2) as HI2 by (split; [by apply I_set; [|apply I_ok]|by rewrite Hw2]).
  assert (known evs w2) as Hk2 by (unfold known; by rewrite Hw2).
  destruct (in_use y) eqn:Hu; [|apply wp_ret; rewrite Hw2; by split_and!]. destruct (adopted y) eqn:Ha; [|apply wp_ret; rewrite Hw2; by split_and!].
  simpl. destruct (Z.land revents (mask_of event) =? 0); [apply wp_ret; rewrite Hw2; by split_and!|].
  assert (settled (mon w) f (engine y)) as Hset by by exists y.
  destruct (ch_settled _ _ Hch _ _ Hset) as (x' & Hx' & _ & _ & E). assert (x' = x) as -> by congruence. rewrite E.
  eapply wp_mono; [apply process_event_law; [apply HI2|rewrite Hw2; by exists y|by apply Hin]|].
  intros stop w3 [HI3 Hch3]. split; [by eapply within_changes|]. split; [by eapply known_changes|]. rewrite Hw2 in Hch3. by etrans.
Qed.

Lemma dp_report_all_ok evs f revents w : within w → known evs w → is_Some (entry_of (mon w) f) →
  wp (dp_report_all mon set_mon process_event f revents) F (λ _ w', within w' ∧ known evs w') w.
Proof.
  intros HI Hk [x Hx]. unfold dp_report_all. wp_steps. apply wp_lift. unfold get_entry. wp_steps. eapply wp_of_option; [done|].
  assert (within (set_mon (mon w) w)) as HI1 by (split; [apply I_set; [apply HI|by apply I_ok, HI]|rewrite mon_set; apply HI]).
  wp_steps. eapply wp_mono; [apply (dp_report_ok evs f x revents event_err (set_mon (mon w) w)); [done|unfold known; by rewrite mon_set|by rewrite mon_set|done]|].
  intros [] w1 (H1 & K1 & C1); [by apply wp_ret|]. wp_steps.
  eapply wp_mono; [apply (dp_report_ok evs f x revents event_out (set_mon (mon w) w)); [done|done|by rewrite mon_set|done]|].
  intros [] w2 (H2 & K2 & C2); [by apply wp_ret|].
  eapply wp_mono; [apply (dp_report_ok evs f x revents event_in (set_mon (mon w) w)); [done|done|by rewrite mon_set|done]|]. by intros ? w3 (? & ? & _).
Qed.

Lemma dp_report_loop_ok evs : ∀ w, within w → known evs w →
  wp (dp_report_loop mon set_mon process_event evs) F (λ _ w', I w') w.
Proof.
  induction evs as [|[f revents] evs IH]; intros w HI Hk; [by apply wp_ret, HI|]. apply Forall_cons in Hk as [Hp Hk]. simpl. wp_steps.
  eapply wp_mono; [by apply dp_report_all_ok|]. intros [] w' [HI' Hk']; [by apply wp_ret, HI'|]. by apply IH.
Qed.

(** A round of [devpoll_t] passes events only to engines of descriptors that
    are registered at that moment, for the engine they were registered with
    when the round began: not for a descriptor that is closed and opened
    again meanwhile.  It does not leave the table, and table and system
    agree at its end. *)
Theorem devpoll_round interrupts timers_ : I w0 → (to_come w0 < interrupts)%nat →
  wp (dp_process_events mon set_mon process_event timer_event interrupts timers_) F (λ _ w', I w' ∧ dp_ok (mon w')) w0.
Proof.
  intros HI Hs. cut (wp (dp_process_events mon set_mon process_event timer_event interrupts timers_) F (λ _ w', I w') w0).
  { intros Hw. eapply wp_mono; [exact Hw|]. intros ? w' HI'. split; [done|]. by apply I_ok. }
  unfold dp_process_events. wp_steps. apply wp_lift. destruct (adopt_pending_ok (mon w0) (I_ok w0 HI)) as (m & Hr & Hok & Hc & Hset).
  eapply runs_wp; [exact Hr|]. assert (within (set_mon m w0)) as HI1.
  { split; [by apply I_set|]. rewrite mon_set. intros f e. apply Hset. }
  wp_steps. eapply wp_mono; [apply dp_wait_ok; [done|]; unfold to_come in *; by rewrite mon_set, Hc|]. intros evs w1 [HI2 Hk1].
  case_bool_decide; [wp_steps; eapply wp_mono; [apply timer_event_law, HI2|]; done|].
  by apply dp_report_loop_ok.
Qed.
End round.
End rounds.

(** ** A round over a small system *)

(** The system watches descriptors, and reports every kind of event of all. *)
Definition dsys : Type := gset fd_t.

#[export] Instance dsys_calls : DevPollCalls dsys := {
  sys_getrlimit := mret (Some 8%nat);
  sys_open_devpoll := mret 3;
  sys_close_devpoll _ := mret true;
  sys_devpoll_write _ f ev := λ k, Ok (true, if ev =? POLLREMOVE then k ∖ {[f]} else {[f]} ∪ k);
  sys_devpoll_poll _ n _ := λ k, Ok (inl (take n ((λ f, (f, POLLERR + POLLOUT + POLLIN)) <$> elements k)), k);
  OPEN_MAX := 256
}.

#[export, refine] Instance dsys_laws : DevPollLaws dsys := { watched := id; signals _ := 0%nat }.
Proof.
  - intros d f ev k k' Hr. unfold runs in Hr. simpl in Hr. by injection Hr as <-.
  - intros d n t k. split; [done|]. split; [done|]. apply Forall_take, Forall_fmap, Forall_forall. intros f. simpl. set_solver.
Defined.

(** An engine that closes its connection at the first event and opens a new
    one, which the system gives the same descriptor. *)
Definition reopen (h : handle_t) (e : option engine_id) (event : event_t) : ST (devpoll_t dsys) bool :=
  dp_rm_fd h ;; dp_add_fd h (Some 9%positive) ;; mret false.

Definition two_fds : devpoll_t dsys :=
  match (m ← devpoll_new (∅ : dsys); (dp_add_fd 5 (Some 1%positive) ;; dp_add_fd 7 (Some 2%positive)) m) with
  | Ok (_, m) => m
  | Crash _ => DevPoll 3 [] [] ∅
  end.

Lemma two_fds_ok : dp_ok two_fds.
Proof.
  destruct (devpoll_new (∅ : dsys)) as [m0|] eqn:E0; [|by vm_compute in E0].
  assert (runs (dp_add_fd 5 (Some 1%positive) ;; dp_add_fd 7 (Some 2%positive)) m0 7 two_fds) as (h & m & H1 & H2)%runs_bind_inv.
  { unfold runs, two_fds. rewrite E0. vm_compute in E0. injection E0 as <-. vm_compute. reflexivity. }
  assert (dp_ok m0) as H0 by (apply (dp_new_ok _ _ E0); vm_compute in E0; by injection E0 as <-).
  apply dp_add_fd_ok in H1 as (_ & H1 & _); [|exact H0]. by apply dp_add_fd_ok in H2 as (_ & H2 & _).
Qed.

Lemma wp_get_entry (m : devpoll_t dsys) f x Q : entry_of m f = Some x → Q x m → wp (get_entry f) no_fault Q m.
Proof. intros Hx HQ. unfold get_entry. wp_steps. by eapply wp_of_option. Qed.
Lemma wp_set_entry (m : devpoll_t dsys) f g x Q : entry_of m f = Some x → Q tt (m <| fd_table := <[Z.to_nat f := g x]> (fd_table m) |>) →
  wp (set_entry f g) no_fault Q m.
Proof. intros Hx HQ. unfold set_entry. wp_steps. by eapply wp_get_entry. Qed.

Lemma dp_reopen_ok m h e e' event : dp_ok m → registered m h e →
  wp (reopen h e' event) no_fault (λ _ m', dp_ok m' ∧ changes m m') m.
Proof.
  intros Hok (x & Hx & Hu & _).
  assert (wp (reopen h e' event) no_fault (λ _ _, True) m) as Hw.
  { unfold reopen, dp_rm_fd, dp_add_fd. wp_steps. apply (wp_get_entry _ _ x); [done|]. wp_steps. apply wp_assert; [done|]. wp_steps.
    apply (wp_set_entry _ _ _ x); [exact Hx|]. wp_steps.
    apply (wp_get_entry _ _ (x <| in_use := false |>)).
    { pose proof (entry_of_set m h (x <| in_use := false |>) h) as He. rewrite decide_True in He by done. apply He. by exists x. }
    wp_steps. apply wp_assert; [done|]. wp_steps. apply (wp_set_entry _ _ _ (x <| in_use := false |>)); [|done].
    pose proof (entry_of_set m h (x <| in_use := false |>) h) as He. rewrite decide_True in He by done. apply He. by exists x. }
  unfold wp in *. destruct (reopen h e' event m) as [[b m']|] eqn:Er; [|done]. unfold reopen in Er. change (runs (reopen h e' event) m b m') in Er.
  unfold reopen in Er. st_inv. apply dp_rm_fd_ok in Hr as (H1 & C1 & _); [|done].
  apply dp_add_fd_ok in Hr0 as (_ & H2 & C2 & _); [|done]. split; [done|by etrans].
Qed.

(** The descriptors are reported once, though they are open again. *)
Lemma reopened_not_reported : ∃ m, dp_process_events id (λ m _, m) reopen (mret tt) 1 false two_fds = Ok (false, m) ∧
  registered m 5 (Some 9%positive) ∧ registered m 7 (Some 9%positive) ∧ pending_list m = [7; 5].
Proof.
  eexists. split; [vm_compute; reflexivity|]. split; [by eexists; split; [vm_compute; reflexivity|]|].
  split; [by eexists; split; [vm_compute; reflexivity|]|reflexivity].
Qed.

Lemma devpoll_round_witness :
  dp_ok two_fds ∧ wp (dp_process_events id (λ m _, m) reopen (mret tt) 1 false) no_fault (λ _ m, dp_ok m ∧ dp_ok m) two_fds.
Proof.
  split; [exact two_fds_ok|].
  apply (devpoll_round id (λ m _, m) reopen (mret tt) no_fault dp_ok two_fds).
  - reflexivity.
  - intros m H. exact H.
  - intros m m' _ H. exact H.
  - intros h e event m H Hr _. exact (dp_reopen_ok m h e e event H Hr).
  - intros m H. exact H.
  - exact two_fds_ok.
  - unfold to_come. simpl. lia.
Defined.
