(* ===== verification/Amqp.v ===== *)
(** AMQP 0-9-1: its constants, data types and methods
    ([src/libzmq/zmq/i_amqp.hpp]).  The interface [i_amqp] has a function per
    method; a call of one is a value of [amqp_method], with its channel. *)
From S2P Require Import Prelude Attributes.
Local Open Scope Z_scope.

(** ** Constants *)

Definition frame_method : Z := 1.
Definition frame_header : Z := 2.
Definition frame_body : Z := 3.
Definition frame_min_size : Z := 4096.
Definition frame_end : Z := 206.
Definition connection_id : Z := 10.
Definition channel_id : Z := 20.
Definition exchange_id : Z := 40.
Definition queue_id : Z := 50.
Definition basic_id : Z := 60.
Definition tx_id : Z := 90.
Definition connection_start_id : Z := 10.
Definition connection_start_ok_id : Z := 11.
Definition connection_secure_id : Z := 20.
Definition connection_secure_ok_id : Z := 21.
Definition connection_tune_id : Z := 30.
Definition connection_tune_ok_id : Z := 31.
Definition connection_open_id : Z := 40.
Definition connection_open_ok_id : Z := 41.
Definition connection_close_id : Z := 50.
Definition connection_close_ok_id : Z := 51.
Definition channel_open_id : Z := 10.
Definition channel_open_ok_id : Z := 11.
Definition channel_flow_id : Z := 20.
Definition channel_flow_ok_id : Z := 21.
Definition channel_close_id : Z := 40.
Definition channel_close_ok_id : Z := 41.
Definition exchange_declare_id : Z := 10.
Definition exchange_declare_ok_id : Z := 11.
Definition exchange_delete_id : Z := 20.
Definition exchange_delete_ok_id : Z := 21.
Definition queue_declare_id : Z := 10.
Definition queue_declare_ok_id : Z := 11.
Definition queue_bind_id : Z := 20.
Definition queue_bind_ok_id : Z := 21.
Definition queue_unbind_id : Z := 50.
Definition queue_unbind_ok_id : Z := 51.
Definition queue_purge_id : Z := 30.
Definition queue_purge_ok_id : Z := 31.
Definition queue_delete_id : Z := 40.
Definition queue_delete_ok_id : Z := 41.
Definition basic_qos_id : Z := 10.
Definition basic_qos_ok_id : Z := 11.
Definition basic_consume_id : Z := 20.
Definition basic_consume_ok_id : Z := 21.
Definition basic_cancel_id : Z := 30.
Definition basic_cancel_ok_id : Z := 31.
Definition basic_publish_id : Z := 40.
Definition basic_return_id : Z := 50.
Definition basic_deliver_id : Z := 60.
Definition basic_get_id : Z := 70.
Definition basic_get_ok_id : Z := 71.
Definition basic_get_empty_id : Z := 72.
Definition basic_ack_id : Z := 80.
Definition basic_reject_id : Z := 90.
Definition basic_recover_async_id : Z := 100.
Definition basic_recover_id : Z := 110.
Definition basic_recover_ok_id : Z := 111.
Definition tx_select_id : Z := 10.
Definition tx_select_ok_id : Z := 11.
Definition tx_commit_id : Z := 20.
Definition tx_commit_ok_id : Z := 21.
Definition tx_rollback_id : Z := 30.
Definition tx_rollback_ok_id : Z := 31.

(** ** Data types *)

(** The bytes that a string object points to; its [size] is their number. *)
Definition shortstr_t : Type := list Z.
Definition longstr_t : Type := list Z.

(** From a C string: [strlen], which must fit a byte. *)
Definition shortstr_new {S} (data_ : string) : ST S shortstr_t :=
  st_assert (String.length data_ <=? 255)%nat ;; mret (bytes_of data_).

(** [std::map <std::string, std::string>]. *)
Definition field_table_t : Type := attr_list_t.

(** ** Methods, class by class *)

Inductive connection_method :=
  | m_connection_start (version_major_ version_minor_ : Z) (server_properties_ : field_table_t) (mechanisms_ locales_ : longstr_t)
  | m_connection_start_ok (client_properties_ : field_table_t) (mechanism_ : shortstr_t) (response_ : longstr_t) (locale_ : shortstr_t)
  | m_connection_secure (challenge_ : longstr_t)
  | m_connection_secure_ok (response_ : longstr_t)
  | m_connection_tune (channel_max_ frame_max_ heartbeat_ : Z)
  | m_connection_tune_ok (channel_max_ frame_max_ heartbeat_ : Z)
  | m_connection_open (virtual_host_ reserved_1_ : shortstr_t) (reserved_2_ : bool)
  | m_connection_open_ok (reserved_1_ : shortstr_t)
  | m_connection_close (reply_code_ : Z) (reply_text_ : shortstr_t) (class_id_ method_id_ : Z)
  | m_connection_close_ok.

Inductive channel_method :=
  | m_channel_open (reserved_1_ : shortstr_t)
  | m_channel_open_ok (reserved_1_ : longstr_t)
  | m_channel_flow (active_ : bool)
  | m_channel_flow_ok (active_ : bool)
  | m_channel_close (reply_code_ : Z) (reply_text_ : shortstr_t) (class_id_ method_id_ : Z)
  | m_channel_close_ok.

Inductive exchange_method :=
  | m_exchange_declare (reserved_1_ : Z) (exchange_ type_ : shortstr_t) (passive_ durable_ reserved_2_ reserved_3_ no_wait_ : bool) (arguments_ : field_table_t)
  | m_exchange_declare_ok
  | m_exchange_delete (reserved_1_ : Z) (exchange_ : shortstr_t) (if_unused_ no_wait_ : bool)
  | m_exchange_delete_ok.

Inductive queue_method :=
  | m_queue_declare (reserved_1_ : Z) (queue_ : shortstr_t) (passive_ durable_ exclusive_ auto_delete_ no_wait_ : bool) (arguments_ : field_table_t)
  | m_queue_declare_ok (queue_ : shortstr_t) (message_count_ consumer_count_ : Z)
  | m_queue_bind (reserved_1_ : Z) (queue_ exchange_ routing_key_ : shortstr_t) (no_wait_ : bool) (arguments_ : field_table_t)
  | m_queue_bind_ok
  | m_queue_unbind (reserved_1_ : Z) (queue_ exchange_ routing_key_ : shortstr_t) (arguments_ : field_table_t)
  | m_queue_unbind_ok
  | m_queue_purge (reserved_1_ : Z) (queue_ : shortstr_t) (no_wait_ : bool)
  | m_queue_purge_ok (message_count_ : Z)
  | m_queue_delete (reserved_1_ : Z) (queue_ : shortstr_t) (if_unused_ if_empty_ no_wait_ : bool)
  | m_queue_delete_ok (message_count_ : Z).

Inductive basic_method :=
  | m_basic_qos (prefetch_size_ prefetch_count_ : Z) (global_ : bool)
  | m_basic_qos_ok
  | m_basic_consume (reserved_1_ : Z) (queue_ consumer_tag_ : shortstr_t) (no_local_ no_ack_ exclusive_ no_wait_ : bool) (arguments_ : field_table_t)
  | m_basic_consume_ok (consumer_tag_ : shortstr_t)
  | m_basic_cancel (consumer_tag_ : shortstr_t) (no_wait_ : bool)
  | m_basic_cancel_ok (consumer_tag_ : shortstr_t)
  | m_basic_publish (reserved_1_ : Z) (exchange_ routing_key_ : shortstr_t) (mandatory_ immediate_ : bool)
  | m_basic_return (reply_code_ : Z) (reply_text_ exchange_ routing_key_ : shortstr_t)
  | m_basic_deliver (consumer_tag_ : shortstr_t) (delivery_tag_ : Z) (redelivered_ : bool) (exchange_ routing_key_ : shortstr_t)
  | m_basic_get (reserved_1_ : Z) (queue_ : shortstr_t) (no_ack_ : bool)
  | m_basic_get_ok (delivery_tag_ : Z) (redelivered_ : bool) (exchange_ routing_key_ : shortstr_t) (message_count_ : Z)
  | m_basic_get_empty (reserved_1_ : shortstr_t)
  | m_basic_ack (delivery_tag_ : Z) (multiple_ : bool)
  | m_basic_reject (delivery_tag_ : Z) (requeue_ : bool)
  | m_basic_recover_async (requeue_ : bool)
  | m_basic_recover (requeue_ : bool)
  | m_basic_recover_ok.

Inductive tx_method :=
  | m_tx_select
  | m_tx_select_ok
  | m_tx_commit
  | m_tx_commit_ok
  | m_tx_rollback
  | m_tx_rollback_ok.

Inductive amqp_method :=
  | of_connection (m : connection_method)
  | of_channel (m : channel_method)
  | of_exchange (m : exchange_method)
  | of_queue (m : queue_method)
  | of_basic (m : basic_method)
  | of_tx (m : tx_method).

Coercion of_connection : connection_method >-> amqp_method.
Coercion of_channel : channel_method >-> amqp_method.
Coercion of_exchange : exchange_method >-> amqp_method.
Coercion of_queue : queue_method >-> amqp_method.
Coercion of_basic : basic_method >-> amqp_method.
Coercion of_tx : tx_method >-> amqp_method.

(** The interface, with its default: a method that a class does not override
    fails. *)
Definition i_amqp (X : Type) : Type := Z → amqp_method → ST X unit.
Definition i_amqp_default {X} : i_amqp X := λ _ _, st_assert false.
