(* ===== verification/AmqpLayout.v ===== *)
(** The layout of AMQP methods: the fields of each, and their bytes.  It is
    what the specification of the protocol says, and what the marshaller and
    the unmarshaller are compared with. *)
From S2P Require Import Prelude Attributes Wire Amqp.
Local Open Scope Z_scope.

Inductive field :=
  | f_uint8 (v : Z)
  | f_uint16 (v : Z)
  | f_uint32 (v : Z)
  | f_uint64 (v : Z)
  | f_shortstr (s : shortstr_t)
  | f_longstr (s : longstr_t)
  | f_bits (l : list bool)
  | f_table (t : field_table_t).

Definition connection_fields (m : connection_method) : list field :=
  match m with
  | m_connection_start version_major version_minor server_properties mechanisms locales => [f_uint8 version_major; f_uint8 version_minor; f_table server_properties; f_longstr mechanisms; f_longstr locales]
  | m_connection_start_ok client_properties mechanism response locale => [f_table client_properties; f_shortstr mechanism; f_longstr response; f_shortstr locale]
  | m_connection_secure challenge => [f_longstr challenge]
  | m_connection_secure_ok response => [f_longstr response]
  | m_connection_tune channel_max frame_max heartbeat => [f_uint16 channel_max; f_uint32 frame_max; f_uint16 heartbeat]
  | m_connection_tune_ok channel_max frame_max heartbeat => [f_uint16 channel_max; f_uint32 frame_max; f_uint16 heartbeat]
  | m_connection_open virtual_host reserved_1 reserved_2 => [f_shortstr virtual_host; f_shortstr reserved_1; f_bits [reserved_2]]
  | m_connection_open_ok reserved_1 => [f_shortstr reserved_1]
  | m_connection_close reply_code reply_text class_id method_id => [f_uint16 reply_code; f_shortstr reply_text; f_uint16 class_id; f_uint16 method_id]
  | m_connection_close_ok => []
  end.

Definition channel_fields (m : channel_method) : list field :=
  match m with
  | m_channel_open reserved_1 => [f_shortstr reserved_1]
  | m_channel_open_ok reserved_1 => [f_longstr reserved_1]
  | m_channel_flow active => [f_bits [active]]
  | m_channel_flow_ok active => [f_bits [active]]
  | m_channel_close reply_code reply_text class_id method_id => [f_uint16 reply_code; f_shortstr reply_text; f_uint16 class_id; f_uint16 method_id]
  | m_channel_close_ok => []
  end.

Definition exchange_fields (m : exchange_method) : list field :=
  match m with
  | m_exchange_declare reserved_1 exchange type passive durable reserved_2 reserved_3 no_wait arguments => [f_uint16 reserved_1; f_shortstr exchange; f_shortstr type; f_bits [passive; durable; reserved_2; reserved_3; no_wait]; f_table arguments]
  | m_exchange_declare_ok => []
  | m_exchange_delete reserved_1 exchange if_unused no_wait => [f_uint16 reserved_1; f_shortstr exchange; f_bits [if_unused; no_wait]]
  | m_exchange_delete_ok => []
  end.

Definition queue_fields (m : queue_method) : list field :=
  match m with
  | m_queue_declare reserved_1 queue passive durable exclusive auto_delete no_wait arguments => [f_uint16 reserved_1; f_shortstr queue; f_bits [passive; durable; exclusive; auto_delete; no_wait]; f_table arguments]
  | m_queue_declare_ok queue message_count consumer_count => [f_shortstr queue; f_uint32 message_count; f_uint32 consumer_count]
  | m_queue_bind reserved_1 queue exchange routing_key no_wait arguments => [f_uint16 reserved_1; f_shortstr queue; f_shortstr exchange; f_shortstr routing_key; f_bits [no_wait]; f_table arguments]
  | m_queue_bind_ok => []
  | m_queue_unbind reserved_1 queue exchange routing_key arguments => [f_uint16 reserved_1; f_shortstr queue; f_shortstr exchange; f_shortstr routing_key; f_table arguments]
  | m_queue_unbind_ok => []
  | m_queue_purge reserved_1 queue no_wait => [f_uint16 reserved_1; f_shortstr queue; f_bits [no_wait]]
  | m_queue_purge_ok message_count => [f_uint32 message_count]
  | m_queue_delete reserved_1 queue if_unused if_empty no_wait => [f_uint16 reserved_1; f_shortstr queue; f_bits [if_unused; if_empty; no_wait]]
  | m_queue_delete_ok message_count => [f_uint32 message_count]
  end.

Definition basic_fields (m : basic_method) : list field :=
  match m with
  | m_basic_qos prefetch_size prefetch_count global => [f_uint32 prefetch_size; f_uint16 prefetch_count; f_bits [global]]
  | m_basic_qos_ok => []
  | m_basic_consume reserved_1 queue consumer_tag no_local no_ack exclusive no_wait arguments => [f_uint16 reserved_1; f_shortstr queue; f_shortstr consumer_tag; f_bits [no_local; no_ack; exclusive; no_wait]; f_table arguments]
  | m_basic_consume_ok consumer_tag => [f_shortstr consumer_tag]
  | m_basic_cancel consumer_tag no_wait => [f_shortstr consumer_tag; f_bits [no_wait]]
  | m_basic_cancel_ok consumer_tag => [f_shortstr consumer_tag]
  | m_basic_publish reserved_1 exchange routing_key mandatory immediate => [f_uint16 reserved_1; f_shortstr exchange; f_shortstr routing_key; f_bits [mandatory; immediate]]
  | m_basic_return reply_code reply_text exchange routing_key => [f_uint16 reply_code; f_shortstr reply_text; f_shortstr exchange; f_shortstr routing_key]
  | m_basic_deliver consumer_tag delivery_tag redelivered exchange routing_key => [f_shortstr consumer_tag; f_uint64 delivery_tag; f_bits [redelivered]; f_shortstr exchange; f_shortstr routing_key]
  | m_basic_get reserved_1 queue no_ack => [f_uint16 reserved_1; f_shortstr queue; f_bits [no_ack]]
  | m_basic_get_ok delivery_tag redelivered exchange routing_key message_count => [f_uint64 delivery_tag; f_bits [redelivered]; f_shortstr exchange; f_shortstr routing_key; f_uint32 message_count]
  | m_basic_get_empty reserved_1 => [f_shortstr reserved_1]
  | m_basic_ack delivery_tag multiple => [f_uint64 delivery_tag; f_bits [multiple]]
  | m_basic_reject delivery_tag requeue => [f_uint64 delivery_tag; f_bits [requeue]]
  | m_basic_recover_async requeue => [f_bits [requeue]]
  | m_basic_recover requeue => [f_bits [requeue]]
  | m_basic_recover_ok => []
  end.

Definition tx_fields (m : tx_method) : list field :=
  match m with
  | m_tx_select => []
  | m_tx_select_ok => []
  | m_tx_commit => []
  | m_tx_commit_ok => []
  | m_tx_rollback => []
  | m_tx_rollback_ok => []
  end.

Definition fields (m : amqp_method) : list field :=
  match m with
  | of_connection m => connection_fields m
  | of_channel m => channel_fields m
  | of_exchange m => exchange_fields m
  | of_queue m => queue_fields m
  | of_basic m => basic_fields m
  | of_tx m => tx_fields m
  end.

Definition connection_method_id (m : connection_method) : Z :=
  match m with
  | m_connection_start _ _ _ _ _ => connection_start_id
  | m_connection_start_ok _ _ _ _ => connection_start_ok_id
  | m_connection_secure _ => connection_secure_id
  | m_connection_secure_ok _ => connection_secure_ok_id
  | m_connection_tune _ _ _ => connection_tune_id
  | m_connection_tune_ok _ _ _ => connection_tune_ok_id
  | m_connection_open _ _ _ => connection_open_id
  | m_connection_open_ok _ => connection_open_ok_id
  | m_connection_close _ _ _ _ => connection_close_id
  | m_connection_close_ok => connection_close_ok_id
  end.

Definition channel_method_id (m : channel_method) : Z :=
  match m with
  | m_channel_open _ => channel_open_id
  | m_channel_open_ok _ => channel_open_ok_id
  | m_channel_flow _ => channel_flow_id
  | m_channel_flow_ok _ => channel_flow_ok_id
  | m_channel_close _ _ _ _ => channel_close_id
  | m_channel_close_ok => channel_close_ok_id
  end.

Definition exchange_method_id (m : exchange_method) : Z :=
  match m with
  | m_exchange_declare _ _ _ _ _ _ _ _ _ => exchange_declare_id
  | m_exchange_declare_ok => exchange_declare_ok_id
  | m_exchange_delete _ _ _ _ => exchange_delete_id
  | m_exchange_delete_ok => exchange_delete_ok_id
  end.

Definition queue_method_id (m : queue_method) : Z :=
  match m with
  | m_queue_declare _ _ _ _ _ _ _ _ => queue_declare_id
  | m_queue_declare_ok _ _ _ => queue_declare_ok_id
  | m_queue_bind _ _ _ _ _ _ => queue_bind_id
  | m_queue_bind_ok => queue_bind_ok_id
  | m_queue_unbind _ _ _ _ _ => queue_unbind_id
  | m_queue_unbind_ok => queue_unbind_ok_id
  | m_queue_purge _ _ _ => queue_purge_id
  | m_queue_purge_ok _ => queue_purge_ok_id
  | m_queue_delete _ _ _ _ _ => queue_delete_id
  | m_queue_delete_ok _ => queue_delete_ok_id
  end.

Definition basic_method_id (m : basic_method) : Z :=
  match m with
  | m_basic_qos _ _ _ => basic_qos_id
  | m_basic_qos_ok => basic_qos_ok_id
  | m_basic_consume _ _ _ _ _ _ _ _ => basic_consume_id
  | m_basic_consume_ok _ => basic_consume_ok_id
  | m_basic_cancel _ _ => basic_cancel_id
  | m_basic_cancel_ok _ => basic_cancel_ok_id
  | m_basic_publish _ _ _ _ _ => basic_publish_id
  | m_basic_return _ _ _ _ => basic_return_id
  | m_basic_deliver _ _ _ _ _ => basic_deliver_id
  | m_basic_get _ _ _ => basic_get_id
  | m_basic_get_ok _ _ _ _ _ => basic_get_ok_id
  | m_basic_get_empty _ => basic_get_empty_id
  | m_basic_ack _ _ => basic_ack_id
  | m_basic_reject _ _ => basic_reject_id
  | m_basic_recover_async _ => basic_recover_async_id
  | m_basic_recover _ => basic_recover_id
  | m_basic_recover_ok => basic_recover_ok_id
  end.

Definition tx_method_id (m : tx_method) : Z :=
  match m with
  | m_tx_select => tx_select_id
  | m_tx_select_ok => tx_select_ok_id
  | m_tx_commit => tx_commit_id
  | m_tx_commit_ok => tx_commit_ok_id
  | m_tx_rollback => tx_rollback_id
  | m_tx_rollback_ok => tx_rollback_ok_id
  end.

Definition class_of (m : amqp_method) : Z :=
  match m with
  | of_connection _ => connection_id
  | of_channel _ => channel_id
  | of_exchange _ => exchange_id
  | of_queue _ => queue_id
  | of_basic _ => basic_id
  | of_tx _ => tx_id
  end.

Definition method_of (m : amqp_method) : Z :=
  match m with
  | of_connection m => connection_method_id m
  | of_channel m => channel_method_id m
  | of_exchange m => exchange_method_id m
  | of_queue m => queue_method_id m
  | of_basic m => basic_method_id m
  | of_tx m => tx_method_id m
  end.
(** ** Bytes *)

Definition octet (v : Z) : list Z := put_uint8 (replicate 1 0) v.
Definition short (v : Z) : list Z := put_uint16 (replicate 2 0) v.
Definition long (v : Z) : list Z := put_uint32 (replicate 4 0) v.
Definition longlong (v : Z) : list Z := put_uint64 (replicate 8 0) v.
Definition size {A} (l : list A) : Z := Z.of_nat (length l).

(** Up to eight bits share an octet, the first is the lowest. *)
Fixpoint bits_value (l : list bool) : Z :=
  match l with [] => 0 | b :: l => Z.b2z b + 2 * bits_value l end.

Definition field_entry (nv : string * string) : list Z :=
  octet (size (bytes_of nv.1)) ++ bytes_of nv.1 ++ octet 83 ++ long (size (bytes_of nv.2)) ++ bytes_of nv.2.
Definition table_entries (t : field_table_t) : list Z := concat (field_entry <$> in_key_order t).

Definition field_bytes (f : field) : list Z :=
  match f with
  | f_uint8 v => octet v
  | f_uint16 v => short v
  | f_uint32 v => long v
  | f_uint64 v => longlong v
  | f_shortstr s => octet (size s) ++ s
  | f_longstr s => long (size s) ++ s
  | f_bits l => octet (bits_value l)
  | f_table t => long (size (table_entries t)) ++ table_entries t
  end.

Definition fields_bytes (l : list field) : list Z := concat (field_bytes <$> l).
Definition method_bytes (m : amqp_method) : list Z := fields_bytes (fields m).

(** The values that the types of the code allow. *)
Definition field_ok (f : field) : Prop :=
  match f with
  | f_uint8 v => in_u 8 v
  | f_uint16 v => in_u 16 v
  | f_uint32 v => in_u 32 v
  | f_uint64 v => in_u 64 v
  | f_shortstr s => size s < 2 ^ 8
  | f_longstr s => size s < 2 ^ 32
  | f_bits l => (length l ≤ 8)%nat
  | f_table t => (∀ name value, t !! name = Some value → size (bytes_of name) < 2 ^ 8 ∧ size (bytes_of value) < 2 ^ 32) ∧
      size (table_entries t) < 2 ^ 32
  end.

Definition method_ok (m : amqp_method) : Prop := Forall field_ok (fields m).

Lemma length_octet v : length (octet v) = 1%nat.
Proof. done. Qed.
Lemma length_short v : length (short v) = 2%nat.
Proof. done. Qed.
Lemma length_long v : length (long v) = 4%nat.
Proof. done. Qed.
Lemma length_longlong v : length (longlong v) = 8%nat.
Proof. done. Qed.

(** A pointer write puts the bytes of the value at the offset. *)
Lemma put_at {n put get} `{!WireFormat n put get} o (b : list Z) v : (o + n ≤ length b)%nat →
  take o b ++ put (drop o b) v = take o b ++ put (replicate n 0) v ++ drop (o + n) b.
Proof.
  intros Hb. f_equal. rewrite <- (take_drop n (drop o b)), drop_drop.
  assert (length (take n (drop o b)) = n) as Hn by (rewrite length_take, length_drop; lia).
  rewrite wire_put_app by done. f_equal. apply wire_put_irrel; [done|apply length_replicate].
Qed.

Lemma put_at_long o (b : list Z) v : (o + 4 ≤ length b)%nat →
  take o b ++ put_uint32 (drop o b) v = take o b ++ long v ++ drop (o + 4) b.
Proof. apply put_at. Qed.

#[global] Opaque octet short long longlong.
