(* ===== verification/AmqpMarshaller.v ===== *)
(** Calls of [i_amqp] turned into their binary form
    ([src/libzmq/amqp_marshaller.cpp]): one function per method, as the code
    has them. *)
From S2P Require Import Prelude Attributes Wire Amqp.
Local Open Scope Z_scope.

(** ** The buffer of arguments *)

(** [args], of [frame_min_size] bytes, and [offset]. *)
Record args_t := Args { args : list Z; offset : nat }.
#[export] Instance eta_args : Eta args_t := λ a, Args (args a) (offset a).

Definition room (n : nat) : ST args_t unit :=
  a ← st_get; st_assert (Z.of_nat (offset a + n) <=? frame_min_size).

(** [put (args + offset, v); offset += n;] *)
Definition put_value (n : nat) (put : list Z → Z → list Z) (v : Z) : ST args_t unit :=
  st_modify (λ a, Args (take (offset a) (args a) ++ put (drop (offset a) (args a)) v) (offset a + n)).

(** [memcpy (args + offset, data, size); offset += size;] *)
Definition put_bytes (b : list Z) : ST args_t unit :=
  a ← st_get;
  l ← st_of_option BadAccess (overwrite (offset a) b (args a));
  st_put (Args l (offset a + length b)).

Definition arg_uint8 (v : Z) : ST args_t unit := room 1 ;; put_value 1 put_uint8 v.
Definition arg_uint16 (v : Z) : ST args_t unit := room 2 ;; put_value 2 put_uint16 v.
Definition arg_uint32 (v : Z) : ST args_t unit := room 4 ;; put_value 4 put_uint32 v.
Definition arg_uint64 (v : Z) : ST args_t unit := room 8 ;; put_value 8 put_uint64 v.

Definition arg_shortstr (s : shortstr_t) : ST args_t unit :=
  room (1 + length s) ;; put_value 1 put_uint8 (Z.of_nat (length s)) ;; put_bytes s.
Definition arg_longstr (s : longstr_t) : ST args_t unit :=
  room (4 + length s) ;; put_value 4 put_uint32 (Z.of_nat (length s)) ;; put_bytes s.

(** [((b0 ? 1 : 0) << 0) | ((b1 ? 1 : 0) << 1) | ...], from bit [i]. *)
Fixpoint pack_bits (i : Z) (l : list bool) : Z :=
  match l with
  | [] => 0
  | b :: l => Z.lor (Z.shiftl (if b then 1 else 0) i) (pack_bits (i + 1) l)
  end.
Definition arg_bits (l : list bool) : ST args_t unit := room 1 ;; put_value 1 put_uint8 (pack_bits 0 l).

(** One turn of the loop; the size it adds. *)
Definition put_field (name value : string) : ST args_t unit :=
  room (1 + String.length name) ;;
  put_value 1 put_uint8 (Z.of_nat (String.length name)) ;;
  put_bytes (bytes_of name) ;;
  room 1 ;;
  put_value 1 put_uint8 83 ;;
  room (4 + String.length value) ;;
  put_value 4 put_uint32 (Z.of_nat (String.length value)) ;;
  put_bytes (bytes_of value).
Definition put_field_size (name value : string) : nat := (1 + String.length name + 1 + 4 + String.length value)%nat.

Fixpoint put_fields (l : list (string * string)) (table_size : nat) : ST args_t nat :=
  match l with
  | [] => mret table_size
  | (name, value) :: l => put_field name value ;; put_fields l (table_size + put_field_size name value)
  end.

Definition put_field_table (table_ : field_table_t) : ST args_t unit :=
  room 4 ;;
  st_modify (λ a, a <| offset := (offset a + 4)%nat |>) ;;
  table_size ← put_fields (in_key_order table_) 0;
  st_modify (λ a, let o := (offset a - table_size - 4)%nat in
    a <| args := take o (args a) ++ put_uint32 (drop o (args a)) (Z.of_nat table_size) |>).

(** ** Commands and their queue *)

(** The arguments of a command are a block that its holder frees. *)
Record command_t := Command { channel : Z; class_id : Z; method_id : Z; cmd_args : list Z; args_size : nat }.
#[export] Instance eta_command : Eta command_t := λ c,
  Command (channel c) (class_id c) (method_id c) (cmd_args c) (args_size c).

Record amqp_marshaller_t := Marshaller { command_queue : list command_t }.
#[export] Instance eta_marshaller : Eta amqp_marshaller_t := λ m, Marshaller (command_queue m).

Definition amqp_marshaller_new : amqp_marshaller_t := Marshaller [].

(** The blocks of the commands still in the queue are freed. *)
Definition amqp_marshaller_delete : ST amqp_marshaller_t unit := st_put (Marshaller []).

(** The first command of the queue, if any. *)
Definition marshaller_read : ST amqp_marshaller_t (option command_t) :=
  m ← st_get;
  match command_queue m with
  | [] => mret None
  | c :: q => st_put (Marshaller q) ;; mret (Some c)
  end.

Section marshaller.
(** What a new block of [frame_min_size] bytes holds. *)
Context (malloc : list Z).

(** A block is filled by [fill] and queued. *)
Definition new_command (channel_ class_id_ method_id_ : Z) (fill : ST args_t unit) : ST amqp_marshaller_t unit :=
  a ← st_lift (λ _, Args malloc 0) (λ _ m, m) (fill ;; st_get);
  st_modify (λ m, Marshaller (command_queue m ++ [Command channel_ class_id_ method_id_ (args a) (offset a)])).

(** *** Class connection *)

Definition connection_start (channel_ : Z) (version_major_ version_minor_ : Z) (server_properties_ : field_table_t)
    (mechanisms_ locales_ : longstr_t) : ST amqp_marshaller_t unit :=
  new_command channel_ connection_id connection_start_id
    (arg_uint8 version_major_ ;; arg_uint8 version_minor_ ;; put_field_table server_properties_ ;; arg_longstr mechanisms_ ;; arg_longstr locales_).

Definition connection_start_ok (channel_ : Z) (client_properties_ : field_table_t) (mechanism_ : shortstr_t)
    (response_ : longstr_t) (locale_ : shortstr_t) : ST amqp_marshaller_t unit :=
  new_command channel_ connection_id connection_start_ok_id
    (put_field_table client_properties_ ;; arg_shortstr mechanism_ ;; arg_longstr response_ ;; arg_shortstr locale_).

Definition connection_secure (channel_ : Z) (challenge_ : longstr_t) : ST amqp_marshaller_t unit :=
  new_command channel_ connection_id connection_secure_id (arg_longstr challenge_).

Definition connection_secure_ok (channel_ : Z) (response_ : longstr_t) : ST amqp_marshaller_t unit :=
  new_command channel_ connection_id connection_secure_ok_id (arg_longstr response_).

Definition connection_tune (channel_ : Z) (channel_max_ frame_max_ heartbeat_ : Z) : ST amqp_marshaller_t unit :=
  new_command channel_ connection_id connection_tune_id
    (arg_uint16 channel_max_ ;; arg_uint32 frame_max_ ;; arg_uint16 heartbeat_).

Definition connection_tune_ok (channel_ : Z) (channel_max_ frame_max_ heartbeat_ : Z) : ST amqp_marshaller_t unit :=
  new_command channel_ connection_id connection_tune_ok_id
    (arg_uint16 channel_max_ ;; arg_uint32 frame_max_ ;; arg_uint16 heartbeat_).

Definition connection_open (channel_ : Z) (virtual_host_ reserved_1_ : shortstr_t)
    (reserved_2_ : bool) : ST amqp_marshaller_t unit :=
  new_command channel_ connection_id connection_open_id
    (arg_shortstr virtual_host_ ;; arg_shortstr reserved_1_ ;; arg_bits [reserved_2_]).

Definition connection_open_ok (channel_ : Z) (reserved_1_ : shortstr_t) : ST amqp_marshaller_t unit :=
  new_command channel_ connection_id connection_open_ok_id (arg_shortstr reserved_1_).

Definition connection_close (channel_ : Z) (reply_code_ : Z) (reply_text_ : shortstr_t)
    (class_id_ method_id_ : Z) : ST amqp_marshaller_t unit :=
  new_command channel_ connection_id connection_close_id
    (arg_uint16 reply_code_ ;; arg_shortstr reply_text_ ;; arg_uint16 class_id_ ;; arg_uint16 method_id_).

Definition connection_close_ok (channel_ : Z) : ST amqp_marshaller_t unit :=
  new_command channel_ connection_id connection_close_ok_id (mret tt).

(** *** Class channel *)

Definition channel_open (channel_ : Z) (reserved_1_ : shortstr_t) : ST amqp_marshaller_t unit :=
  new_command channel_ channel_id channel_open_id (arg_shortstr reserved_1_).

Definition channel_open_ok (channel_ : Z) (reserved_1_ : longstr_t) : ST amqp_marshaller_t unit :=
  new_command channel_ channel_id channel_open_ok_id (arg_longstr reserved_1_).

Definition channel_flow (channel_ : Z) (active_ : bool) : ST amqp_marshaller_t unit :=
  new_command channel_ channel_id channel_flow_id (arg_bits [active_]).

Definition channel_flow_ok (channel_ : Z) (active_ : bool) : ST amqp_marshaller_t unit :=
  new_command channel_ channel_id channel_flow_ok_id (arg_bits [active_]).

Definition channel_close (channel_ : Z) (reply_code_ : Z) (reply_text_ : shortstr_t)
    (class_id_ method_id_ : Z) : ST amqp_marshaller_t unit :=
  new_command channel_ channel_id channel_close_id
    (arg_uint16 reply_code_ ;; arg_shortstr reply_text_ ;; arg_uint16 class_id_ ;; arg_uint16 method_id_).

Definition channel_close_ok (channel_ : Z) : ST amqp_marshaller_t unit :=
  new_command channel_ channel_id channel_close_ok_id (mret tt).

(** *** Class exchange *)

Definition exchange_declare (channel_ : Z) (reserved_1_ : Z) (exchange_ type_ : shortstr_t)
    (passive_ durable_ reserved_2_ reserved_3_ no_wait_ : bool) (arguments_ : field_table_t) : ST amqp_marshaller_t unit :=
  new_command channel_ exchange_id exchange_declare_id
    (arg_uint16 reserved_1_ ;; arg_shortstr exchange_ ;; arg_shortstr type_ ;; arg_bits [passive_; durable_; reserved_2_; reserved_3_; no_wait_] ;; put_field_table arguments_).

Definition exchange_declare_ok (channel_ : Z) : ST amqp_marshaller_t unit :=
  new_command channel_ exchange_id exchange_declare_ok_id (mret tt).

Definition exchange_delete (channel_ : Z) (reserved_1_ : Z) (exchange_ : shortstr_t)
    (if_unused_ no_wait_ : bool) : ST amqp_marshaller_t unit :=
  new_command channel_ exchange_id exchange_delete_id
    (arg_uint16 reserved_1_ ;; arg_shortstr exchange_ ;; arg_bits [if_unused_; no_wait_]).

Definition exchange_delete_ok (channel_ : Z) : ST amqp_marshaller_t unit :=
  new_command channel_ exchange_id exchange_delete_ok_id (mret tt).

(** *** Class queue *)

Definition queue_declare (channel_ : Z) (reserved_1_ : Z) (queue_ : shortstr_t)
    (passive_ durable_ exclusive_ auto_delete_ no_wait_ : bool) (arguments_ : field_table_t) : ST amqp_marshaller_t unit :=
  new_command channel_ queue_id queue_declare_id
    (arg_uint16 reserved_1_ ;; arg_shortstr queue_ ;; arg_bits [passive_; durable_; exclusive_; auto_delete_; no_wait_] ;; put_field_table arguments_).

Definition queue_declare_ok (channel_ : Z) (queue_ : shortstr_t)
    (message_count_ consumer_count_ : Z) : ST amqp_marshaller_t unit :=
  new_command channel_ queue_id queue_declare_ok_id
    (arg_shortstr queue_ ;; arg_uint32 message_count_ ;; arg_uint32 consumer_count_).

Definition queue_bind (channel_ : Z) (reserved_1_ : Z) (queue_ exchange_ routing_key_ : shortstr_t)
    (no_wait_ : bool) (arguments_ : field_table_t) : ST amqp_marshaller_t unit :=
  new_command channel_ queue_id queue_bind_id
    (arg_uint16 reserved_1_ ;; arg_shortstr queue_ ;; arg_shortstr exchange_ ;; arg_shortstr routing_key_ ;; arg_bits [no_wait_] ;; put_field_table arguments_).

Definition queue_bind_ok (channel_ : Z) : ST amqp_marshaller_t unit :=
  new_command channel_ queue_id queue_bind_ok_id (mret tt).

Definition queue_unbind (channel_ : Z) (reserved_1_ : Z) (queue_ exchange_ routing_key_ : shortstr_t)
    (arguments_ : field_table_t) : ST amqp_marshaller_t unit :=
  new_command channel_ queue_id queue_unbind_id
    (arg_uint16 reserved_1_ ;; arg_shortstr queue_ ;; arg_shortstr exchange_ ;; arg_shortstr routing_key_ ;; put_field_table arguments_).

Definition queue_unbind_ok (channel_ : Z) : ST amqp_marshaller_t unit :=
  new_command channel_ queue_id queue_unbind_ok_id (mret tt).

Definition queue_purge (channel_ : Z) (reserved_1_ : Z) (queue_ : shortstr_t) (no_wait_ : bool) : ST amqp_marshaller_t unit :=
  new_command channel_ queue_id queue_purge_id (arg_uint16 reserved_1_ ;; arg_shortstr queue_ ;; arg_bits [no_wait_]).

Definition queue_purge_ok (channel_ : Z) (message_count_ : Z) : ST amqp_marshaller_t unit :=
  new_command channel_ queue_id queue_purge_ok_id (arg_uint32 message_count_).

Definition queue_delete (channel_ : Z) (reserved_1_ : Z) (queue_ : shortstr_t)
    (if_unused_ if_empty_ no_wait_ : bool) : ST amqp_marshaller_t unit :=
  new_command channel_ queue_id queue_delete_id
    (arg_uint16 reserved_1_ ;; arg_shortstr queue_ ;; arg_bits [if_unused_; if_empty_; no_wait_]).

Definition queue_delete_ok (channel_ : Z) (message_count_ : Z) : ST amqp_marshaller_t unit :=
  new_command channel_ queue_id queue_delete_ok_id (arg_uint32 message_count_).

(** *** Class basic *)

Definition basic_qos (channel_ : Z) (prefetch_size_ prefetch_count_ : Z) (global_ : bool) : ST amqp_marshaller_t unit :=
  new_command channel_ basic_id basic_qos_id (arg_uint32 prefetch_size_ ;; arg_uint16 prefetch_count_ ;; arg_bits [global_]).

Definition basic_qos_ok (channel_ : Z) : ST amqp_marshaller_t unit :=
  new_command channel_ basic_id basic_qos_ok_id (mret tt).

Definition basic_consume (channel_ : Z) (reserved_1_ : Z) (queue_ consumer_tag_ : shortstr_t)
    (no_local_ no_ack_ exclusive_ no_wait_ : bool) (arguments_ : field_table_t) : ST amqp_marshaller_t unit :=
  new_command channel_ basic_id basic_consume_id
    (arg_uint16 reserved_1_ ;; arg_shortstr queue_ ;; arg_shortstr consumer_tag_ ;; arg_bits [no_local_; no_ack_; exclusive_; no_wait_] ;; put_field_table arguments_).

Definition basic_consume_ok (channel_ : Z) (consumer_tag_ : shortstr_t) : ST amqp_marshaller_t unit :=
  new_command channel_ basic_id basic_consume_ok_id (arg_shortstr consumer_tag_).

Definition basic_cancel (channel_ : Z) (consumer_tag_ : shortstr_t) (no_wait_ : bool) : ST amqp_marshaller_t unit :=
  new_command channel_ basic_id basic_cancel_id (arg_shortstr consumer_tag_ ;; arg_bits [no_wait_]).

Definition basic_cancel_ok (channel_ : Z) (consumer_tag_ : shortstr_t) : ST amqp_marshaller_t unit :=
  new_command channel_ basic_id basic_cancel_ok_id (arg_shortstr consumer_tag_).

Definition basic_publish (channel_ : Z) (reserved_1_ : Z) (exchange_ routing_key_ : shortstr_t)
    (mandatory_ immediate_ : bool) : ST amqp_marshaller_t unit :=
  new_command channel_ basic_id basic_publish_id
    (arg_uint16 reserved_1_ ;; arg_shortstr exchange_ ;; arg_shortstr routing_key_ ;; arg_bits [mandatory_; immediate_]).

Definition basic_return (channel_ : Z) (reply_code_ : Z)
    (reply_text_ exchange_ routing_key_ : shortstr_t) : ST amqp_marshaller_t unit :=
  new_command channel_ basic_id basic_return_id
    (arg_uint16 reply_code_ ;; arg_shortstr reply_text_ ;; arg_shortstr exchange_ ;; arg_shortstr routing_key_).

Definition basic_deliver (channel_ : Z) (consumer_tag_ : shortstr_t) (delivery_tag_ : Z) (redelivered_ : bool)
    (exchange_ routing_key_ : shortstr_t) : ST amqp_marshaller_t unit :=
  new_command channel_ basic_id basic_deliver_id
    (arg_shortstr consumer_tag_ ;; arg_uint64 delivery_tag_ ;; arg_bits [redelivered_] ;; arg_shortstr exchange_ ;; arg_shortstr routing_key_).

Definition basic_get (channel_ : Z) (reserved_1_ : Z) (queue_ : shortstr_t) (no_ack_ : bool) : ST amqp_marshaller_t unit :=
  new_command channel_ basic_id basic_get_id (arg_uint16 reserved_1_ ;; arg_shortstr queue_ ;; arg_bits [no_ack_]).

Definition basic_get_ok (channel_ : Z) (delivery_tag_ : Z) (redelivered_ : bool)
    (exchange_ routing_key_ : shortstr_t) (message_count_ : Z) : ST amqp_marshaller_t unit :=
  new_command channel_ basic_id basic_get_ok_id
    (arg_uint64 delivery_tag_ ;; arg_bits [redelivered_] ;; arg_shortstr exchange_ ;; arg_shortstr routing_key_ ;; arg_uint32 message_count_).

Definition basic_get_empty (channel_ : Z) (reserved_1_ : shortstr_t) : ST amqp_marshaller_t unit :=
  new_command channel_ basic_id basic_get_empty_id (arg_shortstr reserved_1_).

Definition basic_ack (channel_ : Z) (delivery_tag_ : Z) (multiple_ : bool) : ST amqp_marshaller_t unit :=
  new_command channel_ basic_id basic_ack_id (arg_uint64 delivery_tag_ ;; arg_bits [multiple_]).

Definition basic_reject (channel_ : Z) (delivery_tag_ : Z) (requeue_ : bool) : ST amqp_marshaller_t unit :=
  new_command channel_ basic_id basic_reject_id (arg_uint64 delivery_tag_ ;; arg_bits [requeue_]).

Definition basic_recover_async (channel_ : Z) (requeue_ : bool) : ST amqp_marshaller_t unit :=
  new_command channel_ basic_id basic_recover_async_id (arg_bits [requeue_]).

Definition basic_recover (channel_ : Z) (requeue_ : bool) : ST amqp_marshaller_t unit :=
  new_command channel_ basic_id basic_recover_id (arg_bits [requeue_]).

Definition basic_recover_ok (channel_ : Z) : ST amqp_marshaller_t unit :=
  new_command channel_ basic_id basic_recover_ok_id (mret tt).

(** *** Class tx *)

Definition tx_select (channel_ : Z) : ST amqp_marshaller_t unit :=
  new_command channel_ tx_id tx_select_id (mret tt).

Definition tx_select_ok (channel_ : Z) : ST amqp_marshaller_t unit :=
  new_command channel_ tx_id tx_select_ok_id (mret tt).

Definition tx_commit (channel_ : Z) : ST amqp_marshaller_t unit :=
  new_command channel_ tx_id tx_commit_id (mret tt).

Definition tx_commit_ok (channel_ : Z) : ST amqp_marshaller_t unit :=
  new_command channel_ tx_id tx_commit_ok_id (mret tt).

Definition tx_rollback (channel_ : Z) : ST amqp_marshaller_t unit :=
  new_command channel_ tx_id tx_rollback_id (mret tt).

Definition tx_rollback_ok (channel_ : Z) : ST amqp_marshaller_t unit :=
  new_command channel_ tx_id tx_rollback_ok_id (mret tt).

Definition marshal_connection (channel_ : Z) (m : connection_method) : ST amqp_marshaller_t unit :=
  match m with
  | m_connection_start version_major_ version_minor_ server_properties_ mechanisms_ locales_ => connection_start channel_ version_major_ version_minor_ server_properties_ mechanisms_ locales_
  | m_connection_start_ok client_properties_ mechanism_ response_ locale_ => connection_start_ok channel_ client_properties_ mechanism_ response_ locale_
  | m_connection_secure challenge_ => connection_secure channel_ challenge_
  | m_connection_secure_ok response_ => connection_secure_ok channel_ response_
  | m_connection_tune channel_max_ frame_max_ heartbeat_ => connection_tune channel_ channel_max_ frame_max_ heartbeat_
  | m_connection_tune_ok channel_max_ frame_max_ heartbeat_ => connection_tune_ok channel_ channel_max_ frame_max_ heartbeat_
  | m_connection_open virtual_host_ reserved_1_ reserved_2_ => connection_open channel_ virtual_host_ reserved_1_ reserved_2_
  | m_connection_open_ok reserved_1_ => connection_open_ok channel_ reserved_1_
  | m_connection_close reply_code_ reply_text_ class_id_ method_id_ => connection_close channel_ reply_code_ reply_text_ class_id_ method_id_
  | m_connection_close_ok => connection_close_ok channel_
  end.

Definition marshal_channel (channel_ : Z) (m : channel_method) : ST amqp_marshaller_t unit :=
  match m with
  | m_channel_open reserved_1_ => channel_open channel_ reserved_1_
  | m_channel_open_ok reserved_1_ => channel_open_ok channel_ reserved_1_
  | m_channel_flow active_ => channel_flow channel_ active_
  | m_channel_flow_ok active_ => channel_flow_ok channel_ active_
  | m_channel_close reply_code_ reply_text_ class_id_ method_id_ => channel_close channel_ reply_code_ reply_text_ class_id_ method_id_
  | m_channel_close_ok => channel_close_ok channel_
  end.

Definition marshal_exchange (channel_ : Z) (m : exchange_method) : ST amqp_marshaller_t unit :=
  match m with
  | m_exchange_declare reserved_1_ exchange_ type_ passive_ durable_ reserved_2_ reserved_3_ no_wait_ arguments_ => exchange_declare channel_ reserved_1_ exchange_ type_ passive_ durable_ reserved_2_ reserved_3_ no_wait_ arguments_
  | m_exchange_declare_ok => exchange_declare_ok channel_
  | m_exchange_delete reserved_1_ exchange_ if_unused_ no_wait_ => exchange_delete channel_ reserved_1_ exchange_ if_unused_ no_wait_
  | m_exchange_delete_ok => exchange_delete_ok channel_
  end.

Definition marshal_queue (channel_ : Z) (m : queue_method) : ST amqp_marshaller_t unit :=
  match m with
  | m_queue_declare reserved_1_ queue_ passive_ durable_ exclusive_ auto_delete_ no_wait_ arguments_ => queue_declare channel_ reserved_1_ queue_ passive_ durable_ exclusive_ auto_delete_ no_wait_ arguments_
  | m_queue_declare_ok queue_ message_count_ consumer_count_ => queue_declare_ok channel_ queue_ message_count_ consumer_count_
  | m_queue_bind reserved_1_ queue_ exchange_ routing_key_ no_wait_ arguments_ => queue_bind channel_ reserved_1_ queue_ exchange_ routing_key_ no_wait_ arguments_
  | m_queue_bind_ok => queue_bind_ok channel_
  | m_queue_unbind reserved_1_ queue_ exchange_ routing_key_ arguments_ => queue_unbind channel_ reserved_1_ queue_ exchange_ routing_key_ arguments_
  | m_queue_unbind_ok => queue_unbind_ok channel_
  | m_queue_purge reserved_1_ queue_ no_wait_ => queue_purge channel_ reserved_1_ queue_ no_wait_
  | m_queue_purge_ok message_count_ => queue_purge_ok channel_ message_count_
  | m_queue_delete reserved_1_ queue_ if_unused_ if_empty_ no_wait_ => queue_delete channel_ reserved_1_ queue_ if_unused_ if_empty_ no_wait_
  | m_queue_delete_ok message_count_ => queue_delete_ok channel_ message_count_
  end.

Definition marshal_basic (channel_ : Z) (m : basic_method) : ST amqp_marshaller_t unit :=
  match m with
  | m_basic_qos prefetch_size_ prefetch_count_ global_ => basic_qos channel_ prefetch_size_ prefetch_count_ global_
  | m_basic_qos_ok => basic_qos_ok channel_
  | m_basic_consume reserved_1_ queue_ consumer_tag_ no_local_ no_ack_ exclusive_ no_wait_ arguments_ => basic_consume channel_ reserved_1_ queue_ consumer_tag_ no_local_ no_ack_ exclusive_ no_wait_ arguments_
  | m_basic_consume_ok consumer_tag_ => basic_consume_ok channel_ consumer_tag_
  | m_basic_cancel consumer_tag_ no_wait_ => basic_cancel channel_ consumer_tag_ no_wait_
  | m_basic_cancel_ok consumer_tag_ => basic_cancel_ok channel_ consumer_tag_
  | m_basic_publish reserved_1_ exchange_ routing_key_ mandatory_ immediate_ => basic_publish channel_ reserved_1_ exchange_ routing_key_ mandatory_ immediate_
  | m_basic_return reply_code_ reply_text_ exchange_ routing_key_ => basic_return channel_ reply_code_ reply_text_ exchange_ routing_key_
  | m_basic_deliver consumer_tag_ delivery_tag_ redelivered_ exchange_ routing_key_ => basic_deliver channel_ consumer_tag_ delivery_tag_ redelivered_ exchange_ routing_key_
  | m_basic_get reserved_1_ queue_ no_ack_ => basic_get channel_ reserved_1_ queue_ no_ack_
  | m_basic_get_ok delivery_tag_ redelivered_ exchange_ routing_key_ message_count_ => basic_get_ok channel_ delivery_tag_ redelivered_ exchange_ routing_key_ message_count_
  | m_basic_get_empty reserved_1_ => basic_get_empty channel_ reserved_1_
  | m_basic_ack delivery_tag_ multiple_ => basic_ack channel_ delivery_tag_ multiple_
  | m_basic_reject delivery_tag_ requeue_ => basic_reject channel_ delivery_tag_ requeue_
  | m_basic_recover_async requeue_ => basic_recover_async channel_ requeue_
  | m_basic_recover requeue_ => basic_recover channel_ requeue_
  | m_basic_recover_ok => basic_recover_ok channel_
  end.

Definition marshal_tx (channel_ : Z) (m : tx_method) : ST amqp_marshaller_t unit :=
  match m with
  | m_tx_select => tx_select channel_
  | m_tx_select_ok => tx_select_ok channel_
  | m_tx_commit => tx_commit channel_
  | m_tx_commit_ok => tx_commit_ok channel_
  | m_tx_rollback => tx_rollback channel_
  | m_tx_rollback_ok => tx_rollback_ok channel_
  end.

(** The functions of the marshaller as an [i_amqp]. *)
Definition marshal : i_amqp amqp_marshaller_t := λ channel_ m,
  match m with
  | of_connection m => marshal_connection channel_ m
  | of_channel m => marshal_channel channel_ m
  | of_exchange m => marshal_exchange channel_ m
  | of_queue m => marshal_queue channel_ m
  | of_basic m => marshal_basic channel_ m
  | of_tx m => marshal_tx channel_ m
  end.
End marshaller.
