(* ===== verification/AmqpMarshalling.v ===== *)
(** The marshaller writes each method in its layout and queues it. *)
From S2P Require Import Prelude Attributes Wire Amqp AmqpLayout AmqpMarshaller.
Local Open Scope Z_scope.

(** [writes m l]: where there is room, [m] puts the bytes [l]. *)
Definition writes (m : ST args_t unit) (l : list Z) : Prop :=
  ∀ a, Z.of_nat (length (args a)) = frame_min_size → Z.of_nat (offset a + length l) ≤ frame_min_size →
  ∃ b, runs m a tt b ∧ length (args b) = length (args a) ∧ offset b = (offset a + length l)%nat ∧
    take (offset b) (args b) = take (offset a) (args a) ++ l.

Lemma writes_nothing : writes (mret tt) [].
Proof.
  intros a Ha Hl. exists a. split; [done|]. split; [done|]. simpl. rewrite Nat.add_0_r, app_nil_r. done.
Qed.

Lemma writes_seq m1 m2 l1 l2 : writes m1 l1 → writes m2 l2 → writes (m1 ;; m2) (l1 ++ l2).
Proof.
  intros H1 H2 a Ha Hl. rewrite length_app in Hl. destruct (H1 a) as (b & R1 & L1 & O1 & T1); [done|lia|].
  destruct (H2 b) as (c & R2 & L2 & O2 & T2); [congruence|lia|]. exists c. split; [by eapply runs_bind|].
  rewrite length_app. split; [congruence|]. split; [lia|]. by rewrite T2, T1, app_assoc.
Qed.

Lemma room_runs n a : Z.of_nat (offset a + n) ≤ frame_min_size → runs (room n) a tt a.
Proof. intros Hn. unfold runs, room, mbind, st_bind, st_get, st_assert. simpl. by destruct (Z.leb_spec (Z.of_nat (offset a + n)) frame_min_size); [|lia]. Qed.

Lemma writes_room n m l : (n ≤ length l)%nat → writes m l → writes (room n ;; m) l.
Proof.
  intros Hn Hm a Ha Hl. destruct (Hm a Ha Hl) as (b & Hr & Hb). exists b. split; [|done].
  eapply runs_bind; [apply room_runs; lia|done].
Qed.

Lemma writes_value {n put get} `{!WireFormat n put get} v : writes (put_value n put v) (put (replicate n 0) v).
Proof.
  assert (length (put (replicate n 0) v) = n) as Hn by (rewrite wire_put_length; apply length_replicate).
  intros a Ha Hl. rewrite Hn in *. eexists. split; [done|]. simpl. rewrite put_at by lia.
  split; [rewrite !length_app, Hn, length_take, length_drop; lia|]. split; [done|].
  rewrite app_assoc. apply take_app_length'. rewrite length_app, Hn, length_take. lia.
Qed.

Lemma writes_bytes b : writes (put_bytes b) b.
Proof.
  intros a Ha Hl. destruct (overwrite_spec (offset a) b (args a)) as (l & E & Hlen & Ht); [lia|].
  exists (Args l (offset a + length b)). split; [|done].
  unfold runs, put_bytes, mbind, st_bind, st_get. simpl. by rewrite E.
Qed.

Lemma writes_eq m l l' : l = l' → writes m l → writes m l'.
Proof. by intros ->. Qed.

(** ** The fields *)

Lemma writes_octet v : writes (put_value 1 put_uint8 v) (octet v).
Proof. with_strategy transparent [octet] apply writes_value. Qed.
Lemma writes_short v : writes (put_value 2 put_uint16 v) (short v).
Proof. with_strategy transparent [short] apply writes_value. Qed.
Lemma writes_long v : writes (put_value 4 put_uint32 v) (long v).
Proof. with_strategy transparent [long] apply writes_value. Qed.
Lemma writes_longlong v : writes (put_value 8 put_uint64 v) (longlong v).
Proof. with_strategy transparent [longlong] apply writes_value. Qed.
#[local] Hint Resolve writes_octet writes_short writes_long writes_longlong writes_bytes : core.

Lemma writes_uint8 v : writes (arg_uint8 v) (octet v).
Proof. apply writes_room; [by rewrite length_octet|auto]. Qed.
Lemma writes_uint16 v : writes (arg_uint16 v) (short v).
Proof. apply writes_room; [by rewrite length_short|auto]. Qed.
Lemma writes_uint32 v : writes (arg_uint32 v) (long v).
Proof. apply writes_room; [by rewrite length_long|auto]. Qed.
Lemma writes_uint64 v : writes (arg_uint64 v) (longlong v).
Proof. apply writes_room; [by rewrite length_longlong|auto]. Qed.

Lemma writes_shortstr s : writes (arg_shortstr s) (octet (size s) ++ s).
Proof. apply writes_room; [rewrite length_app, ?length_octet, ?length_long; lia|]. apply writes_seq; auto. Qed.
Lemma writes_longstr s : writes (arg_longstr s) (long (size s) ++ s).
Proof. apply writes_room; [rewrite length_app, ?length_octet, ?length_long; lia|]. apply writes_seq; auto. Qed.

Lemma pack_bits_value l i : 0 ≤ i → pack_bits i l = Z.shiftl (bits_value l) i.
Proof.
  revert i. induction l as [|b l IH]; intros i Hi; simpl; [by rewrite Z.shiftl_0_l|]. rewrite IH by lia.
  rewrite !Z.shiftl_mul_pow2 by lia. rewrite Z.pow_add_r by lia.
  rewrite Z.lor_comm. replace (bits_value l * (2 ^ i * 2 ^ 1)) with (Z.shiftl (bits_value l) (i + 1)).
  - rewrite lor_shift_add; [rewrite Z.pow_add_r by lia; destruct b; simpl; lia|lia|].
    rewrite Z.pow_add_r by lia. destruct b; simpl; lia.
  - rewrite Z.shiftl_mul_pow2 by lia. by rewrite Z.pow_add_r by lia.
Qed.

Lemma writes_bits l : writes (arg_bits l) (octet (bits_value l)).
Proof.
  apply writes_room; [by rewrite length_octet|]. by rewrite pack_bits_value, Z.shiftl_0_r.
Qed.

Lemma length_field_entry name value : length (field_entry (name, value)) = put_field_size name value.
Proof. unfold field_entry, put_field_size. simpl. rewrite !length_app, !length_bytes_of, length_octet, length_long, length_octet. lia. Qed.

Lemma writes_field name value : writes (put_field name value) (field_entry (name, value)).
Proof.
  unfold put_field, field_entry, size. simpl. rewrite !length_bytes_of. apply writes_room.
  { rewrite !length_app, length_bytes_of, length_octet. lia. }
  apply writes_seq; [auto|]. apply writes_seq; [auto|].
  apply writes_room; [rewrite length_app, length_octet; lia|]. apply writes_seq; [auto|].
  apply writes_room; [rewrite length_app, length_bytes_of, length_long; lia|].
  apply writes_seq; auto.
Qed.

(** The loop writes the entries and adds up their sizes. *)
Lemma put_fields_writes l : ∀ n a, let b := concat (field_entry <$> l) in
  Z.of_nat (length (args a)) = frame_min_size → Z.of_nat (offset a + length b) ≤ frame_min_size →
  ∃ a', runs (put_fields l n) a (n + length b)%nat a' ∧ length (args a') = length (args a) ∧
    offset a' = (offset a + length b)%nat ∧ take (offset a') (args a') = take (offset a) (args a) ++ b.
Proof.
  induction l as [|[name value] l IH]; intros n a b Ha Hb; unfold b in *; csimpl in *.
  { exists a. rewrite !Nat.add_0_r, app_nil_r. done. }
  rewrite length_app, length_field_entry in *.
  destruct (writes_field name value a Ha) as (a1 & R1 & L1 & O1 & T1); rewrite ?length_field_entry in *; [lia|].
  destruct (IH (n + put_field_size name value)%nat a1) as (a2 & R2 & L2 & O2 & T2); [congruence|lia|].
  exists a2. split; [|split; [congruence|]; split; [lia|by rewrite T2, T1, app_assoc]].
  rewrite Nat.add_assoc. by eapply runs_bind.
Qed.

Lemma writes_table t : writes (put_field_table t) (long (size (table_entries t)) ++ table_entries t).
Proof.
  intros a Ha Hl. rewrite length_app, length_long in Hl. unfold put_field_table.
  destruct (put_fields_writes (in_key_order t) 0 (a <| offset := (offset a + 4)%nat |>)) as (b & R & L & O & T);
    [done|simpl; unfold table_entries in *; lia|]. fold (table_entries t) in *. simpl in *.
  eexists. split.
  { eapply runs_bind; [apply room_runs; lia|]. eapply runs_bind; [done|]. by eapply runs_bind. }
  replace (offset b - length (table_entries t) - 4)%nat with (offset a) by lia. simpl.
  rewrite put_at_long by lia. rewrite (length_app (long (size (table_entries t)))), length_long.
  split; [rewrite !length_app, length_long, length_take, length_drop; lia|]. split; [lia|].
  rewrite O in T |- *. pose proof (f_equal (take (offset a)) T) as Ta. pose proof (f_equal (drop (offset a + 4)) T) as Td.
  rewrite take_take, Nat.min_l, take_app_le in Ta by (rewrite ?length_take; lia). rewrite take_take, Nat.min_l in Ta by lia.
  rewrite (drop_app_length' (take _ (args a))) in Td by (rewrite length_take; lia).
  rewrite Ta, take_app_ge by (rewrite length_take; lia). f_equal. rewrite length_take, Nat.min_l by lia.
  rewrite take_app_ge by (rewrite length_long; lia). f_equal. rewrite length_long, <- Td, skipn_firstn_comm. rewrite length_take, length_drop. f_equal. lia.
Qed.

(** ** The methods *)

Lemma writes_last m l : writes m l → writes m (l ++ []).
Proof. by rewrite app_nil_r. Qed.

Create HintDb amqp_writes.
#[export] Hint Resolve writes_uint8 writes_uint16 writes_uint32 writes_uint64 writes_shortstr writes_longstr writes_bits
  writes_table : amqp_writes.

(** The bytes that a function fills in, field by field. *)
Ltac writes_fields :=
  unfold method_bytes, fields_bytes; csimpl;
  repeat first
    [ eapply writes_seq; [solve [auto with amqp_writes]|]
    | apply writes_last; solve [auto with amqp_writes]
    | apply writes_nothing ].

Section marshalling.
Context (malloc : list Z) (Hmalloc : size malloc = frame_min_size).

Definition command_of (channel_ : Z) (m : amqp_method) (c : command_t) : Prop :=
  channel c = channel_ ∧ class_id c = class_of m ∧ method_id c = method_of m ∧
  args_size c = length (method_bytes m) ∧ take (args_size c) (cmd_args c) = method_bytes m ∧ size (cmd_args c) = frame_min_size.

Lemma new_command_queues channel_ m fill q : writes fill (method_bytes m) → size (method_bytes m) ≤ frame_min_size →
  ∃ c, runs (new_command malloc channel_ (class_of m) (method_of m) fill) (Marshaller q) tt (Marshaller (q ++ [c])) ∧
    command_of channel_ m c.
Proof using Hmalloc.
  intros Hw Hs. destruct (Hw (Args malloc 0)) as (a & Hr & L & O & T); [done|done|]. simpl in *.
  exists (Command channel_ (class_of m) (method_of m) (args a) (offset a)). split.
  - unfold runs, new_command, st_lift, mbind, st_bind in *. by rewrite Hr.
  - unfold command_of. simpl. rewrite T. unfold size in *. split_and!; try done; congruence.
Qed.

Lemma marshal_queues channel_ m q : size (method_bytes m) ≤ frame_min_size →
  ∃ c, runs (marshal malloc channel_ m) (Marshaller q) tt (Marshaller (q ++ [c])) ∧ command_of channel_ m c.
Proof using Hmalloc.
  intros Hs. destruct m as [[]|[]|[]|[]|[]|[]];
    (match goal with |- ∃ c, runs (marshal _ _ ?m) _ _ _ ∧ _ => eapply (new_command_queues channel_ m); [|exact Hs] end);
    writes_fields.
Qed.
End marshalling.
