(* ===== verification/AmqpUnmarshaller.v ===== *)
(** The binary form of methods turned into calls of [i_amqp]
    ([src/libzmq/amqp_unmarshaller.cpp]): one case per method. *)
From S2P Require Import Prelude Attributes Wire Amqp.
From stdpp Require Import pretty.
Local Open Scope Z_scope.

(** ** Reading arguments *)

(** [args], [args_size] and [offset]. *)
Record reader_t := Reader { r_args : list Z; r_size : nat; r_offset : nat }.
#[export] Instance eta_reader : Eta reader_t := λ r, Reader (r_args r) (r_size r) (r_offset r).

Definition has (n : nat) : ST reader_t unit := r ← st_get; st_assert (r_offset r + n <=? r_size r)%nat.
Definition advance (n : nat) : ST reader_t unit := st_modify (λ r, r <| r_offset := (r_offset r + n)%nat |>).

(** [get (args + offset); offset += n;] *)
Definition get_value {A} (n : nat) (get : list Z → A) : ST reader_t A :=
  has n ;; r ← st_get; advance n ;; mret (get (drop (r_offset r) (r_args r))).

Definition get_bytes (n : nat) : ST reader_t (list Z) := get_value n (take n).

Definition arg_uint8 : ST reader_t Z := get_value 1 get_uint8.
Definition arg_uint16 : ST reader_t Z := get_value 2 get_uint16.
Definition arg_uint32 : ST reader_t Z := get_value 4 get_uint32.
Definition arg_uint64 : ST reader_t Z := get_value 8 get_uint64.
Definition arg_shortstr : ST reader_t shortstr_t := size ← arg_uint8; get_bytes (Z.to_nat size).
Definition arg_longstr : ST reader_t longstr_t := size ← arg_uint32; get_bytes (Z.to_nat size).

(** The byte at the offset, which stays; [(b & (0x1 << i)) != 0]. *)
Definition arg_bits : ST reader_t Z := has 1 ;; r ← st_get; mret (get_uint8 (drop (r_offset r) (r_args r))).
Definition bit (b : Z) (i : Z) : bool := negb (Z.land b (Z.shiftl 1 i) =? 0).

(** *** Field tables *)

(** One field: its name, its value and the bytes counted for it. *)
Definition get_field : ST reader_t (string * string * nat) :=
  field_name_size ← arg_uint8;
  field_name ← get_bytes (Z.to_nat field_name_size);
  field_type ← arg_uint8;
  if field_type =? 83 then
    field_value_size ← arg_uint32;
    field_value ← get_bytes (Z.to_nat field_value_size);
    mret (string_of field_name, string_of field_value,
      (1 + length field_name + 1 + 4 + length field_value)%nat)
  else if field_type =? 73 then
    value ← arg_uint32;
    mret (string_of field_name, pretty (u16 value), (1 + length field_name + 1 + 4)%nat)
  else st_crash AssertFailed.

(** [while (pos != table_size)]; each turn reads two bytes at least. *)
Fixpoint get_fields (fuel : nat) (table_size : Z) (pos : nat) (table_ : field_table_t) : ST reader_t field_table_t :=
  if Z.of_nat pos =? table_size then mret table_
  else
    match fuel with
    | O => st_crash OutOfFuel
    | S fuel =>
        '(field_name, field_value, n) ← get_field;
        get_fields fuel table_size (pos + n) (<[field_name := field_value]> table_)
    end.

(** The offset is passed by value: the caller's stays where it was. *)
Definition get_field_table : ST reader_t field_table_t :=
  r ← st_get;
  table_size ← arg_uint32;
  table_ ← get_fields (r_size r) table_size 0 ∅;
  st_modify (λ r', r' <| r_offset := r_offset r |>) ;;
  mret table_.

(** *** Class connection *)

Definition get_connection_start : ST reader_t amqp_method :=
  version_major ← arg_uint8; version_minor ← arg_uint8; server_properties ← get_field_table;
  mechanisms ← arg_longstr; locales ← arg_longstr;
  mret (of_connection (m_connection_start version_major version_minor server_properties mechanisms locales)).

Definition get_connection_start_ok : ST reader_t amqp_method :=
  client_properties ← get_field_table; mechanism ← arg_shortstr; response ← arg_longstr;
  locale ← arg_shortstr; mret (of_connection (m_connection_start_ok client_properties mechanism response locale)).

Definition get_connection_secure : ST reader_t amqp_method :=
  challenge ← arg_longstr; mret (of_connection (m_connection_secure challenge)).

Definition get_connection_secure_ok : ST reader_t amqp_method :=
  response ← arg_longstr; mret (of_connection (m_connection_secure_ok response)).

Definition get_connection_tune : ST reader_t amqp_method :=
  channel_max ← arg_uint16; frame_max ← arg_uint32; heartbeat ← arg_uint16;
  mret (of_connection (m_connection_tune channel_max frame_max heartbeat)).

Definition get_connection_tune_ok : ST reader_t amqp_method :=
  channel_max ← arg_uint16; frame_max ← arg_uint32; heartbeat ← arg_uint16;
  mret (of_connection (m_connection_tune_ok channel_max frame_max heartbeat)).

Definition get_connection_open : ST reader_t amqp_method :=
  virtual_host ← arg_shortstr; reserved_1 ← arg_shortstr; bits ← arg_bits;
  mret (of_connection (m_connection_open virtual_host reserved_1 (bit bits 0))).

Definition get_connection_open_ok : ST reader_t amqp_method :=
  reserved_1 ← arg_shortstr; mret (of_connection (m_connection_open_ok reserved_1)).

Definition get_connection_close : ST reader_t amqp_method :=
  reply_code ← arg_uint16; reply_text ← arg_shortstr; class_id ← arg_uint16; method_id ← arg_uint16;
  mret (of_connection (m_connection_close reply_code reply_text class_id method_id)).

Definition get_connection_close_ok : ST reader_t amqp_method :=
  mret (of_connection m_connection_close_ok).

(** *** Class channel *)

Definition get_channel_open : ST reader_t amqp_method :=
  reserved_1 ← arg_shortstr; mret (of_channel (m_channel_open reserved_1)).

Definition get_channel_open_ok : ST reader_t amqp_method :=
  reserved_1 ← arg_longstr; mret (of_channel (m_channel_open_ok reserved_1)).

Definition get_channel_flow : ST reader_t amqp_method :=
  bits ← arg_bits; mret (of_channel (m_channel_flow (bit bits 0))).

Definition get_channel_flow_ok : ST reader_t amqp_method :=
  bits ← arg_bits; mret (of_channel (m_channel_flow_ok (bit bits 0))).

Definition get_channel_close : ST reader_t amqp_method :=
  reply_code ← arg_uint16; reply_text ← arg_shortstr; class_id ← arg_uint16; method_id ← arg_uint16;
  mret (of_channel (m_channel_close reply_code reply_text class_id method_id)).

Definition get_channel_close_ok : ST reader_t amqp_method :=
  mret (of_channel m_channel_close_ok).

(** *** Class exchange *)

Definition get_exchange_declare : ST reader_t amqp_method :=
  reserved_1 ← arg_uint16; exchange ← arg_shortstr; type ← arg_shortstr; bits ← arg_bits; advance 1 ;;
  arguments ← get_field_table;
  mret (of_exchange (m_exchange_declare reserved_1 exchange type (bit bits 0) (bit bits 1) (bit bits 2) (bit bits 3) (bit bits 4) arguments)).

Definition get_exchange_declare_ok : ST reader_t amqp_method :=
  mret (of_exchange m_exchange_declare_ok).

Definition get_exchange_delete : ST reader_t amqp_method :=
  reserved_1 ← arg_uint16; exchange ← arg_shortstr; bits ← arg_bits;
  mret (of_exchange (m_exchange_delete reserved_1 exchange (bit bits 0) (bit bits 1))).

Definition get_exchange_delete_ok : ST reader_t amqp_method :=
  mret (of_exchange m_exchange_delete_ok).

(** *** Class queue *)

Definition get_queue_declare : ST reader_t amqp_method :=
  reserved_1 ← arg_uint16; queue ← arg_shortstr; bits ← arg_bits; advance 1 ;; arguments ← get_field_table;
  mret (of_queue (m_queue_declare reserved_1 queue (bit bits 0) (bit bits 1) (bit bits 2) (bit bits 3) (bit bits 4) arguments)).

Definition get_queue_declare_ok : ST reader_t amqp_method :=
  queue ← arg_shortstr; message_count ← arg_uint32; consumer_count ← arg_uint32;
  mret (of_queue (m_queue_declare_ok queue message_count consumer_count)).

Definition get_queue_bind : ST reader_t amqp_method :=
  reserved_1 ← arg_uint16; queue ← arg_shortstr; exchange ← arg_shortstr; routing_key ← arg_shortstr;
  bits ← arg_bits; advance 1 ;; arguments ← get_field_table;
  mret (of_queue (m_queue_bind reserved_1 queue exchange routing_key (bit bits 0) arguments)).

Definition get_queue_bind_ok : ST reader_t amqp_method :=
  mret (of_queue m_queue_bind_ok).

Definition get_queue_unbind : ST reader_t amqp_method :=
  reserved_1 ← arg_uint16; queue ← arg_shortstr; exchange ← arg_shortstr; routing_key ← arg_shortstr;
  arguments ← get_field_table; mret (of_queue (m_queue_unbind reserved_1 queue exchange routing_key arguments)).

Definition get_queue_unbind_ok : ST reader_t amqp_method :=
  mret (of_queue m_queue_unbind_ok).

Definition get_queue_purge : ST reader_t amqp_method :=
  reserved_1 ← arg_uint16; queue ← arg_shortstr; bits ← arg_bits;
  mret (of_queue (m_queue_purge reserved_1 queue (bit bits 0))).

Definition get_queue_purge_ok : ST reader_t amqp_method :=
  message_count ← arg_uint32; mret (of_queue (m_queue_purge_ok message_count)).

Definition get_queue_delete : ST reader_t amqp_method :=
  reserved_1 ← arg_uint16; queue ← arg_shortstr; bits ← arg_bits;
  mret (of_queue (m_queue_delete reserved_1 queue (bit bits 0) (bit bits 1) (bit bits 2))).

Definition get_queue_delete_ok : ST reader_t amqp_method :=
  message_count ← arg_uint32; mret (of_queue (m_queue_delete_ok message_count)).

(** *** Class basic *)

Definition get_basic_qos : ST reader_t amqp_method :=
  prefetch_size ← arg_uint32; prefetch_count ← arg_uint16; bits ← arg_bits;
  mret (of_basic (m_basic_qos prefetch_size prefetch_count (bit bits 0))).

Definition get_basic_qos_ok : ST reader_t amqp_method :=
  mret (of_basic m_basic_qos_ok).

Definition get_basic_consume : ST reader_t amqp_method :=
  reserved_1 ← arg_uint16; queue ← arg_shortstr; consumer_tag ← arg_shortstr; bits ← arg_bits; advance 1 ;;
  arguments ← get_field_table;
  mret (of_basic (m_basic_consume reserved_1 queue consumer_tag (bit bits 0) (bit bits 1) (bit bits 2) (bit bits 3) arguments)).

Definition get_basic_consume_ok : ST reader_t amqp_method :=
  consumer_tag ← arg_shortstr; mret (of_basic (m_basic_consume_ok consumer_tag)).

Definition get_basic_cancel : ST reader_t amqp_method :=
  consumer_tag ← arg_shortstr; bits ← arg_bits; mret (of_basic (m_basic_cancel consumer_tag (bit bits 0))).

Definition get_basic_cancel_ok : ST reader_t amqp_method :=
  consumer_tag ← arg_shortstr; mret (of_basic (m_basic_cancel_ok consumer_tag)).

Definition get_basic_publish : ST reader_t amqp_method :=
  reserved_1 ← arg_uint16; exchange ← arg_shortstr; routing_key ← arg_shortstr; bits ← arg_bits;
  mret (of_basic (m_basic_publish reserved_1 exchange routing_key (bit bits 0) (bit bits 1))).

Definition get_basic_return : ST reader_t amqp_method :=
  reply_code ← arg_uint16; reply_text ← arg_shortstr; exchange ← arg_shortstr; routing_key ← arg_shortstr;
  mret (of_basic (m_basic_return reply_code reply_text exchange routing_key)).

Definition get_basic_deliver : ST reader_t amqp_method :=
  consumer_tag ← arg_shortstr; delivery_tag ← arg_uint64; bits ← arg_bits; advance 1 ;;
  exchange ← arg_shortstr; routing_key ← arg_shortstr;
  mret (of_basic (m_basic_deliver consumer_tag delivery_tag (bit bits 0) exchange routing_key)).

Definition get_basic_get : ST reader_t amqp_method :=
  reserved_1 ← arg_uint16; queue ← arg_shortstr; bits ← arg_bits;
  mret (of_basic (m_basic_get reserved_1 queue (bit bits 0))).

Definition get_basic_get_ok : ST reader_t amqp_method :=
  delivery_tag ← arg_uint64; bits ← arg_bits; advance 1 ;; exchange ← arg_shortstr;
  routing_key ← arg_shortstr; message_count ← arg_uint32;
  mret (of_basic (m_basic_get_ok delivery_tag (bit bits 0) exchange routing_key message_count)).

Definition get_basic_get_empty : ST reader_t amqp_method :=
  reserved_1 ← arg_shortstr; mret (of_basic (m_basic_get_empty reserved_1)).

Definition get_basic_ack : ST reader_t amqp_method :=
  delivery_tag ← arg_uint64; bits ← arg_bits; mret (of_basic (m_basic_ack delivery_tag (bit bits 0))).

Definition get_basic_reject : ST reader_t amqp_method :=
  delivery_tag ← arg_uint64; bits ← arg_bits; mret (of_basic (m_basic_reject delivery_tag (bit bits 0))).

Definition get_basic_recover_async : ST reader_t amqp_method :=
  bits ← arg_bits; mret (of_basic (m_basic_recover_async (bit bits 0))).

Definition get_basic_recover : ST reader_t amqp_method :=
  bits ← arg_bits; mret (of_basic (m_basic_recover (bit bits 0))).

Definition get_basic_recover_ok : ST reader_t amqp_method :=
  mret (of_basic m_basic_recover_ok).

(** *** Class tx *)

Definition get_tx_select : ST reader_t amqp_method :=
  mret (of_tx m_tx_select).

Definition get_tx_select_ok : ST reader_t amqp_method :=
  mret (of_tx m_tx_select_ok).

Definition get_tx_commit : ST reader_t amqp_method :=
  mret (of_tx m_tx_commit).

Definition get_tx_commit_ok : ST reader_t amqp_method :=
  mret (of_tx m_tx_commit_ok).

Definition get_tx_rollback : ST reader_t amqp_method :=
  mret (of_tx m_tx_rollback).

Definition get_tx_rollback_ok : ST reader_t amqp_method :=
  mret (of_tx m_tx_rollback_ok).

(** ** The two switches *)

Definition call (m : ST reader_t amqp_method) : ST reader_t (option amqp_method) := x ← m; mret (Some x).

(** A class without the method has no [break]: the next class is tried. *)
Definition write_connection (method_id : Z) (next_class : ST reader_t (option amqp_method)) : ST reader_t (option amqp_method) :=
  if method_id =? connection_start_id then call get_connection_start
  else if method_id =? connection_start_ok_id then call get_connection_start_ok
  else if method_id =? connection_secure_id then call get_connection_secure
  else if method_id =? connection_secure_ok_id then call get_connection_secure_ok
  else if method_id =? connection_tune_id then call get_connection_tune
  else if method_id =? connection_tune_ok_id then call get_connection_tune_ok
  else if method_id =? connection_open_id then call get_connection_open
  else if method_id =? connection_open_ok_id then call get_connection_open_ok
  else if method_id =? connection_close_id then call get_connection_close
  else if method_id =? connection_close_ok_id then call get_connection_close_ok
  else next_class.

Definition write_channel (method_id : Z) (next_class : ST reader_t (option amqp_method)) : ST reader_t (option amqp_method) :=
  if method_id =? channel_open_id then call get_channel_open
  else if method_id =? channel_open_ok_id then call get_channel_open_ok
  else if method_id =? channel_flow_id then call get_channel_flow
  else if method_id =? channel_flow_ok_id then call get_channel_flow_ok
  else if method_id =? channel_close_id then call get_channel_close
  else if method_id =? channel_close_ok_id then call get_channel_close_ok
  else next_class.

Definition write_exchange (method_id : Z) (next_class : ST reader_t (option amqp_method)) : ST reader_t (option amqp_method) :=
  if method_id =? exchange_declare_id then call get_exchange_declare
  else if method_id =? exchange_declare_ok_id then call get_exchange_declare_ok
  else if method_id =? exchange_delete_id then call get_exchange_delete
  else if method_id =? exchange_delete_ok_id then call get_exchange_delete_ok
  else next_class.

Definition write_queue (method_id : Z) (next_class : ST reader_t (option amqp_method)) : ST reader_t (option amqp_method) :=
  if method_id =? queue_declare_id then call get_queue_declare
  else if method_id =? queue_declare_ok_id then call get_queue_declare_ok
  else if method_id =? queue_bind_id then call get_queue_bind
  else if method_id =? queue_bind_ok_id then call get_queue_bind_ok
  else if method_id =? queue_unbind_id then call get_queue_unbind
  else if method_id =? queue_unbind_ok_id then call get_queue_unbind_ok
  else if method_id =? queue_purge_id then call get_queue_purge
  else if method_id =? queue_purge_ok_id then call get_queue_purge_ok
  else if method_id =? queue_delete_id then call get_queue_delete
  else if method_id =? queue_delete_ok_id then call get_queue_delete_ok
  else next_class.

Definition write_basic (method_id : Z) (next_class : ST reader_t (option amqp_method)) : ST reader_t (option amqp_method) :=
  if method_id =? basic_qos_id then call get_basic_qos
  else if method_id =? basic_qos_ok_id then call get_basic_qos_ok
  else if method_id =? basic_consume_id then call get_basic_consume
  else if method_id =? basic_consume_ok_id then call get_basic_consume_ok
  else if method_id =? basic_cancel_id then call get_basic_cancel
  else if method_id =? basic_cancel_ok_id then call get_basic_cancel_ok
  else if method_id =? basic_publish_id then call get_basic_publish
  else if method_id =? basic_return_id then call get_basic_return
  else if method_id =? basic_deliver_id then call get_basic_deliver
  else if method_id =? basic_get_id then call get_basic_get
  else if method_id =? basic_get_ok_id then call get_basic_get_ok
  else if method_id =? basic_get_empty_id then call get_basic_get_empty
  else if method_id =? basic_ack_id then call get_basic_ack
  else if method_id =? basic_reject_id then call get_basic_reject
  else if method_id =? basic_recover_async_id then call get_basic_recover_async
  else if method_id =? basic_recover_id then call get_basic_recover
  else if method_id =? basic_recover_ok_id then call get_basic_recover_ok
  else next_class.

Definition write_tx (method_id : Z) (next_class : ST reader_t (option amqp_method)) : ST reader_t (option amqp_method) :=
  if method_id =? tx_select_id then call get_tx_select
  else if method_id =? tx_select_ok_id then call get_tx_select_ok
  else if method_id =? tx_commit_id then call get_tx_commit
  else if method_id =? tx_commit_ok_id then call get_tx_commit_ok
  else if method_id =? tx_rollback_id then call get_tx_rollback
  else if method_id =? tx_rollback_ok_id then call get_tx_rollback_ok
  else next_class.

(** The call that a method frame stands for, if any. *)
Definition unmarshal (class_id method_id : Z) : ST reader_t (option amqp_method) :=
  let from_tx := write_tx method_id (mret None) in
  let from_basic := write_basic method_id from_tx in
  let from_queue := write_queue method_id from_basic in
  let from_exchange := write_exchange method_id from_queue in
  let from_channel := write_channel method_id from_exchange in
  let from_connection := write_connection method_id from_channel in
  if class_id =? connection_id then from_connection
  else if class_id =? channel_id then from_channel
  else if class_id =? exchange_id then from_exchange
  else if class_id =? queue_id then from_queue
  else if class_id =? basic_id then from_basic
  else if class_id =? tx_id then from_tx
  else mret None.

Definition unmarshaller_write {X} (callback : i_amqp X) (channel_ class_id method_id : Z) (args : list Z)
    (args_size : nat) : ST X unit :=
  o ← st_lift (λ _, Reader args args_size 0) (λ _ x, x) (unmarshal class_id method_id);
  match o with Some m => callback channel_ m | None => mret tt end.
