(* ===== verification/AmqpUnmarshalling.v ===== *)
(** The unmarshaller reads the layout of a method and makes the call. *)
From S2P Require Import Prelude Attributes Wire Amqp AmqpLayout AmqpMarshaller AmqpMarshalling AmqpUnmarshaller.
Local Open Scope Z_scope.

(** [reads m l a]: from the bytes [l], [m] gives [a] and moves past them;
    [decodes m l a]: it gives [a], wherever it stops. *)
Definition at_bytes (s : reader_t) (l : list Z) : Prop :=
  (∃ rest, drop (r_offset s) (r_args s) = l ++ rest) ∧ (r_offset s + length l ≤ r_size s)%nat.

Definition reads {A} (m : ST reader_t A) (l : list Z) (a : A) : Prop :=
  ∀ s, at_bytes s l → runs m s a (s <| r_offset := (r_offset s + length l)%nat |>).

Definition decodes {A} (m : ST reader_t A) (l : list Z) (a : A) : Prop := ∀ s, at_bytes s l → ∃ s', runs m s a s'.

Lemma at_bytes_app s l1 l2 : at_bytes s (l1 ++ l2) →
  at_bytes s l1 ∧ at_bytes (s <| r_offset := (r_offset s + length l1)%nat |>) l2.
Proof.
  intros [[rest E] Hl]. rewrite length_app in Hl. split; (split; [|simpl; lia]).
  - exists (l2 ++ rest). by rewrite app_assoc.
  - exists rest. simpl. rewrite <- drop_drop, E, <- app_assoc. by apply drop_app_length'.
Qed.

Lemma reads_ret {A} (a : A) : reads (mret a) [] a.
Proof. intros s _. simpl. rewrite Nat.add_0_r. by destruct s. Qed.

Lemma reads_bind {A B} (m : ST reader_t A) (k : A → ST reader_t B) l1 l2 a b :
  reads m l1 a → reads (k a) l2 b → reads (m ≫= k) (l1 ++ l2) b.
Proof.
  intros H1 H2 s [A1 A2]%at_bytes_app. eapply runs_bind; [by apply H1|]. rewrite length_app, Nat.add_assoc.
  exact (H2 _ A2).
Qed.

Lemma decodes_bind {A B} (m : ST reader_t A) (k : A → ST reader_t B) l1 l2 a b :
  reads m l1 a → decodes (k a) l2 b → decodes (m ≫= k) (l1 ++ l2) b.
Proof.
  intros H1 H2 s [A1 A2]%at_bytes_app. destruct (H2 _ A2) as [s' Hr]. exists s'. eapply runs_bind; [by apply H1|done].
Qed.

Lemma decodes_ret {A} (a : A) l : decodes (mret a) l a.
Proof. intros s _. by exists s. Qed.

Lemma has_runs s n l : at_bytes s l → (n ≤ length l)%nat → runs (has n) s tt s.
Proof.
  intros [_ Hl] Hn. unfold runs, has, mbind, st_bind, st_get, st_assert. simpl.
  by destruct (Nat.leb_spec (r_offset s + n) (r_size s)); [|lia].
Qed.

(** ** Fields *)

Lemma reads_value {A} n (get : list Z → A) l a : length l = n → (∀ rest, get (l ++ rest) = a) → reads (get_value n get) l a.
Proof.
  intros Hn Ha s Hs. eapply runs_bind; [eapply has_runs; [done|lia]|]. destruct Hs as [[rest E] _].
  unfold runs, mbind, st_bind, st_get. simpl. rewrite E, Ha. by rewrite <- Hn.
Qed.

Lemma reads_wire {n put get} `{!WireFormat n put get} v : in_u (8 * Z.of_nat n) v →
  reads (get_value n get) (put (replicate n 0) v) v.
Proof.
  intros Hv. assert (length (put (replicate n 0) v) = n) as Hn by (rewrite wire_put_length; apply length_replicate).
  apply reads_value; [done|]. intros rest. rewrite wire_get_app by done. rewrite wire_get_put by (rewrite length_replicate; lia).
  by apply wrap_small.
Qed.

Lemma reads_uint8 v : in_u 8 v → reads arg_uint8 (octet v) v.
Proof. with_strategy transparent [octet] apply (reads_wire (n := 1)). Qed.
Lemma reads_uint16 v : in_u 16 v → reads arg_uint16 (short v) v.
Proof. with_strategy transparent [short] apply (reads_wire (n := 2)). Qed.
Lemma reads_uint32 v : in_u 32 v → reads arg_uint32 (long v) v.
Proof. with_strategy transparent [long] apply (reads_wire (n := 4)). Qed.
Lemma reads_uint64 v : in_u 64 v → reads arg_uint64 (longlong v) v.
Proof. with_strategy transparent [longlong] apply (reads_wire (n := 8)). Qed.

Lemma reads_bytes n b : n = length b → reads (get_bytes n) b b.
Proof. intros ->. apply reads_value; [done|]. intros rest. by rewrite take_app_length. Qed.

Lemma reads_shortstr s : size s < 2 ^ 8 → reads arg_shortstr (octet (size s) ++ s) s.
Proof.
  intros Hs. eapply reads_bind; [apply reads_uint8; unfold in_u, size in *; lia|].
  apply reads_bytes. unfold size. lia.
Qed.
Lemma reads_longstr s : size s < 2 ^ 32 → reads arg_longstr (long (size s) ++ s) s.
Proof.
  intros Hs. eapply reads_bind; [apply reads_uint32; unfold in_u, size in *; lia|].
  apply reads_bytes. unfold size. lia.
Qed.

Lemma reads_advance b : length b = 1%nat → reads (advance 1) b tt.
Proof. intros Hb s _. unfold runs, advance, st_modify. by rewrite Hb. Qed.

Lemma bits_value_bound l : 0 ≤ bits_value l < 2 ^ size l.
Proof.
  unfold size. induction l as [|b l IH]; simpl; [lia|]. rewrite Nat2Z.inj_succ, Z.pow_succ_r by lia. destruct b; simpl; lia.
Qed.

Lemma bits_value_in_u8 l : (length l ≤ 8)%nat → in_u 8 (bits_value l).
Proof.
  intros Hl. pose proof (bits_value_bound l). assert (2 ^ size l ≤ 2 ^ 8) by (apply Z.pow_le_mono_r; unfold size; lia).
  unfold in_u. lia.
Qed.

Lemma bit_of l i : 0 ≤ i → bit (bits_value l) i = nth (Z.to_nat i) l false.
Proof.
  intros Hi. assert (∀ v, 0 ≤ v → bit v i = Z.testbit v i) as Hb.
  { intros v Hv. unfold bit. rewrite Z.shiftl_1_l. destruct (Z.testbit v i) eqn:E.
    - apply negb_true_iff, Z.eqb_neq. intros H0. pose proof (f_equal (λ z, Z.testbit z i) H0) as Ht. cbv beta in Ht.
      rewrite Z.land_spec, E, Z.pow2_bits_true, Z.bits_0 in Ht by done. done.
    - apply negb_false_iff, Z.eqb_eq. apply Z.bits_inj'. intros k Hk. rewrite Z.land_spec, Z.bits_0.
      rewrite Z.pow2_bits_eqb by done. destruct (Z.eqb_spec i k); subst; [by rewrite E|apply andb_false_r]. }
  rewrite Hb by apply bits_value_bound. clear Hb. revert i Hi. induction l as [|b l IH]; intros i Hi; simpl.
  - rewrite Z.testbit_0_l. by destruct (Z.to_nat i).
  - rewrite Z.add_comm. destruct (Z.eq_dec i 0) as [->|Hz]; [apply Z.testbit_0_r|].
    replace i with (Z.succ (i - 1)) by lia. rewrite Z.testbit_succ_r by lia. rewrite IH by lia.
    by replace (Z.to_nat (Z.succ (i - 1))) with (S (Z.to_nat (i - 1))) by lia.
Qed.
#[local] Opaque bits_value.

(** The octet of the bits is read, and the offset stays. *)
Lemma decodes_bits {B} (k : Z → ST reader_t B) l rest b : (length l ≤ 8)%nat →
  decodes (k (bits_value l)) (octet (bits_value l) ++ rest) b → decodes (arg_bits ≫= k) (octet (bits_value l) ++ rest) b.
Proof.
  intros Hl H s Hs. destruct (H s Hs) as [s' Hr]. exists s'. eapply runs_bind; [|done].
  destruct (at_bytes_app _ _ _ Hs) as [Ho _]. pose proof (reads_uint8 _ (bits_value_in_u8 l Hl) s Ho) as Hv.
  unfold runs, arg_uint8, get_value, arg_bits, mbind, st_bind, st_get, advance, st_modify, mret, st_ret in *. simpl in *.
  destruct (has 1 s) as [[[] s1]|] eqn:E; [|done].
  assert (s1 = s) as -> by (unfold has, mbind, st_bind, st_get, st_assert in E; simpl in E; case_match; by simplify_eq).
  congruence.
Qed.

Lemma decodes_advance {B} (k : ST reader_t B) v rest b : decodes k rest b → decodes (advance 1 ;; k) (octet v ++ rest) b.
Proof. intros H. eapply decodes_bind; [by apply reads_advance; rewrite length_octet|done]. Qed.

(** *** Tables *)

Definition entry_ok (nv : string * string) : Prop := size (bytes_of nv.1) < 2 ^ 8 ∧ size (bytes_of nv.2) < 2 ^ 32.

Lemma reads_field name value : entry_ok (name, value) →
  reads get_field (field_entry (name, value)) (name, value, length (field_entry (name, value))).
Proof.
  intros [Hn Hv]. rewrite length_field_entry. unfold field_entry, get_field, put_field_size. simpl in *.
  eapply reads_bind; [apply reads_uint8; unfold in_u, size in *; lia|].
  eapply reads_bind; [apply reads_bytes; unfold size; lia|].
  eapply reads_bind; [apply reads_uint8; unfold in_u; lia|]. simpl.
  eapply reads_bind; [apply reads_uint32; unfold in_u, size in *; lia|].
  rewrite <- (app_nil_r (bytes_of value)) at 2.
  eapply reads_bind; [apply reads_bytes; unfold size; lia|].
  rewrite !string_of_bytes_of, !length_bytes_of. apply reads_ret.
Qed.

Lemma get_fields_reads l : ∀ fuel pos t, Forall entry_ok l → (length l ≤ fuel)%nat →
  let b := concat (field_entry <$> l) in
  reads (get_fields fuel (Z.of_nat (pos + length b)) pos t) b (foldl (λ m kv, <[kv.1 := kv.2]> m) t l).
Proof.
  induction l as [|[name value] l IH]; intros fuel pos t Hl Hf b.
  - subst b. simpl. rewrite Nat.add_0_r. destruct fuel; simpl; rewrite Z.eqb_refl; apply reads_ret.
  - destruct fuel as [|fuel]; [simpl in Hf; lia|]. apply Forall_cons in Hl as [He Hl]. subst b. csimpl.
    rewrite length_app. pose proof (length_field_entry name value) as Hlen. unfold put_field_size in Hlen.
    destruct (Z.eqb_spec (Z.of_nat pos) (Z.of_nat (pos + (length (field_entry (name, value)) + length (concat (field_entry <$> l))))));
      [lia|].
    eapply reads_bind; [by apply reads_field|]. rewrite Nat.add_assoc. apply IH; [done|simpl in Hf; lia].
Qed.

Lemma decodes_table {B} (k : field_table_t → ST reader_t B) t rest b : field_ok (f_table t) →
  decodes (k t) ((long (size (table_entries t)) ++ table_entries t) ++ rest) b →
  decodes (get_field_table ≫= k) ((long (size (table_entries t)) ++ table_entries t) ++ rest) b.
Proof.
  rewrite <- app_assoc. intros [Ht Hsz] Hk s Hs. destruct (Hk s Hs) as [s' Hr]. exists s'. eapply runs_bind; [|done].
  destruct (at_bytes_app _ _ _ Hs) as [H1 H2]. destruct (at_bytes_app _ _ _ H2) as [H3 _].
  assert (Forall entry_ok (in_key_order t)) as Hall.
  { apply Forall_forall. intros [n v] Hnv. rewrite in_key_order_perm, elem_of_map_to_list in Hnv. by apply (Ht n v). }
  assert (length (in_key_order t) ≤ length (table_entries t))%nat as Hlen.
  { unfold table_entries. clear. induction (in_key_order t) as [|[n v] l IH]; csimpl; [lia|].
    rewrite length_app, length_field_entry. unfold put_field_size. lia. }
  unfold get_field_table. eapply runs_bind; [exact eq_refl|].
  eapply runs_bind; [apply (reads_uint32 (size (table_entries t))); [unfold in_u, size in *; lia|done]|].
  assert (length (in_key_order t) ≤ r_size s)%nat as Hf by (destruct H3 as [_ H3]; simpl in H3; lia).
  pose proof (get_fields_reads (in_key_order t) (r_size s) 0 ∅ Hall Hf _ H3) as Hg. unfold field_table_t, attr_list_t in Hg. rewrite (foldl_set_in_key_order t) in Hg.
  eapply runs_bind; [exact Hg|]. unfold runs. simpl. by destruct s.
Qed.

(** ** The methods *)

Lemma decodes_eq {A} (m : ST reader_t A) l a b : b = a → decodes m l b → decodes m l a.
Proof. by intros ->. Qed.

(** No field follows a table. *)
Fixpoint table_last (l : list field) : bool :=
  match l with
  | [] => true
  | [f_table _] => true
  | f_table _ :: _ => false
  | _ :: l => table_last l
  end.

(** The value of a method is rebuilt. *)
Ltac rebuilt := eapply decodes_eq; [|apply decodes_ret]; rewrite ?bit_of by done; reflexivity.

Ltac reads_one H := eapply decodes_bind; [apply H; assumption|].

Ltac reads_field :=
  lazymatch goal with
  | |- decodes (arg_uint8 ≫= _) _ _ => reads_one reads_uint8
  | |- decodes (arg_uint16 ≫= _) _ _ => reads_one reads_uint16
  | |- decodes (arg_uint32 ≫= _) _ _ => reads_one reads_uint32
  | |- decodes (arg_uint64 ≫= _) _ _ => reads_one reads_uint64
  | |- decodes (arg_shortstr ≫= _) _ _ => reads_one reads_shortstr
  | |- decodes (arg_longstr ≫= _) _ _ => reads_one reads_longstr
  | |- decodes (arg_bits ≫= _) _ _ => apply decodes_bits; [assumption|]
  | |- decodes (advance 1 ≫= _) _ _ => apply decodes_advance
  | |- decodes (get_field_table ≫= _) _ _ => apply decodes_table; [assumption|]
  | |- decodes (mret _) _ _ => rebuilt
  end.

Ltac reads_fields :=
  repeat match goal with H : Forall field_ok (_ :: _) |- _ => apply Forall_cons in H as [? H]; simpl in * |- end;
  unfold method_bytes, fields_bytes; csimpl; repeat reads_field.

Lemma decodes_call g l m : decodes g l m → decodes (call g) l (Some m).
Proof. intros H s Hs. destruct (H s Hs) as [s' Hr]. exists s'. by eapply runs_bind. Qed.

(** Evaluates the switches on known identifiers. *)
Ltac switch := lazy [unmarshal write_connection write_channel write_exchange write_queue write_basic write_tx
  class_of method_of connection_method_id channel_method_id exchange_method_id queue_method_id basic_method_id tx_method_id
  Z.eqb Pos.eqb
  connection_id channel_id exchange_id queue_id basic_id tx_id connection_start_id connection_start_ok_id
  connection_secure_id connection_secure_ok_id connection_tune_id connection_tune_ok_id connection_open_id
  connection_open_ok_id connection_close_id connection_close_ok_id channel_open_id channel_open_ok_id channel_flow_id
  channel_flow_ok_id channel_close_id channel_close_ok_id exchange_declare_id exchange_declare_ok_id
  exchange_delete_id exchange_delete_ok_id queue_declare_id queue_declare_ok_id queue_bind_id queue_bind_ok_id
  queue_unbind_id queue_unbind_ok_id queue_purge_id queue_purge_ok_id queue_delete_id queue_delete_ok_id basic_qos_id
  basic_qos_ok_id basic_consume_id basic_consume_ok_id basic_cancel_id basic_cancel_ok_id basic_publish_id
  basic_return_id basic_deliver_id basic_get_id basic_get_ok_id basic_get_empty_id basic_ack_id basic_reject_id
  basic_recover_async_id basic_recover_id basic_recover_ok_id tx_select_id tx_select_ok_id tx_commit_id
  tx_commit_ok_id tx_rollback_id tx_rollback_ok_id].

Lemma unmarshal_decodes m : method_ok m → table_last (fields m) = true →
  decodes (unmarshal (class_of m) (method_of m)) (method_bytes m) (Some m).
Proof.
  intros Hm Ht. unfold method_ok in Hm.
  destruct m as [[]|[]|[]|[]|[]|[]]; try discriminate Ht; clear Ht; simpl in Hm.
  all: switch.
  all: apply decodes_call; match goal with |- decodes ?g _ _ => unfold g end.
  all: reads_fields.
Qed.

(** ** The two together *)

Lemma unmarshaller_write_calls class_id method_id b m rest {X} (callback : i_amqp X) channel_ x :
  decodes (unmarshal class_id method_id) b (Some m) →
  unmarshaller_write callback channel_ class_id method_id (b ++ rest) (length b) x = callback channel_ m x.
Proof.
  intros Hd. destruct (Hd (Reader (b ++ rest) (length b) 0)) as [s' Hr].
  { split; [by exists rest|done]. }
  unfold unmarshaller_write, st_lift, mbind, st_bind. unfold runs in Hr. by rewrite Hr.
Qed.

(** C21: What the marshaller writes for a method the unmarshaller turns into a
    call of the same method with the same channel and arguments, wherever the
    bytes lie in the buffer: for all 53 methods, for arguments of the types of
    the code that fit a frame, but for the two methods that have a field after
    a table. *)
Theorem amqp_round_trip malloc channel_ m q : size malloc = frame_min_size → method_ok m → table_last (fields m) = true →
  size (method_bytes m) ≤ frame_min_size →
  ∃ c, runs (marshal malloc channel_ m) (Marshaller q) tt (Marshaller (q ++ [c])) ∧
    ∀ X (callback : i_amqp X) rest x,
      unmarshaller_write callback (channel c) (class_id c) (method_id c) (take (args_size c) (cmd_args c) ++ rest) (args_size c) x =
      callback channel_ m x.
Proof.
  intros Hmal Hm Ht Hs. destruct (marshal_queues malloc Hmal channel_ m q Hs) as (c & Hr & Ech & Ec & Em & Esz & Eb & _).
  exists c. split; [done|]. intros X callback rest x. rewrite Ech, Ec, Em, Eb, Esz.
  by apply unmarshaller_write_calls, unmarshal_decodes.
Qed.

(** The arguments that follow a table are read from where the table starts:
    the receiver of [connection.start] gets the bytes of the table as the
    mechanisms and the mechanisms as the locales. *)
Theorem connection_start_misread malloc channel_ version_major version_minor server_properties mechanisms locales q :
  let m := m_connection_start version_major version_minor server_properties mechanisms locales in
  size malloc = frame_min_size → method_ok m → size (method_bytes m) ≤ frame_min_size →
  ∃ c, runs (marshal malloc channel_ m) (Marshaller q) tt (Marshaller (q ++ [c])) ∧
    ∀ X (callback : i_amqp X) rest x,
      unmarshaller_write callback (channel c) (class_id c) (method_id c) (take (args_size c) (cmd_args c) ++ rest) (args_size c) x =
      callback channel_ (m_connection_start version_major version_minor server_properties (table_entries server_properties) mechanisms) x.
Proof.
  intros m Hmal Hm Hs. destruct (marshal_queues malloc Hmal channel_ m q Hs) as (c & Hr & Ech & Ec & Em & Esz & Eb & _).
  exists c. split; [done|]. intros X callback rest x. rewrite Ech, Ec, Em, Eb, Esz.
  apply unmarshaller_write_calls. subst m. switch. apply decodes_call. unfold get_connection_start, method_ok in *. simpl in Hm.
  assert (size (table_entries server_properties) < 2 ^ 32) as Ht.
  { rewrite !Forall_cons in Hm. by destruct Hm as (_ & _ & [_ ?] & _). }
  reads_fields.
Qed.
