(* ===== verification/AmqpCodec.v ===== *)
(** The framing of AMQP: method frames from the marshaller and to the
    unmarshaller, messages in content frames
    ([src/libzmq/amqp_encoder.cpp], [amqp_decoder.cpp]). *)
From S2P Require Import Prelude Attributes Wire Message MessageBody Codec BpCodec Amqp AmqpMarshaller AmqpUnmarshaller.
Local Open Scope Z_scope.

Definition framebuf_size : Z := frame_min_size.

(** ["AMQP\x00\x00\x09\x01"]. *)
Definition protocol_header : list Z := [65; 77; 81; 80; 0; 0; 9; 1].

(** ** amqp_encoder_t *)

Inductive enc_step :=
  | message_ready | command_header | command_arguments
  | content_header | content_body_frame_header | content_body | enc_frame_end.

(** [command.args]: no block, a block, or the address of one that was freed. *)
Inductive args_ptr := args_null | args_live | args_freed.

Section encoder.
Context {X : Type} `{!HasHeap X, !MessageSource X}.

Record amqp_enc_env := EncEnv {
  marshaller : amqp_marshaller_t;
  command : command_t;
  command_args_ptr : args_ptr;
  e_message : raw_message;
  e_message_offset : Z;
  queue : string;
  e_flow_on : bool;
  e_message_channel : Z;
  e_framebuf : list Z;
  e_io : X
}.
#[export] Instance eta_amqp_enc_env : Eta amqp_enc_env := λ y,
  EncEnv (marshaller y) (command y) (command_args_ptr y) (e_message y) (e_message_offset y) (queue y) (e_flow_on y)
    (e_message_channel y) (e_framebuf y) (e_io y).

Abbreviation enc_state := (encoder_t enc_step * amqp_enc_env)%type.

Definition enc_on_io {A} : ST X A → ST enc_state A :=
  st_lift (λ s, e_io s.2) (λ x s, (s.1, s.2 <| e_io := x |>)).
Definition enc_modify (f : amqp_enc_env → amqp_enc_env) : ST enc_state unit := st_modify (λ s, (s.1, f s.2)).
Definition on_marshaller {A} : ST amqp_marshaller_t A → ST enc_state A :=
  st_lift (λ s, marshaller s.2) (λ m s, (s.1, s.2 <| marshaller := m |>)).

(** [memory] is what the object's members hold before they are set. *)
Definition amqp_encoder_new (queue_ : string) (memory : amqp_enc_env) : enc_state :=
  (Encoder protocol_header 8 message_ready true,
   memory <| marshaller := amqp_marshaller_new |> <| command_args_ptr := args_null |> <| queue := queue_ |>
          <| e_flow_on := false |> <| e_message_channel := 0 |>).

Definition amqp_encoder_flow (flow_on_ : bool) (channel_ : Z) : ST enc_state unit :=
  enc_modify (λ y, y <| e_flow_on := flow_on_ |> <| e_message_channel := channel_ |>).

(** [if (command.args) free (command.args);] *)
Definition free_args : ST enc_state unit :=
  s ← st_get;
  match command_args_ptr s.2 with
  | args_null => mret tt
  | args_live => enc_modify (λ y, y <| command_args_ptr := args_freed |>)
  | args_freed => st_crash UseAfterFree
  end.

(** The body, then the members, then the marshaller that the encoder is. *)
Definition amqp_encoder_delete : ST enc_state unit :=
  free_args ;;
  s ← st_get;
  enc_on_io (in_heap (raw_message_destroy (e_message s.2))) ;;
  on_marshaller amqp_marshaller_delete.

Definition amqp_encoder_reset : ST enc_state unit :=
  enc_modify (λ y, y <| e_flow_on := false |> <| e_message_channel := 0 |>) ;;
  free_args ;;
  enc_next_step protocol_header 8 message_ready true.

(** A frame is put into the buffer from its start; its size. *)
Definition compose (fill : ST args_t unit) : ST enc_state nat :=
  a ← st_lift (λ s, Args (e_framebuf s.2) 0) (λ a s, (s.1, s.2 <| e_framebuf := args a |>)) (fill ;; st_get);
  mret (offset a).

(** Leaves room for the size of the frame, which is known at its end. *)
Definition skip_uint32 : ST args_t unit := room 4 ;; st_modify (λ a, a <| offset := (offset a + 4)%nat |>).
Definition fill_in_size (size_offset : nat) : ST args_t unit :=
  st_modify (λ a, a <| args := take size_offset (args a) ++
    put_uint32 (drop size_offset (args a)) (u32 (u64 (Z.of_nat (offset a) - 8))) |>).

(** A frame of a type on a channel, with a payload and its end. *)
Definition enc_frame (type channel_ : Z) (payload : ST args_t unit) : ST args_t unit :=
  (AmqpMarshaller.arg_uint8 type ;; AmqpMarshaller.arg_uint16 channel_) ;;
  skip_uint32 ;;
  (payload ;; AmqpMarshaller.arg_uint8 frame_end) ;;
  fill_in_size 3.

Definition enc_command (c : command_t) : ST args_t unit :=
  AmqpMarshaller.arg_uint8 frame_method ;;
  AmqpMarshaller.arg_uint16 (channel c) ;;
  AmqpMarshaller.arg_uint32 (u32 (u64 (Z.of_nat (args_size c) + 2 + 2))) ;;
  AmqpMarshaller.arg_uint16 (class_id c) ;;
  AmqpMarshaller.arg_uint16 (method_id c).

Definition enc_publish (channel_ : Z) (queue_ : string) : ST args_t unit :=
  enc_frame frame_method channel_
    (AmqpMarshaller.arg_uint16 basic_id ;;
     AmqpMarshaller.arg_uint16 basic_publish_id ;;
     AmqpMarshaller.arg_uint16 0 ;;
     AmqpMarshaller.arg_uint8 0 ;;
     AmqpMarshaller.arg_uint8 (u8 (Z.of_nat (String.length queue_))) ;;
     (room (String.length queue_) ;; put_bytes (bytes_of queue_)) ;;
     AmqpMarshaller.arg_uint8 0).

Definition amqp_message_ready : ST enc_state bool :=
  o ← on_marshaller marshaller_read;
  match o with
  | Some c =>
      enc_modify (λ y, y <| command := c |> <| command_args_ptr := args_live |>) ;;
      offset ← compose (enc_command c);
      s ← st_get;
      enc_next_step (e_framebuf s.2) offset command_header true ;;
      mret true
  | None =>
      s ← st_get;
      if negb (e_flow_on s.2) then mret false
      else
        r ← enc_on_io (source_read (e_message s.2));
        let '(retrieved, m) := r : bool * raw_message in
        enc_modify (λ y, y <| e_message := m |>) ;;
        if negb retrieved then mret false
        else
          offset ← compose (enc_publish (e_message_channel s.2) (queue s.2));
          s ← st_get;
          enc_next_step (e_framebuf s.2) offset content_header false ;;
          mret true
  end.

Definition amqp_command_header : ST enc_state bool :=
  s ← st_get;
  enc_next_step (cmd_args (command s.2)) (args_size (command s.2)) command_arguments false ;;
  mret true.

Definition amqp_command_arguments : ST enc_state bool :=
  free_args ;;
  enc_modify (λ y, y <| command_args_ptr := args_null |> <| e_framebuf := <[0%nat := frame_end]> (e_framebuf y) |>) ;;
  s ← st_get;
  enc_next_step (e_framebuf s.2) 1 message_ready false ;;
  mret true.

Definition enc_content_header (channel_ size_ : Z) : ST args_t unit :=
  enc_frame frame_header channel_
    (AmqpMarshaller.arg_uint16 basic_id ;;
     AmqpMarshaller.arg_uint16 0 ;;
     AmqpMarshaller.arg_uint64 size_ ;;
     AmqpMarshaller.arg_uint16 0).

Definition enc_message_size : ST enc_state Z :=
  s ← st_get; enc_on_io (in_heap (raw_message_size (e_message s.2))).

Definition amqp_content_header : ST enc_state bool :=
  s ← st_get;
  size ← enc_message_size;
  offset ← compose (enc_content_header (e_message_channel s.2) size);
  enc_modify (λ y, y <| e_message_offset := 0 |>) ;;
  s ← st_get;
  enc_next_step (e_framebuf s.2) offset content_body_frame_header false ;;
  mret true.

(** What is left of the message, as much as a frame holds. *)
Definition body_size (y : amqp_enc_env) (size : Z) : Z := u64 (size - e_message_offset y) `min` (frame_min_size - 8).

Definition enc_body_frame_header (channel_ size_ : Z) : ST args_t unit :=
  AmqpMarshaller.arg_uint8 frame_body ;;
  AmqpMarshaller.arg_uint16 channel_ ;;
  AmqpMarshaller.arg_uint32 size_.

Definition amqp_content_body_frame_header : ST enc_state bool :=
  s ← st_get;
  size ← enc_message_size;
  offset ← compose (enc_body_frame_header (e_message_channel s.2) (body_size s.2 size));
  s ← st_get;
  enc_next_step (e_framebuf s.2) offset content_body false ;;
  mret true.

Definition amqp_content_body : ST enc_state bool :=
  s ← st_get;
  size ← enc_message_size;
  region ← enc_on_io (in_heap (message_region (e_message s.2)));
  enc_next_step (drop (Z.to_nat (e_message_offset s.2)) region) (Z.to_nat (body_size s.2 size)) enc_frame_end false ;;
  enc_modify (λ y, y <| e_message_offset := u64 (e_message_offset y + body_size s.2 size) |>) ;;
  mret true.

Definition amqp_frame_end : ST enc_state bool :=
  enc_modify (λ y, y <| e_framebuf := put_uint8 (e_framebuf y) frame_end |>) ;;
  s ← st_get;
  size ← enc_message_size;
  (if size =? e_message_offset s.2 then enc_next_step (e_framebuf s.2) 1 message_ready true
   else enc_next_step (e_framebuf s.2) 1 content_body_frame_header false) ;;
  mret true.

Definition amqp_enc_act (n : enc_step) : ST enc_state bool :=
  match n with
  | message_ready => amqp_message_ready
  | command_header => amqp_command_header
  | command_arguments => amqp_command_arguments
  | content_header => amqp_content_header
  | content_body_frame_header => amqp_content_body_frame_header
  | content_body => amqp_content_body
  | enc_frame_end => amqp_frame_end
  end.

Definition amqp_encoder_read (size_ : nat) : ST enc_state (list Z * Z) := encoder_read amqp_enc_act size_.
End encoder.
Arguments amqp_enc_env X : clear implicits.

(** ** amqp_decoder_t *)

Inductive dec_step :=
  | method_frame_header_ready | method_payload_ready
  | content_header_frame_header_ready | content_header_payload_ready
  | content_body_frame_header_ready | content_body_payload_ready | content_body_frame_end_ready.

(** Where bytes go: [framebuf], or [message.data ()] from an offset on. *)
Inductive dec_target := to_framebuf | to_message (base : nat).

Section decoder.
Context {X : Type} `{!HasHeap X, !MessageSink X}.

Record amqp_dec_env := DecEnv {
  bytes_read : Z;
  d_channel : Z;
  d_message : raw_message;
  d_message_offset : Z;
  d_flow_on : bool;
  d_message_channel : Z;
  d_framebuf : list Z;
  d_io : X
}.
#[export] Instance eta_amqp_dec_env : Eta amqp_dec_env := λ y,
  DecEnv (bytes_read y) (d_channel y) (d_message y) (d_message_offset y) (d_flow_on y) (d_message_channel y)
    (d_framebuf y) (d_io y).

Abbreviation dec_state := (decoder_t dec_step dec_target * amqp_dec_env)%type.

Definition dec_on_io {A} : ST X A → ST dec_state A :=
  st_lift (λ s, d_io s.2) (λ x s, (s.1, s.2 <| d_io := x |>)).
Definition dec_modify (f : amqp_dec_env → amqp_dec_env) : ST dec_state unit := st_modify (λ s, (s.1, f s.2)).
Definition dec_get {A} (f : amqp_dec_env → A) : ST dec_state A := s ← st_get; mret (f s.2).

Definition amqp_poke (t : dec_target) (o : nat) (b : list Z) : ST amqp_dec_env unit :=
  y ← st_get;
  match t with
  | to_framebuf => l ← st_of_option BadAccess (overwrite o b (d_framebuf y)); st_put (y <| d_framebuf := l |>)
  | to_message base =>
      m ← st_lift d_io (λ x y, y <| d_io := x |>) (in_heap (raw_message_poke (d_message y) (base + o) b));
      st_modify (λ y, y <| d_message := m |>)
  end.

(** [memory] is what the object's members hold before they are set. *)
Definition amqp_decoder_new (memory : amqp_dec_env) : dec_state :=
  (Decoder (Some (to_framebuf, 0%nat)) 7 method_frame_header_ready,
   memory <| d_message := no_message |> <| d_flow_on := false |> <| d_message_channel := 0 |>).

Definition amqp_decoder_delete : ST dec_state unit :=
  m ← dec_get d_message; dec_on_io (in_heap (raw_message_destroy m)).

Definition amqp_decoder_flow (flow_on_ : bool) (channel_ : Z) : ST dec_state unit :=
  dec_modify (λ y, y <| d_flow_on := flow_on_ |> <| d_message_channel := channel_ |>).

Definition dec_rebuild (size_ : Z) : ST dec_state unit :=
  m ← dec_get d_message;
  m ← dec_on_io (rebuild m size_);
  dec_modify (λ y, y <| d_message := m |>).

Definition amqp_decoder_reset : ST dec_state unit :=
  amqp_decoder_flow false 0 ;;
  dec_rebuild 0 ;;
  dec_next_step to_framebuf 7 method_frame_header_ready.

(** The protocol's state machine, which may use the decoder, and
    [demux->flush ()]. *)
Context (callback : i_amqp dec_state) (sink_flush : ST X unit).

Definition dec_message_size : ST dec_state Z := m ← dec_get d_message; dec_on_io (in_heap (raw_message_size m)).

Definition amqp_method_frame_header_ready : ST dec_state bool :=
  b ← dec_get d_framebuf;
  st_assert (get_uint8 b =? frame_method) ;;
  dec_modify (λ y, y <| d_channel := get_uint16 (drop 1 b) |> <| bytes_read := get_uint32 (drop 3 b) |>) ;;
  n ← dec_get bytes_read;
  st_assert (n + 1 <=? framebuf_size) ;;
  dec_next_step to_framebuf (Z.to_nat (n + 1)) method_payload_ready ;;
  mret true.

Definition amqp_method_payload_ready : ST dec_state bool :=
  y ← dec_get id;
  st_assert (5 <=? bytes_read y) ;;
  let b := d_framebuf y in
  let class_id := get_uint16 b in
  let method_id := get_uint16 (drop 2 b) in
  st_assert (byte_at b (Z.to_nat (bytes_read y)) =? frame_end) ;;
  (if (class_id =? basic_id) && (method_id =? basic_deliver_id) then
     st_assert (d_flow_on y) ;;
     st_assert (d_channel y =? d_message_channel y) ;;
     dec_next_step to_framebuf 7 content_header_frame_header_ready
   else
     unmarshaller_write callback (d_channel y) class_id method_id (drop 4 b) (Z.to_nat (bytes_read y - 4)) ;;
     dec_next_step to_framebuf 7 method_frame_header_ready : ST dec_state unit) ;;
  mret true.

(** The size goes to a local variable of the same name as [bytes_read]. *)
Definition amqp_content_header_frame_header_ready : ST dec_state bool :=
  y ← dec_get id;
  let b := d_framebuf y in
  st_assert (get_uint8 b =? frame_header) ;;
  st_assert (get_uint16 (drop 1 b) =? d_channel y) ;;
  let bytes_read := get_uint32 (drop 3 b) in
  st_assert (u32 (bytes_read + 1) <=? framebuf_size) ;;
  dec_next_step to_framebuf (Z.to_nat (u32 (bytes_read + 1))) content_header_payload_ready ;;
  mret true.

Definition amqp_content_header_payload_ready : ST dec_state bool :=
  y ← dec_get id;
  st_assert (14 <=? bytes_read y) ;;
  let b := d_framebuf y in
  st_assert (get_uint16 b =? basic_id) ;;
  st_assert (get_uint16 (drop 2 b) =? 0) ;;
  let body_size := get_uint64 (drop 4 b) in
  st_assert (byte_at b (Z.to_nat (bytes_read y)) =? frame_end) ;;
  dec_rebuild body_size ;;
  dec_modify (λ y, y <| d_message_offset := 0 |>) ;;
  dec_next_step to_framebuf 7 content_body_frame_header_ready ;;
  mret true.

Definition amqp_content_body_frame_header_ready : ST dec_state bool :=
  y ← dec_get id;
  let b := d_framebuf y in
  st_assert (get_uint16 (drop 1 b) =? d_channel y) ;;
  let size := get_uint32 (drop 3 b) in
  st_assert (get_uint8 b =? frame_body) ;;
  dec_modify (λ y, y <| bytes_read := size |>) ;;
  message_size ← dec_message_size;
  st_assert (u64 (d_message_offset y + size) <=? message_size) ;;
  dec_next_step (to_message (Z.to_nat (d_message_offset y))) (Z.to_nat size) content_body_payload_ready ;;
  mret true.

Definition amqp_content_body_payload_ready : ST dec_state bool :=
  dec_modify (λ y, y <| d_message_offset := u64 (d_message_offset y + bytes_read y) |>) ;;
  dec_next_step to_framebuf 1 content_body_frame_end_ready ;;
  mret true.

Definition amqp_content_body_frame_end_ready : ST dec_state bool :=
  y ← dec_get id;
  st_assert (byte_at (d_framebuf y) 0 =? frame_end) ;;
  message_size ← dec_message_size;
  if d_message_offset y =? message_size then
    r ← dec_on_io (sink_write (d_message y));
    let '(taken, m) := r : bool * raw_message in
    dec_modify (λ y, y <| d_message := m |>) ;;
    if negb taken then mret false
    else
      dec_on_io sink_flush ;;
      dec_next_step to_framebuf 7 method_frame_header_ready ;;
      mret true
  else
    dec_next_step to_framebuf 7 content_body_frame_header_ready ;;
    mret true.

Definition amqp_dec_act (n : dec_step) : ST dec_state bool :=
  match n with
  | method_frame_header_ready => amqp_method_frame_header_ready
  | method_payload_ready => amqp_method_payload_ready
  | content_header_frame_header_ready => amqp_content_header_frame_header_ready
  | content_header_payload_ready => amqp_content_header_payload_ready
  | content_body_frame_header_ready => amqp_content_body_frame_header_ready
  | content_body_payload_ready => amqp_content_body_payload_ready
  | content_body_frame_end_ready => amqp_content_body_frame_end_ready
  end.

Definition amqp_decoder_write (data_ : list Z) : ST dec_state nat := decoder_write amqp_dec_act amqp_poke data_.
End decoder.
Arguments amqp_dec_env X : clear implicits.
