(* ===== verification/AmqpFrames.v ===== *)
(** The frames of AMQP as bytes, and the encoder's composition of them. *)
From S2P Require Import Prelude Attributes Wire Codec Amqp AmqpLayout AmqpMarshaller AmqpMarshalling AmqpCodec.
Local Open Scope Z_scope.

(** ** Frames *)

Definition amqp_frame (type channel_ : Z) (payload : list Z) : list Z :=
  octet type ++ short channel_ ++ long (size payload) ++ payload ++ octet frame_end.

Definition arguments_of (c : command_t) : list Z := take (args_size c) (cmd_args c).
Definition method_frame (c : command_t) : list Z :=
  amqp_frame frame_method (channel c) (short (class_id c) ++ short (method_id c) ++ arguments_of c).

Definition publish_frame (channel_ : Z) (queue_ : string) : list Z :=
  amqp_frame frame_method channel_
    (short basic_id ++ short basic_publish_id ++ method_bytes (m_basic_publish 0 [] (bytes_of queue_) false false)).

Definition header_frame (channel_ size_ : Z) : list Z :=
  amqp_frame frame_header channel_ (short basic_id ++ short 0 ++ longlong size_ ++ short 0).

Lemma length_amqp_frame type channel_ payload : length (amqp_frame type channel_ payload) = S (7 + length payload).
Proof. unfold amqp_frame. rewrite !length_app, !length_octet, length_short, length_long. lia. Qed.

(** A body goes in frames of at most [piece] bytes, in one if it is empty. *)
Definition piece : nat := Z.to_nat (frame_min_size - 8).

Fixpoint body_frames_in (fuel : nat) (channel_ : Z) (body : list Z) : list Z :=
  match fuel with
  | O => []
  | S fuel => amqp_frame frame_body channel_ (take piece body) ++
      if (length body <=? piece)%nat then [] else body_frames_in fuel channel_ (drop piece body)
  end.
Definition body_frames (channel_ : Z) (body : list Z) : list Z := body_frames_in (S (length body)) channel_ body.

Definition message_frames (channel_ : Z) (queue_ : string) (body : list Z) : list Z :=
  publish_frame channel_ queue_ ++ header_frame channel_ (size body) ++ body_frames channel_ body.

Lemma piece_size : Z.of_nat piece = 4088.
Proof. reflexivity. Qed.
#[global] Opaque piece.

Lemma body_frames_in_enough n m channel_ body : (length body < n)%nat → (length body < m)%nat →
  body_frames_in n channel_ body = body_frames_in m channel_ body.
Proof.
  pose proof piece_size as Hp. revert m body. induction n as [|n IH]; intros m body Hn Hm; [lia|].
  destruct m as [|m]; [lia|]. simpl. f_equal. destruct (Nat.leb_spec (length body) piece); [done|].
  apply IH; rewrite length_drop; lia.
Qed.

Lemma body_frames_eq channel_ body : body_frames channel_ body =
  amqp_frame frame_body channel_ (take piece body) ++
  if (length body <=? piece)%nat then [] else body_frames channel_ (drop piece body).
Proof.
  unfold body_frames at 1. simpl. f_equal. destruct (Nat.leb_spec (length body) piece); [done|].
  pose proof piece_size. apply body_frames_in_enough; rewrite length_drop; lia.
Qed.

(** ** Composition *)

(** From the start of the buffer, [m] puts the bytes [l]. *)
Definition composes (m : ST args_t unit) (l : list Z) : Prop :=
  ∀ b, size b = frame_min_size → size l ≤ frame_min_size →
  ∃ a, runs m (Args b 0) tt a ∧ size (args a) = frame_min_size ∧ offset a = length l ∧ take (length l) (args a) = l.

Lemma writes_composes m l : writes m l → composes m l.
Proof.
  intros H b Hb Hl. destruct (H (Args b 0)) as (a & Hr & L & O & T); [done|done|]. simpl in *.
  exists a. rewrite O in T. unfold size in *. split_and!; [done|congruence|done|done].
Qed.

Lemma put_uint32_wrap b v : put_uint32 b (u32 v) = put_uint32 b v.
Proof.
  assert (∀ k, 0 ≤ k → k + 8 ≤ 32 → Z.land (Z.shiftr (u32 v) k) 255 = Z.land (Z.shiftr v k) 255) as Hk.
  { intros k Hk Hk'. rewrite !byte_of_shift by done. unfold wrap.
    change 256 with (2 ^ 8). apply Z.bits_inj'. intros n Hn.
    destruct (Z.lt_ge_cases n 8).
    - rewrite !Z.mod_pow2_bits_low, !Z.div_pow2_bits, Z.mod_pow2_bits_low by lia. done.
    - rewrite !Z.mod_pow2_bits_high by lia. done. }
  unfold put_uint32. pose proof (Hk 0 ltac:(lia) ltac:(lia)) as H0. rewrite !Z.shiftr_0_r in H0.
  by rewrite H0, !Hk by lia.
Qed.

Lemma long_wrap v : long (u32 v) = long v.
Proof. with_strategy transparent [long] unfold long. apply put_uint32_wrap. Qed.

Lemma enc_frame_composes type channel_ m payload : writes m payload →
  composes (enc_frame type channel_ m) (amqp_frame type channel_ payload).
Proof.
  intros Hm b Hb Hl. unfold amqp_frame in *. set (l := payload ++ octet frame_end) in *.
  assert (writes (m ;; AmqpMarshaller.arg_uint8 frame_end) l) as H2 by (apply writes_seq; [done|apply writes_uint8]).
  assert (writes (AmqpMarshaller.arg_uint8 type ;; AmqpMarshaller.arg_uint16 channel_) (octet type ++ short channel_)) as H1
    by (apply writes_seq; [apply writes_uint8|apply writes_uint16]).
  assert (size l = size payload + 1) as Hpl by (unfold l, size; rewrite length_app, length_octet; lia).
  unfold size in *. rewrite !length_app, length_octet, length_short, length_long in Hl.
  destruct (H1 (Args b 0)) as (a & R1 & L1 & O1 & T1); [done|rewrite length_app, length_octet, length_short; simpl; lia|].
  rewrite length_app, length_octet, length_short in *. simpl in *.
  destruct (H2 (a <| offset := (offset a + 4)%nat |>)) as (c & R2 & L2 & O2 & T2); [simpl; lia|simpl; lia|]. simpl in *.
  eexists. split.
  { eapply runs_bind; [exact R1|]. eapply runs_bind.
    { eapply runs_bind; [apply room_runs; lia|exact eq_refl]. }
    eapply runs_bind; [exact R2|exact eq_refl]. }
  simpl. rewrite put_uint32_wrap. rewrite put_at_long by lia.
  assert (u64 (Z.of_nat (offset c) - 8) = size payload) as Esz.
  { rewrite O2, O1. unfold wrap, frame_min_size, size in *. rewrite Z.mod_small; lia. }
  rewrite Esz, O1 in *. rewrite !length_app, ?length_octet, ?length_short, ?length_long, ?length_take, ?length_drop.
  split; [lia|]. split; [lia|].
  rewrite O2 in T2. pose proof (f_equal (take 3) T2) as Ta. pose proof (f_equal (drop 7) T2) as Td.
  rewrite take_take, take_app_le in Ta by (rewrite ?length_take; lia). rewrite take_take, Nat.min_l in Ta by lia.
  rewrite Nat.min_l in Ta by lia. rewrite T1 in Ta.
  rewrite (drop_app_length' (take _ (args a))) in Td by (rewrite length_take; lia).
  rewrite Ta, skipn_firstn_comm in *. fold (size payload). set (h := (octet type ++ short channel_) ++ long (size payload)).
  assert (length h = 7%nat) as Hh by (unfold h; rewrite !length_app, length_octet, length_short, length_long; done).
  replace (octet type ++ short channel_ ++ long (size payload) ++ l) with (h ++ l) by (unfold h; by rewrite <- !app_assoc).
  rewrite app_assoc. fold h. rewrite take_app_ge by lia. f_equal. rewrite Hh. etrans; [|exact Td]. by replace (S (2 + (4 + length l)) - 7)%nat with (3 + 4 + length l - 7)%nat by lia.
Qed.
