(* ===== verification/AmqpEncoding.v ===== *)
(** What the AMQP encoder writes: the protocol header, then the commands of
    its marshaller and the messages it reads, each in its frames, whatever the
    sizes of the buffers it is given. *)
From S2P Require Import Prelude Attributes Wire Message MessageBody Codec BpCodec BpEncoding Amqp AmqpLayout AmqpMarshaller AmqpMarshalling AmqpCodec AmqpFrames.
Local Open Scope Z_scope.

(** ** What goes on the wire *)

Inductive item := it_command (c : command_t) | it_message (body : list Z).

Definition commands (l : list item) : list command_t := omap (λ i, match i with it_command c => Some c | _ => None end) l.
Definition bodies (l : list item) : list (list Z) := omap (λ i, match i with it_message b => Some b | _ => None end) l.

(** A command as the marshaller makes it. *)
Definition command_ok (c : command_t) : Prop := size (cmd_args c) = frame_min_size ∧ Z.of_nat (args_size c) ≤ frame_min_size.

Section encoding.
Context {X : Type} `{!HasHeap X, !HasHeapLaws X, !MessageSource X, !SourceLaws X}.
(** Whether messages flow, on which channel, and to which queue. *)
Context (flow : bool) (channel_ : Z) (queue_ : string).
(** Messages are shorter than the address space, and the name fits a byte. *)
Context (Hsource : ∀ x m log, source_held x m log → Forall (λ b, size b < 2 ^ 64) log).
Context (Hqueue : (String.length queue_ ≤ 255)%nat).

Abbreviation state := (encoder_t enc_step * amqp_enc_env X)%type.
Implicit Types (s : state).

Definition item_bytes (i : item) : list Z :=
  match i with it_command c => method_frame c | it_message b => message_frames channel_ queue_ b end.
Definition stream (l : list item) : list Z := protocol_header ++ concat (item_bytes <$> l).

Lemma stream_snoc l i : stream (l ++ [i]) = stream l ++ item_bytes i.
Proof. unfold stream. rewrite fmap_app, concat_app, <- app_assoc. simpl. by rewrite app_nil_r. Qed.

(** The frames of the body from its byte [o] on. *)
Definition more_frames (body : list Z) (o : Z) : list Z :=
  if o =? size body then [] else body_frames channel_ (drop (Z.to_nat o) body).

(** [to_come s tail]: after the bytes it has at hand, the encoder will write
    [tail] before it asks for the next item. *)
Definition to_come s (tail : list Z) : Prop :=
  let y := s.2 in
  let held body := body_of (heap_of (e_io y)) (e_message y) body ∧ size body < 2 ^ 64 in
  match enc_next s.1 with
  | message_ready => tail = []
  | command_header => command_ok (command y) ∧ tail = arguments_of (command y) ++ octet frame_end
  | command_arguments => tail = octet frame_end
  | content_header => ∃ body, held body ∧ tail = header_frame channel_ (size body) ++ body_frames channel_ body
  | content_body_frame_header => ∃ body, held body ∧ 0 ≤ e_message_offset y ≤ size body ∧
      tail = body_frames channel_ (drop (Z.to_nat (e_message_offset y)) body)
  | content_body => ∃ body, held body ∧ 0 ≤ e_message_offset y ≤ size body ∧
      let rest := drop (Z.to_nat (e_message_offset y)) body in
      tail = take piece rest ++ octet frame_end ++
        if (length rest <=? piece)%nat then [] else body_frames channel_ (drop piece rest)
  | enc_frame_end => ∃ body, held body ∧ 0 ≤ e_message_offset y ≤ size body ∧
      tail = octet frame_end ++ more_frames body (e_message_offset y)
  end.

Definition args_at (n : enc_step) : args_ptr :=
  match n with command_header | command_arguments => args_live | _ => args_null end.

(** [calls]: the commands the marshaller was given; [log]: the items read;
    [out]: the bytes written. *)
Record enc_inv (calls : list command_t) s (log : list item) (out : list Z) : Prop := {
  ei_room : (to_write s.1 ≤ length (write_pos s.1))%nat;
  ei_settings : e_flow_on s.2 = flow ∧ e_message_channel s.2 = channel_ ∧ queue s.2 = queue_ ∧
    size (e_framebuf s.2) = frame_min_size;
  ei_good : Forall command_ok calls;
  ei_calls : calls = commands log ++ command_queue (marshaller s.2);
  ei_held : source_held (e_io s.2) (e_message s.2) (bodies log);
  ei_args : command_args_ptr s.2 = args_at (enc_next s.1);
  ei_out : ∃ tail, out ++ take (to_write s.1) (write_pos s.1) ++ tail = stream log ∧ to_come s tail
}.

(** Nothing is left to write. *)
Definition complete (calls : list command_t) (log : list item) (out : list Z) : Prop :=
  out = stream log ∧ commands log = calls.

Definition weight (e : encoder_t enc_step) : nat :=
  match to_write e with
  | O => match enc_next e with command_header | content_body => 3 | _ => 2 end
  | _ => 1
  end.

Lemma enc_inv_written calls s log out k : enc_inv calls s log out → (k ≤ to_write s.1)%nat →
  enc_inv calls (s.1 <| write_pos := drop k (write_pos s.1) |> <| to_write := (to_write s.1 - k)%nat |>, s.2)
    log (out ++ take k (write_pos s.1)).
Proof.
  intros [] Hk. constructor; simpl; try done; [rewrite length_drop; lia|].
  destruct ei_out0 as (tail & E & Ht). exists tail. split; [|done].
  assert (take k (write_pos s.1) ++ take (to_write s.1 - k) (drop k (write_pos s.1)) = take (to_write s.1) (write_pos s.1)) as Et.
  { rewrite take_take_drop. f_equal. lia. }
  by rewrite <- E, <- Et, <- !app_assoc.
Qed.

Lemma enc_inv_beginning calls s log out b : enc_inv calls s log out → enc_inv calls (s.1 <| beginning := b |>, s.2) log out.
Proof. intros []. by constructor. Qed.

(** The state when the bytes at hand are written. *)
Lemma enc_inv_idle calls s log out : enc_inv calls s log out → to_write s.1 = 0%nat →
  ∃ tail, out ++ tail = stream log ∧ to_come s tail.
Proof. intros [] Hz. destruct ei_out0 as (tail & E & Ht). rewrite Hz in E. by exists tail. Qed.

(** ** The actions *)

Lemma compose_runs fill l s : composes fill l → size (e_framebuf s.2) = frame_min_size → size l ≤ frame_min_size →
  ∃ b, runs (compose fill) s (length l) (s.1, s.2 <| e_framebuf := b |>) ∧ size b = frame_min_size ∧ take (length l) b = l.
Proof.
  intros Hc Hf Hl. destruct (Hc (e_framebuf s.2) Hf Hl) as (a & Hr & L & O & T). exists (args a). split; [|done].
  unfold runs, compose, st_lift, mbind, st_bind in *. rewrite Hr. simpl. unfold mret, st_ret. by rewrite O.
Qed.

Lemma message_size_runs s body : body_of (heap_of (e_io s.2)) (e_message s.2) body →
  runs enc_message_size s (size body) s.
Proof.
  intros (_ & Hs & _). unfold runs, enc_message_size, mbind, st_bind, enc_on_io, in_heap, st_lift in *. simpl.
  rewrite Hs, set_heap_of. by destruct s as [? []].
Qed.

(** What an action must do: more bytes at hand and less to wait for, or stop
    where all is written. *)
Definition act_post (calls : list command_t) s log out (more : bool) s' : Prop :=
  if more then ∃ log', log `prefix_of` log' ∧ enc_inv calls s' log' out ∧ (weight s'.1 < weight s.1)%nat
  else enc_inv calls s' log out ∧ complete calls log out.

Lemma octet_at_front b v : size b = frame_min_size → take 1 (<[0%nat := u8 v]> b) = octet v ∧ size (<[0%nat := u8 v]> b) = frame_min_size.
Proof.
  intros Hb. unfold size in *. rewrite length_insert. split; [|done].
  destruct b as [|x b]; [done|]. with_strategy transparent [octet] reflexivity.
Qed.

Lemma command_arguments_ok calls s log out : enc_inv calls s log out → to_write s.1 = 0%nat →
  enc_next s.1 = command_arguments → wp amqp_command_arguments no_fault (act_post calls s log out) s.
Proof.
  intros I Hz Hn. destruct (enc_inv_idle _ _ _ _ I Hz) as (tail & E & Ht). destruct I as [Hr (Hf & Hc & Hq & Hb) Hg Hcalls Hh Ha _].
  unfold to_come in Ht. rewrite Hn in Ht, Ha. simpl in Ha. unfold amqp_command_arguments, free_args. wp_steps. rewrite Ha.
  unfold enc_modify, enc_next_step. wp_steps. exists log. split; [done|].
  destruct (octet_at_front (e_framebuf s.2) frame_end Hb) as [Ho Hb'].
  split; [|unfold weight; simpl; rewrite Hz, Hn; lia].
  constructor; simpl; try done.
  - rewrite length_insert. unfold size, frame_min_size in *. lia.
  - exists []. split; [|done]. rewrite app_nil_r, <- E, Ht. f_equal. exact Ho.
Qed.

Lemma command_header_ok calls s log out : enc_inv calls s log out → to_write s.1 = 0%nat →
  enc_next s.1 = command_header → wp amqp_command_header no_fault (act_post calls s log out) s.
Proof.
  intros I Hz Hn. destruct (enc_inv_idle _ _ _ _ I Hz) as (tail & E & Ht). destruct I as [Hr Hset Hg Hcalls Hh Ha _].
  unfold to_come in Ht. rewrite Hn in Ht, Ha. destruct Ht as [[Hca Hcs] ->].
  unfold amqp_command_header, enc_next_step. wp_steps. exists log. split; [done|].
  split; [|unfold weight; simpl; rewrite Hz, Hn; destruct (args_size _); lia].
  constructor; simpl; try done.
  - unfold size in Hca. lia.
  - exists (octet frame_end). split; [|done]. exact E.
Qed.

Lemma content_header_ok calls s log out : enc_inv calls s log out → to_write s.1 = 0%nat →
  enc_next s.1 = content_header → wp amqp_content_header no_fault (act_post calls s log out) s.
Proof.
  intros I Hz Hn. destruct (enc_inv_idle _ _ _ _ I Hz) as (tail & E & Ht). destruct I as [Hr (Hf & Hc & Hq & Hb) Hg Hcalls Hh Ha _].
  unfold to_come in Ht. rewrite Hn in Ht, Ha. destruct Ht as (body & [Hbody Hsz] & ->).
  unfold amqp_content_header. wp_steps. eapply runs_wp; [by apply message_size_runs|]. wp_steps.
  destruct (compose_runs (enc_content_header (e_message_channel s.2) (size body)) (header_frame channel_ (size body)) s)
    as (b & Hr' & Hb' & Hbt); [|done|by vm_compute|].
  { rewrite Hc. apply enc_frame_composes. repeat (apply writes_seq; [solve [auto with amqp_writes]|]). auto with amqp_writes. }
  eapply runs_wp; [exact Hr'|]. unfold enc_modify, enc_next_step. wp_steps. exists log. split; [done|].
  split; [|unfold weight; simpl; rewrite Hz, Hn; unfold header_frame; rewrite length_amqp_frame; simpl; lia].
  constructor; simpl; try done.
  - apply Nat2Z.inj_le. fold (size b). rewrite Hb'. by vm_compute.
  - exists (body_frames channel_ body). split; [by rewrite Hbt|]. exists body. split; [done|]. split; [unfold size; simpl; lia|done].
Qed.

(** What is left of a message, and how much of it goes next. *)
Lemma body_size_piece (y : amqp_enc_env X) (body : list Z) : size body < 2 ^ 64 → 0 ≤ e_message_offset y ≤ size body →
  body_size y (size body) = size (take piece (drop (Z.to_nat (e_message_offset y)) body)).
Proof.
  intros Hs Ho. pose proof piece_size as Hp. unfold body_size, size, frame_min_size in *.
  rewrite length_take, length_drop. unfold wrap. rewrite Z.mod_small; lia.
Qed.

Lemma content_body_frame_header_ok calls s log out : enc_inv calls s log out → to_write s.1 = 0%nat →
  enc_next s.1 = content_body_frame_header → wp amqp_content_body_frame_header no_fault (act_post calls s log out) s.
Proof.
  intros I Hz Hn. destruct (enc_inv_idle _ _ _ _ I Hz) as (tail & E & Ht). destruct I as [Hr (Hf & Hc & Hq & Hb) Hg Hcalls Hh Ha _].
  unfold to_come in Ht. rewrite Hn in Ht, Ha. destruct Ht as (body & [Hbody Hsz] & Ho & ->).
  unfold amqp_content_body_frame_header. wp_steps. eapply runs_wp; [by apply message_size_runs|]. wp_steps.
  rewrite body_size_piece by done. set (rest := drop (Z.to_nat (e_message_offset s.2)) body) in *.
  set (l := octet frame_body ++ short channel_ ++ long (size (take piece rest))).
  assert (length l = 7%nat) as Hl by (unfold l; rewrite !length_app, length_octet, length_short, length_long; done).
  destruct (compose_runs (enc_body_frame_header (e_message_channel s.2) (size (take piece rest))) l s)
    as (b & Hr' & Hb' & Hbt); [|done|unfold size; rewrite Hl; done|].
  { rewrite Hc. apply writes_composes. repeat (apply writes_seq; [solve [auto with amqp_writes]|]). auto with amqp_writes. }
  eapply runs_wp; [exact Hr'|]. unfold enc_next_step. wp_steps. exists log. split; [done|].
  split; [|unfold weight; simpl; rewrite Hz, Hn, Hl; lia].
  constructor; simpl; try done.
  - unfold size, frame_min_size in *. lia.
  - exists (take piece rest ++ octet frame_end ++ if (length rest <=? piece)%nat then [] else body_frames channel_ (drop piece rest)).
    split; [|by exists body]. rewrite Hbt, <- E, (body_frames_eq channel_ rest). unfold amqp_frame, l. by rewrite <- !app_assoc.
Qed.

Lemma content_body_ok calls s log out : enc_inv calls s log out → to_write s.1 = 0%nat →
  enc_next s.1 = content_body → wp amqp_content_body no_fault (act_post calls s log out) s.
Proof.
  intros I Hz Hn. destruct (enc_inv_idle _ _ _ _ I Hz) as (tail & E & Ht). destruct I as [Hr (Hf & Hc & Hq & Hb) Hg Hcalls Hh Ha _].
  unfold to_come in Ht. rewrite Hn in Ht, Ha. destruct Ht as (body & [Hbody Hsz] & Ho & ->).
  destruct (body_region _ _ _ Hbody) as (region & Hreg & Hlen & Htake). pose proof piece_size as Hp.
  unfold amqp_content_body. wp_steps. eapply runs_wp; [by apply message_size_runs|]. wp_steps.
  eapply (runs_wp _ _ _ _ region s).
  { unfold runs, enc_on_io, in_heap, st_lift in *. rewrite Hreg, set_heap_of. by destruct s as [? []]. }
  unfold enc_next_step, enc_modify. wp_steps. rewrite body_size_piece by done.
  set (o := Z.to_nat (e_message_offset s.2)) in *. set (rest := drop o body) in *.
  exists log. split; [done|]. split; [|unfold weight; simpl; rewrite Hz, Hn; destruct (Z.to_nat (size (take piece rest))); lia].
  assert (length rest = (length body - o)%nat) as Hrest by apply length_drop.
  assert (Z.of_nat o = e_message_offset s.2) as Eo by (unfold o; lia).
  unfold size in *. rewrite Nat2Z.id. constructor; simpl; try done.
  - rewrite length_take, length_drop. lia.
  - exists (octet frame_end ++ if (length rest <=? piece)%nat then [] else body_frames channel_ (drop piece rest)). split.
    + rewrite <- E. do 2 f_equal. rewrite length_take.
      assert (rest = take (length rest) (drop o region)) as Er
        by (rewrite Hrest, <- skipn_firstn_comm; unfold rest; by rewrite Htake).
      rewrite Er at 2. rewrite take_take. f_equal.
    + exists body. split; [done|]. unfold wrap. rewrite Z.mod_small by (rewrite length_take; lia).
      simpl. split; [unfold size; rewrite length_take; lia|]. f_equal. unfold more_frames, size. rewrite length_take.
      destruct (Nat.leb_spec (length rest) piece); case_match eqn:Ee; rewrite ?Z.eqb_eq, ?Z.eqb_neq in Ee; try done; try lia.
      f_equal. unfold rest. rewrite drop_drop. f_equal. rewrite length_drop. lia.
Qed.
Lemma frame_end_ok calls s log out : enc_inv calls s log out → to_write s.1 = 0%nat →
  enc_next s.1 = enc_frame_end → wp amqp_frame_end no_fault (act_post calls s log out) s.
Proof.
  intros I Hz Hn. destruct (enc_inv_idle _ _ _ _ I Hz) as (tail & E & Ht). destruct I as [Hr (Hf & Hc & Hq & Hb) Hg Hcalls Hh Ha _].
  unfold to_come in Ht. rewrite Hn in Ht, Ha. destruct Ht as (body & [Hbody Hsz] & Ho & ->).
  destruct (octet_at_front (e_framebuf s.2) frame_end Hb) as [Hoct Hb'].
  unfold amqp_frame_end, enc_modify. wp_steps. eapply runs_wp; [by apply message_size_runs|].
  unfold more_frames in E. rewrite Z.eqb_sym in E. simpl.
  destruct (size body =? e_message_offset s.2) eqn:Ee; unfold enc_next_step; wp_steps;
    (exists log; split; [done|]; split; [|unfold weight; simpl; rewrite Hz, Hn; lia]);
    (constructor; simpl; try done; [unfold put_uint8, size, frame_min_size in *; rewrite length_insert; lia|]).
  - exists []. split; [|done]. rewrite app_nil_r, <- E, app_nil_r. f_equal. exact Hoct.
  - eexists. split; [|by exists body]. rewrite <- E. f_equal. f_equal. exact Hoct.
Qed.

(** A frame without its arguments and its end, as the marshaller's command is sent. *)
Lemma enc_command_composes c : command_ok c →
  composes (enc_command c) (octet frame_method ++ short (channel c) ++
    long (size (short (class_id c) ++ short (method_id c) ++ arguments_of c)) ++ short (class_id c) ++ short (method_id c)).
Proof.
  intros [Ha Hs]. apply writes_composes. unfold enc_command, arguments_of.
  assert (u64 (Z.of_nat (args_size c) + 2 + 2) = size (short (class_id c) ++ short (method_id c) ++ take (args_size c) (cmd_args c))) as Es.
  { unfold size, frame_min_size, wrap in *. rewrite !length_app, !length_short, length_take, Z.mod_small; lia. }
  rewrite <- Es, <- long_wrap. repeat (apply writes_seq; [solve [auto with amqp_writes]|]). auto with amqp_writes.
Qed.

Lemma enc_publish_composes : composes (enc_publish channel_ queue_) (publish_frame channel_ queue_).
Proof using Hqueue.
  apply enc_frame_composes. unfold method_bytes, fields_bytes. csimpl.
  assert (u8 (Z.of_nat (String.length queue_)) = size (bytes_of queue_)) as ->.
  { unfold wrap, size. rewrite length_bytes_of, Z.mod_small; lia. }
  repeat (apply writes_seq; [solve [auto with amqp_writes]|]).
  rewrite <- app_assoc, app_nil_r. apply writes_seq; [auto with amqp_writes|]. apply writes_seq; [|auto with amqp_writes].
  apply writes_room; [by rewrite length_bytes_of|apply writes_bytes].
Qed.

Lemma length_publish_frame : size (publish_frame channel_ queue_) ≤ frame_min_size.
Proof using Hqueue.
  unfold size, publish_frame. rewrite length_amqp_frame. unfold method_bytes, fields_bytes, frame_min_size. csimpl.
  rewrite !length_app, !length_short, !length_octet, length_bytes_of. simpl. lia.
Qed.

Lemma marshaller_read_some s c q : command_queue (marshaller s.2) = c :: q →
  runs (on_marshaller marshaller_read) s (Some c) (s.1, s.2 <| marshaller := Marshaller q |>).
Proof. destruct s as [e [[l]]]. simpl. by intros ->. Qed.

Lemma marshaller_read_none s : command_queue (marshaller s.2) = [] → runs (on_marshaller marshaller_read) s None s.
Proof. destruct s as [e [[l]]]. simpl. by intros ->. Qed.

(** A command is taken off the queue. *)
Lemma command_ready_ok calls s log out c q : enc_inv calls s log out → to_write s.1 = 0%nat →
  enc_next s.1 = message_ready → command_queue (marshaller s.2) = c :: q →
  wp amqp_message_ready source_fault (act_post calls s log out) s.
Proof.
  intros I Hz Hn Hcq. destruct (enc_inv_idle _ _ _ _ I Hz) as (tail & E & Ht). destruct I as [Hr (Hf & Hc & Hq & Hb) Hg Hcalls Hh Ha _].
  unfold to_come in Ht. rewrite Hn in Ht, Ha. subst tail. rewrite app_nil_r in E.
  unfold amqp_message_ready. apply wp_bind. eapply runs_wp; [by eapply marshaller_read_some|]. rewrite Hcq in *. cbv iota.
  assert (command_ok c) as Hok by (rewrite Hcalls, Forall_app in Hg; by destruct Hg as [_ ?%Forall_cons_1]; naive_solver).
  unfold enc_modify. wp_steps. match goal with |- wp _ _ _ ?y => set (s1 := y) end.
  destruct (compose_runs _ _ s1 (enc_command_composes c Hok) Hb) as (b & Hr' & Hb' & Hbt).
  { unfold size. rewrite !length_app, !length_short, length_octet, length_long. done. }
  eapply runs_wp; [exact Hr'|]. unfold enc_next_step. wp_steps. exists (log ++ [it_command c]). split; [by apply prefix_app_r|].
  split; [|unfold weight; simpl; rewrite Hz, Hn, length_app, length_octet; simpl; lia].
  constructor; simpl; try done.
  - unfold size, frame_min_size in *. rewrite !length_app, !length_short, length_octet, length_long. lia.
  - rewrite Hcalls. unfold commands. rewrite omap_app. simpl. by rewrite <- app_assoc.
  - unfold bodies. rewrite omap_app. simpl. by rewrite app_nil_r.
  - exists (arguments_of c ++ octet frame_end). split; [|done]. rewrite Hbt, stream_snoc, <- E. simpl.
    unfold method_frame, amqp_frame. by rewrite <- !app_assoc.
Qed.

(** No command waits: a message, if messages flow and there is one. *)
Lemma message_read_ok calls s log out : enc_inv calls s log out → to_write s.1 = 0%nat →
  enc_next s.1 = message_ready → command_queue (marshaller s.2) = [] →
  wp amqp_message_ready source_fault (act_post calls s log out) s.
Proof using Hsource Hqueue.
  intros I Hz Hn Hcq. destruct (enc_inv_idle _ _ _ _ I Hz) as (tail & E & Ht). pose proof I as [Hr (Hf & Hc & Hq & Hb) Hg Hcalls Hh Ha _].
  unfold to_come in Ht. rewrite Hn in Ht, Ha. subst tail. rewrite app_nil_r in E.
  unfold amqp_message_ready. apply wp_bind. eapply runs_wp; [by apply marshaller_read_none|]. cbv iota.
  wp_steps. simpl e_flow_on. destruct (e_flow_on s.2) eqn:Ef; simpl negb; cbv iota; wp_steps.
  - apply wp_lift. eapply wp_mono; [by apply source_read_law|]. intros [retrieved m] x' Hread. cbv beta iota zeta.
    unfold enc_modify. wp_steps. match goal with |- wp _ _ _ ?y => set (s1 := y) end.
    destruct retrieved; simpl negb; cbv iota; wp_steps.
    + destruct Hread as (body & Hheld & Hbody). pose proof (Hsource _ _ _ Hheld) as [_ Hsz%Forall_cons_1]%Forall_app.
      rewrite Hc, Hq. destruct (compose_runs _ _ s1 enc_publish_composes Hb length_publish_frame) as (b & Hr' & Hb' & Hbt).
      eapply runs_wp; [exact Hr'|]. unfold enc_next_step. wp_steps. exists (log ++ [it_message body]). split; [by apply prefix_app_r|].
      split; [|unfold weight; simpl; rewrite Hz, Hn; unfold publish_frame; rewrite length_amqp_frame; simpl; lia].
      constructor; simpl; try done.
      * pose proof length_publish_frame. unfold size in *. lia.
      * split_and!; [congruence|done..].
      * rewrite Hcalls. unfold commands. rewrite omap_app. simpl. by rewrite app_nil_r.
      * unfold bodies in *. by rewrite omap_app.
      * eexists. split; [|exists body; split; [by destruct Hsz|reflexivity]]. rewrite Hbt, stream_snoc, <- E. simpl.
        done.
    + destruct Hread as [Hread _]. split; [|split; [done|by rewrite Hcalls, Hcq, app_nil_r]]. destruct I. constructor; simpl; try done. destruct ei_out0 as (tail & E' & Ht). exists tail.
      split; [done|]. unfold to_come in *. simpl. by rewrite Hn in *.
  - split; [done|]. split; [done|]. by rewrite Hcalls, Hcq, app_nil_r.
Qed.

Lemma amqp_enc_act_ok calls s log out : enc_inv calls s log out → to_write s.1 = 0%nat →
  wp (amqp_enc_act (enc_next s.1)) source_fault (act_post calls s log out) s.
Proof using HasHeapLaws0 Hsource Hqueue.
  intros I Hz. assert (∀ m, wp m no_fault (act_post calls s log out) s → wp m source_fault (act_post calls s log out) s) as Hnf
    by (intros m; apply wp_fault; by intros ? []).
  destruct (enc_next s.1) eqn:Hn; unfold amqp_enc_act.
  - destruct (command_queue (marshaller s.2)) eqn:Hq; [by apply message_read_ok|by eapply command_ready_ok].
  - by apply Hnf, command_header_ok.
  - by apply Hnf, command_arguments_ok.
  - by apply Hnf, content_header_ok.
  - by apply Hnf, content_body_frame_header_ok.
  - by apply Hnf, content_body_ok.
  - by apply Hnf, frame_end_ok.
Qed.

Lemma amqp_encoder_read_ok calls s log out size : enc_inv calls s log out →
  wp (amqp_encoder_read size) source_fault (read_post (enc_inv calls) (λ _, complete calls) prefix (λ _ _, True) prefix log log out [] size) s.
Proof using HasHeapLaws0 Hsource Hqueue.
  apply (encoder_read_ok amqp_enc_act source_fault (enc_inv calls) (λ _, complete calls) prefix (λ _ _, True) prefix weight).
  - intros e. unfold weight. destruct (to_write e), (enc_next e); lia.
  - intros ? ? ? []. done.
  - intros. by apply enc_inv_written.
  - intros. by apply enc_inv_beginning.
  - done.
  - intros s' log' out' I Hz. eapply wp_mono; [by apply amqp_enc_act_ok|]. intros [] s2 Hp; [|by split].
    split; [done|]. destruct Hp as (log2 & ? & ? & ?). by exists log2.
Qed.

End encoding.

(** ** What the engine does with the encoder *)

Inductive enc_call := read_into (size : nat) | marshal_method (channel_ : Z) (m : amqp_method).

(** What is sent: methods, each on its channel, and messages. *)
Inductive sent := sent_method (channel_ : Z) (m : amqp_method) | sent_message (body : list Z).

Definition method_calls (l : list enc_call) : list (Z * amqp_method) :=
  omap (λ c, match c with marshal_method ch m => Some (ch, m) | _ => None end) l.
Definition sent_methods (l : list sent) : list (Z * amqp_method) :=
  omap (λ i, match i with sent_method ch m => Some (ch, m) | _ => None end) l.
Definition sent_messages (l : list sent) : list (list Z) :=
  omap (λ i, match i with sent_message b => Some b | _ => None end) l.

Definition sent_bytes (channel_ : Z) (queue_ : string) (i : sent) : list Z :=
  match i with
  | sent_method ch m => amqp_frame frame_method ch (short (class_of m) ++ short (method_of m) ++ method_bytes m)
  | sent_message body => message_frames channel_ queue_ body
  end.
Definition conversation (channel_ : Z) (queue_ : string) (l : list sent) : list Z :=
  protocol_header ++ concat (sent_bytes channel_ queue_ <$> l).

Definition is_command (cm : Z * amqp_method) (c : command_t) : Prop := command_of cm.1 cm.2 c.

Lemma is_command_frame channel_ queue_ ch m c : command_of ch m c → method_frame c = sent_bytes channel_ queue_ (sent_method ch m).
Proof. intros (E1 & E2 & E3 & _ & E & _). unfold method_frame, arguments_of, sent_bytes. by rewrite E, E1, E2, E3. Qed.

(** The commands of a stream as the methods they were made of. *)
Lemma as_methods channel_ queue_ q log : ∀ ms, Forall2 is_command ms (commands log ++ q) →
  ∃ l more, item_bytes channel_ queue_ <$> log = sent_bytes channel_ queue_ <$> l ∧ sent_messages l = bodies log ∧
    ms = sent_methods l ++ more ∧ length more = length q.
Proof.
  induction log as [|[c|b] log IH]; intros ms H; csimpl in *.
  - exists [], ms. split_and!; [done..|]. by eapply Forall2_length.
  - apply Forall2_cons_inv_r in H as ([ch m] & ms' & Hc & H & ->).
    destruct (IH _ H) as (l & more & Hl & Hb & -> & Hm). exists (sent_method ch m :: l), more.
    split_and!; [|done..]. csimpl. rewrite Hl. f_equal. by apply (is_command_frame channel_ queue_).
  - destruct (IH _ H) as (l & more & Hl & Hb & -> & Hm). exists (sent_message b :: l), more.
    split_and!; [csimpl; by rewrite Hl|csimpl; by rewrite <- Hb|done..].
Qed.

Section use.
Context {X : Type} `{!HasHeap X, !HasHeapLaws X, !MessageSource X, !SourceLaws X}.
Context (malloc : list Z) (Hmalloc : size malloc = frame_min_size).
Context (flow : bool) (channel_ : Z) (queue_ : string).
Context (Hsource : ∀ x m log, source_held x m log → Forall (λ b, size b < 2 ^ 64) log).
Context (Hqueue : (String.length queue_ ≤ 255)%nat).

Abbreviation state := (encoder_t enc_step * amqp_enc_env X)%type.
Implicit Types (s : state).

(** Reads and marshalled methods in any order; what the reads give. *)
Fixpoint use (l : list enc_call) : ST state (list (list Z)) :=
  match l with
  | [] => mret []
  | read_into size :: l => r ← amqp_encoder_read size; rest ← use l; mret (r.1 :: rest)
  | marshal_method ch m :: l => on_marshaller (marshal malloc ch m) ;; use l
  end.

Definition all_fit (l : list enc_call) : Prop := Forall (λ cm, size (method_bytes cm.2) ≤ frame_min_size) (method_calls l).

(** [ms]: the methods marshalled so far. *)
Definition use_inv (ms : list (Z * amqp_method)) s (log : list item) (out : list Z) : Prop :=
  ∃ calls, enc_inv flow channel_ queue_ calls s log out ∧ Forall2 is_command ms calls.

Lemma use_inv_ready memory : size (e_framebuf memory) = frame_min_size → source_held (e_io memory) (e_message memory) [] →
  wp (amqp_encoder_flow flow channel_) no_fault (λ _ s, use_inv [] s [] []) (amqp_encoder_new queue_ memory).
Proof.
  intros Hf Hs. unfold amqp_encoder_flow, enc_modify. wp_steps. exists []. split; [|constructor].
  constructor; simpl; try done. by exists [].
Qed.

Lemma use_inv_marshal ms s log out ch m : size (method_bytes m) ≤ frame_min_size → use_inv ms s log out →
  wp (on_marshaller (marshal malloc ch m)) no_fault (λ _ s', use_inv (ms ++ [(ch, m)]) s' log out) s.
Proof using Hmalloc.
  intros Hm (calls & [] & Hms). destruct (marshaller s.2) as [q] eqn:Eq. simpl in *.
  destruct (marshal_queues malloc Hmalloc ch m q Hm) as (c & Hr & Hc).
  eapply (runs_wp _ _ _ _ tt (s.1, s.2 <| marshaller := Marshaller (q ++ [c]) |>)).
  { unfold runs, on_marshaller, st_lift in *. by rewrite Eq, Hr. }
  exists (calls ++ [c]). split; [|by apply Forall2_app; [|constructor]].
  constructor; simpl; try done.
  - apply Forall_app. split; [done|]. constructor; [|done]. destruct Hc as (_ & _ & _ & El & _ & Ea).
    split; [done|]. by rewrite El.
  - by rewrite ei_calls0, app_assoc.
Qed.

Lemma use_ok l : ∀ ms s log out, all_fit l → use_inv ms s log out →
  wp (use l) source_fault (λ chunks s', ∃ log', use_inv (ms ++ method_calls l) s' log' (out ++ concat chunks)) s.
Proof using HasHeapLaws0 Hmalloc Hsource Hqueue.
  induction l as [|[n|ch m] l IH]; intros ms s log out Hfit Hi; csimpl in *.
  - apply wp_ret. exists log. by rewrite !app_nil_r.
  - destruct Hi as (calls & Hi & Hms). wp_steps.
    eapply wp_mono; [by eapply amqp_encoder_read_ok|]. intros r s1 (log1 & Hi1 & _).
    wp_steps. eapply wp_mono; [apply (IH ms s1 log1 (out ++ r.1)); [done|by exists calls]|].
    intros chunks s2 (log2 & Hi2). wp_steps. exists log2. csimpl. by rewrite app_assoc.
  - apply Forall_cons in Hfit as [Hm Hfit]. wp_steps. apply (wp_fault no_fault); [by intros ? []|].
    eapply wp_mono; [by eapply use_inv_marshal|]. intros [] s1 Hi1. wp_steps.
    eapply wp_mono; [by eapply IH|]. intros chunks s2 (log2 & Hi2). exists log2. by rewrite <- app_assoc in Hi2.
Qed.

(** C24: Whatever methods are marshalled and whatever buffers the encoder is
    given, in any order, it fails no assertion, and what it has written is the
    protocol header, then methods, in the order they were marshalled, and
    the messages it has read, each in its frames, up to a part that is still
    to come; when it gives less than it is asked for, nothing is. *)
Theorem amqp_encoder_frames l n memory :
  size (e_framebuf memory) = frame_min_size → source_held (e_io memory) (e_message memory) [] → all_fit l →
  wp (amqp_encoder_flow flow channel_ ;; chunks ← use l; r ← amqp_encoder_read n; mret (chunks, r.1)) source_fault
    (λ '(chunks, last) s', ∃ items rest,
      concat chunks ++ last ++ rest = conversation channel_ queue_ items ∧
      sent_methods items `prefix_of` method_calls l ∧
      source_held (e_io s'.2) (e_message s'.2) (sent_messages items) ∧
      (length last ≤ n)%nat ∧
      ((length last < n)%nat → rest = [] ∧ sent_methods items = method_calls l))
    (amqp_encoder_new queue_ memory).
Proof using HasHeapLaws0 Hmalloc Hsource Hqueue.
  intros Hf Hs Hfit. wp_steps. apply (wp_fault no_fault); [by intros ? []|].
  eapply wp_mono; [by apply use_inv_ready|]. intros [] s1 Hi1. wp_steps.
  eapply wp_mono; [by eapply use_ok|]. intros chunks s2 (log2 & calls & Hi2 & Hms). wp_steps.
  eapply wp_mono; [by eapply amqp_encoder_read_ok|]. intros r s3 (log3 & Hi3 & _ & _ & Hl & Hd & _). wp_steps.
  destruct Hi3 as [_ _ _ Hcalls Hh _ (tail & E & _)]. rewrite Hcalls in Hms. simpl in Hms, E, Hd.
  destruct (as_methods channel_ queue_ _ _ _ Hms) as (items & more & Hl' & Hb & Em & Hmore).
  exists items, (take (to_write s3.1) (write_pos s3.1) ++ tail). unfold conversation, stream in *. rewrite Hl' in *.
  rewrite <- !app_assoc in E. rewrite E, Hb, Em. split_and!; [done|by apply prefix_app_r|done|done|].
  intros Hn. destruct (Hd Hn) as [Eo Ec]. split.
  - apply (app_inv_head (concat chunks ++ r.1)). rewrite app_nil_r, <- app_assoc, E, <- Hl'. by symmetry.
  - assert (more = []) as ->; [|by rewrite app_nil_r]. apply nil_length_inv. rewrite Hmore.
    pose proof (f_equal length Ec) as El. rewrite Hcalls, length_app in El. lia.
Qed.
End use.
