(* ===== verification/AmqpClient.v ===== *)
(** The engine that connects to an AMQP broker: the handshake as an [i_amqp],
    the connection, and the commands of its thread
    ([src/libzmq/amqp_client.cpp], [zmq/amqp_client.hpp]). *)
From S2P Require Import Prelude Attributes Config Channel Message MessageBody Command Swap Pipe Store Mux Demux Engine Codec BpCodec TcpSocket BpTcpEngine Amqp AmqpMarshaller AmqpUnmarshaller AmqpCodec.
Local Open Scope Z_scope.

Inductive state_t :=
  | state_connecting
  | state_waiting_for_connection_start
  | state_waiting_for_connection_tune
  | state_waiting_for_connection_open_ok
  | state_waiting_for_channel_open_ok
  | state_waiting_for_queue_declare_ok
  | state_waiting_for_basic_consume_ok
  | state_active
  | state_waiting_for_reconnect
  | state_shutting_down.
#[export] Instance state_eq_dec : EqDecision state_t.
Proof. solve_decision. Defined.

Section client.
Context {P S N Q : Type} `{!Channel raw_message P, !Swap S, !Sockets N, !IPoller Q}.

(** The members of the client but for its decoder, and what it reaches: the
    objects of its thread, the operating system, the poller. *)
Record amqp_client_t := AmqpClient {
  a_base : engine_base_t;
  state : state_t;
  a_channel : Z;
  a_encoder : encoder_t enc_step;
  a_marshaller : amqp_marshaller_t;
  a_command : command_t;
  a_command_args : args_ptr;
  a_enc_message : raw_message;
  a_enc_offset : Z;
  a_queue : string;
  a_enc_flow : bool;
  a_enc_channel : Z;
  a_enc_framebuf : list Z;
  writebuf : list Z;
  write_size : Z;
  write_pos : Z;
  readbuf : list Z;
  read_size : Z;
  read_pos : Z;
  socket : tcp_socket_t;
  handle : handle_t;
  local_object : string;
  arguments : string;
  a_objs : store P S;
  a_net : N;
  a_poll : Q
}.
#[export] Instance eta_amqp_client : Eta amqp_client_t := λ a,
  AmqpClient (a_base a) (state a) (a_channel a) (a_encoder a) (a_marshaller a) (a_command a) (a_command_args a)
    (a_enc_message a) (a_enc_offset a) (a_queue a) (a_enc_flow a) (a_enc_channel a) (a_enc_framebuf a)
    (writebuf a) (write_size a) (write_pos a) (readbuf a) (read_size a) (read_pos a) (socket a) (handle a)
    (local_object a) (arguments a) (a_objs a) (a_net a) (a_poll a).

Definition base_of (a : amqp_client_t) : eenv P S := EEnv (a_base a) (a_objs a).
Definition set_base (e : eenv P S) (a : amqp_client_t) : amqp_client_t := a <| a_base := base e |> <| a_objs := objs e |>.

(** The decoder writes to the client's [demux]. *)
#[export] Instance client_heap : HasHeap amqp_client_t := {
  heap_of a := heap (a_objs a);
  set_heap h a := a <| a_objs := a_objs a <| heap := h |> |>
}.
#[export] Instance client_sink : MessageSink amqp_client_t := {
  sink_write m := st_lift base_of set_base (out_engine_write m)
}.

(** The whole client: its decoder, with the rest for what it reaches. *)
Definition world : Type := decoder_t dec_step dec_target * amqp_dec_env amqp_client_t.

Definition on_client {A} : ST amqp_client_t A → ST world A := dec_on_io.
Definition client (w : world) : amqp_client_t := d_io w.2.
Definition modify_client (f : amqp_client_t → amqp_client_t) : ST world unit := on_client (st_modify f).
Definition get_client : ST world amqp_client_t := on_client st_get.
Definition on_net {A} : ST N A → ST world A := λ f, on_client (st_lift a_net (λ n a, a <| a_net := n |>) f).
Definition on_poll {A} : ST Q A → ST world A := λ f, on_client (st_lift a_poll (λ q a, a <| a_poll := q |>) f).
Definition on_objs {A} : ST (store P S) A → ST world A := λ f, on_client (st_lift a_objs (λ o a, a <| a_objs := o |>) f).
Definition on_base {A} : ST (eenv P S) A → ST world A := λ f, on_client (st_lift base_of set_base f).

Definition encoder_of (a : amqp_client_t) : encoder_t enc_step * amqp_enc_env (eenv P S) :=
  (a_encoder a, EncEnv (a_marshaller a) (a_command a) (a_command_args a) (a_enc_message a) (a_enc_offset a) (a_queue a)
    (a_enc_flow a) (a_enc_channel a) (a_enc_framebuf a) (base_of a)).
Definition set_encoder (s : encoder_t enc_step * amqp_enc_env (eenv P S)) (a : amqp_client_t) : amqp_client_t :=
  set_base (e_io s.2) (a <| a_encoder := s.1 |> <| a_marshaller := marshaller s.2 |> <| a_command := command s.2 |>
    <| a_command_args := command_args_ptr s.2 |> <| a_enc_message := e_message s.2 |> <| a_enc_offset := e_message_offset s.2 |>
    <| a_queue := queue s.2 |> <| a_enc_flow := e_flow_on s.2 |> <| a_enc_channel := e_message_channel s.2 |>
    <| a_enc_framebuf := e_framebuf s.2 |>).
Definition on_encoder {A} : ST (encoder_t enc_step * amqp_enc_env (eenv P S)) A → ST world A :=
  λ f, on_client (st_lift encoder_of set_encoder f).

(** [encoder->method (...)]: the encoder is a marshaller. *)
Definition call_encoder (f : ST amqp_marshaller_t unit) : ST world unit := on_encoder (on_marshaller f).

Definition on_socket (f : tcp_socket_t → ST N tcp_socket_t) : ST world unit :=
  a ← get_client;
  t ← on_net (f (socket a));
  modify_client (λ a, a <| socket := t |>).

(** The engine's address, the handler that the user has registered, a bound
    on the messages left in a pipe that is deleted, and what a new block of
    arguments holds. *)
Context (this : engine_id) (error_handler : option (string → bool)) (fuel : nat) (malloc : list Z).

Definition set_state (st : state_t) : ST world unit := modify_client (λ a, a <| state := st |>).
Definition is_state (a : amqp_client_t) (st : state_t) : bool := bool_decide (state a = st).
Definition poll_handle (f : handle_t → ST Q unit) : ST world unit := a ← get_client; on_poll (f (handle a)).
Definition set_pollout : ST world unit := poll_handle po_set_pollout.

(** ** Making a client *)

(** [memory] is what the members hold before they are set. *)
Definition amqp_client_new (calling_thread_ thread_ : thread_id) (hostname_ : cstring) (local_object_ : string)
    (load_balancing_ : bool) (arguments_ : string) (memory : world) : ST (store P S * N) world :=
  sock ← st_lift snd (λ n s, (s.1, n)) (tcp_socket_new hostname_ false);
  st_lift fst (λ o s, (o, s.2)) (send_register this calling_thread_ thread_) ;;
  s ← st_get;
  let a := client memory in
  let e := amqp_encoder_new arguments_ (encoder_of a).2 in
  let a := set_encoder e a <| a_base := engine_base_new load_balancing_ |> <| state := state_connecting |>
    <| writebuf := [] |> <| write_size := 0 |> <| write_pos := 0 |> <| readbuf := [] |> <| read_size := 0 |>
    <| read_pos := 0 |> <| socket := sock |> <| local_object := local_object_ |> <| arguments := arguments_ |>
    <| a_objs := s.1 |> <| a_net := s.2 |> in
  mret (amqp_decoder_new (memory.2 <| d_io := a |>)).

Definition amqp_client_delete : ST world unit := on_encoder amqp_encoder_delete ;; amqp_decoder_delete.

Definition client_get_watermarks : Z * Z := (bp_hwm, bp_lwm).
Definition client_get_swap_size : Z := 0.

(** ** Errors *)

Definition start_timer : ST world unit := on_poll (po_add_timer this) ;; set_state state_waiting_for_reconnect.

Definition client_reconnect : ST world unit :=
  a ← get_client;
  st_when (negb (is_state a state_waiting_for_reconnect))
    (poll_handle po_rm_fd ;;
     on_socket tcp_close ;;
     modify_client (λ a, a <| read_pos := read_size a |> <| write_pos := write_size a |>)) ;;
  if is_state a state_connecting then start_timer
  else
    on_socket tcp_reopen ;;
    a ← get_client;
    if s (socket a) =? retired_fd then start_timer
    else
      h ← on_poll (po_add_fd (s (socket a)) this);
      modify_client (λ a, a <| handle := h |>) ;;
      set_pollout ;;
      set_state state_connecting.

Definition client_error : ST world unit :=
  a ← get_client;
  st_when (negb (is_state a state_connecting) && negb (is_state a state_waiting_for_reconnect))
    (on_objs (demux_gap (demux (a_base a))) ;;
     on_encoder amqp_encoder_reset ;;
     amqp_decoder_reset) ;;
  st_assert (match error_handler with Some eh => eh (local_object a) | None => true end) ;;
  client_reconnect.

(** ** The handshake *)

(** [assert (state == st)]. *)
Definition assert_state (st : state_t) : ST world unit := a ← get_client; st_assert (is_state a st).

(** ["\x00guest\x00guest"], 12 bytes. *)
Definition guest_guest : longstr_t := [0] ++ bytes_of "guest" ++ [0] ++ bytes_of "guest".

Definition client_connection_start (channel_ version_major_ version_minor_ : Z) : ST world unit :=
  st_assert (channel_ =? 0) ;;
  assert_state state_waiting_for_connection_start ;;
  st_assert (version_major_ =? 0) ;;
  st_assert (version_minor_ =? 9) ;;
  plain ← shortstr_new "PLAIN";
  en_US ← shortstr_new "en_US";
  call_encoder (connection_start_ok malloc 0 ∅ plain guest_guest en_US) ;;
  set_state state_waiting_for_connection_tune ;;
  set_pollout.

Definition client_connection_tune (channel_ : Z) : ST world unit :=
  st_assert (channel_ =? 0) ;;
  assert_state state_waiting_for_connection_tune ;;
  call_encoder (connection_tune_ok malloc 0 1 frame_min_size 0) ;;
  slash ← shortstr_new "/";
  empty ← shortstr_new "";
  call_encoder (connection_open malloc 0 slash empty true) ;;
  set_state state_waiting_for_connection_open_ok ;;
  set_pollout.

Definition client_connection_open_ok (channel_ : Z) : ST world unit :=
  st_assert (channel_ =? 0) ;;
  assert_state state_waiting_for_connection_open_ok ;;
  empty ← shortstr_new "";
  call_encoder (channel_open malloc 0 empty) ;;
  set_state state_waiting_for_channel_open_ok ;;
  set_pollout.

Definition client_channel_open_ok (channel_ : Z) : ST world unit :=
  assert_state state_waiting_for_channel_open_ok ;;
  modify_client (λ a, a <| a_channel := channel_ |>) ;;
  a ← get_client;
  name ← shortstr_new (arguments a);
  call_encoder (queue_declare malloc (a_channel a) 0 name false false false false false ∅) ;;
  set_state state_waiting_for_queue_declare_ok ;;
  set_pollout.

(** [assert (channel_ == channel)]. *)
Definition assert_channel (channel_ : Z) : ST world unit := a ← get_client; st_assert (channel_ =? a_channel a).

Definition client_queue_declare_ok (channel_ : Z) : ST world unit :=
  assert_channel channel_ ;;
  assert_state state_waiting_for_queue_declare_ok ;;
  a ← get_client;
  name ← shortstr_new (arguments a);
  empty ← shortstr_new "";
  call_encoder (basic_consume malloc (a_channel a) 0 name empty true true false false ∅) ;;
  set_state state_waiting_for_basic_consume_ok ;;
  set_pollout.

Definition client_basic_consume_ok (channel_ : Z) : ST world unit :=
  assert_channel channel_ ;;
  assert_state state_waiting_for_basic_consume_ok ;;
  a ← get_client;
  on_encoder (amqp_encoder_flow true (a_channel a)) ;;
  amqp_decoder_flow true (a_channel a) ;;
  set_state state_active ;;
  set_pollout.

(** The text that came with the error is printed. *)
Definition client_channel_close (channel_ : Z) : ST world unit := assert_channel channel_ ;; client_error.
Definition client_connection_close (channel_ : Z) : ST world unit := st_assert (channel_ =? 0) ;; client_error.

(** The client as an [i_amqp]. *)
Definition client_callback : i_amqp world := λ channel_ m,
  match m with
  | of_connection (m_connection_start version_major_ version_minor_ _ _ _) =>
      client_connection_start channel_ version_major_ version_minor_
  | of_connection (m_connection_tune _ _ _) => client_connection_tune channel_
  | of_connection (m_connection_open_ok _) => client_connection_open_ok channel_
  | of_channel (m_channel_open_ok _) => client_channel_open_ok channel_
  | of_queue (m_queue_declare_ok _ _ _) => client_queue_declare_ok channel_
  | of_basic (m_basic_consume_ok _) => client_basic_consume_ok channel_
  | of_channel (m_channel_close _ _ _ _) => client_channel_close channel_
  | of_connection (m_connection_close _ _ _ _) => client_connection_close channel_
  | _ => i_amqp_default channel_ m
  end.

(** ** Events *)

Definition sink_flush : ST amqp_client_t unit :=
  a ← st_get; st_lift a_objs (λ o a, a <| a_objs := o |>) (demux_flush (demux (a_base a))).

Definition client_register_event : ST world unit :=
  assert_state state_connecting ;;
  a ← get_client;
  h ← on_poll (po_add_fd (s (socket a)) this);
  modify_client (λ a, a <| handle := h |>) ;;
  set_pollout.

Definition unread (a : amqp_client_t) : list Z :=
  drop (Z.to_nat (read_pos a)) (take (Z.to_nat (read_size a)) (readbuf a)).
Definition unwritten (a : amqp_client_t) : list Z :=
  drop (Z.to_nat (write_pos a)) (take (Z.to_nat (write_size a)) (writebuf a)).

(** The part of [in_event] after the socket was read. *)
Definition process_input (stuck : bool) : ST world unit :=
  a ← get_client;
  st_when (read_pos a <? read_size a)
    (nbytes ← amqp_decoder_write client_callback sink_flush (unread a);
     modify_client (λ a, a <| read_pos := read_pos a + Z.of_nat nbytes |>) ;;
     a ← get_client;
     (if stuck : bool then st_when (read_pos a =? read_size a) (poll_handle po_set_pollin)
      else st_when (read_pos a <? read_size a) (poll_handle po_reset_pollin)) ;;
     st_when (bool_decide (0 < nbytes)%nat) (on_client sink_flush)).

Definition client_in_event : ST world unit :=
  a ← get_client;
  if is_state a state_connecting then
    rc ← on_net (socket_error (socket a));
    st_assert rc ;;
    client_error
  else
    let stuck := read_pos a <? read_size a in
    if read_pos a =? read_size a then
      data ← on_net (tcp_read (socket a) (Z.to_nat bp_in_batch_size));
      match data with
      | None => modify_client (λ a, a <| read_size := -1 |> <| read_pos := 0 |>) ;; client_error
      | Some bs =>
          modify_client (λ a, a <| readbuf := bs |> <| read_size := Z.of_nat (length bs) |> <| read_pos := 0 |>) ;;
          process_input stuck
      end
    else process_input stuck.

Definition process_output : ST world unit :=
  a ← get_client;
  if write_pos a <? write_size a then
    nbytes ← on_net (tcp_write (socket a) (unwritten a));
    if nbytes =? -1 then client_error
    else modify_client (λ a, a <| write_pos := write_pos a + nbytes |>)
  else mret tt.

Definition client_out_event : ST world unit :=
  a ← get_client;
  if is_state a state_connecting then
    rc ← on_net (socket_error (socket a));
    if (rc : bool) then client_error
    else poll_handle po_set_pollin ;; set_state state_waiting_for_connection_start
  else
    st_when (write_pos a =? write_size a)
      ('(data, _) ← on_encoder (amqp_encoder_read (Z.to_nat bp_out_batch_size));
       modify_client (λ a, a <| writebuf := data |> <| write_size := Z.of_nat (length data) |> <| write_pos := 0 |>) ;;
       st_when (bool_decide (data = [])) (poll_handle po_reset_pollout)) ;;
    process_output.

Definition client_timer_event : ST world unit := assert_state state_waiting_for_reconnect ;; client_reconnect.

Definition client_unregister_event : ST world unit :=
  a ← get_client;
  st_when (negb (is_state a state_waiting_for_reconnect) && negb (is_state a state_shutting_down))
    (poll_handle po_rm_fd ;; on_socket tcp_close).

(** ** Commands *)

Definition client_revive (pipe_ : pipe_id) : ST world unit :=
  a ← get_client;
  st_when (negb (is_state a state_connecting) && negb (is_state a state_shutting_down))
    (on_base (engine_revive true pipe_) ;;
     a ← get_client;
     st_when (write_size a =? 0) (set_pollout ;; client_out_event)).

Definition client_head (pipe_ : pipe_id) (position_ : Z) : ST world unit :=
  a ← get_client;
  st_when (negb (is_state a state_connecting) && negb (is_state a state_shutting_down))
    (on_base (engine_head true pipe_ position_) ;; client_in_event).

Definition client_send_to (pipe_ : pipe_id) : ST world unit :=
  a ← get_client;
  st_when (negb (is_state a state_shutting_down) && demux_no_pipes (P := P) (S := S) (demux (a_base a))) (poll_handle po_set_pollin) ;;
  on_base (engine_send_to true pipe_).

Definition client_receive_from (pipe_ : pipe_id) : ST world unit :=
  on_base (engine_receive_from true pipe_) ;;
  a ← get_client;
  st_when (is_state a state_shutting_down) (on_objs (on_pipe pipe_ pipe_terminate_reader)) ;;
  st_when (negb (is_state a state_connecting) && negb (is_state a state_shutting_down)) set_pollout.

Definition client_process (engcmd : engine_command_t) : ST world unit :=
  match engcmd with
  | ec_revive pipe => client_revive pipe
  | ec_head pipe position => client_head pipe position
  | ec_send_to pipe => client_send_to pipe
  | ec_receive_from pipe => client_receive_from pipe
  | _ => on_base (engine_process true true fuel engcmd)
  end.
End client.
Arguments amqp_client_t P S N Q : clear implicits.
Arguments world P S N Q : clear implicits.
