(* ===== verification/AmqpHandshake.v ===== *)
(** The handshake of the AMQP client: what it answers to each method of the
    broker, and which it refuses. *)
From S2P Require Import Prelude Attributes Channel Message Command Swap Store Engine Codec TcpSocket BpTcpEngine Amqp AmqpLayout AmqpMarshaller AmqpMarshalling AmqpCodec AmqpClient.
Local Open Scope Z_scope.

Section handshake.
Context {P S N Q : Type} `{!Channel raw_message P, !Swap S, !Sockets N, !IPoller Q}.
Context (this : engine_id) (error_handler : option (string → bool)) (malloc : list Z).

Abbreviation amqp_client := (amqp_client_t P S N Q).
Abbreviation amqp_world := (world P S N Q).
Implicit Types (w : amqp_world) (a : amqp_client).

(** ** The protocol *)

(** The next state of the client, and the methods it sends on which channels. *)
Record answer := Answer { next_state : state_t; sends : list (Z * amqp_method) }.

Definition short_arguments (a : amqp_client) : Prop := (String.length (arguments a) ≤ 255)%nat.

Definition handshake (a : amqp_client) (channel_ : Z) (m : amqp_method) : option answer :=
  match m with
  | of_connection (m_connection_start version_major version_minor _ _ _) =>
      guard (channel_ = 0 ∧ state a = state_waiting_for_connection_start ∧ version_major = 0 ∧ version_minor = 9) ;;
      Some (Answer state_waiting_for_connection_tune
        [(0, of_connection (m_connection_start_ok ∅ (bytes_of "PLAIN") guest_guest (bytes_of "en_US")))])
  | of_connection (m_connection_tune _ _ _) =>
      guard (channel_ = 0 ∧ state a = state_waiting_for_connection_tune) ;;
      Some (Answer state_waiting_for_connection_open_ok
        [(0, of_connection (m_connection_tune_ok 1 frame_min_size 0)); (0, of_connection (m_connection_open (bytes_of "/") [] true))])
  | of_connection (m_connection_open_ok _) =>
      guard (channel_ = 0 ∧ state a = state_waiting_for_connection_open_ok) ;;
      Some (Answer state_waiting_for_channel_open_ok [(0, of_channel (m_channel_open []))])
  | of_channel (m_channel_open_ok _) =>
      guard (state a = state_waiting_for_channel_open_ok ∧ short_arguments a) ;;
      Some (Answer state_waiting_for_queue_declare_ok
        [(channel_, of_queue (m_queue_declare 0 (bytes_of (arguments a)) false false false false false ∅))])
  | of_queue (m_queue_declare_ok _ _ _) =>
      guard (channel_ = a_channel a ∧ state a = state_waiting_for_queue_declare_ok ∧ short_arguments a) ;;
      Some (Answer state_waiting_for_basic_consume_ok
        [(channel_, of_basic (m_basic_consume 0 (bytes_of (arguments a)) [] true true false false ∅))])
  | of_basic (m_basic_consume_ok _) =>
      guard (channel_ = a_channel a ∧ state a = state_waiting_for_basic_consume_ok) ;;
      Some (Answer state_active [])
  | _ => None
  end.

(** The methods with which the broker ends a channel or the connection. *)
Definition closes (m : amqp_method) : bool :=
  match m with
  | of_connection (m_connection_close _ _ _ _) | of_channel (m_channel_close _ _ _ _) => true
  | _ => false
  end.

(** The client after it has answered: the methods are in the encoder's queue,
    messages flow once it is active, all else is as it was. *)
Definition answered (a : amqp_client) (channel_ : Z) (r : answer) (a' : amqp_client) : Prop :=
  state a' = next_state r ∧
  (∃ cs, command_queue (a_marshaller a') = command_queue (a_marshaller a) ++ cs ∧
     Forall2 (λ s c, command_of s.1 s.2 c) (sends r) cs) ∧
  a_channel a' = (if bool_decide (state a = state_waiting_for_channel_open_ok) then channel_ else a_channel a) ∧
  (a_enc_flow a', a_enc_channel a') = (if bool_decide (next_state r = state_active) then (true, channel_) else (a_enc_flow a, a_enc_channel a)) ∧
  (a_base a', a_objs a', a_net a', a_poll a', socket a', handle a', arguments a') =
  (a_base a, a_objs a, a_net a, a_poll a, socket a, handle a, arguments a).

(** ** Proof *)

Definition with_client (w : amqp_world) (a : amqp_client) : amqp_world := (w.1, w.2 <| d_io := a |>).

Lemma call_encoder_runs f w m : runs f (a_marshaller (client w)) tt m →
  runs (call_encoder f) w tt (with_client w (client w <| a_marshaller := m |>)).
Proof.
  intros Hf. unfold runs, call_encoder, on_encoder, on_client, dec_on_io, on_marshaller, st_lift in *. unfold client in Hf.
  simpl. rewrite Hf. by destruct w as [d [? ? ? ? ? ? ? []]].
Qed.

Lemma with_client_client w a : client (with_client w a) = a.
Proof. done. Qed.

Lemma with_client_twice w a a' : with_client (with_client w a) a' = with_client w a'.
Proof. done. Qed.

Lemma with_client_same w : with_client w (client w) = w.
Proof. by destruct w as [d []]. Qed.

Lemma get_client_runs w : runs get_client w (client w) w.
Proof. unfold runs, get_client, on_client, dec_on_io, st_lift. simpl. by destruct w as [d []]. Qed.

Lemma modify_client_runs f w : runs (modify_client f) w tt (with_client w (f (client w))).
Proof. done. Qed.

Lemma assert_runs b w : b = true → runs (st_assert b) w tt w.
Proof. by intros ->. Qed.

Lemma assert_state_runs st w : state (client w) = st → runs (assert_state st) w tt w.
Proof.
  intros Hs. eapply runs_bind; [apply get_client_runs|]. apply runs_assert. split; [|done].
  by apply bool_decide_eq_true.
Qed.

Lemma assert_channel_runs c w : c = a_channel (client w) → runs (assert_channel c) w tt w.
Proof. intros ->. eapply runs_bind; [apply get_client_runs|]. apply runs_assert. split; [apply Z.eqb_refl|done]. Qed.

Lemma shortstr_new_runs (x : string) (w : amqp_world) : (String.length x ≤ 255)%nat → runs (shortstr_new x) w (bytes_of x) w.
Proof.
  intros Hx. apply (runs_bind _ _ _ tt w); [|done]. apply runs_assert. split; [|done]. by apply Nat.leb_le.
Qed.

Context (Hmalloc : size malloc = frame_min_size).

Lemma marshal_runs channel_ m w : size (method_bytes m) ≤ frame_min_size → ∃ c,
  runs (call_encoder (marshal malloc channel_ m)) w tt
    (with_client w (client w <| a_marshaller := Marshaller (command_queue (a_marshaller (client w)) ++ [c]) |>)) ∧
  command_of channel_ m c.
Proof using Hmalloc.
  intros Hs. destruct (marshal_queues malloc Hmalloc channel_ m (command_queue (a_marshaller (client w))) Hs) as (c & Hr & Hc).
  exists c. split; [|done]. apply call_encoder_runs. by destruct (a_marshaller (client w)).
Qed.

(** A call runs up to the last one, which asks the poller. *)
Lemma runs_until {A B} (m : ST amqp_world A) (k : A → ST amqp_world B) w x w1 e :
  runs m w x w1 → k x w1 = e → (m ≫= k) w = e.
Proof. unfold runs, mbind, st_bind. by intros ->. Qed.

Lemma short_fits (x : string) (m : amqp_method) : (String.length x ≤ 255)%nat →
  m = of_queue (m_queue_declare 0 (bytes_of x) false false false false false ∅) ∨
  m = of_basic (m_basic_consume 0 (bytes_of x) [] true true false false ∅) →
  size (method_bytes m) ≤ frame_min_size.
Proof.
  intros Hx Hm. unfold frame_min_size.
  destruct Hm as [-> | ->]; unfold method_bytes, fields_bytes, size; csimpl;
    rewrite ?length_app, ?length_octet, ?length_short, ?length_long, ?length_bytes_of; change (length (table_entries ∅)) with 0%nat; simpl; lia.
Qed.

Ltac run_step :=
  lazymatch goal with
  | |- (st_assert _ ≫= _) _ = _ => eapply runs_until; [apply assert_runs; try done|]
  | |- (assert_state _ ≫= _) _ = _ => eapply runs_until; [apply assert_state_runs; done|]
  | |- (assert_channel _ ≫= _) _ = _ => eapply runs_until; [apply assert_channel_runs; done|]
  | |- (shortstr_new _ ≫= _) _ = _ => eapply runs_until; [apply shortstr_new_runs; simpl; try done; lia|]
  | |- (get_client ≫= _) _ = _ => eapply runs_until; [apply get_client_runs|]
  | |- (modify_client _ ≫= _) _ = _ => eapply runs_until; [apply modify_client_runs|]
  | |- (set_state _ ≫= _) _ = _ => eapply runs_until; [apply modify_client_runs|]
  end; cbv beta; rewrite ?with_client_twice, ?with_client_client.

(** [w] answers as [r] says, then asks the poller for output. *)
Definition answers (m : ST amqp_world unit) w (channel_ : Z) (r : answer) : Prop :=
  ∃ w1, m w = set_pollout w1 ∧ answered (client w) channel_ r (client w1).

Lemma connection_start_answers w vmaj vmin p q l r :
  handshake (client w) 0 (m_connection_start vmaj vmin p q l) = Some r →
  answers (client_connection_start malloc 0 vmaj vmin) w 0 r.
Proof using Hmalloc.
  unfold handshake. intros E. case_guard as Hg; simplify_eq/=. destruct Hg as (_ & Hst & -> & ->).
  destruct (marshal_runs 0 (m_connection_start_ok ∅ (bytes_of "PLAIN") guest_guest (bytes_of "en_US")) w) as (c & Hr & Hc);
    [by vm_compute|].
  eexists. split.
  - unfold client_connection_start. do 6 run_step. eapply runs_until; [exact Hr|]. run_step. reflexivity.
  - simpl. unfold answered. simpl. rewrite Hst. split_and!; try done. exists [c]. split; [done|]. by constructor.
Qed.

Lemma connection_tune_answers w c f h r : handshake (client w) 0 (m_connection_tune c f h) = Some r →
  answers (client_connection_tune malloc 0) w 0 r.
Proof using Hmalloc.
  unfold handshake. intros E. case_guard as Hg; simplify_eq/=. destruct Hg as (_ & Hst).
  destruct (marshal_runs 0 (m_connection_tune_ok 1 frame_min_size 0) w) as (c1 & Hr1 & Hc1); [by vm_compute|].
  set (w1 := with_client w _) in Hr1.
  destruct (marshal_runs 0 (m_connection_open (bytes_of "/") [] true) w1) as (c2 & Hr2 & Hc2); [by vm_compute|].
  eexists. split.
  - unfold client_connection_tune. do 2 run_step. eapply runs_until; [exact Hr1|]. do 2 run_step.
    eapply runs_until; [exact Hr2|]. run_step. reflexivity.
  - simpl. unfold answered. simpl. rewrite Hst. split_and!; try done. exists [c1; c2]. rewrite <- app_assoc. split; [done|].
    constructor; [exact Hc1|]. constructor; [exact Hc2|constructor].
Qed.

Lemma connection_open_ok_answers w x r : handshake (client w) 0 (m_connection_open_ok x) = Some r →
  answers (client_connection_open_ok malloc 0) w 0 r.
Proof using Hmalloc.
  unfold handshake. intros E. case_guard as Hg; simplify_eq/=. destruct Hg as (_ & Hst).
  destruct (marshal_runs 0 (m_channel_open []) w) as (c & Hr & Hc); [by vm_compute|]. eexists. split.
  - unfold client_connection_open_ok. do 3 run_step. eapply runs_until; [exact Hr|]. run_step. reflexivity.
  - simpl. unfold answered. simpl. rewrite Hst. split_and!; try done. exists [c]. split; [done|]. by constructor.
Qed.

Lemma channel_open_ok_answers w channel_ x r : handshake (client w) channel_ (m_channel_open_ok x) = Some r →
  answers (client_channel_open_ok malloc channel_) w channel_ r.
Proof using Hmalloc.
  unfold handshake. intros E. case_guard as Hg; simplify_eq/=. destruct Hg as (Hst & Hx). unfold short_arguments in Hx.
  set (w0 := with_client w (client w <| a_channel := channel_ |>)).
  destruct (marshal_runs channel_ (m_queue_declare 0 (bytes_of (arguments (client w))) false false false false false ∅) w0)
    as (c & Hr & Hc); [eapply short_fits; [exact Hx|by left]|]. eexists. split.
  - unfold client_channel_open_ok. do 4 run_step. eapply runs_until; [exact Hr|]. run_step. reflexivity.
  - simpl. unfold answered. simpl. rewrite Hst. split_and!; try done. exists [c]. split; [done|]. by constructor.
Qed.

Lemma queue_declare_ok_answers w channel_ x y z r : handshake (client w) channel_ (m_queue_declare_ok x y z) = Some r →
  answers (client_queue_declare_ok malloc channel_) w channel_ r.
Proof using Hmalloc.
  unfold handshake. intros E. case_guard as Hg; simplify_eq/=. destruct Hg as (-> & Hst & Hx). unfold short_arguments in Hx.
  destruct (marshal_runs (a_channel (client w)) (m_basic_consume 0 (bytes_of (arguments (client w))) [] true true false false ∅) w)
    as (c & Hr & Hc); [eapply short_fits; [exact Hx|by right]|]. eexists. split.
  - unfold client_queue_declare_ok. do 5 run_step. eapply runs_until; [exact Hr|]. run_step. reflexivity.
  - simpl. unfold answered. simpl. rewrite Hst. split_and!; try done. exists [c]. split; [done|]. by constructor.
Qed.

Lemma basic_consume_ok_answers w channel_ x r : handshake (client w) channel_ (m_basic_consume_ok x) = Some r →
  answers (client_basic_consume_ok channel_) w channel_ r.
Proof.
  unfold handshake. intros E. case_guard as Hg; simplify_eq/=. destruct Hg as (-> & Hst).
  destruct w as [d [? ? ? ? ? ? ? a]]. eexists. split.
  - unfold client_basic_consume_ok. do 3 run_step. reflexivity.
  - simpl in *. unfold answered. simpl. rewrite Hst. split_and!; try done. exists []. rewrite app_nil_r. by split; [|constructor].
Qed.

(** *** What the client refuses *)

Definition refuses (m : ST amqp_world unit) w : Prop := m w = Crash AssertFailed.

Lemma refuses_assert b (k : unit → ST amqp_world unit) w : (b = true → refuses (k tt) w) → refuses (st_assert b ≫= k) w.
Proof. unfold refuses, mbind, st_bind, st_assert. destruct b; [by intros H; apply H|done]. Qed.

Lemma refuses_state st (k : unit → ST amqp_world unit) w :
  (state (client w) = st → refuses (k tt) w) → refuses (assert_state st ≫= k) w.
Proof.
  intros H. unfold refuses. destruct (decide (state (client w) = st)) as [E|E].
  - erewrite runs_until; [apply H, E|by apply assert_state_runs|reflexivity].
  - unfold assert_state, mbind, st_bind. rewrite (get_client_runs w). unfold st_assert, is_state.
    by rewrite bool_decide_false.
Qed.

Lemma refuses_channel c (k : unit → ST amqp_world unit) w :
  (c = a_channel (client w) → refuses (k tt) w) → refuses (assert_channel c ≫= k) w.
Proof.
  intros H. unfold refuses. destruct (decide (c = a_channel (client w))) as [E|E].
  - erewrite runs_until; [apply H, E|by apply assert_channel_runs|reflexivity].
  - unfold assert_channel, mbind, st_bind. rewrite (get_client_runs w). unfold st_assert.
    by destruct (Z.eqb_spec c (a_channel (client w))).
Qed.

Lemma refuses_name x (k : shortstr_t → ST amqp_world unit) w : ¬ (String.length x ≤ 255)%nat → refuses (shortstr_new x ≫= k) w.
Proof.
  intros Hx. unfold refuses, shortstr_new, mbind, st_bind, st_assert. by destruct (Nat.leb_spec (String.length x) 255).
Qed.

Lemma refuses_step {A} (m : ST amqp_world A) x w w1 (k : A → ST amqp_world unit) :
  runs m w x w1 → refuses (k x) w1 → refuses (m ≫= k) w.
Proof. intros Hr Hk. unfold refuses. by eapply runs_until. Qed.

Lemma client_refuses w channel_ m : handshake (client w) channel_ m = None → closes m = false →
  refuses (client_callback this error_handler malloc channel_ m) w.
Proof.
  intros E Hc. destruct m as [[]|[]|[]|[]|[]|[]]; try done; simpl in *; case_guard as Hg; try done.
  - do 4 (first [apply refuses_assert; intros ?%Z.eqb_eq | apply refuses_state; intros ?]). tauto.
  - do 2 (first [apply refuses_assert; intros ?%Z.eqb_eq | apply refuses_state; intros ?]). tauto.
  - do 2 (first [apply refuses_assert; intros ?%Z.eqb_eq | apply refuses_state; intros ?]). tauto.
  - apply refuses_state; intros ?. eapply refuses_step; [apply modify_client_runs|].
    eapply refuses_step; [apply get_client_runs|]. apply refuses_name. unfold short_arguments in Hg. tauto.
  - apply refuses_channel; intros ?. apply refuses_state; intros ?.
    eapply refuses_step; [apply get_client_runs|]. apply refuses_name. unfold short_arguments in Hg. tauto.
  - apply refuses_channel; intros ?. apply refuses_state; intros ?. tauto.
Qed.

(** C33: The client obeys the handshake of AMQP: a method that the broker sends in
    its turn, on its channel, is answered with the methods of the protocol,
    each in its binary form at the end of the encoder's queue, and moves the
    client to the next state; messages flow from the moment the last answer
    has come; any other method, but one that closes, stops the program. *)
Theorem client_handshake w channel_ m :
  match handshake (client w) channel_ m with
  | Some r => answers (client_callback this error_handler malloc channel_ m) w channel_ r
  | None => closes m = false → client_callback this error_handler malloc channel_ m w = Crash AssertFailed
  end.
Proof using Hmalloc.
  destruct (handshake (client w) channel_ m) as [r|] eqn:E; [|by apply client_refuses].
  destruct m as [[]|[]|[]|[]|[]|[]]; try done; simpl.
  - assert (channel_ = 0) as -> by (simpl in E; case_guard; naive_solver). by eapply connection_start_answers.
  - assert (channel_ = 0) as -> by (simpl in E; case_guard; naive_solver). by eapply connection_tune_answers.
  - assert (channel_ = 0) as -> by (simpl in E; case_guard; naive_solver). by eapply connection_open_ok_answers.
  - by eapply channel_open_ok_answers.
  - by eapply queue_declare_ok_answers.
  - by eapply basic_consume_ok_answers.
Qed.
End handshake.
