(* ===== verification/AmqpRuns.v ===== *)
(** Runs of the AMQP client and its parts that instantiate their theorems, and
    what the code gets wrong. *)
From S2P Require Import Prelude Attributes Config Wire YQueue Channel YPipe Message MessageBody Command Swap Pipe PipeRuns Store Mux Demux Engine Codec BpCodec CodecRuns TcpSocket BpTcpEngine TcpRuns Amqp AmqpLayout AmqpMarshaller AmqpMarshalling AmqpUnmarshaller AmqpUnmarshalling AmqpCodec AmqpFrames AmqpEncoding AmqpClient AmqpHandshake.
Local Open Scope Z_scope.

#[local] Existing Instance slots2.
#[local] Existing Instances outbox_has_heap outbox_has_heap_laws outbox_source outbox_laws.

(** ** Methods *)

Definition block : list Z := replicate (Z.to_nat frame_min_size) 0.
Lemma block_size : size block = frame_min_size.
Proof. reflexivity. Qed.

Definition demo_table : field_table_t := <["product" := "0MQ"%string]> ∅.
Definition demo_declare : amqp_method := m_queue_declare 0 (bytes_of "q") false true false true false demo_table.

Lemma demo_table_ok : field_ok (f_table demo_table).
Proof.
  split; [|by vm_compute]. intros name value H. unfold demo_table in H. apply lookup_insert_Some in H as [[<- <-]|[_ H]]; [by vm_compute|].
  by apply lookup_empty_Some in H.
Qed.

(** The fields of a method, one by one. *)
Ltac fields_ok :=
  repeat first
    [ apply Forall_nil_2
    | apply Forall_cons_2;
      [first [exact demo_table_ok | cbn [field_ok]; unfold in_u; lia | cbn [field_ok]; unfold size; rewrite length_bytes_of; simpl; lia | simpl; lia]|] ].

Lemma demo_declare_ok : method_ok demo_declare.
Proof.
  unfold method_ok, demo_declare. simpl fields. fields_ok.
Qed.

Lemma amqp_round_trip_witness : ∃ c, 
  (∀ X (callback : i_amqp X) x, unmarshaller_write callback (channel c) (class_id c) (method_id c)
    (take (args_size c) (cmd_args c) ++ [frame_end]) (args_size c) x = callback 7 demo_declare x).
Proof.
  assert (size (method_bytes demo_declare) ≤ frame_min_size) as Hs by (vm_compute; discriminate).
  destruct (amqp_round_trip block 7 demo_declare [] block_size demo_declare_ok eq_refl Hs) as (c & _ & Hc).
  exists c. intros X callback x. apply Hc.
Defined.

Definition demo_start : amqp_method := m_connection_start 0 9 demo_table (bytes_of "PLAIN") (bytes_of "en_US").

Lemma demo_start_ok : method_ok demo_start.
Proof.
  unfold method_ok, demo_start. simpl fields. fields_ok.
Qed.

(** The mechanisms are read as the table, and the locales as the mechanisms. *)
Lemma connection_start_misread_witness : ∃ c,
  (∀ X (callback : i_amqp X) x, unmarshaller_write callback (channel c) (class_id c) (method_id c)
    (take (args_size c) (cmd_args c) ++ [frame_end]) (args_size c) x =
    callback 0 (m_connection_start 0 9 demo_table (table_entries demo_table) (bytes_of "PLAIN")) x) ∧
  table_entries demo_table ≠ bytes_of "PLAIN".
Proof.
  assert (size (method_bytes demo_start) ≤ frame_min_size) as Hs by (vm_compute; discriminate).
  destruct (connection_start_misread block 0 0 9 demo_table (bytes_of "PLAIN") (bytes_of "en_US") [] block_size demo_start_ok Hs) as (c & _ & Hc).
  exists c. split; [intros X callback x; apply Hc|]. vm_compute. discriminate.
Defined.

(** ** The encoder *)

(** A source of messages that are shorter than the address space. *)
#[local] Instance bounded_outbox : SourceLaws outbox.
Proof.
  refine {| source_held x _ log := Forall (λ b, size b < 2 ^ 64) (log ++ CodecRuns.queue x); source_spent x := CodecRuns.queue x = []; source_fault := no_fault |}.
  intros [h g [|b q]] m log Hx; unfold wp; simpl in *; [done|]. exists b. rewrite <- app_assoc. split; [done|]. apply short_body.
Defined.

Definition demo_encoder : amqp_enc_env outbox :=
  EncEnv amqp_marshaller_new (Command 0 0 0 block 0) args_null no_message 0 "" false 0 block two_messages.

Definition demo_calls : list enc_call := [read_into 10; marshal_method 7 demo_declare; read_into 5].

Definition demo_run {A} (m : ST (encoder_t enc_step * amqp_enc_env outbox) A) : option A :=
  match (amqp_encoder_flow true 7 ;; m) (amqp_encoder_new "q" demo_encoder) with Ok (a, _) => Some a | Crash _ => None end.

Definition demo_sent : list sent := [sent_message [1; 2; 3]; sent_method 7 demo_declare; sent_message []].

Lemma demo_use_runs : demo_run (chunks ← use block demo_calls; r ← amqp_encoder_read 1000; mret (concat chunks ++ r.1)) =
  Some (conversation 7 "q" demo_sent).
Proof. vm_compute. reflexivity. Qed.

Lemma bounded_bodies (x : outbox) m log : source_held x m log → Forall (λ b : list Z, size b < 2 ^ 64) log.
Proof. intros H. simpl in H. by apply Forall_app in H as [? _]. Qed.

Lemma demo_fits : all_fit demo_calls.
Proof. repeat constructor; unfold frame_min_size; vm_compute; discriminate. Qed.

Lemma two_messages_held : source_held (e_io demo_encoder) (e_message demo_encoder) [].
Proof. simpl. repeat constructor; vm_compute; reflexivity. Qed.

Lemma amqp_encoder_frames_witness :
  wp (amqp_encoder_flow true 7 ;; chunks ← use block demo_calls; r ← amqp_encoder_read 1000; mret (chunks, r.1)) no_fault
    (λ '(chunks, last) _, ∃ items rest, concat chunks ++ last ++ rest = conversation 7 "q" items ∧
      ((length last < 1000)%nat → rest = [] ∧ sent_methods items = [(7, demo_declare)]))
    (amqp_encoder_new "q" demo_encoder).
Proof.
  assert (String.length "q" ≤ 255)%nat as Hq by (simpl; lia).
  pose proof (amqp_encoder_frames block block_size true 7 "q" bounded_bodies Hq demo_calls 1000 demo_encoder
    eq_refl two_messages_held demo_fits) as H.
  eapply wp_mono; [exact H|]. intros [chunks last] s' (items & rest & E & _ & _ & _ & Hd).
  exists items, rest. split; [exact E|exact Hd].
Defined.

(** A frame whose arguments are being sent when the encoder is reset leaves
    their address behind: the next reset frees the block again. *)
Lemma encoder_resets_twice :
  (on_marshaller (marshal block 7 demo_declare) ;; amqp_encoder_read 22 ;; amqp_encoder_reset ;; amqp_encoder_reset)
    (amqp_encoder_new "q" demo_encoder) = Crash UseAfterFree.
Proof. vm_compute. reflexivity. Qed.

(** A reset leaves the commands of the connection that was lost in the queue:
    they come first on the next one, after the protocol header. *)
Lemma reset_keeps_commands :
  demo_run (on_marshaller (marshal block 7 demo_declare) ;; amqp_encoder_reset ;; r ← amqp_encoder_read 1000; mret r.1) =
  Some (conversation 7 "q" [sent_method 7 demo_declare]).
Proof. vm_compute. reflexivity. Qed.

(** ** The unmarshaller *)

(** No [break] ends the methods of a class: an identifier that the class of
    connections does not have is looked up in the classes after it. *)
Lemma class_falls_through : unmarshal connection_id basic_deliver_id = unmarshal basic_id basic_deliver_id.
Proof. reflexivity. Qed.

(** ** The client *)

Abbreviation demo_client := (world (ypipe (yqueue raw_message)) unit kernel table).

(** What the members hold before the constructors run. *)
Definition memory : demo_client :=
  (Decoder None 0 method_frame_header_ready,
   DecEnv 0 0 no_message 0 false 0 block
     (AmqpClient (engine_base_new false) state_shutting_down 0 (Encoder [] 0 message_ready false) amqp_marshaller_new
        (Command 0 0 0 [] 0) args_null no_message 0 "" false 0 block [] 0 0 [] 0 0 (TcpSocket (-1) [] false) 0 "" ""
        no_objects demo_kernel (Table ∅ []))).

(** What the broker sends: a method, or the frames of a message. *)
Definition from_broker (ch : Z) (m : amqp_method) : list Z := sent_bytes 0 "" (sent_method ch m).
Definition delivered (ch : Z) (body : list Z) : list Z :=
  from_broker ch (m_basic_deliver (bytes_of "t") 1 false [] (bytes_of "q")) ++ header_frame ch (size body) ++ body_frames ch body.

Definition greeting : list (list Z) :=
  [ from_broker 0 (m_connection_start 0 9 demo_table (bytes_of "PLAIN") (bytes_of "en_US"));
    from_broker 0 (m_connection_tune 10 4096 60);
    from_broker 0 (m_connection_open_ok []);
    from_broker 1 (m_channel_open_ok []);
    from_broker 1 (m_queue_declare_ok (bytes_of "q") 0 0);
    from_broker 1 (m_basic_consume_ok (bytes_of "t")) ].

Inductive client_event := ClientIn | ClientOut.
Definition client_exec (w : demo_client) (ev : client_event) : option demo_client :=
  match ev with
  | ClientIn => got (client_in_event 1 None block w)
  | ClientOut => got (client_out_event 1 None w)
  end.
Fixpoint client_run (w : demo_client) (evs : list client_event) : option (demo_client * list state_t) :=
  match evs with
  | [] => Some (w, [state (client w)])
  | ev :: evs => w1 ← client_exec w ev; '(w2, l) ← client_run w1 evs; Some (w2, state (client w) :: l)
  end.

Definition new_client (received : list (list Z)) : option demo_client :=
  match amqp_client_new 1 2 3 demo_host "x" true "q" memory (no_objects, Kernel [] (inl <$> received) []) with
  | Ok (w, s) => got (client_register_event 1 w)
  | Crash _ => None
  end.

Definition turns (n : nat) : list client_event := ClientOut :: concat (replicate n [ClientIn; ClientOut]).

(** The client answers the broker step by step until messages flow. *)
Lemma client_becomes_active :
  (w ← new_client greeting; '(w, l) ← client_run w (turns 6); Some (remove_dups l, a_enc_flow (client w), a_enc_channel (client w))) =
  Some ([state_connecting; state_waiting_for_connection_start; state_waiting_for_connection_tune;
         state_waiting_for_connection_open_ok; state_waiting_for_channel_open_ok; state_waiting_for_queue_declare_ok;
         state_waiting_for_basic_consume_ok; state_active], true, 1).
Proof. vm_compute. reflexivity. Qed.

(** *** A client that does not hear *)

Section deaf.
Context {P S N Q : Type} `{!Channel raw_message P, !Swap S, !Sockets N, !IPoller Q}.

(** Once [read_pos] is past [read_size], nothing is read from the socket. *)
Lemma client_in_event_deaf this eh malloc (w : world P S N Q) :
  state (client w) ≠ state_connecting → read_size (client w) < read_pos (client w) →
  client_in_event this eh malloc w = Ok (tt, w).
Proof.
  intros Hs Hp. assert (process_input this eh malloc false w = Ok (tt, w)) as Hi.
  { unfold process_input. eapply runs_until; [apply get_client_runs|]. by rewrite (proj2 (Z.ltb_ge _ _)) by lia. }
  unfold client_in_event. eapply runs_until; [apply get_client_runs|]. cbv beta. unfold is_state.
  rewrite bool_decide_false by done. cbv zeta. rewrite (proj2 (Z.eqb_neq _ _)), (proj2 (Z.ltb_ge _ _)) by lia. exact Hi.
Qed.
End deaf.

(** A client becomes deaf when the broker closes its channel: the call of
    [error] from within the decoder moves [read_pos] to the end of the buffer,
    and [in_event] adds the decoded bytes to it. *)
Definition deaf_client : option (demo_client * list state_t) :=
  w ← new_client (greeting ++ [from_broker 1 (m_channel_close 320 (bytes_of "bye") 0 0); from_broker 0 demo_start]);
  client_run w (turns 6 ++ [ClientIn; ClientOut]).

Lemma client_deaf_after_close : ∃ w l, deaf_client = Some (w, l) ∧
  state (client w) = state_waiting_for_connection_start ∧ inbox (a_net (client w)) ≠ [] ∧
  client_in_event 1 None block w = Ok (tt, w).
Proof.
  destruct (option_computes (λ r, bool_decide (state (client r.1) = state_waiting_for_connection_start) &&
    (read_size (client r.1) <? read_pos (client r.1)) && negb (bool_decide (inbox (a_net (client r.1)) = []))) deaf_client)
    as ([w l] & E & Hw); [vm_compute; reflexivity|].
  apply andb_prop in Hw as [[Hs Hp]%andb_prop Hb]. simpl in *. apply bool_decide_eq_true in Hs. apply Z.ltb_lt in Hp.
  exists w, l. split; [exact E|]. split; [exact Hs|]. split; [by apply negb_true_iff, bool_decide_eq_false in Hb|].
  apply client_in_event_deaf; [by rewrite Hs|done].
Qed.

Lemma demo_started : ∃ w : demo_client, state (client w) = state_waiting_for_connection_start.
Proof. destruct client_deaf_after_close as (w & l & _ & Hs & _). by exists w. Qed.

Lemma client_handshake_witness : ∃ w : demo_client,
  answers (client_callback 1 None block 0 demo_start) w 0
    (Answer state_waiting_for_connection_tune
      [(0, of_connection (m_connection_start_ok ∅ (bytes_of "PLAIN") guest_guest (bytes_of "en_US")))]) ∧
  client_callback 1 None block 0 (m_connection_tune 1 4096 0) w = Crash AssertFailed.
Proof.
  destruct demo_started as [w Hs]. exists w. split.
  - pose proof (client_handshake 1 None block block_size w 0 demo_start) as H. simpl in H. rewrite Hs in H. exact H.
  - pose proof (client_handshake 1 None block block_size w 0 (m_connection_tune 1 4096 0)) as H. simpl in H. rewrite Hs in H.
    exact (H eq_refl).
Defined.

(** ** The decoder *)

#[local] Existing Instances CodecRuns.inbox_has_heap inbox_sink.

Definition demo_decoder (flow : bool) : decoder_t dec_step dec_target * amqp_dec_env CodecRuns.inbox :=
  let w := amqp_decoder_new (DecEnv 0 0 no_message 0 false 0 block empty_inbox) in
  (w.1, w.2 <| d_flow_on := flow |> <| d_message_channel := 1 |>).

(** A method without arguments does not get past the decoder. *)
Lemma method_without_arguments_aborts :
  amqp_decoder_write (λ _ _, mret tt) (mret tt) (from_broker 1 m_tx_select_ok) (demo_decoder false) = Crash AssertFailed.
Proof. vm_compute. reflexivity. Qed.

Definition bodies_taken (w : decoder_t dec_step dec_target * amqp_dec_env CodecRuns.inbox) : list (option (list Z)) :=
  raw_message_bytes (inbox_heap (d_io w.2)) <$> taken_messages (d_io w.2).

(** A message of the broker reaches the sink, in frames of any sizes. *)
Lemma delivery_reaches_sink :
  match amqp_decoder_write (λ _ _, mret tt) (mret tt) (delivered 1 [5; 6; 7]) (demo_decoder true) with
  | Ok (n, w) => Some (bodies_taken w, Nat.eqb n (length (delivered 1 [5; 6; 7])))
  | Crash _ => None
  end = Some ([Some [5; 6; 7]], true).
Proof. vm_compute. reflexivity. Qed.
