(* ===== verification/PgmSocket.v ===== *)
(** PGM sockets over the OpenPGM library ([src/libzmq/pgm_socket.cpp], the
    variant for Linux): a transport that sends packets to a group, or receives
    those of the group's sender. *)
From S2P Require Import Prelude Config TcpSocket.
Local Open Scope Z_scope.

(** ** The library *)

(** Who sends: six bytes and a port ([pgm_tsi_t]). *)
Record pgm_tsi_t := Tsi { gsi : list Z; sport : Z }.
#[export] Instance eta_tsi : Eta pgm_tsi_t := λ t, Tsi (gsi t) (sport t).
Definition zero_tsi : pgm_tsi_t := Tsi (replicate 6 0) 0.

(** One packet received: its pieces in memory and its sender ([pgm_msgv_t]). *)
Record pgm_msgv_t := Msgv { msgv_iov : list (list Z); msgv_tsi : pgm_tsi_t }.

(** The settings of a transport, one for each function that sets it. *)
Inductive pgm_option :=
  | set_max_tpdu (n : Z)
  | set_hops (n : Z)
  | set_multicast_loop (b : bool)
  | set_close_on_failure (b : bool)
  | set_recv_only (b : bool)
  | set_nak_bo_ivl (us : Z)
  | set_nak_rpt_ivl (us : Z)
  | set_nak_rdata_ivl (us : Z)
  | set_nak_data_retries (n : Z)
  | set_nak_ncf_retries (n : Z)
  | set_peer_expiry (us : Z)
  | set_spmr_expiry (us : Z)
  | set_rxw_sqns (n : Z)
  | set_rxw_max_rte (n : Z)
  | set_rxw_secs (n : Z)
  | set_send_only (b : bool)
  | set_txw_sqns (n : Z)
  | set_txw_max_rte (n : Z)
  | set_txw_secs (n : Z)
  | set_txw_preallocate (n : Z)
  | set_ambient_spm (us : Z)
  | set_heartbeat_spm (us : list Z).

Class OpenPgm (N : Type) := {
  (** [pgm_create_md5_gsi], [pgm_if_parse_transport] and
      [pgm_transport_create], for a network and a port, which is that of UDP
      as well if packets are wrapped in UDP. *)
  pgm_create : cstring → Z → bool → ST N bool;
  pgm_set : pgm_option → ST N bool;
  pgm_bind : ST N bool;
  pgm_destroy : ST N unit;
  (** [pgm_transport_poll_info] for [POLLIN], or for [POLLOUT | POLLIN]. *)
  pgm_poll_info : bool → ST N (list fd_t);
  pgm_max_tsdu : ST N Z;
  (** At most so many packets. *)
  pgm_recvmsgv : nat → ST N (list pgm_msgv_t + errno);
  pgm_send_packet : list Z → ST N (Z + errno);
  (** A buffer of the transmit window. *)
  pgm_packetv_alloc : ST N (list Z);
  pgm_packetv_free : list Z → ST N unit
}.

(** ** pgm_socket_t *)

Section socket.
Context {N : Type} `{!OpenPgm N}.

(** [pgm_msgv] holds the packets of the last call and, after them, what is
    left of earlier ones. *)
Record pgm_socket_t := PgmSocket {
  g_transport : bool;
  receiver : bool;
  network : cstring;
  port_number : Z;
  udp_encapsulation : bool;
  pgm_msgv : list pgm_msgv_t;
  pgm_msgv_len : Z;
  nbytes_rec : Z;
  nbytes_processed : Z;
  pgm_msgv_processed : nat;
  tsi : pgm_tsi_t;
  retired_tsi : pgm_tsi_t
}.
#[export] Instance eta_pgm_socket : Eta pgm_socket_t := λ p,
  PgmSocket (g_transport p) (receiver p) (network p) (port_number p) (udp_encapsulation p) (pgm_msgv p) (pgm_msgv_len p)
    (nbytes_rec p) (nbytes_processed p) (pgm_msgv_processed p) (tsi p) (retired_tsi p).

(** The socket and the library. *)
Abbreviation pworld := (pgm_socket_t * N)%type.
Definition on_pgm {A} : ST N A → ST pworld A := st_lift snd (λ n w, (w.1, n)).
Definition ps_get : ST pworld pgm_socket_t := w ← st_get; mret w.1.
Definition ps_modify (f : pgm_socket_t → pgm_socket_t) : ST pworld unit := st_modify (λ w, (f w.1, w.2)).

(** [rc = f (); assert (rc == 0);] *)
Definition pgm_assert (m : ST N bool) : ST pworld unit := rc ← on_pgm m; st_assert rc.

(** *** Opening and closing *)

(** The size of a receive or of a transmit window: by number of packets, or
    by the rate and the time that data are kept. *)
Definition receiver_options (udp : bool) : list pgm_option :=
  (if udp then [set_multicast_loop true] else []) ++
  [ set_close_on_failure true; set_recv_only false; set_nak_bo_ivl (50 * 1000); set_nak_rpt_ivl (200 * 1000);
    set_nak_rdata_ivl (200 * 1000); set_nak_data_retries 5; set_nak_ncf_retries 2; set_peer_expiry (5 * 8192 * 1000);
    set_spmr_expiry (25 * 1000) ] ++
  (if 0 <? pgm_window_size then [set_rxw_sqns pgm_window_size] else [set_rxw_max_rte pgm_max_rte; set_rxw_secs pgm_secs]).

Definition to_preallocate : Z :=
  if 0 <? pgm_window_size then pgm_window_size else pgm_secs * pgm_max_rte `quot` (pgm_max_tpdu - 40 - 20).

Definition spm_heartbeat : list Z :=
  [ 4 * 1000; 4 * 1000; 8 * 1000; 16 * 1000; 32 * 1000; 64 * 1000; 128 * 1000; 256 * 1000; 512 * 1000; 1024 * 1000;
    2048 * 1000; 4096 * 1000; 8192 * 1000 ].

Definition sender_options : list pgm_option :=
  [set_send_only true] ++
  (if 0 <? pgm_window_size then [set_txw_sqns pgm_window_size] else [set_txw_max_rte pgm_max_rte; set_txw_secs pgm_secs]) ++
  [set_txw_preallocate to_preallocate; set_ambient_spm (8192 * 1000); set_heartbeat_spm spm_heartbeat].

Definition open_transport : ST pworld unit :=
  p ← ps_get;
  st_assert (negb (g_transport p)) ;;
  ps_modify (λ p, p <| tsi := zero_tsi |> <| retired_tsi := zero_tsi |>
    <| nbytes_rec := 0 |> <| nbytes_processed := 0 |> <| pgm_msgv_processed := 0%nat |>) ;;
  pgm_assert (pgm_create (network p) (port_number p) (udp_encapsulation p)) ;;
  ps_modify (λ p, p <| g_transport := true |>) ;;
  st_for ([set_max_tpdu pgm_max_tpdu; set_hops 16] ++
      if receiver p then receiver_options (udp_encapsulation p) else sender_options)
    (λ o, pgm_assert (pgm_set o)) ;;
  pgm_assert pgm_bind.

Definition close_transport : ST pworld unit :=
  p ← ps_get;
  st_assert (g_transport p) ;;
  on_pgm pgm_destroy ;;
  ps_modify (λ p, p <| g_transport := false |>).

(** How many packets fill the buffer, as the code computes it. *)
Definition get_max_apdu_at_once (readbuf_size_ : Z) : ST pworld Z :=
  st_assert (0 <? readbuf_size_) ;;
  max_tsdu_size ← on_pgm pgm_max_tsdu;
  st_of_option BadAccess (guard (max_tsdu_size ≠ 0)) ;;
  let size := u64 (i32 readbuf_size_) in
  let apdu_count := size `div` max_tsdu_size + if size `mod` max_tsdu_size =? 0 then 0 else 1 in
  st_assert (negb (apdu_count =? 0)) ;;
  mret apdu_count.

(** ["udp:"], and what follows it. *)
Definition udp_prefix : cstring := [117; 100; 112; 58].
Definition strip_udp (s : cstring) : bool * cstring :=
  if bool_decide (take 4 s = udp_prefix) then (true, drop 4 s) else (false, s).

(** The interface, the group and the port are parsed from a string. *)
Definition pgm_socket_new (receiver_ : bool) (interface_ : cstring) (readbuf_size_ : Z) : ST N pgm_socket_t :=
  let '(udp, interface) := strip_udp interface_ in
  match split_at colon interface with
  | None => st_crash AssertFailed
  | Some (net, port) =>
      st_assert (negb (bool_decide (net = []))) ;;
      st_assert (bool_decide (length net < 255)%nat) ;;
      st_lift (λ n, (PgmSocket false receiver_ net (u16 (atoi port)) udp [] 0 0 0 0 zero_tsi zero_tsi, n)) (λ w _, w.2)
        (open_transport ;;
         st_when receiver_ (len ← get_max_apdu_at_once readbuf_size_; ps_modify (λ p, p <| pgm_msgv_len := len |>)) ;;
         ps_get)
  end.

Definition pgm_socket_delete : ST pworld unit := close_transport.

(** *** Descriptors *)

Definition get_fds (sender : bool) : ST pworld (fd_t * fd_t) :=
  fds ← on_pgm (pgm_poll_info sender);
  match fds with [a; b] => mret (a, b) | _ => st_crash AssertFailed end.

(** The socket and the waiting pipe; the sender's socket and the receiver's. *)
Definition get_receiver_fds : ST pworld (fd_t * fd_t) := get_fds false.
Definition get_sender_fds : ST pworld (fd_t * fd_t) := '(receive_fd, send_fd) ← get_fds true; mret (send_fd, receive_fd).

(** *** Sending *)

Definition pgm_send (data_ : list Z) : ST pworld Z :=
  r ← on_pgm (pgm_send_packet data_);
  match r with
  | inr e => st_assert (bool_decide (e = EAGAIN)) ;; mret 0
  | inl nbytes => st_when (0 <? nbytes) (st_assert (nbytes =? Z.of_nat (length data_))) ;; mret nbytes
  end.

Definition get_buffer : ST pworld (list Z * Z) :=
  size ← on_pgm pgm_max_tsdu;
  buffer ← on_pgm pgm_packetv_alloc;
  mret (buffer, size).

Definition free_buffer (data_ : list Z) : ST pworld unit := on_pgm (pgm_packetv_free data_).

Definition process_upstream : ST pworld unit :=
  r ← on_pgm (pgm_recvmsgv 1);
  st_assert (match r with inr EAGAIN => true | _ => false end).

(** *** Receiving *)

(** Six bytes and the port are compared. *)
Definition tsi_equal (a b : pgm_tsi_t) : bool := bool_decide (take 6 (gsi a) = take 6 (gsi b)) && (sport a =? sport b).
Definition tsi_empty (t : pgm_tsi_t) : bool := bool_decide (take 6 (gsi t) = replicate 6 0) && (sport t =? 0).

Definition payload (m : pgm_msgv_t) : list Z := concat (msgv_iov m).
Definition total (l : list pgm_msgv_t) : Z := foldr (λ m n, Z.of_nat (length (payload m)) + n) 0 l.

(** Packets are received when those of the last call were given out: [Some n]
    is a result that ends the call. *)
Definition receive_packets : ST pworld (option Z) :=
  p ← ps_get;
  st_assert (pgm_msgv_processed p =? 0)%nat ;;
  st_assert (nbytes_processed p =? 0) ;;
  st_assert (nbytes_rec p =? 0) ;;
  r ← on_pgm (pgm_recvmsgv (Z.to_nat (pgm_msgv_len p)));
  match r with
  | inr EAGAIN => ps_modify (λ p, p <| nbytes_rec := 0 |>) ;; mret (Some 0)
  | inr ECONNRESET => ps_modify (λ p, p <| nbytes_rec := 0 |>) ;; mret (Some (-1))
  | inr _ => st_crash AssertFailed
  | inl l =>
      st_assert (0 <? total l) ;;
      ps_modify (λ p, p <| pgm_msgv := l ++ drop (length l) (pgm_msgv p) |> <| nbytes_rec := total l |>) ;;
      mret None
  end.

(** The next packet is done with. *)
Definition next_msgv (len : Z) : ST pworld unit :=
  ps_modify (λ p, p <| pgm_msgv_processed := S (pgm_msgv_processed p) |> <| nbytes_processed := nbytes_processed p + len |>).

(** The next packet, if its sender is the one that is heard: a change of the
    sender counts as a loss, a packet of the one before is passed over. *)
Definition take_packet : ST pworld (Z * list Z) :=
  p ← ps_get;
  st_assert (0 <? nbytes_rec p) ;;
  m ← st_of_option BadAccess (pgm_msgv p !! pgm_msgv_processed p);
  match msgv_iov m with
  | [raw_data] =>
      let raw_data_len := Z.of_nat (length raw_data) in
      let current_tsi := msgv_tsi m in
      st_when (tsi_empty (tsi p)) (ps_modify (λ p, p <| tsi := current_tsi |>)) ;;
      p ← ps_get;
      if negb (tsi_equal (tsi p) current_tsi) then
        if tsi_equal (retired_tsi p) current_tsi then next_msgv raw_data_len ;; mret (0, raw_data)
        else ps_modify (λ p, p <| retired_tsi := tsi p |> <| tsi := current_tsi |>) ;; mret (-1, raw_data)
      else next_msgv raw_data_len ;; mret (raw_data_len, raw_data)
  | _ => st_crash AssertFailed
  end.

(** The number of bytes and the bytes of a packet; 0: nothing now; -1: data
    were lost. *)
Definition pgm_receive : ST pworld (Z * list Z) :=
  p ← ps_get;
  if (nbytes_rec p =? nbytes_processed p) && (0 <? nbytes_rec p) then
    ps_modify (λ p, p <| nbytes_rec := 0 |> <| nbytes_processed := 0 |> <| pgm_msgv_processed := 0%nat |>) ;;
    mret (0, [])
  else
    r ← (if nbytes_rec p =? nbytes_processed p then receive_packets else mret None : ST pworld (option Z));
    match r with
    | Some n => mret (n, [])
    | None => take_packet
    end.
End socket.
