(* ===== verification/BpPgm.v ===== *)
(** The engines that send messages to a multicast group and receive them from
    it ([src/libzmq/bp_pgm_sender.cpp], [bp_pgm_receiver.cpp], the variants for
    Linux).  A packet is two bytes with the offset of the first message that
    begins in it, and a piece of the encoder's stream. *)
From S2P Require Import Prelude Config Wire Channel Message MessageBody Command Swap Pipe Store Mux Demux Engine Codec BpCodec TcpSocket BpTcpEngine PgmSocket.
Local Open Scope Z_scope.

Definition pgm_get_watermarks : Z * Z := (bp_hwm, bp_lwm).
Definition pgm_get_swap_size : Z := 0.
Definition pgm_info : engine_info := EngineInfo pgm_get_watermarks pgm_get_swap_size.

(** ** bp_pgm_sender_t *)

Section sender.
(** [X] is what the encoder reaches: the engine's [mux] and its objects. *)
Context {X N Q : Type} `{!HasHeap X, !MessageSource X, !OpenPgm N, !IPoller Q}.

(** [out_buffer] is a block of the transmit window, until it is sent. *)
Record bp_pgm_sender_t := PgmSender {
  s_arguments : cstring;
  s_shutting_down : bool;
  s_encoder : encoder_t enc_step;
  s_enc_message : raw_message;
  s_enc_tmpbuf : list Z;
  s_socket : pgm_socket_t;
  s_handle : handle_t;
  out_buffer : option (list Z);
  out_buffer_size : Z;
  s_write_size : Z;
  s_write_pos : Z;
  first_message_offset : Z
}.
#[export] Instance eta_pgm_sender : Eta bp_pgm_sender_t := λ s,
  PgmSender (s_arguments s) (s_shutting_down s) (s_encoder s) (s_enc_message s) (s_enc_tmpbuf s) (s_socket s) (s_handle s)
    (out_buffer s) (out_buffer_size s) (s_write_size s) (s_write_pos s) (first_message_offset s).

Record sworld := SWorld { se : bp_pgm_sender_t; s_io : X; s_net : N; s_poll : Q }.
#[export] Instance eta_sworld : Eta sworld := λ w, SWorld (se w) (s_io w) (s_net w) (s_poll w).

Definition se_modify (f : bp_pgm_sender_t → bp_pgm_sender_t) : ST sworld unit := st_modify (λ w, w <| se := f (se w) |>).
Definition se_get : ST sworld bp_pgm_sender_t := w ← st_get; mret (se w).
Definition s_on_poll {A} : ST Q A → ST sworld A := st_lift s_poll (λ q w, w <| s_poll := q |>).
Definition s_on_io {A} : ST X A → ST sworld A := st_lift s_io (λ x w, w <| s_io := x |>).
Definition s_on_socket {A} : ST (pgm_socket_t * N) A → ST sworld A :=
  st_lift (λ w, (s_socket (se w), s_net w)) (λ p w, w <| se := se w <| s_socket := p.1 |> |> <| s_net := p.2 |>).
Definition s_on_encoder {A} : ST (encoder_t enc_step * enc_env X) A → ST sworld A :=
  st_lift (λ w, (s_encoder (se w), EncEnv (s_enc_message (se w)) (s_enc_tmpbuf (se w)) (s_io w)))
    (λ s w, w <| se := se w <| s_encoder := s.1 |> <| s_enc_message := e_message s.2 |> <| s_enc_tmpbuf := e_tmpbuf s.2 |> |>
              <| s_io := e_io s.2 |>).

(** The engine's address. *)
Context (this : engine_id).

Definition semicolon : Z := 59.
(** ["zmq.pgm://"] *)
Definition pgm_scheme : cstring := [122; 109; 113; 46; 112; 103; 109; 58; 47; 47].

(** [char arguments [256]], filled by [sprintf]. *)
Definition sender_arguments (interface_ : cstring) : ST N cstring :=
  match split_at semicolon interface_ with
  | None => st_crash AssertFailed
  | Some (_, group) =>
      let text := pgm_scheme ++ (if (strip_udp interface_).1 then udp_prefix else []) ++ group in
      st_of_option BadAccess (guard (length text < 256)%nat) ;;
      mret text
  end.

(** The members of a new sender. *)
Definition pgm_sender_fields (interface_ : cstring) : ST N bp_pgm_sender_t :=
  sock ← pgm_socket_new false interface_ 0;
  arguments ← sender_arguments interface_;
  mret (PgmSender arguments false (Encoder [] 0 enc_message_ready true) no_message (replicate 9 0) sock 0 None 0 0 0 (-1)).

Definition pgm_sender_delete : ST sworld unit :=
  s ← se_get;
  match out_buffer s with Some b => s_on_socket (free_buffer b) | None => mret tt end ;;
  s_on_socket pgm_socket_delete.

Definition sender_register_event : ST sworld unit :=
  '(downlink_socket_fd, uplink_socket_fd) ← s_on_socket get_sender_fds;
  h ← s_on_poll (po_add_fd downlink_socket_fd this);
  se_modify (λ s, s <| s_handle := h |>) ;;
  s_on_poll (po_set_pollout h) ;;
  uplink_handle ← s_on_poll (po_add_fd uplink_socket_fd this);
  s_on_poll (po_set_pollin uplink_handle).

Definition sender_in_event : ST sworld unit := s_on_socket process_upstream.

(** [data_] is the buffer from where the packet starts. *)
Definition write_one_pkt_with_offset (data_ : list Z) (size_ : nat) (offset_ : Z) : ST sworld (list Z * Z) :=
  let data := put_uint16 data_ offset_ in
  nbytes ← s_on_socket (pgm_send (take size_ data));
  mret (data, nbytes).

(** The buffer, which is asked for unless there is one from before. *)
Definition ensure_buffer : ST sworld unit :=
  s ← se_get;
  match out_buffer s with
  | Some _ => mret tt
  | None => '(b, size) ← s_on_socket get_buffer; se_modify (λ s, s <| out_buffer := Some b |> <| out_buffer_size := size |>)
  end.

(** The next piece of the stream, behind the place of the offset. *)
Definition fill_buffer : ST sworld unit :=
  ensure_buffer ;;
  s ← se_get;
  st_assert (0 <? out_buffer_size s) ;;
  '(data, offset) ← s_on_encoder (bp_encoder_read (Z.to_nat (u64 (out_buffer_size s - 2))));
  b ← st_of_option BadAccess (b ← out_buffer s; overwrite 2 data b);
  se_modify (λ s, s <| out_buffer := Some b |> <| s_write_size := Z.of_nat (length data) |> <| s_write_pos := 0 |>
    <| first_message_offset := offset |>) ;;
  if bool_decide (data = []) then s_on_poll (po_reset_pollout (s_handle s))
  else se_modify (λ s, s <| s_write_size := s_write_size s + 2 |>).

Definition send_buffer : ST sworld unit :=
  s ← se_get;
  st_when (s_write_pos s <? s_write_size s)
    (b ← st_of_option BadAccess (out_buffer s);
     let pos := Z.to_nat (s_write_pos s) in
     let size := s_write_size s - s_write_pos s in
     '(data, nbytes) ← write_one_pkt_with_offset (drop pos b) (Z.to_nat size) (u16 (first_message_offset s));
     st_assert ((size =? nbytes) || (nbytes =? 0)) ;;
     se_modify (λ s, s <| out_buffer := if nbytes =? 0 then Some (take pos b ++ data) else None |>
       <| s_write_pos := s_write_pos s + nbytes |>)).

Definition sender_out_event : ST sworld unit :=
  s ← se_get;
  st_when (s_write_pos s =? s_write_size s) fill_buffer ;;
  send_buffer.

Definition sender_timer_event : ST sworld unit := st_assert false.
Definition sender_unregister_event : ST sworld unit := mret tt.
Definition sender_get_arguments (s : bp_pgm_sender_t) : cstring := s_arguments s.
End sender.
Arguments sworld X N Q : clear implicits.

(** ** bp_pgm_receiver_t *)

Section receiver.
Context {X N Q : Type} `{!HasHeap X, !MessageSink X, !OpenPgm N, !IPoller Q}.

Record bp_pgm_receiver_t := PgmReceiver {
  joined : bool;
  r_shutting_down : bool;
  r_decoder : decoder_t dec_step dec_target;
  r_dec_message : raw_message;
  r_dec_tmpbuf : list Z;
  r_socket : pgm_socket_t;
  socket_handle : handle_t;
  pipe_handle : handle_t
}.
#[export] Instance eta_pgm_receiver : Eta bp_pgm_receiver_t := λ r,
  PgmReceiver (joined r) (r_shutting_down r) (r_decoder r) (r_dec_message r) (r_dec_tmpbuf r) (r_socket r) (socket_handle r)
    (pipe_handle r).

Record rworld := RWorld { re : bp_pgm_receiver_t; r_io : X; r_net : N; r_poll : Q }.
#[export] Instance eta_rworld : Eta rworld := λ w, RWorld (re w) (r_io w) (r_net w) (r_poll w).

Definition re_modify (f : bp_pgm_receiver_t → bp_pgm_receiver_t) : ST rworld unit := st_modify (λ w, w <| re := f (re w) |>).
Definition re_get : ST rworld bp_pgm_receiver_t := w ← st_get; mret (re w).
Definition r_on_poll {A} : ST Q A → ST rworld A := st_lift r_poll (λ q w, w <| r_poll := q |>).
Definition r_on_io {A} : ST X A → ST rworld A := st_lift r_io (λ x w, w <| r_io := x |>).
Definition r_on_socket {A} : ST (pgm_socket_t * N) A → ST rworld A :=
  st_lift (λ w, (r_socket (re w), r_net w)) (λ p w, w <| re := re w <| r_socket := p.1 |> |> <| r_net := p.2 |>).
Definition r_on_decoder {A} : ST (decoder_t dec_step dec_target * dec_env X) A → ST rworld A :=
  st_lift (λ w, (r_decoder (re w), DecEnv (r_dec_message (re w)) (r_dec_tmpbuf (re w)) (r_io w)))
    (λ s w, w <| re := re w <| r_decoder := s.1 |> <| r_dec_message := d_message s.2 |> <| r_dec_tmpbuf := d_tmpbuf s.2 |> |>
              <| r_io := d_io s.2 |>).

(** The engine's address, and [demux->flush ()] and [demux->gap ()]. *)
Context (this : engine_id) (sink_flush sink_gap : ST X unit).

(** The network and the interface are put together for the socket. *)
Definition receiver_network (network_ arguments_ : cstring) : cstring :=
  let '(udp, net) := if bool_decide (4 < length network_)%nat then strip_udp network_ else (false, network_) in
  (if udp then udp_prefix else []) ++ arguments_ ++ [semicolon] ++ net.

(** The members of a new receiver. *)
Definition pgm_receiver_fields (network_ : cstring) (readbuf_size_ : Z) (arguments_ : cstring) : ST N bp_pgm_receiver_t :=
  sock ← pgm_socket_new true (receiver_network network_ arguments_) readbuf_size_;
  mret (PgmReceiver false false (Decoder (Some (to_tmpbuf, 0%nat)) 1 one_byte_size_ready) no_message (replicate 8 0) sock 0 0).

Definition pgm_receiver_delete : ST rworld unit := r_on_socket pgm_socket_delete.

Definition add_fds : ST rworld unit :=
  '(socket_fd, waiting_pipe_fd) ← r_on_socket get_receiver_fds;
  h ← r_on_poll (po_add_fd socket_fd this);
  re_modify (λ r, r <| socket_handle := h |>) ;;
  h' ← r_on_poll (po_add_fd waiting_pipe_fd this);
  re_modify (λ r, r <| pipe_handle := h' |>) ;;
  r_on_poll (po_set_pollin h') ;;
  r_on_poll (po_set_pollin h).

Definition receiver_register_event : ST rworld unit := add_fds.

Definition receiver_reconnect : ST rworld unit :=
  r ← re_get;
  r_on_poll (po_rm_fd (socket_handle r)) ;;
  r_on_poll (po_rm_fd (pipe_handle r)) ;;
  r_on_socket close_transport ;;
  r_on_socket open_transport ;;
  add_fds.

(** The number of bytes for the decoder, and the bytes: until the stream is
    joined, those from the beginning of a message on. *)
Definition receive_with_offset : ST rworld (Z * list Z) :=
  '(nbytes, raw_data) ← r_on_socket pgm_receive;
  if nbytes =? 0 then mret (0, [])
  else if nbytes =? -1 then mret (-1, [])
  else
    st_of_option BadAccess (guard (2 ≤ length raw_data)%nat) ;;
    let apdu_offset := get_uint16 raw_data in
    let data := drop 2 raw_data in
    let nbytes := nbytes - 2 in
    r ← re_get;
    if (apdu_offset =? 65535) && negb (joined r) then mret (0, [])
    else if negb (joined r) then
      re_modify (λ r, r <| joined := true |>) ;;
      mret (nbytes - apdu_offset, drop (Z.to_nat apdu_offset) data)
    else mret (nbytes, data).

(** [while ((nbytes = receive_with_offset (...)) > 0)]: what the decoder
    takes is not looked at. *)
Fixpoint receive_loop (fuel : nat) : ST rworld Z :=
  match fuel with
  | O => st_crash OutOfFuel
  | S fuel =>
      '(nbytes, data) ← receive_with_offset;
      if 0 <? nbytes then r_on_decoder (bp_decoder_write (take (Z.to_nat nbytes) data)) ;; receive_loop fuel
      else mret nbytes
  end.

(** The socket gives out no more packets in a row than it receives at once. *)
Definition receiver_in_event : ST rworld unit :=
  r ← re_get;
  nbytes ← receive_loop (S (S (Z.to_nat (pgm_msgv_len (r_socket r)))));
  r_on_io sink_flush ;;
  st_when (nbytes =? -1)
    (r_on_decoder bp_decoder_reset ;;
     r_on_io sink_gap ;;
     re_modify (λ r, r <| joined := false |>) ;;
     receiver_reconnect).

Definition receiver_out_event : ST rworld unit := st_assert false.
Definition receiver_timer_event : ST rworld unit := st_assert false.
Definition receiver_unregister_event : ST rworld unit := mret tt.
End receiver.
Arguments rworld X N Q : clear implicits.

(** ** The engines and their commands *)

Section commands.
Context {P S N Q : Type} `{!Channel raw_message P, !Swap S, !OpenPgm N, !IPoller Q}.
(** The engine's address and a bound on the messages left in a pipe that is
    deleted. *)
Context (this : engine_id) (fuel : nat).

Definition send_cmd (calling_thread_ destination_ : thread_id) (cmd : command_t) : ST (store P S) unit :=
  st_modify (λ o, o <| sent_out := sent_out o ++ [Sent calling_thread_ destination_ cmd] |>).

(** The new engine, and the pipe from the peer to it, at address [pipe_]. *)
Definition bp_pgm_sender_new (calling_thread_ thread_ : thread_id) (interface_ : cstring) (peer_thread_ : thread_id)
    (peer_engine_ : engine_id) (peer_info : engine_info) (pipe_ : pipe_id) (poll : Q)
    : ST (store P S * N) (sworld (eenv P S) N Q) :=
  e ← st_lift snd (λ n s, (s.1, n)) (pgm_sender_fields interface_);
  st_lift fst (λ o s, (o, s.2))
    (send_cmd calling_thread_ thread_ (init_register_engine (Some this)) ;;
     st_modify (λ o, o <| pipes := <[pipe_ := pipe_new peer_thread_ peer_engine_ thread_ this peer_info pgm_info]> (pipes o) |>) ;;
     send_cmd calling_thread_ thread_ (init_engine_receive_from (Some this) pipe_) ;;
     send_cmd calling_thread_ peer_thread_ (init_engine_send_to (Some peer_engine_) pipe_)) ;;
  s ← st_get;
  mret (SWorld e (EEnv (engine_base_new false) s.1) s.2 poll).

Definition sender_receive_from (pipe_ : pipe_id) : ST (sworld (eenv P S) N Q) unit :=
  s_on_io (engine_receive_from true pipe_) ;;
  s ← se_get;
  if s_shutting_down s then s_on_io (on_objs (on_pipe pipe_ pipe_terminate_reader))
  else s_on_poll (po_set_pollout (s_handle s)).

Definition sender_revive (pipe_ : pipe_id) : ST (sworld (eenv P S) N Q) unit :=
  s ← se_get;
  st_when (negb (s_shutting_down s))
    (s_on_io (engine_revive true pipe_) ;;
     s ← se_get;
     st_when (s_write_size s =? 0)
       (s_on_poll (po_set_pollout (s_handle s)) ;;
        sender_out_event)).

Definition sender_process (engcmd : engine_command_t) : ST (sworld (eenv P S) N Q) unit :=
  match engcmd with
  | ec_revive pipe => sender_revive pipe
  | ec_receive_from pipe => sender_receive_from pipe
  | _ => s_on_io (engine_process false true fuel engcmd)
  end.

Definition bp_pgm_receiver_new (calling_thread_ thread_ : thread_id) (network_ : cstring) (readbuf_size_ : Z)
    (arguments_ : cstring) (poll : Q) : ST (store P S * N) (rworld (eenv P S) N Q) :=
  e ← st_lift snd (λ n s, (s.1, n)) (pgm_receiver_fields network_ readbuf_size_ arguments_);
  st_lift fst (λ o s, (o, s.2)) (send_cmd calling_thread_ thread_ (init_register_engine (Some this))) ;;
  s ← st_get;
  mret (RWorld e (EEnv (engine_base_new false) s.1) s.2 poll).

Definition base_flush : ST (eenv P S) unit := e ← st_get; on_objs (demux_flush (demux (base e))).
Definition base_gap : ST (eenv P S) unit := e ← st_get; on_objs (demux_gap (demux (base e))).
Definition pgm_in_event : ST (rworld (eenv P S) N Q) unit := receiver_in_event this base_flush base_gap.

Definition receiver_send_to (pipe_ : pipe_id) : ST (rworld (eenv P S) N Q) unit :=
  w ← st_get;
  st_when (negb (r_shutting_down (re w)) && demux_no_pipes (P := P) (S := S) (demux (base (r_io w))))
    (r_on_poll (po_set_pollin (socket_handle (re w))) ;; r_on_poll (po_set_pollin (pipe_handle (re w)))) ;;
  r_on_io (engine_send_to true pipe_).

Definition receiver_process (engcmd : engine_command_t) : ST (rworld (eenv P S) N Q) unit :=
  match engcmd with
  | ec_send_to pipe => receiver_send_to pipe
  | _ => r_on_io (engine_process true false fuel engcmd)
  end.
End commands.
