(* ===== verification/PgmSending.v ===== *)
(** What a multicast sender puts on the network: the stream of its messages, in
    packets that tell where the first message in them begins. *)
From S2P Require Import Prelude Config Wire Message MessageBody Codec BpCodec BpEncoding BpDecoding TcpSocket BpTcpEngine PgmSocket BpPgm.
Local Open Scope Z_scope.

(** ** What the engines rely on *)

(** A transport that sends: [pgm_sent] are the packets handed over so far,
    which are [tsdu] bytes at most.  A packet is taken whole or, because of the
    limit on the rate, not at all. *)
Class PgmSends (N : Type) `{OpenPgm N} := {
  pgm_sent : N → list (list Z);
  tsdu : Z;
  tsdu_bounds : 2 < tsdu < 2 ^ 16;
  pgm_max_tsdu_law n : wp pgm_max_tsdu no_fault (λ k n', k = tsdu ∧ pgm_sent n' = pgm_sent n) n;
  pgm_alloc_law n : wp pgm_packetv_alloc no_fault (λ b n', Z.of_nat (length b) = tsdu ∧ pgm_sent n' = pgm_sent n) n;
  pgm_send_law d n : wp (pgm_send_packet d) no_fault (λ r n',
    match r with
    | inl k => k = Z.of_nat (length d) ∧ pgm_sent n' = pgm_sent n ++ [d]
    | inr e => e = EAGAIN ∧ pgm_sent n' = pgm_sent n
    end) n
}.

(** A poller serves descriptors by their handles. *)
Class PollerWorks (Q : Type) `{IPoller Q} := {
  po_live : Q → gset handle_t;
  po_add_fd_works f e q : wp (po_add_fd f e) no_fault (λ h q', h ∉ po_live q ∧ po_live q' = {[h]} ∪ po_live q) q;
  po_rm_fd_works h q : h ∈ po_live q → wp (po_rm_fd h) no_fault (λ _ q', po_live q' = po_live q ∖ {[h]}) q;
  po_set_pollin_works h q : h ∈ po_live q → wp (po_set_pollin h) no_fault (λ _ q', po_live q' = po_live q) q;
  po_reset_pollout_works h q : h ∈ po_live q → wp (po_reset_pollout h) no_fault (λ _ q', po_live q' = po_live q) q
}.

(** ** Packets *)

(** The piece of the stream that a packet carries, and the whole stream. *)
Definition piece_of (p : list Z) : list Z := drop 2 p.
Definition stream (pkts : list (list Z)) : list Z := concat (piece_of <$> pkts).

Lemma stream_app l1 l2 : stream (l1 ++ l2) = stream l1 ++ stream l2.
Proof. unfold stream. by rewrite fmap_app, concat_app. Qed.
Lemma stream_cons p l : stream (p :: l) = piece_of p ++ stream l.
Proof. done. Qed.

(** The packets that were sent for the messages [log]: a packet's offset is that
    of the first message that was read for it, or 65535 if none was. *)
Inductive packets : list (list Z) → list (list Z) → Prop :=
  | packets_nil : packets [] []
  | packets_quiet pkts log p : packets pkts log → (2 < length p)%nat →
      get_uint16 p = 65535 → packets (pkts ++ [p]) log
  | packets_begin pkts log p log' : packets pkts log → (2 < length p)%nat → log `prefix_of` log' →
      0 ≤ get_uint16 p < 65535 → (Z.to_nat (get_uint16 p) ≤ length (piece_of p))%nat →
      stream pkts ++ take (Z.to_nat (get_uint16 p)) (piece_of p) = frames log →
      packets (pkts ++ [p]) log'.

Section sending.
Context {X N Q : Type} `{!HasHeap X, !HasHeapLaws X, !MessageSource X, !SourceLaws X, !OpenPgm N, !PgmSends N, !IPoller Q, !PollerWorks Q}.
Implicit Types (w : sworld X N Q).

Definition enc_state_of w : encoder_t enc_step * enc_env X :=
  (s_encoder (se w), EncEnv (s_enc_message (se w)) (s_enc_tmpbuf (se w)) (s_io w)).

(** A packet that waits in the buffer. *)
Definition waiting_packet (s : bp_pgm_sender_t) (b : list Z) : list Z :=
  take (Z.to_nat (s_write_size s)) (put_uint16 b (u16 (first_message_offset s))).

Definition has_buffer (s : bp_pgm_sender_t) : Prop :=
  match out_buffer s with Some b => Z.of_nat (length b) = tsdu ∧ out_buffer_size s = tsdu | None => True end.

(** [log]: the messages read. *)
Definition sender_inv w (log : list (list Z)) : Prop :=
  let s := se w in
  has_buffer s ∧ s_handle s ∈ po_live (s_poll w) ∧
  if s_write_pos s =? s_write_size s then packets (pgm_sent (s_net w)) log ∧ enc_inv (enc_state_of w) log (stream (pgm_sent (s_net w)))
  else s_write_pos s = 0 ∧ 2 < s_write_size s ≤ tsdu ∧ ∃ b, out_buffer s = Some b ∧
    let pkts := pgm_sent (s_net w) ++ [waiting_packet s b] in
    packets pkts log ∧ enc_inv (enc_state_of w) log (stream pkts).

(** *** Packets in the buffer *)

Lemma first_offset_bytes (b : list Z) o : (2 ≤ length b)%nat →
  get_uint16 (put_uint16 b o) = u16 o ∧ drop 2 (put_uint16 b o) = drop 2 b ∧ length (put_uint16 b o) = length b.
Proof.
  intros Hb. rewrite (wire_get_put (n := 2) (put := put_uint16)) by done. split; [done|].
  rewrite (wire_put_length (n := 2) (get := get_uint16)). split; [|done].
  rewrite <- (take_drop 2 b) at 1. rewrite (wire_put_app (n := 2) (get := get_uint16)) by (rewrite length_take; lia).
  apply drop_app_length'. rewrite (wire_put_length (n := 2) (get := get_uint16)), length_take. lia.
Qed.

(** To put a value where it is already changes nothing. *)
Lemma put_uint16_twice (b : list Z) o : (2 ≤ length b)%nat → put_uint16 (put_uint16 b o) o = put_uint16 b o.
Proof.
  intros Hb. rewrite <- (take_drop 2 b). rewrite !(wire_put_app (n := 2) (get := get_uint16));
    rewrite ?(wire_put_length (n := 2) (get := get_uint16)), ?length_take; try lia.
  f_equal. apply (wire_put_irrel (n := 2) (get := get_uint16)); rewrite ?(wire_put_length (n := 2) (get := get_uint16)), length_take; lia.
Qed.

(** A packet is cut off the buffer behind its piece. *)
Lemma packet_of_buffer (b data : list Z) o : (2 + length data ≤ length b)%nat → take (2 + length data) b = take 2 b ++ data →
  let p := take (2 + length data) (put_uint16 b o) in
  length p = (2 + length data)%nat ∧ piece_of p = data ∧ get_uint16 p = u16 o.
Proof.
  intros Hb Ht. destruct (first_offset_bytes b o) as (Hg & Hd & Hl); [lia|]. cbv zeta.
  split; [rewrite length_take; lia|]. split.
  - unfold piece_of. rewrite skipn_firstn_comm, Hd. replace (2 + length data - 2)%nat with (length data) by lia.
    apply (f_equal (drop 2)) in Ht. rewrite skipn_firstn_comm, drop_app_length' in Ht by (rewrite length_take; lia).
    by replace (2 + length data - 2)%nat with (length data) in Ht by lia.
  - rewrite <- Hg. rewrite <- (take_drop (2 + length data) (put_uint16 b o)) at 2.
    set (p := take (2 + length data) (put_uint16 b o)). assert (2 ≤ length p)%nat by (unfold p; rewrite length_take; lia).
    rewrite <- (take_drop 2 p), <- app_assoc.
    rewrite !(wire_get_app (n := 2) (put := put_uint16)) by (rewrite length_take; lia). done.
Qed.

Lemma frames_eq_prefix (log log' : list (list Z)) : log `prefix_of` log' → frames log = frames log' → log = log'.
Proof.
  intros [l ->]. rewrite frames_app. destruct l as [|b l]; [intros _; by rewrite app_nil_r|]. intros E.
  apply (f_equal length) in E. rewrite frames_cons in E. unfold frame, size_field in E. rewrite !length_app in E.
  destruct (Z.of_nat (length b) <? 255); simpl length in E; lia.
Qed.

(** Not a byte was written: no message was read. *)
Lemma nothing_read log log' out offset : log `prefix_of` log' → out ++ [] = frames log' →
  marked (λ log out, out = frames log) eq log log' out [] offset → log' = log.
Proof.
  intros Hp Hc [[_ ?]|(o & log1 & _ & _ & <- & Hm)]; [done|]. symmetry. apply frames_eq_prefix; [done|].
  rewrite take_nil in Hm. congruence.
Qed.

(** One more packet was made. *)
Lemma packets_more pkts p log log' offset (data : list Z) : packets pkts log → log `prefix_of` log' →
  data ≠ [] → length p = (2 + length data)%nat → Z.of_nat (length p) < 2 ^ 16 → piece_of p = data → get_uint16 p = u16 (u16 offset) →
  marked (λ log out, out = frames log) eq log log' (stream pkts) data offset → packets (pkts ++ [p]) log'.
Proof.
  intros Hk Hp Hd Hl Hs Hc Hg Hm.
  assert (2 < length p)%nat by (destruct data; simpl in *; [done|lia]).
  destruct Hm as [[-> <-]|(o & log1 & -> & Ho & <- & Hm)]; [by apply packets_quiet|].
  assert (get_uint16 p = Z.of_nat o) as Eo.
  { rewrite Hg. rewrite !wrap_small; [done|unfold in_u; lia..|]. rewrite wrap_small; unfold in_u; lia. }
  apply packets_begin with log; [done..|rewrite Eo; lia| |]; rewrite Eo, Nat2Z.id, Hc; done.
Qed.

(** *** The engine *)

#[local] Arguments Z.eqb : simpl never.

Lemma ensure_buffer_ok w : has_buffer (se w) →
  wp (ensure_buffer : ST (sworld X N Q) unit) no_fault (λ _ w',
    s_handle (se w') = s_handle (se w) ∧ s_poll w' = s_poll w ∧ pgm_sent (s_net w') = pgm_sent (s_net w) ∧ enc_state_of w' = enc_state_of w ∧
    ∃ b, out_buffer (se w') = Some b ∧ Z.of_nat (length b) = tsdu ∧ out_buffer_size (se w') = tsdu) w.
Proof.
  intros Hb. unfold ensure_buffer, has_buffer, se_get in *. wp_steps.
  destruct (out_buffer (se w)) as [b|] eqn:Eb; wp_steps; [split_and!; [done..|by exists b]|].
  apply wp_lift. unfold get_buffer, on_pgm. wp_steps. apply wp_lift.
  eapply wp_mono; [apply pgm_max_tsdu_law|]. intros k n1 (-> & E1). wp_steps. apply wp_lift. simpl.
  eapply wp_mono; [apply pgm_alloc_law|]. intros b n2 (Hl & E2). wp_steps. simpl. unfold se_modify. wp_steps. simpl.
  simpl in *. split_and!; [done|done|congruence|done|by exists b].
Qed.

(** What a call leaves: the packets so far, and one more if there are data. *)
Lemma fill_buffer_ok w log : has_buffer (se w) → s_handle (se w) ∈ po_live (s_poll w) → packets (pgm_sent (s_net w)) log →
  enc_inv (enc_state_of w) log (stream (pgm_sent (s_net w))) →
  wp (fill_buffer : ST (sworld X N Q) unit) source_fault (λ _ w', ∃ log', log `prefix_of` log' ∧ sender_inv w' log') w.
Proof using HasHeapLaws0.
  intros Hb Hh Hk Hi. pose proof tsdu_bounds. unfold fill_buffer, se_get, s_on_encoder. wp_steps.
  apply (wp_fault no_fault); [by intros ? []|]. eapply wp_mono; [by apply ensure_buffer_ok|].
  intros _ w1 (Eh & Eq & Es & Ee & b & Eb & Hl & Hz). wp_steps. apply wp_assert; [rewrite Hz; lia|]. wp_steps.
  apply wp_lift. fold (enc_state_of w1). rewrite Ee, Hz. rewrite (wrap_small 64) by (unfold in_u; lia).
  eapply wp_mono; [by apply bp_encoder_read_ok|].
  intros [data offset] s' (log' & Hi' & Hp & _ & Hsz & Hc & Hm). simpl in Hi', Hsz, Hc, Hm. wp_steps.
  destruct (overwrite_spec 2 data b) as (b' & Eo & Hl' & Ht); [lia|].
  apply (wp_of_option _ _ _ b'); [by simpl; rewrite Eb|]. unfold se_modify. wp_steps. case_bool_decide as Hd.
  - subst data. wp_steps. apply wp_lift. apply (wp_fault no_fault); [by intros ? []|].
    eapply wp_mono; [apply po_reset_pollout_works; simpl; by rewrite Eh, Eq|]. cbv beta; intros _ q2 Elive. assert (log' = log) as -> by (eapply nothing_read; [done|apply Hc; simpl; lia|done]).
    exists log. split; [done|]. rewrite app_nil_r in Hi'. unfold sender_inv, has_buffer. simpl. rewrite Es, Hz. split; [split; [lia|done]|].
    split; [rewrite Elive; simpl; by rewrite Eh, Eq|]. split; [done|]. by destruct s' as [? []].
  - wp_steps. exists log'. split; [done|]. unfold sender_inv, has_buffer. simpl. rewrite Hz. split; [split; [lia|done]|].
    split; [by rewrite Eh, Eq|]. destruct (Z.eqb_spec 0 (Z.of_nat (length data) + 2)); [lia|]. split; [done|].
    assert (0 < length data)%nat by (destruct data; simpl; [done|lia]). split; [lia|].
    exists b'. split; [done|]. unfold waiting_packet. simpl. rewrite Es. simpl.
    replace (Z.to_nat (Z.of_nat (length data) + 2)) with (2 + length data)%nat by lia.
    destruct (packet_of_buffer b' data (u16 offset)) as (H1 & H2 & H3); [lia|rewrite Ht; f_equal|].
    { rewrite <- (take_app_length' (take 2 b) data 2) by (rewrite length_take; lia). rewrite <- Ht, take_take. f_equal; lia. }
    split; [eapply packets_more; [exact Hk|exact Hp|exact Hd|exact H1|rewrite H1; lia|exact H2|exact H3|exact Hm]|].
    rewrite stream_app, stream_cons, H2. unfold stream. rewrite app_nil_r. by destruct s' as [? []].
Qed.

Lemma send_buffer_ok w log : sender_inv w log →
  wp (send_buffer : ST (sworld X N Q) unit) no_fault (λ _ w', sender_inv w' log ∧
    pgm_sent (s_net w) `prefix_of` pgm_sent (s_net w')) w.
Proof.
  intros Hi. pose proof Hi as (Hb & Hh & Hw). unfold send_buffer, se_get. wp_steps.
  destruct (Z.eqb_spec (s_write_pos (se w)) (s_write_size (se w))) as [E|E].
  { apply wp_when_false; [lia|]. done. }
  destruct Hw as (Ep & Hs & b & Eb & Hk & He). apply wp_when_true; [lia|]. wp_steps.
  apply (wp_of_option _ _ _ b); [done|]. rewrite Ep, Z.sub_0_r. unfold write_one_pkt_with_offset. wp_steps. apply wp_lift.
  unfold pgm_send, on_pgm. wp_steps. apply wp_lift.
  eapply wp_mono; [apply pgm_send_law|]. change (drop (Z.to_nat 0) b) with b. fold (waiting_packet (se w) b).
  assert (Z.of_nat (length (waiting_packet (se w) b)) = s_write_size (se w)) as Hl.
  { unfold has_buffer in Hb. rewrite Eb in Hb. unfold waiting_packet.
    rewrite length_take, (wire_put_length (n := 2) (get := get_uint16)). lia. }
  intros [k|e] n'.
  - intros (-> & En). wp_steps. apply wp_when_true; [lia|]. apply wp_assert; [lia|]. wp_steps. simpl.
    apply wp_assert; [lia|]. unfold se_modify. wp_steps. rewrite Hl. destruct (Z.eqb_spec (s_write_size (se w)) 0); [lia|].
    split; [|simpl; rewrite En; by apply prefix_app_r]. unfold sender_inv, has_buffer. simpl. rewrite Ep, Z.eqb_refl.
    split; [done|]. split; [done|]. rewrite En. by split.
  - intros (-> & En). wp_steps. apply wp_assert; [done|]. wp_steps. simpl.
    apply wp_assert; [lia|]. unfold se_modify. wp_steps. split; [|simpl; by rewrite En].
    destruct (first_offset_bytes b (u16 (first_message_offset (se w)))) as (_ & _ & Hlb).
    { unfold has_buffer in Hb. rewrite Eb in Hb. lia. }
    unfold sender_inv, has_buffer in *. simpl in *. rewrite Eb in Hb. rewrite Ep, Z.add_0_r. change (Z.to_nat 0) with 0%nat. simpl.
    split; [rewrite Hlb; done|]. split; [done|]. destruct (Z.eqb_spec 0 (s_write_size (se w))); [lia|]. split; [done|]. split; [done|].
    eexists. split; [done|]. unfold waiting_packet in *. simpl. rewrite En.
    rewrite put_uint16_twice by lia. done.
Qed.

Lemma sender_out_event_ok w log : sender_inv w log →
  wp (sender_out_event : ST (sworld X N Q) unit) source_fault (λ _ w', ∃ log', log `prefix_of` log' ∧ sender_inv w' log') w.
Proof using HasHeapLaws0.
  intros Hi. unfold sender_out_event, se_get. wp_steps.
  apply wp_mono with (Q := λ _ w', ∃ log', log `prefix_of` log' ∧ sender_inv w' log').
  - pose proof Hi as (Hb & Hh & Hw). destruct (Z.eqb_spec (s_write_pos (se w)) (s_write_size (se w))).
    + apply wp_when_true; [lia|]. destruct Hw. by apply fill_buffer_ok.
    + apply wp_when_false; [lia|]. by exists log.
  - intros _ w1 (log1 & Hp & Hi1). apply (wp_fault no_fault); [by intros ? []|].
    eapply wp_mono; [by apply send_buffer_ok|]. intros _ w2 [Hi2 _]. by exists log1.
Qed.
End sending.
