(* ===== verification/PgmReceiving.v ===== *)
(** What a multicast receiver makes of the packets of a sender: it joins the
    stream where a message begins, and begins anew after a loss. *)
From S2P Require Import Prelude Config Wire Message MessageBody Command Codec BpCodec BpEncoding BpDecoding TcpSocket BpTcpEngine PgmSocket BpPgm PgmSending.
Local Open Scope Z_scope.

#[local] Arguments Z.eqb : simpl never.
#[local] Arguments put_uint64 : simpl never.

(** A transport that receives the packets of one sender, in any portions:
    [pgm_arrivals] are those to come.  If [pgm_lossy], it may report that data
    were lost; then, and while it is opened again, packets are missed. *)
Class PgmReceives (N : Type) `{OpenPgm N} := {
  pgm_arrivals : N → list (list Z);
  pgm_peer : pgm_tsi_t;
  pgm_lossy : Prop;
  pgm_peer_known : tsi_empty pgm_peer = false;
  pgm_recvmsgv_law k n : wp (pgm_recvmsgv k) no_fault (λ r n',
    match r with
    | inl l => ∃ ps, l = (λ p, Msgv [p] pgm_peer) <$> ps ∧ ps ≠ [] ∧ (length ps ≤ k)%nat ∧ pgm_arrivals n = ps ++ pgm_arrivals n'
    | inr EAGAIN => pgm_arrivals n' = pgm_arrivals n
    | inr ECONNRESET => pgm_lossy ∧ pgm_arrivals n' `suffix_of` pgm_arrivals n
    | inr _ => False
    end) n;
  pgm_create_law net port udp n : wp (pgm_create net port udp) no_fault (λ b n', b = true ∧ pgm_arrivals n' `suffix_of` pgm_arrivals n) n;
  pgm_set_law o n : wp (pgm_set o) no_fault (λ b n', b = true ∧ pgm_arrivals n' `suffix_of` pgm_arrivals n) n;
  pgm_bind_law n : wp pgm_bind no_fault (λ b n', b = true ∧ pgm_arrivals n' `suffix_of` pgm_arrivals n) n;
  pgm_destroy_law n : wp pgm_destroy no_fault (λ _ n', pgm_arrivals n' `suffix_of` pgm_arrivals n) n;
  pgm_poll_info_law n : wp (pgm_poll_info false) no_fault (λ l n', length l = 2%nat ∧ pgm_arrivals n' `suffix_of` pgm_arrivals n) n
}.

(** Packets have contents. *)
Abbreviation real := (Forall (λ d : list Z, 2 < length d)%nat).

Section socket.
Context {N : Type} `{!OpenPgm N, !PgmReceives N}.
Implicit Types (p : pgm_socket_t) (n : N) (pend : list (list Z)).

Definition from_peer (d : list Z) : pgm_msgv_t := Msgv [d] pgm_peer.
Definition bytes_of (l : list (list Z)) : Z := total (from_peer <$> l).

Lemma bytes_of_cons d l : bytes_of (d :: l) = Z.of_nat (length d) + bytes_of l.
Proof. unfold bytes_of. simpl. unfold payload. simpl. by rewrite app_nil_r. Qed.
Lemma bytes_of_app l1 l2 : bytes_of (l1 ++ l2) = bytes_of l1 + bytes_of l2.
Proof. induction l1; [done|]. rewrite <- app_comm_cons, !bytes_of_cons. lia. Qed.

Lemma bytes_of_real l : real l → 0 ≤ bytes_of l ∧ (bytes_of l = 0 → l = []).
Proof. induction 1 as [|d l Hd _ [IH _]]; [done|]. rewrite bytes_of_cons. lia. Qed.

(** The packets that were received but not given out. *)
Record psock p pend : Prop := {
  ps_open : g_transport p = true;
  ps_room : 0 < pgm_msgv_len p;
  ps_tsi : tsi_empty (tsi p) = true ∨ tsi p = pgm_peer;
  ps_counts : (nbytes_rec p = 0 ∧ nbytes_processed p = 0 ∧ pgm_msgv_processed p = 0%nat ∧ pend = []) ∨
    ∃ given junk, pgm_msgv p = (from_peer <$> given ++ pend) ++ junk ∧ pgm_msgv_processed p = length given ∧
      nbytes_processed p = bytes_of given ∧ nbytes_rec p = bytes_of (given ++ pend) ∧ 0 < nbytes_rec p
}.

(** Packets that can be given out before the socket reports that there are no
    more, and that report. *)
Definition turns p pend : nat := if nbytes_rec p =? 0 then S (Z.to_nat (pgm_msgv_len p)) else S (length pend).

Lemma tsi_equal_refl t : tsi_equal t t = true.
Proof. unfold tsi_equal. by rewrite bool_decide_true, Z.eqb_refl. Qed.

(** What a call of [receive] establishes. *)
Definition receive_post p n pend (r : Z * list Z) (s : pgm_socket_t * N) : Prop :=
  ∃ pend', psock s.1 pend' ∧ pgm_msgv_len s.1 = pgm_msgv_len p ∧
    ((r.1 = 0 ∧ pend' ++ pgm_arrivals s.2 = pend ++ pgm_arrivals n ∧ (turns s.1 pend' ≤ S (Z.to_nat (pgm_msgv_len p)))%nat) ∨
     (r.1 = -1 ∧ pgm_lossy ∧ pend = [] ∧ pend' = [] ∧ pgm_arrivals s.2 `suffix_of` pgm_arrivals n) ∨
     (r.1 = Z.of_nat (length r.2) ∧ pend ++ pgm_arrivals n = r.2 :: pend' ++ pgm_arrivals s.2 ∧
      (turns s.1 pend' < turns p pend)%nat)).

Lemma take_packet_ok p n d pend given junk : psock p (d :: pend) →
  pgm_msgv p = (from_peer <$> given ++ d :: pend) ++ junk → pgm_msgv_processed p = length given →
  nbytes_processed p = bytes_of given → nbytes_rec p = bytes_of (given ++ d :: pend) → 0 < nbytes_rec p →
  wp (take_packet : ST (pgm_socket_t * N) _) no_fault (λ r s, r = (Z.of_nat (length d), d) ∧ psock s.1 pend ∧
    pgm_msgv_len s.1 = pgm_msgv_len p ∧ nbytes_rec s.1 = nbytes_rec p ∧ s.2 = n) (p, n).
Proof.
  intros [Ho Hroom Ht _] Em Ep Ebp Ebr Hpos. unfold take_packet, ps_get, next_msgv, ps_modify. wp_steps. simpl.
  apply wp_assert; [lia|]. wp_steps. apply (wp_of_option _ _ _ (from_peer d)).
  { rewrite Em, Ep, fmap_app, <- app_assoc, lookup_app_r; rewrite length_fmap; [|done]. by rewrite Nat.sub_diag. }
  simpl. wp_steps.
  assert (∀ p2, pgm_msgv p2 = pgm_msgv p → nbytes_rec p2 = nbytes_rec p → pgm_msgv_processed p2 = pgm_msgv_processed p →
    nbytes_processed p2 = nbytes_processed p → g_transport p2 = true → pgm_msgv_len p2 = pgm_msgv_len p → tsi p2 = pgm_peer →
    psock (p2 <| pgm_msgv_processed := S (pgm_msgv_processed p2) |> <| nbytes_processed := nbytes_processed p2 + Z.of_nat (length d) |>) pend) as Hps.
  { intros p2 E1 E2 E3 E4 E5 E6 E7. constructor; simpl; [done|lia|by right|right].
    exists (given ++ [d]), junk. rewrite E1, E2, E3, E4, Em, Ep, Ebp, Ebr, <- app_assoc. split_and!; [done|rewrite length_app; simpl; lia| |done|lia].
    rewrite bytes_of_app, bytes_of_cons. change (bytes_of []) with 0. lia. }
  destruct (tsi_empty (tsi p)) eqn:Et; [apply wp_when_true; [done|]|apply wp_when_false; [done|]]; wp_steps; simpl.
  - rewrite tsi_equal_refl. simpl. wp_steps. split_and!; [done|exact (Hps (p <| tsi := pgm_peer |>) eq_refl eq_refl eq_refl eq_refl Ho eq_refl eq_refl)|done..].
  - destruct Ht as [|Ht]; [congruence|]. rewrite Ht, tsi_equal_refl. simpl. wp_steps. split_and!; [done|exact (Hps p eq_refl eq_refl eq_refl eq_refl Ho eq_refl Ht)|done..].
Qed.

Lemma pgm_receive_ok p n pend : psock p pend → real (pend ++ pgm_arrivals n) → (turns p pend ≤ S (Z.to_nat (pgm_msgv_len p)))%nat →
  wp pgm_receive no_fault (receive_post p n pend) (p, n).
Proof.
  intros Hp Hr Hturns. pose proof Hp as [Ho Hroom Ht Hc]. unfold pgm_receive, ps_get. wp_steps. simpl.
  apply Forall_app in Hr as [Hr Hra].
  destruct Hc as [(E1 & E2 & E3 & ->)|(given & junk & Em & Ep & Ebp & Ebr & Hpos)].
  - rewrite E1, E2, Z.eqb_refl. simpl. wp_steps. unfold receive_packets, ps_get, ps_modify. wp_steps. simpl.
    rewrite E1, E2, E3. apply wp_assert; [done|]. wp_steps. apply wp_assert; [done|]. wp_steps. apply wp_assert; [done|]. wp_steps.
    apply wp_lift. eapply wp_mono; [apply pgm_recvmsgv_law|]. cbv beta. intros [l|e] n' Hl; simpl.
    + destruct Hl as (ps & -> & Hne & Hlen & Ea). simpl in Ea. rewrite Ea in Hra. apply Forall_app in Hra as [Hps _].
      fold from_peer. change ((λ d, Msgv [d] pgm_peer) <$> ps) with (from_peer <$> ps). fold (bytes_of ps).
      destruct (bytes_of_real ps Hps) as [Hb0 Hb]. assert (0 < bytes_of ps) as Hpos.
      { destruct (decide (bytes_of ps = 0)) as [E|]; [by destruct Hne; apply Hb|lia]. }
      wp_steps. apply wp_assert; [lia|]. wp_steps. simpl. destruct ps as [|d ps]; [done|].
      set (p1 := PgmSocket _ _ _ _ _ _ _ _ _ _ _ _).
      assert (psock p1 (d :: ps)) as Hp1.
      { constructor; simpl; [done..|right]. exists [], (drop (length (from_peer <$> d :: ps)) (pgm_msgv p)). rewrite E2, E3. done. }
      eapply wp_mono; [apply (take_packet_ok p1 n' d ps [] (drop (length (from_peer <$> d :: ps)) (pgm_msgv p))); done|].
      intros r [p2 n2] (-> & Hs & El & Er & En). simpl in *. subst n2. exists ps. split; [done|]. split; [done|]. right; right. simpl.
      split; [done|]. split; [done|]. unfold turns. rewrite Er, E1. simpl nbytes_rec. simpl in Hlen.
      destruct (Z.eqb_spec (bytes_of (d :: ps)) 0); [lia|]. change (0 =? 0) with true. cbv iota. simpl length. lia.
    + destruct e; try done; wp_steps; simpl; exists []; split_and!; try done.
      * constructor; simpl; auto.
      * left. split_and!; [done|done|]. unfold turns. simpl. lia.
      * constructor; simpl; auto.
      * right; left. destruct Hl. by split_and!.
  - rewrite bytes_of_app in Ebr. destruct (bytes_of_real pend Hr) as [Hb0 Hb]. destruct pend as [|d pend].
    + change (bytes_of []) with 0 in Ebr. rewrite Ebp, Ebr, Z.add_0_r, Z.eqb_refl. simpl.
      destruct (Z.ltb_spec 0 (bytes_of given)); [|lia]. wp_steps. exists []. split; [constructor; simpl; auto|].
      split; [done|]. left. split_and!; [done|done|]. unfold turns. simpl. lia.
    + assert (bytes_of (d :: pend) ≠ 0) by (intros E; by apply Hb in E).
      destruct (Z.eqb_spec (nbytes_rec p) (nbytes_processed p)); [lia|]. simpl. wp_steps.
      eapply wp_mono; [apply (take_packet_ok p n d pend given junk); try done; by rewrite bytes_of_app|].
      intros r [p2 n2] (-> & Hs & El & Er & En). simpl in *. subst n2. exists pend. split; [done|]. split; [done|]. right; right. simpl.
      split; [done|]. split; [done|]. unfold turns. rewrite Er. destruct (Z.eqb_spec (nbytes_rec p) 0); [lia|]. simpl. lia.
Qed.

(** *** Opening again *)

Definition keeps_room (s s' : pgm_socket_t * N) : Prop :=
  pgm_msgv_len s'.1 = pgm_msgv_len s.1 ∧ pgm_arrivals s'.2 `suffix_of` pgm_arrivals s.2.

Lemma pgm_assert_ok (m : ST N bool) p n : wp m no_fault (λ b n', b = true ∧ pgm_arrivals n' `suffix_of` pgm_arrivals n) n →
  wp (pgm_assert m) no_fault (λ _ s, s.1 = p ∧ pgm_arrivals s.2 `suffix_of` pgm_arrivals n) (p, n).
Proof.
  intros Hm. unfold pgm_assert, on_pgm. wp_steps. apply wp_lift. eapply wp_mono; [exact Hm|].
  intros b n' [-> Hn]. by apply wp_assert.
Qed.

Lemma options_ok l p n :
  wp (st_for l (λ o, pgm_assert (pgm_set o))) no_fault (λ _ s, s.1 = p ∧ pgm_arrivals s.2 `suffix_of` pgm_arrivals n) (p, n).
Proof.
  apply (wp_for no_fault (λ _ s, s.1 = p ∧ pgm_arrivals s.2 `suffix_of` pgm_arrivals n)); [done|].
  intros o l' [p3 n3] [E H3]. simpl in *. subst p3. eapply wp_mono; [apply pgm_assert_ok, pgm_set_law|].
  intros _ s [E Hs]. split; [done|by etrans].
Qed.

Lemma reopen_ok p n pend : psock p pend →
  wp (close_transport : ST (pgm_socket_t * N) unit) no_fault (λ _ s1,
    wp open_transport no_fault (λ _ s, psock s.1 [] ∧ nbytes_rec s.1 = 0 ∧ keeps_room (p, n) s) s1) (p, n).
Proof.
  intros [Ho Hroom Ht _]. unfold close_transport, open_transport, ps_get, ps_modify. wp_steps. cbn [fst snd]. apply wp_assert; [done|]. wp_steps.
  apply wp_lift. eapply wp_mono; [apply pgm_destroy_law|]. cbv beta. intros _ n1 H1. simpl in H1. wp_steps. cbn [fst snd].
  apply wp_assert; [done|]. wp_steps. cbn [fst snd].
  eapply wp_mono; [apply pgm_assert_ok, pgm_create_law|]. intros _ [p1 n2] [E H2]. simpl in E, H2. subst p1. wp_steps.
  match goal with |- wp _ _ _ (?p, _) => set (p2 := p) end. eapply wp_mono; [apply options_ok|].
  cbv beta. intros _ [p3 n3] [E H3]. simpl in *. subst p3. eapply wp_mono; [apply pgm_assert_ok, pgm_bind_law|].
  intros _ [p4 n4] [E H4]. simpl in *. subst p4. split; [|split; [done|split; [done|]]].
  - constructor; simpl; auto.
  - simpl. repeat (etrans; [eassumption|]). done.
Qed.
End socket.

(** *** What was heard *)

(** A packet in which no message begins. *)
Abbreviation quiet := (Forall (λ p : list Z, get_uint16 p = 65535)).

(** The place in packet [p], after the packets [old], where the messages
    [before] are complete and the next one begins. *)
Definition boundary (old : list (list Z)) (p : list Z) (before : list (list Z)) : Prop :=
  0 ≤ get_uint16 p < 65535 ∧ (Z.to_nat (get_uint16 p) ≤ length (piece_of p))%nat ∧ stream old ++ take (Z.to_nat (get_uint16 p)) (piece_of p) = frames before.

Lemma packets_split pkts log : packets pkts log → ∀ old p new, pkts = old ++ p :: new →
  (2 < length p)%nat ∧ (get_uint16 p = 65535 ∨ ∃ before, before `prefix_of` log ∧ boundary old p before).
Proof.
  induction 1 as [|pkts log q Hk IH Hl Hq|pkts log q log' Hk IH Hl Hp Hq Ho Hs]; intros old p new E.
  - by destruct old.
  - destruct new as [|p' new _] using rev_ind.
    + apply app_inj_tail in E as [<- <-]. auto.
    + rewrite app_comm_cons, app_assoc in E. apply app_inj_tail in E as [-> _]. by eapply IH.
  - destruct new as [|p' new _] using rev_ind.
    + apply app_inj_tail in E as [<- <-]. split; [done|]. right. by exists log.
    + rewrite app_comm_cons, app_assoc in E. apply app_inj_tail in E as [-> _].
      destruct (IH _ _ _ eq_refl) as (H1 & [?|(before & ? & ?)]); split; auto. right. exists before. split; [by etrans|done].
Qed.

(** What a receiver relies on: a packet says rightly where a message begins. *)
Definition announces (pkts log : list (list Z)) : Prop := ∀ old p new, pkts = old ++ p :: new →
  (2 < length p)%nat ∧ (get_uint16 p = 65535 ∨ ∃ before, before `prefix_of` log ∧ boundary old p before).

Lemma packets_announce pkts log log' : packets pkts log → log `prefix_of` log' → announces pkts log'.
Proof.
  intros Hk Hl old p new E. destruct (packets_split _ _ Hk _ _ _ E) as (H1 & [|(before & ? & ?)]); split; auto.
  right. exists before. split; [by etrans|done].
Qed.

Lemma announces_real pkts log : announces pkts log → real pkts.
Proof. intros Hk. apply Forall_forall. intros p (old & new & E)%list_elem_of_split. by eapply Hk. Qed.

Section hearing.
Context {X : Type} `{!HasHeap X, !HasHeapLaws X, !MessageSink X, !SinkLaws X}.
(** The sender has read the messages [log] and has sent [sent] of them, all
    but [rest]. *)
Context (log sent : list (list Z)) (rest : list Z).
(** Whether data may have been lost. *)
Context (lossy : Prop).
Context (Hsent : announces sent log) (Hstream : stream sent ++ rest = frames log) (Hfits : Forall fits log).
Context (Hsink : ∀ x : X, ¬ sink_full x).
Implicit Types (s : decoder_t dec_step dec_target * dec_env X) (gone got before : list (list Z)).

(** The decoder as it is before the first byte. *)
Definition untouched s got : Prop := dec_good s.2 got ∧ at_field s.1 to_tmpbuf [] 1 ∧ dec_next s.1 = one_byte_size_ready.

Lemma fresh_inv s got todo : untouched s got → Forall fits todo → dec_inv s got todo (frames todo).
Proof using. intros (Hg & Ha & Hn) Hf. split; [done|]. split; [|done]. unfold dec_phase. rewrite Hn. by exists []. Qed.

(** Of the packets sent, [early] were gone when the receiver began and [gone]
    are by now; [coming] is what is left of the stream.  The sink has been given
    [got] in former times, and [done] since the stream was joined. *)
Definition hears (early gone : list (list Z)) (joined : bool) s (coming : list Z) : Prop :=
  if joined then ∃ old p before got done todo, old ++ [p] `prefix_of` gone ∧ boundary old p before ∧
      log = before ++ done ++ todo ∧ got `sublist_of` before ∧ dec_inv s (got ++ done) todo coming ∧ to_read s.1 ≠ 0%nat ∧
      (¬ lossy → got = [] ∧ ∃ skipped, old = early ++ skipped ∧ quiet skipped)
  else ∃ got before, untouched s got ∧ before `prefix_of` log ∧ got `sublist_of` before ∧
      (length (frames before) ≤ length (stream gone))%nat ∧
      (¬ lossy → got = [] ∧ ∃ skipped, gone = early ++ skipped ∧ quiet skipped).

Lemma hears_quiet early gone s p c c' : hears early gone false s c → get_uint16 p = 65535 →
  hears early (gone ++ [p]) false s c'.
Proof using.
  intros (got & before & Hf & Hb & Hs & Hl & He) Hq. exists got, before. split_and!; [done..| |].
  - rewrite stream_app, length_app. lia.
  - intros H. destruct (He H) as (-> & skipped & -> & Hk). split; [done|]. exists (skipped ++ [p]).
    rewrite app_assoc. split; [done|]. apply Forall_app_2; [done|by repeat constructor].
Qed.

(** Fewer bytes are fewer messages. *)
Lemma fewer_messages (l1 l2 : list (list Z)) : l1 `prefix_of` log → l2 `prefix_of` log → (length (frames l1) ≤ length (frames l2))%nat →
  l1 `prefix_of` l2.
Proof using.
  intros H1 H2 Hl. destruct (prefix_weak_total l1 l2 log H1 H2) as [|H]; [done|].
  assert (l2 = l1) as ->; [|done]. apply frames_eq_prefix; [done|]. destruct H as [k ->]. rewrite frames_app in *.
  rewrite length_app in Hl. destruct (frames k); [by rewrite app_nil_r|]. simpl in Hl. lia.
Qed.

Lemma hears_begin early gone p later s c : hears early gone false s c → sent = gone ++ p :: later → get_uint16 p ≠ 65535 →
  hears early (gone ++ [p]) true s (drop (Z.to_nat (get_uint16 p)) (piece_of p) ++ stream later ++ rest).
Proof using Hsent Hstream Hfits.
  intros (got & before & Hf & Hb & Hs & Hl & He) E Hq.
  destruct (Hsent _ _ _ E) as (_ & [|(b2 & Hb2 & Hbd)]); [done|]. pose proof Hbd as (_ & _ & Eb).
  assert (before `prefix_of` b2) as Hbb.
  { apply fewer_messages; [done..|]. rewrite <- Eb, length_app. lia. }
  destruct Hb2 as [todo Elog]. exists gone, p, b2, got, [], todo. split; [done|]. split; [done|]. split; [done|].
  split; [etrans; [exact Hs|destruct Hbb as [k ->]; by apply sublist_inserts_r]|]. pose proof Hf as (_ & [_ Hr] & _). simpl in Hr. split; [|split; [lia|]].
  - rewrite app_nil_r. assert (drop (Z.to_nat (get_uint16 p)) (piece_of p) ++ stream later ++ rest = frames todo) as ->.
    { rewrite E, Elog, stream_app, stream_cons, frames_app, <- Eb, <- !app_assoc in Hstream.
      apply app_inv_head in Hstream. rewrite <- (take_drop (Z.to_nat (get_uint16 p)) (piece_of p)) in Hstream at 1.
      rewrite <- app_assoc in Hstream. by apply app_inv_head in Hstream. }
    apply fresh_inv; [done|]. rewrite Elog in Hfits. by apply Forall_app in Hfits as [_ ?].
  - intros H. by destruct (He H).
Qed.

Lemma hears_gone early gone more s c : hears early gone true s c → hears early (gone ++ more) true s c.
Proof using.
  intros (old & p & before & got & dn & todo & Hp & H). exists old, p, before, got, dn, todo. split; [by apply prefix_app_r|done].
Qed.

Lemma hears_write early gone s now c : hears early gone true s (now ++ c) →
  wp (bp_decoder_write now) only_assert (λ _ s', hears early gone true s' c) s.
Proof using Hsink HasHeapLaws0.
  intros (old & p & before & got & dn & todo & Hp & Hb & El & Hg & Hi & Hr & He).
  eapply wp_mono; [by apply bp_decoder_write_ok|]. intros k s' (k' & d' & t' & -> & Hk & (l & -> & ->) & Hi' & Hor).
  destruct Hor as [(_ & _ & Hfull)|[-> Hr']]; [by apply Hsink in Hfull|]. rewrite drop_all in Hi'.
  exists old, p, before, got, (dn ++ l), t'. rewrite <- !app_assoc in *. by split_and!.
Qed.

Lemma hears_io early gone j s c x : hears early gone j s c → (∀ l, sink_view (d_io s.2) l → sink_view x l) →
  heap_of x = heap_of (d_io s.2) → sink_messages x = sink_messages (d_io s.2) →
  hears early gone j (s.1, s.2 <| d_io := x |>) c.
Proof using.
  intros H Hv Hh Hm.
  assert (∀ l, dec_good s.2 l → dec_good (s.2 <| d_io := x |>) l) as Hg.
  { intros l [H1 H2 H3 H4]. constructor; simpl; [auto|by rewrite Hh, Hm|done..]. }
  unfold hears in *. destruct j.
  - destruct H as (old & p & before & got & dn & todo & Hp & Hb & El & Hs & (Hg' & Hph & Hf) & Hr & He).
    exists old, p, before, got, dn, todo. split_and!; [done..| |done|done].
    split; [by apply Hg|]. split; [|done]. unfold dec_phase in *. simpl in *. by rewrite Hh.
  - destruct H as (got & before & (Hg' & Ha & Hn) & H). exists got, before. split; [|done]. by split; [apply Hg|].
Qed.

(** Data were lost: what the sink has is still right. *)
Definition kept (gone : list (list Z)) s : Prop := ∃ got before, dec_good s.2 got ∧ before `prefix_of` log ∧
  got `sublist_of` before ∧ (length (frames before) ≤ length (stream gone))%nat.

Lemma kept_more gone more s : kept gone s → kept (gone ++ more) s.
Proof using.
  intros (got & before & Hg & Hp & Hs & Hl). exists got, before. split_and!; [done..|]. rewrite stream_app, length_app. lia.
Qed.

Lemma coming_short s dn todo c : dec_inv s dn todo c → (length c ≤ length (frames todo))%nat.
Proof using.
  intros (_ & Hp & _). unfold dec_phase in Hp. destruct (dec_next s.1).
  - destruct Hp as (q & _ & _ & E). rewrite <- E, length_app. lia.
  - destruct Hp as (q & b & todo' & _ & _ & -> & Hb & E). rewrite frames_cons. unfold frame, size_field.
    destruct (Z.ltb_spec (Z.of_nat (length b)) 255); [lia|]. apply (f_equal length) in E. rewrite !length_app in *. rewrite length_cons. lia.
  - destruct Hp as (q & b & todo' & _ & _ & -> & E). rewrite frames_cons. unfold frame.
    apply (f_equal length) in E. rewrite !length_app in *. lia.
Qed.

Lemma hears_lost early gone j s later : hears early gone j s (stream later ++ rest) → sent = gone ++ later → kept gone s.
Proof using Hstream.
  intros H E. unfold hears in H. destruct j.
  - destruct H as (old & p & before & got & dn & todo & Hp & Hb & El & Hs & Hi & _). exists (got ++ dn), (before ++ dn).
    split; [apply Hi|]. split; [exists todo; by rewrite <- app_assoc|]. split; [by apply sublist_app|].
    apply coming_short in Hi. assert (stream gone ++ stream later ++ rest = frames (before ++ dn) ++ frames todo) as Es.
    { rewrite <- frames_app, <- app_assoc, <- El, <- Hstream, E, stream_app. by rewrite <- app_assoc. }
    apply (f_equal length) in Es. rewrite !length_app in *. lia.
  - destruct H as (got & before & (Hg & _) & Hp & Hs & Hl & _). by exists got, before.
Qed.

Lemma kept_reset gone early s c : kept gone s → lossy →
  wp bp_decoder_reset only_assert (λ _ s', hears early gone false s' c) s.
Proof using HasHeapLaws0.
  intros (got & before & Hg & Hp & Hs & Hl) Hlossy. unfold bp_decoder_reset. wp_steps.
  eapply wp_mono; [apply (dec_rebuild_ok s got 0 Hg); unfold sizeof_content; lia|]. intros _ s' (Hg' & Es & _).
  unfold dec_next_step. wp_steps. exists got, before. split; [by split; [|split]|]. split_and!; [done..|]. by intros [].
Qed.

Lemma kept_io gone s x : kept gone s → (∀ l, sink_view (d_io s.2) l → sink_view x l) →
  heap_of x = heap_of (d_io s.2) → sink_messages x = sink_messages (d_io s.2) → kept gone (s.1, s.2 <| d_io := x |>).
Proof using.
  intros (got & before & [H1 H2 H3 H4] & H) Hv Hh Hm. exists got, before. split; [|done].
  constructor; simpl; [auto|by rewrite Hh, Hm|done..].
Qed.
End hearing.

(** ** The engine *)

Section engine.
Context {X N Q : Type} `{!HasHeap X, !HasHeapLaws X, !MessageSink X, !SinkLaws X, !OpenPgm N, !PgmReceives N, !IPoller Q, !PollerWorks Q}.
Context (log sent early : list (list Z)) (rest : list Z).
Context (Hsent : announces sent log) (Hstream : stream sent ++ rest = frames log) (Hfits : Forall fits log).
Context (Hsink : ∀ x : X, ¬ sink_full x).
Context (this : engine_id) (sink_flush sink_gap : ST X unit).

(** An operation of the sink that leaves messages where they are. *)
Definition harmless (m : ST X unit) : Prop := ∀ x, wp m no_fault (λ _ x',
  (∀ l, sink_view x l → sink_view x' l) ∧ heap_of x' = heap_of x ∧ sink_messages x' = sink_messages x) x.
Context (Hflush : harmless sink_flush) (Hgap : harmless sink_gap).
Implicit Types (w : rworld X N Q).
#[local] Abbreviation hears := (hears log pgm_lossy).

Definition dec_state_of w : decoder_t dec_step dec_target * dec_env X :=
  (r_decoder (re w), DecEnv (r_dec_message (re w)) (r_dec_tmpbuf (re w)) (r_io w)).

Definition registered (r : bp_pgm_receiver_t) (q : Q) : Prop :=
  socket_handle r ∈ po_live q ∧ pipe_handle r ∈ po_live q ∧ socket_handle r ≠ pipe_handle r.

(** [pend]: packets that were received but not looked at; [now]: what the
    decoder is yet to get of the one before them. *)
Definition receiver_at w (gone pend : list (list Z)) (now : list Z) : Prop :=
  psock (r_socket (re w)) pend ∧ registered (re w) (r_poll w) ∧ sent = gone ++ pend ++ pgm_arrivals (r_net w) ∧
  hears early gone (joined (re w)) (dec_state_of w) (now ++ stream (pend ++ pgm_arrivals (r_net w)) ++ rest).

Definition receiver_turns w pend : nat := turns (r_socket (re w)) pend.
Definition receiver_room w : nat := S (Z.to_nat (pgm_msgv_len (r_socket (re w)))).

(** Data were lost: the decoder waits to be reset. *)
Definition receiver_lost w : Prop := pgm_lossy ∧ psock (r_socket (re w)) [] ∧ registered (re w) (r_poll w) ∧
  ∃ gone, sent = gone ++ pgm_arrivals (r_net w) ∧ kept log gone (dec_state_of w).

Lemma receive_with_offset_ok w gone pend : receiver_at w gone pend [] → (receiver_turns w pend ≤ receiver_room w)%nat →
  wp (receive_with_offset : ST (rworld X N Q) _) no_fault (λ r w', receiver_room w' = receiver_room w ∧
    ((r.1 = 0 ∧ ∃ gone' pend', receiver_at w' gone' pend' [] ∧ (receiver_turns w' pend' ≤ receiver_room w)%nat) ∨
     (r.1 = -1 ∧ receiver_lost w') ∨
     (0 < r.1 ∧ joined (re w') = true ∧ ∃ gone' pend', receiver_at w' gone' pend' (take (Z.to_nat r.1) r.2) ∧
       (receiver_turns w' pend' < receiver_turns w pend)%nat))) w.
Proof using Hsent Hstream Hfits.
  intros (Hp & Hreg & Es & Hh) Hturns. unfold receive_with_offset, re_get, re_modify, r_on_socket. wp_steps. apply wp_lift.
  assert (real (pend ++ pgm_arrivals (r_net w))) as Hreal.
  { pose proof (announces_real _ _ Hsent) as H. rewrite Es in H. by apply Forall_app in H as [_ ?]. }
  eapply wp_mono; [by apply pgm_receive_ok|]. intros [k d] [p' n'] (pend' & Hp' & El & Hor). simpl in *.
  destruct Hor as [(-> & Ea & Ht)|[(-> & Hlossy & -> & -> & [lost Ea])|(-> & Ea & Ht)]].
  - change (0 =? 0) with true. cbv iota. wp_steps. unfold receiver_room. simpl. rewrite El. split; [done|]. left. split; [done|].
    exists gone, pend'. split; [|done]. unfold receiver_at. simpl. rewrite Ea. by split_and!.
  - change (-1 =? 0) with false. change (-1 =? -1) with true. cbv iota. wp_steps. unfold receiver_room. simpl. rewrite El. split; [done|].
    right; left. split; [done|]. split; [done|]. split; [done|]. split; [done|]. exists (gone ++ lost). simpl in Ea. rewrite Es, Ea, <- app_assoc. split; [done|].
    apply kept_more. eapply (hears_lost log sent rest pgm_lossy); [done|exact Hh|done].
  - rewrite Ea in Hreal. inversion Hreal as [|? ? Hd _]; subst. simpl in Hd.
    destruct (Z.eqb_spec (Z.of_nat (length d)) 0); [lia|]. destruct (Z.eqb_spec (Z.of_nat (length d)) (-1)); [lia|].
    cbv iota. wp_steps. apply wp_guard; [lia|]. intros _. wp_steps. simpl.
    assert (sent = (gone ++ [d]) ++ pend' ++ pgm_arrivals n') as Es' by (rewrite <- app_assoc; simpl; by rewrite <- Ea, <- Es).
    destruct (Hsent gone d (pend' ++ pgm_arrivals n')) as (_ & Hq); [by rewrite <- Ea|].
    destruct (joined (re w)) eqn:Ej; simpl; rewrite ?andb_false_r, ?andb_true_r.
    + wp_steps. unfold receiver_room. simpl. rewrite El. split; [done|]. right; right. split; [lia|]. split; [done|].
      exists (gone ++ [d]), pend'. split; [|done]. split; [done|]. split; [done|]. split; [done|]. simpl.
      simpl in Hh. rewrite Ea, stream_cons, <- app_assoc in Hh. apply hears_gone.
      rewrite take_ge by (rewrite length_drop; lia). exact Hh.
    + destruct (Z.eqb_spec (get_uint16 d) 65535) as [Eq|Eq]; wp_steps; unfold receiver_room; simpl; rewrite El; (split; [done|]).
      * left. split; [done|]. exists (gone ++ [d]), pend'. split; [|unfold receiver_turns, receiver_room in *; simpl in *; lia].
        split; [done|]. split; [done|]. split; [done|]. by eapply hears_quiet.
      * destruct Hq as [|(before & _ & Ho & Hlen & _)]; [done|]. unfold piece_of in Hlen. rewrite length_drop in Hlen.
        assert (hears early (gone ++ [d]) true (dec_state_of w)
          (drop (Z.to_nat (get_uint16 d)) (piece_of d) ++ stream (pend' ++ pgm_arrivals n') ++ rest)) as Hh2.
        { eapply hears_begin; [done..|by rewrite <- Ea|done]. }
        destruct (decide (length d - 2 = Z.to_nat (get_uint16 d))%nat).
        -- left. split; [lia|]. exists (gone ++ [d]), pend'. split; [|unfold receiver_turns, receiver_room in *; simpl in *; lia].
           split; [done|]. split; [done|]. split; [done|]. simpl.
           rewrite drop_ge in Hh2 by (unfold piece_of; rewrite length_drop; lia). exact Hh2.
        -- right; right. split; [lia|]. split; [done|]. exists (gone ++ [d]), pend'. split; [|done].
           split; [done|]. split; [done|]. split; [done|]. simpl.
           rewrite take_ge by (rewrite !length_drop; lia). exact Hh2.
Qed.

(** The receiver between two events. *)
Definition receiver_inv w : Prop := ∃ gone pend, receiver_at w gone pend [] ∧ (receiver_turns w pend ≤ receiver_room w)%nat.

Lemma receive_loop_ok fuel : ∀ w gone pend, receiver_at w gone pend [] → (receiver_turns w pend ≤ receiver_room w)%nat →
  (receiver_turns w pend ≤ fuel)%nat →
  wp (receive_loop fuel : ST (rworld X N Q) _) only_assert (λ k w', (k = 0 ∧ receiver_inv w') ∨ (k = -1 ∧ receiver_lost w')) w.
Proof using HasHeapLaws0 Hsent Hstream Hfits Hsink.
  induction fuel as [|fuel IH]; intros w gone pend Hi Ht Hf.
  { unfold receiver_turns, turns in Hf. destruct (nbytes_rec _ =? 0); lia. }
  simpl receive_loop. wp_steps. apply (wp_fault no_fault); [by intros ? []|].
  eapply wp_mono; [by eapply receive_with_offset_ok|].
  intros [k d] w' (Er & [(Ek & gone' & pend' & Hi' & Ht')|[(Ek & Hl)|(Hk & Ej & gone' & pend' & Hi' & Ht')]]); simpl in *.
  - subst k. change (0 <? 0) with false. cbv iota. wp_steps. left. split; [done|]. exists gone', pend'. by rewrite Er.
  - subst k. change (0 <? -1) with false. cbv iota. wp_steps. by right.
  - destruct (Z.ltb_spec 0 k); [|lia]. cbv iota. wp_steps. unfold r_on_decoder. apply wp_lift.
    destruct Hi' as (Hp & Hreg & Es & Hh). rewrite Ej in Hh.
    eapply wp_mono; [by eapply hears_write|]. cbv beta. intros _ s' Hh'.
    eapply wp_mono; [apply (IH _ gone' pend'); [|unfold receiver_turns, receiver_room in *; simpl; lia|unfold receiver_turns in *; simpl; lia]|done].
    split; [done|]. split; [done|]. split; [done|]. simpl. rewrite Ej. by destruct s' as [? []].
Qed.

Lemma on_io_ok m w gone (j : bool) c : harmless m → hears early gone j (dec_state_of w) c →
  wp (r_on_io m : ST (rworld X N Q) unit) no_fault (λ _ w', re w' = re w ∧ r_net w' = r_net w ∧ r_poll w' = r_poll w ∧
    hears early gone j (dec_state_of w') c) w.
Proof using.
  intros Hm Hh. unfold r_on_io. apply wp_lift. eapply wp_mono; [apply Hm|]. cbv beta. intros _ x (Hv & E1 & E2).
  split_and!; [done..|]. exact (hears_io log pgm_lossy early gone j _ c x Hh Hv E1 E2).
Qed.

Lemma add_fds_ok w gone : psock (r_socket (re w)) [] → nbytes_rec (r_socket (re w)) = 0 → joined (re w) = false →
  sent = gone ++ pgm_arrivals (r_net w) → pgm_lossy → hears early gone false (dec_state_of w) [] →
  wp (add_fds this : ST (rworld X N Q) unit) no_fault (λ _ w', receiver_inv w') w.
Proof using All.
  intros Hp Hz Ej Es Hlossy Hh. unfold add_fds, re_modify, r_on_socket. wp_steps. apply wp_lift.
  unfold get_receiver_fds, get_fds, on_pgm. wp_steps. apply wp_lift.
  eapply wp_mono; [apply pgm_poll_info_law|]. cbv beta. intros l n' [Hl [lost Ea]]. simpl in Ea.
  destruct l as [|a [|b [|]]]; try done. wp_steps. unfold r_on_poll. apply wp_lift.
  eapply wp_mono; [apply po_add_fd_works|]. cbv beta. intros h q1 [Hh1 E1]. wp_steps. apply wp_lift.
  eapply wp_mono; [apply po_add_fd_works|]. cbv beta. intros h2 q2 [Hh2 E2]. simpl in *. wp_steps. apply wp_lift. simpl.
  eapply wp_mono; [apply po_set_pollin_works; set_solver|]. cbv beta. intros _ q3 E3. apply wp_lift. simpl in *.
  eapply wp_mono; [apply po_set_pollin_works; set_solver|]. cbv beta. intros _ q4 E4. simpl in *.
  exists (gone ++ lost), []. split.
  - split; [done|]. split; [|split; [simpl; by rewrite Es, Ea, <- app_assoc|]].
    + unfold registered. simpl. set_solver.
    + simpl. rewrite Ej. destruct Hh as (got & before & H1 & H2 & H3 & H4 & H5). exists got, before. split_and!; [done..| |by intros []].
      rewrite stream_app, length_app. lia.
  - unfold receiver_turns, receiver_room, turns. simpl. by rewrite Hz.
Qed.

Lemma reconnect_ok w gone : psock (r_socket (re w)) [] → registered (re w) (r_poll w) → joined (re w) = false →
  sent = gone ++ pgm_arrivals (r_net w) → pgm_lossy → hears early gone false (dec_state_of w) [] →
  wp (receiver_reconnect this : ST (rworld X N Q) unit) no_fault (λ _ w', receiver_inv w') w.
Proof using All.
  intros Hp (Hs & Hpi & Hne) Ej Es Hlossy Hh. unfold receiver_reconnect, re_get, r_on_poll, r_on_socket. wp_steps. apply wp_lift.
  eapply wp_mono; [by apply po_rm_fd_works|]. cbv beta. intros _ q1 E1. wp_steps. apply wp_lift. simpl.
  eapply wp_mono; [apply po_rm_fd_works; set_solver|]. cbv beta. intros _ q2 E2. wp_steps.
  apply wp_lift. simpl. eapply wp_mono; [by eapply reopen_ok|]. intros _ [p1 n1] Ho. wp_steps. apply wp_lift. simpl.
  eapply wp_mono; [exact Ho|]. intros _ [p2 n2] (Hp2 & Hz & _ & [lost Ea]). simpl in *. wp_steps.
  apply (add_fds_ok _ (gone ++ lost)); try done; simpl.
  - by rewrite Es, Ea, <- app_assoc.
  - destruct Hh as (got & before & H1 & H2 & H3 & H4 & H5). exists got, before. split_and!; [done..| |by intros []].
    rewrite stream_app, length_app. lia.
Qed.

Lemma receiver_in_event_ok w : receiver_inv w →
  wp (receiver_in_event this sink_flush sink_gap : ST (rworld X N Q) unit) only_assert (λ _ w', receiver_inv w') w.
Proof using All.
  intros (gone & pend & Hi & Ht). unfold receiver_in_event, re_get, re_modify, r_on_decoder. wp_steps.
  eapply wp_mono; [apply (receive_loop_ok _ w gone pend); [done|done|unfold receiver_room in Ht; lia]|]. cbv beta.
  intros k w1 [[-> (g1 & p1 & (Hp & Hreg & Es & Hh) & Ht1)]|(-> & Hlossy & Hp & Hreg & g1 & Es & Hk)]; wp_steps.
  - apply (wp_fault no_fault); [by intros ? []|]. eapply wp_mono; [by apply on_io_ok|]. cbv beta.
    intros _ w2 (Er & En & Eq & Hh2). apply wp_when_false; [done|]. exists g1, p1.
    split; [|unfold receiver_turns, receiver_room in *; by rewrite Er]. unfold receiver_at. by rewrite Er, En, Eq.
  - apply (wp_fault no_fault); [by intros ? []|]. apply wp_lift. eapply wp_mono; [apply Hflush|]. cbv beta. intros _ x (Hv & E1 & E2).
    apply wp_when_true; [done|]. wp_steps. apply wp_lift. simpl.
    eapply wp_mono; [apply (kept_reset log pgm_lossy g1 early _ []); [exact (kept_io log g1 _ x Hk Hv E1 E2)|exact Hlossy]|].
    cbv beta. intros _ s' Hh. wp_steps. apply (wp_fault no_fault); [by intros ? []|].
    eapply wp_mono; [apply (on_io_ok _ _ g1 false []); [done|]; by destruct s' as [? []]|]. cbv beta. simpl.
    intros _ w3 (Er & En & Eq & Hh3). wp_steps. apply (wp_fault no_fault); [by intros ? []|].
    apply (reconnect_ok _ g1); simpl; [by rewrite Er|by rewrite Er, Eq|done|by rewrite En|done|exact Hh3].
Qed.
End engine.
