(* ===== verification/PgmJoin.v ===== *)
(** A multicast receiver can join at any packet, and what it hears from then on
    is what the sender said. *)
From S2P Require Import Prelude Config Wire Message MessageBody Command Codec BpCodec BpEncoding BpDecoding TcpSocket BpTcpEngine PgmSocket BpPgm PgmSending PgmReceiving.
Local Open Scope Z_scope.

Section theorem.
Context {X N Q : Type} `{!HasHeap X, !HasHeapLaws X, !MessageSource X, !SourceLaws X, !OpenPgm N, !PgmSends N, !IPoller Q, !PollerWorks Q}.

(** The poller calls the sender so many times. *)
Fixpoint sender_events (k : nat) : ST (sworld X N Q) unit :=
  match k with O => mret tt | S k => sender_out_event ;; sender_events k end.

Lemma sender_events_ok k : ∀ w log, sender_inv w log →
  wp (sender_events k) source_fault (λ _ w', ∃ log', log `prefix_of` log' ∧ sender_inv w' log') w.
Proof using HasHeapLaws0.
  induction k as [|k IH]; intros w log Hi; simpl; [apply wp_ret; by exists log|].
  wp_steps. eapply wp_mono; [by apply sender_out_event_ok|]. cbv beta. intros _ w1 (l1 & H1 & Hi1).
  eapply wp_mono; [by apply IH|]. cbv beta. intros _ w2 (l2 & H2 & Hi2). exists l2. split; [by etrans|done].
Qed.

(** A sender that has not begun. *)
Record sender_new (w : sworld X N Q) : Prop := {
  sn_buffer : out_buffer (se w) = None;
  sn_live : s_handle (se w) ∈ po_live (s_poll w);
  sn_pos : s_write_pos (se w) = s_write_size (se w);
  sn_sent : pgm_sent (s_net w) = [];
  sn_encoder : s_encoder (se w) = Encoder [] 0 enc_message_ready true;
  sn_tmpbuf : length (s_enc_tmpbuf (se w)) = 9%nat;
  sn_source : source_held (s_io w) (s_enc_message (se w)) []
}.

Lemma sender_new_inv w : sender_new w → sender_inv w [].
Proof using.
  intros []. unfold sender_inv, has_buffer. rewrite sn_buffer0, sn_pos0, Z.eqb_refl, sn_sent0.
  split_and!; [done..|constructor|]. by constructor; simpl; rewrite ?sn_encoder0.
Qed.

(** What has been sent of the messages that were read. *)
Definition sent_of (w : sworld X N Q) (log : list (list Z)) (rest : list Z) : Prop :=
  (∃ log0, packets (pgm_sent (s_net w)) log0 ∧ log0 `prefix_of` log) ∧ stream (pgm_sent (s_net w)) ++ rest = frames log ∧
  source_held (s_io w) (s_enc_message (se w)) log.

Lemma packets_snoc_inv pkts p log : packets (pkts ++ [p]) log → ∃ log0, packets pkts log0 ∧ log0 `prefix_of` log.
Proof using.
  inversion 1 as [E|? ? ? H1 ? ? E|? ? ? ? H1 ? H2 ? ? ? E]; [by destruct pkts| |];
    apply app_inj_tail in E as [-> ->]; [by exists log|by eexists].
Qed.

Lemma sender_inv_sent w log : sender_inv w log → ∃ rest, sent_of w log rest.
Proof using.
  intros (_ & _ & H). destruct (s_write_pos (se w) =? s_write_size (se w)).
  - destruct H as [Hk He]. destruct (enc_inv_rest _ _ _ He) as [rest E]. exists rest. split; [by exists log|]. split; [done|apply He].
  - destruct H as (_ & _ & b & _ & Hk & He). destruct (enc_inv_rest _ _ _ He) as [rest E].
    rewrite stream_app, <- app_assoc in E. eexists. split; [by eapply packets_snoc_inv|]. split; [exact E|apply He].
Qed.
End theorem.

Section hearing.
Context {Y : Type} `{!HasHeap Y, !HasHeapLaws Y, !MessageSink Y, !SinkLaws Y}.

(** What a receiver has made of the packets [sent], of which it missed
    [early], and of which [arrivals] are still to come: its sink [y] has been
    [given] messages of the sender.  If nothing was lost since, those are all
    from the first announced one on: the packets that were passed over announce
    none. *)
Definition heard_of (lossy : Prop) (early sent log : list (list Z)) (rest : list Z) (joined : bool) (arrivals : list (list Z)) (y : Y) : Prop :=
  ∃ given, sink_view y given ∧ given `sublist_of` log ∧
    (¬ lossy → ∃ gone later, sent = early ++ gone ++ later ∧ arrivals `suffix_of` later ∧
      if joined then ∃ skipped p more before todo, gone = skipped ++ p :: more ∧ quiet skipped ∧
        boundary (early ++ skipped) p before ∧ log = before ++ given ++ todo ∧ (later = [] → rest = [] → todo = [])
      else quiet gone ∧ given = []).

Lemma hears_heard lossy log sent early rest gone pend arrivals j (s : decoder_t dec_step dec_target * dec_env Y) :
  hears log lossy early gone j s ([] ++ stream (pend ++ arrivals) ++ rest) → sent = gone ++ pend ++ arrivals →
  heard_of lossy early sent log rest j arrivals (d_io s.2).
Proof using.
  intros Hh Es. unfold hears, heard_of in *. destruct j.
  - destruct Hh as (old & p & before & got & dn & todo & [more Hp] & Hb & El & Hg & Hi & Hr & He).
    exists (got ++ dn). split; [apply Hi|]. split.
    { rewrite El. apply sublist_app; [done|]. apply sublist_inserts_r. done. }
    intros Hl. destruct (He Hl) as (-> & skipped & -> & Hq). simpl.
    exists (skipped ++ p :: more), (pend ++ arrivals).
    split; [rewrite Es, Hp; by rewrite <- !app_assoc|]. split; [by eexists|].
    exists skipped, p, more, before, todo. split_and!; [done..|]. intros E ->. simpl in Hi. rewrite E in Hi. by eapply dec_inv_end.
  - destruct Hh as (got & before & (Hg & _) & [l ->] & Hs & _ & He). exists got. split; [apply Hg|].
    split; [by apply sublist_inserts_r|]. intros Hl. destruct (He Hl) as (-> & skipped & -> & Hq).
    exists skipped, (pend ++ arrivals). split; [by rewrite Es, <- app_assoc|]. split; [by eexists|done].
Qed.
End hearing.

Section joining.
Context {Y M R : Type} `{!HasHeap Y, !HasHeapLaws Y, !MessageSink Y, !SinkLaws Y, !OpenPgm M, !PgmReceives M, !IPoller R, !PollerWorks R}.
Context (this : engine_id) (sink_flush sink_gap : ST Y unit).

(** The poller calls the receiver so many times. *)
Fixpoint receiver_events (k : nat) : ST (rworld Y M R) unit :=
  match k with O => mret tt | S k => receiver_in_event this sink_flush sink_gap ;; receiver_events k end.

(** A receiver that has not begun. *)
Record receiver_new (v : rworld Y M R) : Prop := {
  rn_joined : joined (re v) = false;
  rn_open : g_transport (r_socket (re v)) = true;
  rn_room : 0 < pgm_msgv_len (r_socket (re v));
  rn_counts : nbytes_rec (r_socket (re v)) = 0 ∧ nbytes_processed (r_socket (re v)) = 0 ∧ pgm_msgv_processed (r_socket (re v)) = 0%nat;
  rn_tsi : tsi (r_socket (re v)) = zero_tsi;
  rn_live : registered (re v) (r_poll v);
  rn_decoder : r_decoder (re v) = Decoder (Some (to_tmpbuf, 0%nat)) 1 one_byte_size_ready;
  rn_tmpbuf : length (r_dec_tmpbuf (re v)) = 8%nat;
  rn_message : length (vsm_data (r_dec_message (re v))) = Z.to_nat max_vsm_size;
  rn_heap : heap_ok (heap_of (r_io v)) (r_dec_message (re v) :: sink_messages (r_io v));
  rn_view : sink_view (r_io v) []
}.

Definition heard (early sent log : list (list Z)) (rest : list Z) (v : rworld Y M R) : Prop :=
  heard_of pgm_lossy early sent log rest (joined (re v)) (pgm_arrivals (r_net v)) (r_io v).

Lemma receiver_new_inv log sent early rest v : receiver_new v → sent = early ++ pgm_arrivals (r_net v) →
  receiver_inv log sent early rest v.
Proof using.
  intros [] E. exists early, []. split.
  - split; [constructor; [done|done|left; by rewrite rn_tsi0|left; tauto]|]. split; [done|]. split; [done|]. unfold hears. rewrite rn_joined0.
    exists [], []. split; [|split_and!; [apply prefix_nil|done|simpl; lia|intros _; split; [done|exists []; by rewrite app_nil_r]]].
    unfold untouched, at_field. simpl. rewrite rn_decoder0. split_and!; [|done..]. by constructor.
  - unfold receiver_turns, turns, receiver_room. destruct rn_counts0 as (-> & _ & _). done.
Qed.

Lemma receiver_inv_heard log sent early rest v : receiver_inv log sent early rest v → heard early sent log rest v.
Proof using. intros (gone & pend & (_ & _ & Es & Hh) & _). exact (hears_heard _ _ _ _ _ gone pend _ _ (dec_state_of v) Hh Es). Qed.

Lemma receiver_events_ok log sent early rest : announces sent log → stream sent ++ rest = frames log → Forall fits log →
  (∀ y : Y, ¬ sink_full y) → harmless sink_flush → harmless sink_gap → ∀ k v, receiver_inv log sent early rest v →
  wp (receiver_events k) only_assert (λ _ v', receiver_inv log sent early rest v') v.
Proof using HasHeapLaws0.
  intros H1 H2 H3 H4 H5 H6. induction k as [|k IH]; intros v Hi; simpl; [done|]. wp_steps.
  eapply wp_mono; [by apply receiver_in_event_ok|]. cbv beta. intros _ v' Hi'. by apply IH.
Qed.
End joining.

