(* ===== verification/PgmRuns.v ===== *)
(** A group of a sender and receivers, and runs of them. *)
From S2P Require Import Prelude Config Wire Atomics Message MessageBody Command Codec BpCodec BpEncoding BpDecoding CodecRuns TcpSocket BpTcpEngine PgmSocket BpPgm PgmSending PgmReceiving PgmJoin.
Local Open Scope Z_scope.

(** ** A source with a list of messages *)

Record script := Script { sc_heap : mheap; said : list (list Z); unsaid : list (list Z) }.

#[local] Instance script_has_heap : HasHeap script := {
  heap_of := sc_heap; set_heap h x := Script h (said x) (unsaid x)
}.
#[local] Instance script_has_heap_laws : HasHeapLaws script.
Proof. split; intros; simpl; by try destruct x. Qed.

#[local] Instance script_source : MessageSource script := {
  source_read m x := Ok (match unsaid x with
    | [] => ((false, m), x)
    | b :: q => ((true, RawMessage (Tag vsm_tag) false (Z.of_nat (length b)) b), Script (sc_heap x) (said x ++ [b]) q)
    end)
}.
#[local] Instance script_laws : SourceLaws script.
Proof.
  refine {| source_held x _ log := log = said x; source_spent x := unsaid x = []; source_fault := no_fault |}.
  intros [h d [|b q]] m log ->; unfold wp; simpl; [done|]. exists b. split; [done|]. apply short_body.
Defined.

(** ** A sink that takes everything *)

Record listener := Listener { li_heap : mheap; bodies : list (option (list Z)) }.

#[local] Instance listener_has_heap : HasHeap listener := {
  heap_of := li_heap; set_heap h x := Listener h (bodies x)
}.
#[local] Instance listener_has_heap_laws : HasHeapLaws listener.
Proof. split; intros; simpl; by try destruct x. Qed.

(** It notes the body and destroys the message. *)
Definition note (m : raw_message) : ST listener (bool * raw_message) := λ x,
  match raw_message_destroy m (li_heap x) with
  | Ok (_, h) => Ok ((true, m <| content := Tag vsm_tag |> <| vsm_size := 0 |>),
      Listener h (bodies x ++ [raw_message_bytes (li_heap x) m]))
  | Crash f => Crash f
  end.
#[local] Instance listener_sink : MessageSink listener := { sink_write := note }.

#[local] Instance listener_laws : SinkLaws listener.
Proof.
  refine {| sink_view x log := bodies x = Some <$> log; sink_messages _ := []; sink_full _ := False |}; [done|by intros h x log E _|].
  intros x m log b Hv Hh [Hb _] _. simpl in *. unfold wp, note.
  destruct (destroy_ok _ _ _ Hh) as (h & Hr & Hh' & _). unfold runs in Hr. rewrite Hr. simpl. rewrite Hv, Hb.
  split; [by rewrite fmap_app|]. split; [|done]. by apply heap_ok_plain_cons.
Defined.

(** One that refuses some messages: as [refusals] says. *)
Record moody := Moody { inner : listener; refusals : list bool }.
#[local] Instance moody_has_heap : HasHeap moody := {
  heap_of x := li_heap (inner x); set_heap h x := Moody (set_heap h (inner x)) (refusals x)
}.
#[local] Instance moody_sink : MessageSink moody := {
  sink_write m x := match refusals x with
    | true :: l => Ok ((false, m), Moody (inner x) l)
    | _ => st_lift inner (λ y x, Moody y (tail (refusals x))) (note m) x
    end
}.

(** ** A network and a poller *)

(** Packets of eight bytes; what was sent, and what is to come. *)
Record net8 := Net8 { net_sent : list (list Z); net_coming : list (list Z) }.
#[local] Instance net8_pgm : OpenPgm net8 := {
  pgm_create _ _ _ := mret true;
  pgm_set _ := mret true;
  pgm_bind := mret true;
  pgm_destroy := mret tt;
  pgm_poll_info _ := mret [3; 4];
  pgm_max_tsdu := mret 8;
  pgm_recvmsgv k := λ n, Ok (match take k (net_coming n) with
    | [] => (inr EAGAIN, n)
    | ps => (inl ((λ p, Msgv [p] (Tsi [1; 2; 3; 4; 5; 6] 7)) <$> ps), Net8 (net_sent n) (drop k (net_coming n)))
    end);
  pgm_send_packet d := λ n, Ok (inl (Z.of_nat (length d)), Net8 (net_sent n ++ [d]) (net_coming n));
  pgm_packetv_alloc := mret (replicate 8 0);
  pgm_packetv_free _ := mret tt
}.

#[local] Instance net8_sends : PgmSends net8.
Proof. by refine {| pgm_sent := net_sent; tsdu := 8 |}. Defined.

#[local] Instance net8_receives : PgmReceives net8.
Proof.
  refine {| pgm_arrivals := net_coming; pgm_peer := Tsi [1; 2; 3; 4; 5; 6] 7; pgm_lossy := False |}; try done.
  - intros k n. unfold wp. simpl. destruct (take k (net_coming n)) as [|p ps] eqn:E; [done|]. exists (p :: ps).
    split; [done|]. split; [done|]. rewrite <- E. split; [rewrite length_take; lia|]. simpl. by rewrite take_drop.
  - intros n. by exists [].
Defined.

(** A network that loses packets: where [None] stands, the next packet is lost,
    and the connection is reported as reset. *)
Record lossy8 := Lossy8 { to_come : list (option (list Z)) }.
Definition packets_to_come (n : lossy8) : list (list Z) := omap id (to_come n).

(** The packets before the first loss, [k] at most, and what is left. *)
Fixpoint ready (k : nat) (l : list (option (list Z))) : list (list Z) * list (option (list Z)) :=
  match k, l with
  | S k, Some p :: l => let '(ps, l) := ready k l in (p :: ps, l)
  | _, _ => ([], l)
  end.

Lemma ready_arrivals k : ∀ l, omap id l = (ready k l).1 ++ omap id (ready k l).2 ∧ (length (ready k l).1 ≤ k)%nat.
Proof.
  induction k as [|k IH]; intros l; [by split; simpl; [|lia]|]. destruct l as [|[p|] l]; [by split; simpl; [|lia]| |by split; simpl; [|lia]].
  destruct (IH l) as [E Hk]. simpl. destruct (ready k l) as [ps l']. simpl in *. split; [by f_equal|lia].
Qed.

#[local] Instance lossy8_pgm : OpenPgm lossy8 := {
  pgm_create _ _ _ := mret true;
  pgm_set _ := mret true;
  pgm_bind := mret true;
  pgm_destroy := mret tt;
  pgm_poll_info _ := mret [3; 4];
  pgm_max_tsdu := mret 8;
  pgm_recvmsgv k := λ n, Ok (match to_come n with
    | [] => (inr EAGAIN, n)
    | None :: l => (inr ECONNRESET, Lossy8 (tail l))
    | l => match ready k l with
           | ([], _) => (inr EAGAIN, n)
           | (ps, l) => (inl ((λ p, Msgv [p] (Tsi [1; 2; 3; 4; 5; 6] 7)) <$> ps), Lossy8 l)
           end
    end);
  pgm_send_packet d := mret (inl (Z.of_nat (length d)));
  pgm_packetv_alloc := mret (replicate 8 0);
  pgm_packetv_free _ := mret tt
}.

#[local] Instance lossy8_receives : PgmReceives lossy8.
Proof.
  refine {| pgm_arrivals := packets_to_come; pgm_peer := Tsi [1; 2; 3; 4; 5; 6] 7; pgm_lossy := True |}; try done; [|intros n; by exists []].
  intros k [l]. unfold wp, packets_to_come. simpl. destruct l as [|[p|] l].
  - done.
  - destruct (ready_arrivals k (Some p :: l)) as [E Hk]. destruct (ready k (Some p :: l)) as [[|q ps] l']; [done|].
    exists (q :: ps). by rewrite E.
  - split; [done|]. destruct l as [|[p|] l]; [by exists []|by exists [p]|by exists []].
Defined.

#[local] Instance handles_poller : IPoller (gset handle_t) := {
  po_add_fd _ _ := λ q, Ok (fresh q, {[fresh q]} ∪ q);
  po_rm_fd h := st_modify (λ q, q ∖ {[h]});
  po_set_pollin _ := mret tt;
  po_reset_pollin _ := mret tt;
  po_set_pollout _ := mret tt;
  po_reset_pollout _ := mret tt;
  po_add_timer _ := mret tt
}.
#[local] Instance handles_work : PollerWorks (gset handle_t).
Proof. refine {| po_live q := q |}; try done. intros f e q. unfold wp. simpl. split; [apply is_fresh|done]. Defined.

(** ** Runs *)

Definition idle_socket (receiver_ : bool) : pgm_socket_t := PgmSocket true receiver_ [] 0 false [] 2 0 0 0 zero_tsi zero_tsi.
Definition empty_heap : mheap := MHeap ∅ 1000 [].

(** A sender that has three messages. *)
Definition three : list (list Z) := [[1; 2; 3]; [4; 5; 6; 7]; [8; 9; 10; 11; 12; 13]].
Definition six : list (list Z) := three ++ [[14]; [15; 16]; [17; 18; 19; 20; 21; 22; 23]].
Definition speaker (l : list (list Z)) : sworld script net8 (gset handle_t) :=
  SWorld (PgmSender [] false (Encoder [] 0 enc_message_ready true) no_message (replicate 9 0) (idle_socket false) 1 None 0 0 0 (-1))
    (Script empty_heap [] l) (Net8 [] []) {[1]}.

(** A receiver to which something is to come. *)
Definition receiver_at {Y M} (y : Y) (n : M) : rworld Y M (gset handle_t) :=
  RWorld (PgmReceiver false false (Decoder (Some (to_tmpbuf, 0%nat)) 1 one_byte_size_ready) no_message (replicate 8 0)
    (idle_socket true) 1 2) y n {[1; 2]}.
Definition hearer {Y} (y : Y) (l : list (list Z)) : rworld Y net8 (gset handle_t) := receiver_at y (Net8 [] l).

Definition packet1 : list Z := [0; 0; 3; 1; 2; 3; 4; 4].
Definition packet2 : list Z := [0; 3; 5; 6; 7; 6; 8; 9].
Definition packet3 : list Z := [255; 255; 10; 11; 12; 13].

(** What follows, if the sender goes on to say three more. *)
Definition packet3' : list Z := [0; 4; 10; 11; 12; 13; 1; 14].
Definition packet4 : list Z := [0; 0; 2; 15; 16; 7; 17; 18].
Definition packet5 : list Z := [255; 255; 19; 20; 21; 22; 23].

Lemma speaker_new l : sender_new (speaker l).
Proof. by constructor. Qed.

Lemma receiver_at_new {M} `{!OpenPgm M, !PgmReceives M} (n : M) : receiver_new (receiver_at (Listener empty_heap []) n).
Proof. constructor; try done. apply empty_inbox_ok. Qed.

Lemma speaker_runs : ∃ w, runs (sender_events 4) (speaker three) tt w ∧ net_sent (s_net w) = [packet1; packet2; packet3] ∧
  said (s_io w) = three.
Proof. eexists. split; [vm_compute; reflexivity|split; reflexivity]. Qed.

Lemma speaker_of_six_runs : ∃ w, runs (sender_events 9) (speaker six) tt w ∧
  net_sent (s_net w) = [packet1; packet2; packet3'; packet4; packet5] ∧ said (s_io w) = six.
Proof. eexists. split; [vm_compute; reflexivity|split; reflexivity]. Qed.

Lemma three_fit : Forall fits three.
Proof. repeat constructor; unfold fits, sizeof_content; simpl; lia. Qed.

Lemma six_fit : Forall fits six.
Proof. repeat constructor; unfold fits, sizeof_content; simpl; lia. Qed.

(** The second packet is lost: the receiver begins anew with the third one. *)
Definition with_a_loss : lossy8 :=
  Lossy8 [Some packet1; None; Some packet2; Some packet3'; Some packet4; Some packet5].

Lemma lossy_receiver_runs : ∃ v,
  runs (receiver_events 1%positive (mret tt) (mret tt) 6) (receiver_at (Listener empty_heap []) with_a_loss) tt v ∧
  bodies (r_io v) = Some <$> [[1; 2; 3]; [14]; [15; 16]; [17; 18; 19; 20; 21; 22; 23]].
Proof. eexists. split; [vm_compute; reflexivity|reflexivity]. Qed.


Lemma late_receiver_hears : ∃ v, runs (receiver_events 1%positive (mret tt) (mret tt) 2)
    (hearer (Listener empty_heap []) [packet2; packet3]) tt v ∧ bodies (r_io v) = [Some [8; 9; 10; 11; 12; 13]].
Proof. eexists. split; [vm_compute; reflexivity|reflexivity]. Qed.

(** ** Where the code falls short *)

Definition events1 {Y} `{!HasHeap Y, !MessageSink Y} : ST (rworld Y net8 (gset handle_t)) unit :=
  receiver_in_event 1%positive (mret tt) (mret tt).

(** The sink refuses the first message once.  What follows it in its packet is
    lost, here message [[9]], and the next packet is parsed as if it went on
    from there. *)
Lemma refused_message_loses_others : ∃ v,
  runs events1 (hearer (Moody (Listener empty_heap []) [true]) [[0; 0; 3; 1; 2; 3; 1; 9]; [0; 0; 2; 7; 7]]) tt v ∧
  bodies (inner (r_io v)) = [Some [1; 2; 3]; Some [7; 7]].
Proof. eexists. split; [vm_compute; reflexivity|reflexivity]. Qed.

(** A message that goes on in the next packet is then mixed up. *)
Lemma refused_message_breaks_framing : ∃ v,
  runs events1 (hearer (Moody (Listener empty_heap []) [true]) [[0; 0; 1; 5; 4; 1; 1; 8]; [255; 255; 2; 1; 9]]) tt v ∧
  bodies (inner (r_io v)) = [Some [5]; Some [1; 9]].
Proof. eexists. split; [vm_compute; reflexivity|reflexivity]. Qed.

(** A packet that is passed over ends the event, though another one was
    received with it: that one waits for the next event. *)
Lemma skipped_packet_ends_the_event : ∃ v,
  runs events1 (hearer (Listener empty_heap []) [packet3; packet1]) tt v ∧ bodies (r_io v) = [] ∧ net_coming (r_net v) = [].
Proof. eexists. split; [vm_compute; reflexivity|split; reflexivity]. Qed.

(** The sender's arguments must fit 256 bytes, which nothing checks. *)
Lemma long_interface_overruns (n : net8) (g : cstring) : (246 ≤ length g)%nat →
  sender_arguments (semicolon :: g) n = Crash BadAccess.
Proof.
  intros Hg. unfold sender_arguments. change (split_at semicolon (semicolon :: g)) with (Some ([] : cstring, g)).
  change (strip_udp (semicolon :: g)).1 with false. unfold mbind, st_bind, st_of_option. simpl.
  match goal with |- context [guard ?P] => destruct (decide P) as [H|H]; [simpl in H; lia|] end.
  by rewrite option_guard_False.
Qed.

Lemma keeps_pgm_assert {N} (m : ST N bool) : keeps fst (pgm_assert m).
Proof. unfold pgm_assert, on_pgm. apply keeps_bind; [by apply keeps_lift|intros b; apply keeps_assert]. Qed.

(** The sender that was heard before a change of senders is remembered in
    [retired_tsi], to pass over its packets; but the reconnect that follows the
    change forgets it, so that two senders of a group make a receiver begin
    anew for ever. *)
Lemma open_transport_forgets {N} `{!OpenPgm N} (p : pgm_socket_t) (n : N) s : runs open_transport (p, n) tt s →
  retired_tsi s.1 = zero_tsi ∧ tsi s.1 = zero_tsi.
Proof.
  unfold open_transport, ps_get, ps_modify. intros Hr. st_inv.
  repeat match goal with
  | H : runs (pgm_assert _) _ _ _ |- _ => apply keeps_pgm_assert in H
  | H : runs (st_for _ _) _ _ _ |- _ => apply (keeps_for fst) in H; [|intros; apply keeps_pgm_assert]
  end.
  simpl in *. by rewrite Hr, Hr5, Hr3.
Qed.
