(* ===== verification/WinPgm.v ===== *)
(** Multicast over the PGM sockets of Windows ([src/libzmq/pgm_socket.cpp],
    [bp_pgm_sender.cpp], [bp_pgm_receiver.cpp], the variants for Windows): a
    sender is one socket that is connected to a group; a receiver listens, and
    accepts one session of a sender at a time. *)
From S2P Require Import Prelude Config Wire Channel Message MessageBody Command Swap Pipe Store Mux Demux Engine Codec BpCodec TcpSocket Listening WinSockets BpTcpEngine PgmSocket BpPgm.
From S2P Require Import BpEncoding BpDecoding PgmSending PgmReceiving PgmJoin PgmRuns CodecRuns.
Local Open Scope Z_scope.

(** ** The system *)

Inductive rm_option :=
  | rm_high_speed_intranet
  | rm_set_send_if (addr : in_addr)
  | rm_rate_window_size (rate_kbits_per_sec window_size_in_msecs window_size_in_bytes : Z).

(** A protocol is an address family, a number and a type of sockets. *)
Definition pgm_protocol : Z * Z * Z := (af_inet, 113, 4).

Class WinPgmCalls (N : Type) := {
  (** The size that [WSCEnumProtocols] asks for, if it fails for want of a
      buffer; [malloc]; the protocols. *)
  win_enum_size : ST N (option Z);
  win_malloc : Z → ST N bool;
  win_enum_protocols : Z → ST N (option (list (Z * Z * Z)));
  win_rdm_socket : ST N (option fd_t);
  win_inet_addr : cstring → ST N in_addr;
  win_rm_setsockopt : fd_t → rm_option → ST N bool;
  win_shutdown : fd_t → ST N bool
}.

(** ** pgm_socket_t *)

Section socket.
Context {N : Type} `{!WinSockets N, !WinPgmCalls N}.

(** Members that no constructor sets are [None]. *)
Record win_pgm_t := WinPgm {
  wg_receiver : bool;
  wg_network : cstring;
  wg_multicast : cstring;
  wg_port_number : Z;
  created_receiver_socket : bool;
  sender_socket : option fd_t;
  receiver_socket : option fd_t;
  receiver_listener_socket : option fd_t;
  wg_nbytes_rec : Z;
  pgm_msgv_recv : list Z
}.
#[export] Instance eta_win_pgm : Eta win_pgm_t := λ p,
  WinPgm (wg_receiver p) (wg_network p) (wg_multicast p) (wg_port_number p) (created_receiver_socket p) (sender_socket p)
    (receiver_socket p) (receiver_listener_socket p) (wg_nbytes_rec p) (pgm_msgv_recv p).

Abbreviation wgworld := (win_pgm_t * N)%type.
Definition on_win {A} : ST N A → ST wgworld A := st_lift snd (λ n w, (w.1, n)).
Definition wg_get : ST wgworld win_pgm_t := w ← st_get; mret w.1.
Definition wg_set (f : win_pgm_t → win_pgm_t) : ST wgworld unit := st_modify (λ w, (f w.1, w.2)).

Definition has_pgm_support : ST N unit :=
  r ← win_enum_size;
  size ← st_of_option AssertFailed r;
  buf ← win_malloc size;
  st_assert buf ;;
  r ← win_enum_protocols size;
  protocols ← st_of_option AssertFailed r;
  st_assert (bool_decide (pgm_protocol ∈ protocols)).

Definition open_receiver (p : win_pgm_t) : ST N fd_t :=
  s ← win_rdm_socket;
  s ← valid_socket s;
  addr ← win_inet_addr (wg_multicast p);
  rc ← win_bind s (SockAddr addr (wg_port_number p));
  wsa_assert rc ;;
  rc ← win_listen s 10;
  wsa_assert rc ;;
  rc ← win_ioctl_nonblocking s;
  wsa_assert rc ;;
  mret s.

Definition send_window : rm_option :=
  let rate := u32 (pgm_max_rte `quot` 1024 * 8) in
  let msecs := u32 (pgm_secs * 1000) in
  rm_rate_window_size rate msecs (u32 (rate * msecs) `div` 8).

Definition open_sender (p : win_pgm_t) : ST N fd_t :=
  s ← win_rdm_socket;
  s ← valid_socket s;
  rc ← win_bind s (SockAddr inaddr_any 0);
  wsa_assert rc ;;
  win_rm_setsockopt s rm_high_speed_intranet ;;
  rc ← win_ioctl_nonblocking s;
  wsa_assert rc ;;
  send_iface ← win_inet_addr (wg_network p);
  rc ← win_rm_setsockopt s (rm_set_send_if send_iface);
  wsa_assert rc ;;
  st_assert (1000 <=? pgm_max_rte) ;;
  st_assert (negb (pgm_secs =? 0)) ;;
  addr ← win_inet_addr (wg_multicast p);
  rc ← win_rm_setsockopt s send_window;
  wsa_assert rc ;;
  rc ← win_connect s (SockAddr addr (wg_port_number p));
  wsa_assert rc ;;
  mret s.

Definition win_open_transport : ST wgworld unit :=
  on_win has_pgm_support ;;
  p ← wg_get;
  if wg_receiver p then s ← on_win (open_receiver p); wg_set (λ p, p <| receiver_listener_socket := Some s |>)
  else s ← on_win (open_sender p); wg_set (λ p, p <| sender_socket := Some s |>).

(** [strchr]: from the first [c] on. *)
Definition from_char (c : Z) (l : cstring) : option cstring := '(_, t) ← split_at c l; Some (c :: t).

(** [iface;group:port]; both names go to arrays of 256 characters. *)
Definition win_pgm_socket_new (receiver_ : bool) (interface_ : cstring) (msgv : list Z) : ST N win_pgm_t :=
  st_assert (negb (strip_udp interface_).1) ;;
  port_delim ← st_of_option AssertFailed (from_char colon interface_);
  let before_port := Z.of_nat (length interface_) - Z.of_nat (length port_delim) in
  st_assert (0 <? before_port) ;;
  st_assert (before_port <? 255) ;;
  network_delim ← st_of_option AssertFailed (from_char semicolon interface_);
  let net := take (length interface_ - length network_delim) interface_ in
  st_of_option BadAccess (guard (length net < 256)%nat) ;;
  let count := Z.of_nat (length interface_) - Z.of_nat (length net) - Z.of_nat (length port_delim) - 1 in
  st_of_option BadAccess (guard (0 ≤ count < 256)) ;;
  st_lift (λ n, (WinPgm receiver_ net (take (Z.to_nat count) (tail network_delim)) (u16 (atoi (tail port_delim))) false
      None None None 0 msgv, n)) (λ w _, w.2)
    (win_open_transport ;; wg_get).

(** The assertion is on the result 0 of a success; [rc] tells of success. *)
Definition win_close_transport : ST wgworld unit :=
  p ← wg_get;
  sender ← st_of_option BadAccess (sender_socket p);
  rc ← on_win (win_shutdown sender);
  on_win (wsa_assert (negb rc)) ;;
  st_when (negb (sender =? retired_fd)) (on_win (win_closesocket sender) ;; mret tt) ;;
  receiver ← st_of_option BadAccess (receiver_socket p);
  st_when (negb (receiver =? retired_fd)) (on_win (win_closesocket receiver) ;; mret tt).

Definition win_pgm_socket_delete : ST wgworld unit := win_close_transport.

Definition get_receiver_fd : ST wgworld fd_t := p ← wg_get; st_of_option BadAccess (receiver_socket p).
Definition get_receiver_listener_fd : ST wgworld fd_t := p ← wg_get; st_of_option BadAccess (receiver_listener_socket p).
Definition set_receiver_fd (recv_fd_ : fd_t) : ST wgworld unit := wg_set (λ p, p <| receiver_socket := Some recv_fd_ |>).
Definition get_sender_fd : ST wgworld fd_t := p ← wg_get; st_of_option BadAccess (sender_socket p).

Definition send_data (data_ : list Z) : ST wgworld Z :=
  s ← get_sender_fd;
  r ← on_win (win_send s data_);
  nbytes ← match r with
  | Some n => mret n
  | None => e ← on_win win_last_error; mret (if bool_decide (e = WSAEWOULDBLOCK) then 0 else -1)
  end;
  on_win (wsa_assert (negb (nbytes =? -1))) ;;
  st_when (0 <? nbytes) (st_assert (nbytes =? Z.of_nat (length data_))) ;;
  mret nbytes.

(** The number of bytes; they are in the buffer, before what is left there of
    earlier ones. *)
Definition win_pgm_receive : ST wgworld Z :=
  s ← get_receiver_fd;
  r ← on_win (win_recv s (Z.to_nat pgm_max_tpdu));
  match r with
  | Some bs =>
      wg_set (λ p, p <| wg_nbytes_rec := Z.of_nat (length bs) |> <| pgm_msgv_recv := bs ++ drop (length bs) (pgm_msgv_recv p) |>) ;;
      mret (Z.of_nat (length bs))
  | None =>
      wg_set (λ p, p <| wg_nbytes_rec := -1 |>) ;;
      e ← on_win win_last_error;
      if bool_decide (e = WSAEWOULDBLOCK) then mret 0
      else wg_set (λ p, p <| wg_nbytes_rec := 0 |>) ;; mret (-1)
  end.
End socket.

(** ** bp_pgm_sender_t *)

Definition pgm_win_max_apdu : Z := 1400.

Section sender.
Context {X N Q : Type} `{!HasHeap X, !MessageSource X, !WinSockets N, !WinPgmCalls N, !IPoller Q}.

(** [poller] is null until the engine is registered. *)
Record win_sender_t := WinSender {
  ws_arguments : cstring;
  ws_shutting_down : bool;
  ws_encoder : encoder_t enc_step;
  ws_enc_message : raw_message;
  ws_enc_tmpbuf : list Z;
  ws_socket : win_pgm_t;
  ws_handle : handle_t;
  ws_poller : bool;
  ws_out_buffer : list Z;
  ws_write_size : Z;
  ws_write_pos : Z;
  ws_first_message_offset : Z
}.
#[export] Instance eta_win_sender : Eta win_sender_t := λ s,
  WinSender (ws_arguments s) (ws_shutting_down s) (ws_encoder s) (ws_enc_message s) (ws_enc_tmpbuf s) (ws_socket s) (ws_handle s)
    (ws_poller s) (ws_out_buffer s) (ws_write_size s) (ws_write_pos s) (ws_first_message_offset s).

Record wsworld := WSWorld { wse : win_sender_t; ws_io : X; ws_net : N; ws_poll : Q }.
#[export] Instance eta_wsworld : Eta wsworld := λ w, WSWorld (wse w) (ws_io w) (ws_net w) (ws_poll w).

Definition ws_modify (f : win_sender_t → win_sender_t) : ST wsworld unit := st_modify (λ w, w <| wse := f (wse w) |>).
Definition ws_get : ST wsworld win_sender_t := w ← st_get; mret (wse w).
Definition ws_on_poll {A} : ST Q A → ST wsworld A := st_lift ws_poll (λ q w, w <| ws_poll := q |>).
Definition ws_on_io {A} : ST X A → ST wsworld A := st_lift ws_io (λ x w, w <| ws_io := x |>).
Definition ws_on_socket {A} : ST (win_pgm_t * N) A → ST wsworld A :=
  st_lift (λ w, (ws_socket (wse w), ws_net w)) (λ p w, w <| wse := wse w <| ws_socket := p.1 |> |> <| ws_net := p.2 |>).
Definition ws_on_encoder {A} : ST (encoder_t enc_step * enc_env X) A → ST wsworld A :=
  st_lift (λ w, (ws_encoder (wse w), EncEnv (ws_enc_message (wse w)) (ws_enc_tmpbuf (wse w)) (ws_io w)))
    (λ s w, w <| wse := wse w <| ws_encoder := s.1 |> <| ws_enc_message := e_message s.2 |> <| ws_enc_tmpbuf := e_tmpbuf s.2 |> |>
              <| ws_io := e_io s.2 |>).

Context (this : engine_id).

(** [char arguments [256]], filled by [sprintf]; without a group the whole
    interface. *)
Definition win_sender_arguments (interface_ : cstring) : ST N cstring :=
  st_assert (bool_decide (is_Some (split_at colon interface_))) ;;
  let text := pgm_scheme ++ match split_at semicolon interface_ with Some (_, group) => group | None => interface_ end in
  st_of_option BadAccess (guard (length text < 256)%nat) ;;
  mret text.

(** The members; [buffer] and [msgv] are what is in the arrays before. *)
Definition win_sender_fields (interface_ : cstring) (buffer msgv : list Z) : ST N win_sender_t :=
  sock ← win_pgm_socket_new false interface_ msgv;
  st_assert (negb (strip_udp interface_).1) ;;
  arguments ← win_sender_arguments interface_;
  mret (WinSender arguments false (Encoder [] 0 enc_message_ready true) no_message (replicate 9 0) sock 0 false buffer 0 0 (-1)).

(** The destructor of the member [pgm_socket]. *)
Definition win_sender_delete : ST wsworld unit := ws_on_socket win_pgm_socket_delete.

Definition win_sender_register_event : ST wsworld unit :=
  ws_modify (λ s, s <| ws_poller := true |>) ;;
  downlink_socket_fd ← ws_on_socket get_sender_fd;
  h ← ws_on_poll (po_add_fd downlink_socket_fd this);
  ws_modify (λ s, s <| ws_handle := h |>) ;;
  ws_on_poll (po_set_pollout h).

Definition win_sender_in_event : ST wsworld unit := mret tt.

Definition win_fill_buffer : ST wsworld unit :=
  '(data, offset) ← ws_on_encoder (bp_encoder_read (Z.to_nat (pgm_win_max_apdu - 2)));
  s ← ws_get;
  b ← st_of_option BadAccess (overwrite 2 data (ws_out_buffer s));
  ws_modify (λ s, s <| ws_out_buffer := b |> <| ws_write_size := Z.of_nat (length data) |> <| ws_write_pos := 0 |>
    <| ws_first_message_offset := offset |>) ;;
  if bool_decide (data = []) then ws_on_poll (po_reset_pollout (ws_handle s))
  else ws_modify (λ s, s <| ws_write_size := ws_write_size s + 2 |>).

Definition win_write_one_pkt_with_offset (data_ : list Z) (size_ : nat) (offset_ : Z) : ST wsworld (list Z * Z) :=
  let data := put_uint16 data_ offset_ in
  nbytes ← ws_on_socket (send_data (take size_ data));
  mret (data, nbytes).

Definition win_send_buffer : ST wsworld unit :=
  s ← ws_get;
  st_when (ws_write_pos s <? ws_write_size s)
    (let pos := Z.to_nat (ws_write_pos s) in
     let size := ws_write_size s - ws_write_pos s in
     '(data, nbytes) ← win_write_one_pkt_with_offset (drop pos (ws_out_buffer s)) (Z.to_nat size) (u16 (ws_first_message_offset s));
     st_assert ((size =? nbytes) || (nbytes =? 0)) ;;
     ws_modify (λ s, s <| ws_out_buffer := take pos (ws_out_buffer s) ++ data |> <| ws_write_pos := ws_write_pos s + nbytes |>)).

Definition win_sender_out_event : ST wsworld unit :=
  s ← ws_get;
  st_when (ws_write_pos s =? ws_write_size s) win_fill_buffer ;;
  win_send_buffer.

Definition win_sender_timer_event : ST wsworld unit := st_assert false.
Definition win_sender_unregister_event : ST wsworld unit := mret tt.
Definition win_sender_get_arguments (s : win_sender_t) : cstring := ws_arguments s.
End sender.
Arguments wsworld X N Q : clear implicits.

(** ** bp_pgm_receiver_t *)

Section receiver.
Context {X N Q : Type} `{!HasHeap X, !MessageSink X, !WinSockets N, !WinPgmCalls N, !IPoller Q}.

Record win_receiver_t := WinReceiver {
  wr_joined : bool;
  wr_shutting_down : bool;
  wr_decoder : decoder_t dec_step dec_target;
  wr_dec_message : raw_message;
  wr_dec_tmpbuf : list Z;
  wr_socket : win_pgm_t;
  wr_poller : bool;
  wr_socket_handle : handle_t;
  socket_listener_handle : handle_t
}.
#[export] Instance eta_win_receiver : Eta win_receiver_t := λ r,
  WinReceiver (wr_joined r) (wr_shutting_down r) (wr_decoder r) (wr_dec_message r) (wr_dec_tmpbuf r) (wr_socket r) (wr_poller r)
    (wr_socket_handle r) (socket_listener_handle r).

Record wrworld := WRWorld { wre : win_receiver_t; wr_io : X; wr_net : N; wr_poll : Q }.
#[export] Instance eta_wrworld : Eta wrworld := λ w, WRWorld (wre w) (wr_io w) (wr_net w) (wr_poll w).

Definition wr_modify (f : win_receiver_t → win_receiver_t) : ST wrworld unit := st_modify (λ w, w <| wre := f (wre w) |>).
Definition wr_get : ST wrworld win_receiver_t := w ← st_get; mret (wre w).
Definition wr_on_poll {A} : ST Q A → ST wrworld A := st_lift wr_poll (λ q w, w <| wr_poll := q |>).
Definition wr_on_io {A} : ST X A → ST wrworld A := st_lift wr_io (λ x w, w <| wr_io := x |>).
Definition wr_on_socket {A} : ST (win_pgm_t * N) A → ST wrworld A :=
  st_lift (λ w, (wr_socket (wre w), wr_net w)) (λ p w, w <| wre := wre w <| wr_socket := p.1 |> |> <| wr_net := p.2 |>).
Definition wr_on_decoder {A} : ST (decoder_t dec_step dec_target * dec_env X) A → ST wrworld A :=
  st_lift (λ w, (wr_decoder (wre w), DecEnv (wr_dec_message (wre w)) (wr_dec_tmpbuf (wre w)) (wr_io w)))
    (λ s w, w <| wre := wre w <| wr_decoder := s.1 |> <| wr_dec_message := d_message s.2 |> <| wr_dec_tmpbuf := d_tmpbuf s.2 |> |>
              <| wr_io := d_io s.2 |>).
Definition set_created (b : bool) : ST wrworld unit :=
  wr_modify (λ r, r <| wr_socket := wr_socket r <| created_receiver_socket := b |> |>).

Context (this : engine_id) (sink_flush sink_gap : ST X unit).

Definition win_receiver_fields (network_ : cstring) (arguments_ : cstring) (msgv : list Z) : ST N win_receiver_t :=
  st_assert (negb (strip_udp network_).1) ;;
  sock ← win_pgm_socket_new true (arguments_ ++ [semicolon] ++ network_) msgv;
  mret (WinReceiver false false (Decoder (Some (to_tmpbuf, 0%nat)) 1 one_byte_size_ready) no_message (replicate 8 0) sock false 0 0).

Definition win_receiver_delete : ST wrworld unit := wr_on_socket win_pgm_socket_delete.

Definition win_receiver_register_event : ST wrworld unit :=
  set_created false ;;
  wr_modify (λ r, r <| wr_poller := true |>) ;;
  socket_fd ← wr_on_socket get_receiver_listener_fd;
  h ← wr_on_poll (po_add_fd socket_fd this);
  wr_modify (λ r, r <| socket_listener_handle := h |>) ;;
  wr_on_poll (po_set_pollin h).

Definition win_reconnect : ST wrworld unit :=
  set_created false ;;
  wr_on_decoder bp_decoder_reset ;;
  wr_on_io sink_gap ;;
  wr_modify (λ r, r <| wr_joined := false |>) ;;
  r ← wr_get;
  wr_on_poll (po_rm_fd (wr_socket_handle r)) ;;
  receiver_fd ← wr_on_socket get_receiver_fd;
  wr_on_socket (on_win (win_closesocket receiver_fd)) ;;
  mret tt.

(** The result of [accept] is compared with codes of errors, one of which is
    10035, and then with that of a failure. *)
Definition win_accept_session : ST wrworld unit :=
  socket_fd ← wr_on_socket get_receiver_listener_fd;
  f ← wr_on_socket (on_win (win_accept socket_fd));
  let receiver_fd := default (-1) f in
  if receiver_fd =? 10035 then mret tt
  else if negb (receiver_fd =? -1) then
    rc ← wr_on_socket (on_win (win_ioctl_nonblocking receiver_fd));
    wr_on_socket (on_win (wsa_assert rc)) ;;
    h ← wr_on_poll (po_add_fd receiver_fd this);
    wr_modify (λ r, r <| wr_socket_handle := h |>) ;;
    wr_on_poll (po_set_pollin h) ;;
    wr_on_socket (on_win (win_rm_setsockopt receiver_fd rm_high_speed_intranet)) ;;
    wr_on_socket (set_receiver_fd receiver_fd) ;;
    set_created true
  else wr_on_socket (on_win (wsa_assert false)).

(** The number of bytes for the decoder, and the memory where they are. *)
Definition win_receive_with_offset : ST wrworld (Z * list Z) :=
  nbytes ← wr_on_socket win_pgm_receive;
  if nbytes =? 0 then mret (0, [])
  else if nbytes =? -1 then mret (-1, [])
  else
    r ← wr_get;
    let raw_data := pgm_msgv_recv (wr_socket r) in
    st_of_option BadAccess (guard (2 ≤ length raw_data)%nat) ;;
    let apdu_offset := get_uint16 raw_data in
    let data := drop 2 raw_data in
    let nbytes := nbytes - 2 in
    if (apdu_offset =? 65535) && negb (wr_joined r) then mret (0, [])
    else if negb (wr_joined r) then
      wr_modify (λ r, r <| wr_joined := true |>) ;;
      mret (nbytes - apdu_offset, drop (Z.to_nat apdu_offset) data)
    else mret (nbytes, data).

(** The network can prolong the loop. *)
Fixpoint win_receive_loop (fuel : nat) : ST wrworld Z :=
  match fuel with
  | O => st_crash OutOfFuel
  | S fuel =>
      '(nbytes, data) ← win_receive_with_offset;
      if 0 <? nbytes then wr_on_decoder (bp_decoder_write (take (Z.to_nat nbytes) data)) ;; win_receive_loop fuel
      else mret nbytes
  end.

Definition win_receiver_in_event (fuel : nat) (handle_ : handle_t) : ST wrworld unit :=
  r ← wr_get;
  if negb (created_receiver_socket (wr_socket r)) then
    if handle_ =? socket_listener_handle r then win_accept_session else st_assert false
  else if handle_ =? socket_listener_handle r then win_reconnect
  else
    nbytes ← win_receive_loop fuel;
    wr_on_io sink_flush ;;
    st_when (nbytes =? -1) win_reconnect.

Definition win_receiver_out_event : ST wrworld unit := st_assert false.
Definition win_receiver_timer_event : ST wrworld unit := st_assert false.
Definition win_receiver_unregister_event : ST wrworld unit := mret tt.
End receiver.
Arguments wrworld X N Q : clear implicits.

(** ** The engines and their commands *)

Section commands.
Context {P S N Q : Type} `{!Channel raw_message P, !Swap S, !WinSockets N, !WinPgmCalls N, !IPoller Q}.
Context (this : engine_id) (fuel : nat).

Definition win_sender_new (calling_thread_ thread_ : thread_id) (interface_ : cstring) (peer_thread_ : thread_id)
    (peer_engine_ : engine_id) (peer_info : engine_info) (pipe_ : pipe_id) (buffer msgv : list Z) (poll : Q)
    : ST (store P S * N) (wsworld (eenv P S) N Q) :=
  e ← st_lift snd (λ n s, (s.1, n)) (win_sender_fields interface_ buffer msgv);
  st_lift fst (λ o s, (o, s.2))
    (send_cmd calling_thread_ thread_ (init_register_engine (Some this)) ;;
     st_modify (λ o, o <| pipes := <[pipe_ := pipe_new peer_thread_ peer_engine_ thread_ this peer_info pgm_info]> (pipes o) |>) ;;
     send_cmd calling_thread_ thread_ (init_engine_receive_from (Some this) pipe_) ;;
     send_cmd calling_thread_ peer_thread_ (init_engine_send_to (Some peer_engine_) pipe_)) ;;
  s ← st_get;
  mret (WSWorld e (EEnv (engine_base_new false) s.1) s.2 poll).

Definition win_sender_receive_from (pipe_ : pipe_id) : ST (wsworld (eenv P S) N Q) unit :=
  ws_on_io (engine_receive_from true pipe_) ;;
  s ← ws_get;
  if ws_shutting_down s then ws_on_io (on_objs (on_pipe pipe_ pipe_terminate_reader))
  else st_when (ws_poller s) (ws_on_poll (po_set_pollout (ws_handle s))).

Definition win_sender_revive (pipe_ : pipe_id) : ST (wsworld (eenv P S) N Q) unit :=
  s ← ws_get;
  st_when (negb (ws_shutting_down s))
    (ws_on_io (engine_revive true pipe_) ;;
     s ← ws_get;
     st_when (ws_write_size s =? 0)
       (st_of_option BadAccess (guard (ws_poller s = true)) ;;
        ws_on_poll (po_set_pollout (ws_handle s)) ;;
        win_sender_out_event)).

Definition win_sender_process (engcmd : engine_command_t) : ST (wsworld (eenv P S) N Q) unit :=
  match engcmd with
  | ec_revive pipe => win_sender_revive pipe
  | ec_receive_from pipe => win_sender_receive_from pipe
  | _ => ws_on_io (engine_process false true fuel engcmd)
  end.

Definition win_receiver_new (calling_thread_ thread_ : thread_id) (network_ arguments_ : cstring) (msgv : list Z) (poll : Q)
    : ST (store P S * N) (wrworld (eenv P S) N Q) :=
  e ← st_lift snd (λ n s, (s.1, n)) (win_receiver_fields network_ arguments_ msgv);
  st_lift fst (λ o s, (o, s.2)) (send_cmd calling_thread_ thread_ (init_register_engine (Some this))) ;;
  s ← st_get;
  mret (WRWorld e (EEnv (engine_base_new false) s.1) s.2 poll).

Definition win_pgm_in_event : nat → handle_t → ST (wrworld (eenv P S) N Q) unit := win_receiver_in_event this base_flush base_gap.

Definition win_receiver_send_to (pipe_ : pipe_id) : ST (wrworld (eenv P S) N Q) unit :=
  w ← st_get;
  st_when (negb (wr_shutting_down (wre w)) && demux_no_pipes (P := P) (S := S) (demux (base (wr_io w))) && wr_poller (wre w))
    (wr_on_poll (po_set_pollin (socket_listener_handle (wre w)))) ;;
  wr_on_io (engine_send_to true pipe_).

Definition win_receiver_process (engcmd : engine_command_t) : ST (wrworld (eenv P S) N Q) unit :=
  match engcmd with
  | ec_send_to pipe => win_receiver_send_to pipe
  | _ => wr_on_io (engine_process true false fuel engcmd)
  end.
End commands.

(** ** Sending *)

#[local] Arguments Z.eqb : simpl never.

(** A packet is sent whole or not at all; [win_sent] are those sent so far. *)
Class WinPgmSends (N : Type) `{WinSockets N} := {
  win_sent : N → list (list Z);
  win_send_packet f d n : wp (win_send f d) no_fault (λ r n',
    match r with
    | Some k => k = Z.of_nat (length d) ∧ win_sent n' = win_sent n ++ [d]
    | None => win_sent n' = win_sent n ∧ wp win_last_error no_fault (λ e n2, e = WSAEWOULDBLOCK ∧ win_sent n2 = win_sent n') n'
    end) n
}.

Section win_sending.
Context {X N Q : Type} `{!HasHeap X, !HasHeapLaws X, !MessageSource X, !SourceLaws X, !WinSockets N, !WinPgmSends N, !WinPgmCalls N, !IPoller Q, !PollerWorks Q}.
Implicit Types (w : wsworld X N Q).

Definition ws_enc_state w : encoder_t enc_step * enc_env X :=
  (ws_encoder (wse w), EncEnv (ws_enc_message (wse w)) (ws_enc_tmpbuf (wse w)) (ws_io w)).

Definition win_waiting (s : win_sender_t) : list Z :=
  take (Z.to_nat (ws_write_size s)) (put_uint16 (ws_out_buffer s) (u16 (ws_first_message_offset s))).

(** [log]: the messages read. *)
Definition win_sender_inv w (log : list (list Z)) : Prop :=
  let s := wse w in
  Z.of_nat (length (ws_out_buffer s)) = pgm_win_max_apdu ∧ ws_handle s ∈ po_live (ws_poll w) ∧ is_Some (sender_socket (ws_socket s)) ∧
  if ws_write_pos s =? ws_write_size s then packets (win_sent (ws_net w)) log ∧ enc_inv (ws_enc_state w) log (stream (win_sent (ws_net w)))
  else ws_write_pos s = 0 ∧ 2 < ws_write_size s ≤ pgm_win_max_apdu ∧
    let pkts := win_sent (ws_net w) ++ [win_waiting s] in
    packets pkts log ∧ enc_inv (ws_enc_state w) log (stream pkts).

Lemma win_fill_buffer_ok w log : win_sender_inv w log → ws_write_pos (wse w) = ws_write_size (wse w) →
  wp (win_fill_buffer : ST (wsworld X N Q) unit) source_fault (λ _ w', ∃ log', log `prefix_of` log' ∧ win_sender_inv w' log') w.
Proof using HasHeapLaws0.
  intros (Hl & Hh & Hs & Hi) E. rewrite E, Z.eqb_refl in Hi. destruct Hi as [Hk Hi]. unfold pgm_win_max_apdu in Hl.
  unfold win_fill_buffer, ws_get, ws_on_encoder. wp_steps. apply wp_lift. fold (ws_enc_state w).
  eapply wp_mono; [by apply bp_encoder_read_ok|]. change (Z.to_nat (pgm_win_max_apdu - 2)) with 1398%nat.
  intros [data offset] s' (log' & Hi' & Hp & _ & Hsz & Hc & Hm). simpl in Hi', Hsz, Hc, Hm. wp_steps.
  destruct (overwrite_spec 2 data (ws_out_buffer (wse w))) as (b' & Eo & Hl' & Ht); [lia|].
  apply (wp_of_option _ _ _ b'); [done|]. unfold ws_modify. wp_steps. case_bool_decide as Hd.
  - subst data. wp_steps. apply wp_lift. apply (wp_fault no_fault); [by intros ? []|].
    eapply wp_mono; [by apply po_reset_pollout_works|]. cbv beta; intros _ q2 Elive.
    assert (log' = log) as -> by (eapply nothing_read; [done|apply Hc; simpl; lia|done]).
    exists log. split; [done|]. rewrite app_nil_r in Hi'. unfold win_sender_inv. simpl. split; [unfold pgm_win_max_apdu; lia|].
    split; [rewrite Elive; done|]. split; [done|]. change (0 =? 0) with true. split; [done|]. by destruct s' as [? []].
  - wp_steps. exists log'. split; [done|]. unfold win_sender_inv, pgm_win_max_apdu. simpl. split; [lia|]. split; [done|]. split; [done|].
    destruct (Z.eqb_spec 0 (Z.of_nat (length data) + 2)); [lia|]. split; [done|].
    assert (0 < length data)%nat by (destruct data; simpl; [done|lia]). split; [lia|].
    unfold win_waiting. simpl. replace (Z.to_nat (Z.of_nat (length data) + 2)) with (2 + length data)%nat by lia.
    destruct (packet_of_buffer b' data (u16 offset)) as (H1 & H2 & H3); [lia|rewrite Ht; f_equal|].
    { rewrite <- (take_app_length' (take 2 (ws_out_buffer (wse w))) data 2) by (rewrite length_take; lia). rewrite <- Ht, take_take. f_equal; lia. }
    split; [eapply packets_more; [exact Hk|exact Hp|exact Hd|exact H1|rewrite H1; lia|exact H2|exact H3|exact Hm]|].
    rewrite stream_app, stream_cons, H2. unfold stream. rewrite app_nil_r. by destruct s' as [? []].
Qed.

Lemma win_send_buffer_ok w log : win_sender_inv w log →
  wp (win_send_buffer : ST (wsworld X N Q) unit) no_fault (λ _ w', win_sender_inv w' log) w.
Proof.
  intros Hi. pose proof Hi as (Hb & Hh & [f Hs] & Hw). unfold win_send_buffer, ws_get. wp_steps.
  destruct (Z.eqb_spec (ws_write_pos (wse w)) (ws_write_size (wse w))) as [E|E].
  { apply wp_when_false; [lia|]. done. }
  destruct Hw as (Ep & Hz & Hk & He). unfold pgm_win_max_apdu in *. apply wp_when_true; [lia|]. wp_steps.
  rewrite Ep, Z.sub_0_r. unfold win_write_one_pkt_with_offset, ws_on_socket. wp_steps. apply wp_lift.
  unfold send_data, get_sender_fd, wg_get. wp_steps. apply (wp_of_option _ _ _ f); [done|]. wp_steps. unfold on_win. apply wp_lift.
  eapply wp_mono; [apply win_send_packet|]. change (drop (Z.to_nat 0) (ws_out_buffer (wse w))) with (ws_out_buffer (wse w)). fold (win_waiting (wse w)).
  assert (Z.of_nat (length (win_waiting (wse w))) = ws_write_size (wse w)) as Hl.
  { unfold win_waiting. rewrite length_take, (wire_put_length (n := 2) (get := get_uint16)). lia. }
  cbv beta. intros [k|] n'.
  - intros (-> & En). wp_steps. rewrite Hl. destruct (Z.eqb_spec (ws_write_size (wse w)) (-1)); [lia|]. simpl. wp_steps. apply wp_lift. wp_steps.
    apply wp_when_true; [lia|]. apply wp_assert; [lia|]. wp_steps. apply wp_assert; [simpl; lia|]. unfold ws_modify. wp_steps.
    unfold win_sender_inv, pgm_win_max_apdu. simpl. rewrite Ep, Z.eqb_refl.
    split; [rewrite (wire_put_length (n := 2) (get := get_uint16)); lia|]. split; [done|]. split; [done|]. rewrite En. by split.
  - intros (En & He'). wp_steps. apply wp_lift. eapply wp_mono; [exact He'|]. cbv beta. intros ? n2 (-> & E2). rewrite bool_decide_true by done. wp_steps.
    change (negb (0 =? -1)) with true. simpl. wp_steps. apply wp_lift. wp_steps. simpl. wp_steps. apply wp_assert; [simpl; lia|].
    unfold ws_modify. wp_steps. unfold win_sender_inv, pgm_win_max_apdu. simpl. change (Z.to_nat 0) with 0%nat. simpl. rewrite Ep, Z.add_0_r.
    destruct (first_offset_bytes (ws_out_buffer (wse w)) (u16 (ws_first_message_offset (wse w)))) as (_ & _ & Hlb); [lia|].
    split; [rewrite Hlb; done|]. split; [done|]. split; [done|]. destruct (Z.eqb_spec 0 (ws_write_size (wse w))); [lia|]. split; [done|]. split; [done|].
    unfold win_waiting in *. simpl. rewrite E2, En. rewrite put_uint16_twice by lia. done.
Qed.

Lemma win_sender_out_event_ok w log : win_sender_inv w log →
  wp (win_sender_out_event : ST (wsworld X N Q) unit) source_fault (λ _ w', ∃ log', log `prefix_of` log' ∧ win_sender_inv w' log') w.
Proof using HasHeapLaws0.
  intros Hi. unfold win_sender_out_event, ws_get. wp_steps.
  apply wp_mono with (Q := λ _ w', ∃ log', log `prefix_of` log' ∧ win_sender_inv w' log').
  - destruct (Z.eqb_spec (ws_write_pos (wse w)) (ws_write_size (wse w))).
    + apply wp_when_true; [lia|]. by apply win_fill_buffer_ok.
    + apply wp_when_false; [lia|]. by exists log.
  - intros _ w1 (log1 & Hp & Hi1). apply (wp_fault no_fault); [by intros ? []|].
    eapply wp_mono; [by apply win_send_buffer_ok|]. cbv beta. intros _ w2 Hi2. by exists log1.
Qed.
End win_sending.

(** ** Receiving *)

(** The packets of a sender arrive, one by one; the others to come are
    [win_arrivals].  If [win_lossy], some may be missed. *)
Class WinPgmReceives (N : Type) `{WinPgmCalls N, !WinSockets N} := {
  win_arrivals : N → list (list Z);
  win_lossy : Prop;
  win_heard : N → N → Prop := λ n n', win_arrivals n' `suffix_of` win_arrivals n ∧ (¬ win_lossy → win_arrivals n' = win_arrivals n);
  win_last_error_law n : wp win_last_error no_fault (λ _ n', win_arrivals n' = win_arrivals n) n;
  win_recv_packet f k n : wp (win_recv f k) no_fault (λ r n',
    match r with
    | Some [] => win_arrivals n' = win_arrivals n
    | Some d => win_arrivals n = d :: win_arrivals n' ∧ (length d ≤ k)%nat
    | None => win_arrivals n' = win_arrivals n ∧ wp win_last_error no_fault (λ e n2,
        if bool_decide (e = WSAEWOULDBLOCK) then win_arrivals n2 = win_arrivals n
        else win_lossy ∧ win_arrivals n2 `suffix_of` win_arrivals n) n'
    end) n;
  win_accept_law l n : wp (win_accept l) no_fault (λ _ n', win_heard n n') n;
  win_ioctl_law f n : wp (win_ioctl_nonblocking f) no_fault (λ _ n', win_heard n n') n;
  win_setsockopt_law f o n : wp (win_rm_setsockopt f o) no_fault (λ _ n', win_heard n n') n;
  win_closesocket_law f n : wp (win_closesocket f) no_fault (λ _ n', win_heard n n') n
}.

Section win_receiving.
Context {X N Q : Type} `{!HasHeap X, !HasHeapLaws X, !MessageSink X, !SinkLaws X, !WinSockets N, !WinPgmCalls N, !WinPgmReceives N, !IPoller Q, !PollerWorks Q}.
Context (log sent early : list (list Z)) (rest : list Z).
Context (Hsent : announces sent log) (Hstream : stream sent ++ rest = frames log) (Hfits : Forall fits log).
Context (Hsink : ∀ x : X, ¬ sink_full x).
Context (this : engine_id) (sink_flush sink_gap : ST X unit).
Context (Hflush : harmless sink_flush) (Hgap : harmless sink_gap).
Implicit Types (w : wrworld X N Q).
#[local] Abbreviation hears := (hears log win_lossy).

Definition wr_dec_state w : decoder_t dec_step dec_target * dec_env X :=
  (wr_decoder (wre w), DecEnv (wr_dec_message (wre w)) (wr_dec_tmpbuf (wre w)) (wr_io w)).

(** The descriptors that are polled: the listener and, while there is one, the
    session. *)
Record wr_polled (r : win_receiver_t) (q : Q) : Prop := {
  rp_listener : is_Some (receiver_listener_socket (wr_socket r)) ∧ socket_listener_handle r ∈ po_live q;
  rp_session : created_receiver_socket (wr_socket r) = true → is_Some (receiver_socket (wr_socket r)) ∧
    wr_socket_handle r ∈ po_live q ∧ wr_socket_handle r ≠ socket_listener_handle r;
  rp_joined : created_receiver_socket (wr_socket r) = false → wr_joined r = false;
  rp_buffer : Z.of_nat (length (pgm_msgv_recv (wr_socket r))) = pgm_max_tpdu
}.

(** [now]: what the decoder is yet to get of the packet received last. *)
Definition wr_at w (gone : list (list Z)) (now : list Z) : Prop :=
  wr_polled (wre w) (wr_poll w) ∧ sent = gone ++ win_arrivals (wr_net w) ∧
  hears early gone (wr_joined (wre w)) (wr_dec_state w) (now ++ stream (win_arrivals (wr_net w)) ++ rest).

Definition wr_inv w : Prop := ∃ gone, wr_at w gone [].

Definition wr_lost w : Prop := win_lossy ∧ wr_polled (wre w) (wr_poll w) ∧ created_receiver_socket (wr_socket (wre w)) = true ∧
  ∃ gone, sent = gone ++ win_arrivals (wr_net w) ∧ kept log gone (wr_dec_state w).

(** The same packets, or fewer. *)
Lemma hears_fewer gone n n' s : sent = gone ++ win_arrivals n → hears early gone false s (stream (win_arrivals n) ++ rest) → win_heard n n' →
  ∃ gone', sent = gone' ++ win_arrivals n' ∧ hears early gone' false s (stream (win_arrivals n') ++ rest).
Proof using.
  intros Es Hh [[lost Ea] Hl]. exists (gone ++ lost). split; [by rewrite Es, Ea, <- app_assoc|].
  destruct Hh as (got & before & H1 & H2 & H3 & H4 & H5). exists got, before. split_and!; [done..| |].
  - rewrite stream_app, length_app. lia.
  - intros Hno. rewrite Hl in Ea by done. assert (lost = []) as ->; [|by rewrite app_nil_r; apply H5].
    apply (f_equal length) in Ea. rewrite length_app in Ea. destruct lost; [done|simpl in Ea; lia].
Qed.

Lemma get_uint16_app (d junk : list Z) : (2 ≤ length d)%nat → get_uint16 (d ++ junk) = get_uint16 d.
Proof using.
  intros Hd. rewrite <- (take_drop 2 d), <- app_assoc. rewrite !(wire_get_app (n := 2) (put := put_uint16)) by (rewrite length_take; lia). done.
Qed.

(** A session goes on. *)
#[local] Ltac polled := constructor; simpl; [done|done|congruence|rewrite ?drop_0; lia].

Lemma win_receive_ok w gone : wr_at w gone [] → created_receiver_socket (wr_socket (wre w)) = true →
  wp (win_receive_with_offset : ST (wrworld X N Q) _) no_fault (λ r w',
    created_receiver_socket (wr_socket (wre w')) = true ∧
    ((r.1 = 0 ∧ wr_inv w') ∨ (r.1 = -1 ∧ wr_lost w') ∨
     (0 < r.1 ∧ wr_joined (wre w') = true ∧ (∃ gone', wr_at w' gone' (take (Z.to_nat r.1) r.2)) ∧
       (length (win_arrivals (wr_net w')) < length (win_arrivals (wr_net w)))%nat))) w.
Proof using Hsent Hstream Hfits.
  intros (Hp & Es & Hh) Hcr. pose proof Hp as [Hlis Hses Hj Hbuf]. destruct (Hses Hcr) as ([f Hf] & Hlive & Hne).
  unfold win_receive_with_offset, wr_get, wr_modify, wr_on_socket. wp_steps. apply wp_lift.
  unfold win_pgm_receive, get_receiver_fd, wg_get, wg_set, on_win. wp_steps. apply (wp_of_option _ _ _ f); [done|]. wp_steps. apply wp_lift.
  eapply wp_mono; [apply win_recv_packet|]. cbv beta. intros [d|] n'.
  - intros Hd. destruct (decide (d = [])) as [->|Hne0].
    { simpl in Hd. wp_steps. simpl. change (0 =? 0) with true. cbv iota. wp_steps. split; [done|]. left. split; [done|].
      exists gone. unfold wr_at. simpl. rewrite Hd. split; [polled|]. by split. }
    assert (win_arrivals (wr_net w) = d :: win_arrivals n' ∧ (length d ≤ Z.to_nat pgm_max_tpdu)%nat) as [Ea Hlen] by by destruct d.
    assert (sent = (gone ++ [d]) ++ win_arrivals n') as Es' by (rewrite <- app_assoc; simpl; by rewrite <- Ea, <- Es).
    destruct (Hsent gone d (win_arrivals n')) as (H2 & Hq); [by rewrite <- Ea|].
    assert (length (d ++ drop (length d) (pgm_msgv_recv (wr_socket (wre w)))) = length (pgm_msgv_recv (wr_socket (wre w)))) as Hsame.
    { rewrite length_app, length_drop. lia. }
    set (buf := d ++ drop (length d) (pgm_msgv_recv (wr_socket (wre w)))) in *.
    assert (drop 2 buf = piece_of d ++ drop (length d) (pgm_msgv_recv (wr_socket (wre w)))) as Hbuf2.
    { unfold buf, piece_of. rewrite drop_app_le by lia. done. }
    assert (get_uint16 buf = get_uint16 d) as Hoff by (apply get_uint16_app; lia).
    assert (length (piece_of d) = length d - 2)%nat as Hpl by apply length_drop.
    wp_steps. simpl. fold buf. destruct (Z.eqb_spec (Z.of_nat (length d)) 0); [lia|]. destruct (Z.eqb_spec (Z.of_nat (length d)) (-1)); [lia|].
    cbv iota. wp_steps. simpl. fold buf. apply wp_guard; [lia|]. intros _. wp_steps. rewrite Hoff, Hbuf2.
    destruct (wr_joined (wre w)) eqn:Ej; simpl; rewrite ?andb_false_r, ?andb_true_r.
    + wp_steps. simpl. split; [done|]. right; right. split; [lia|]. split; [done|]. split; [|rewrite Ea; simpl; lia].
      exists (gone ++ [d]). split; [polled|]. split; [done|]. simpl.
      simpl in Hh. rewrite Ea, stream_cons, <- app_assoc in Hh. apply hears_gone.
      rewrite take_app_length' by lia. exact Hh.
    + destruct (Z.eqb_spec (get_uint16 d) 65535) as [Eq|Eq]; wp_steps; simpl; (split; [done|]).
      * left. split; [done|]. exists (gone ++ [d]). split; [polled|]. split; [done|]. simpl. exact (hears_quiet log win_lossy early gone _ d [] [] Hh Eq).
      * destruct Hq as [|(before & _ & Ho & Hle & _)]; [done|].
        assert (hears early (gone ++ [d]) true (wr_dec_state w)
          (drop (Z.to_nat (get_uint16 d)) (piece_of d) ++ stream (win_arrivals n') ++ rest)) as Hh2.
        { eapply hears_begin; [done..|by rewrite <- Ea|done]. }
        rewrite drop_app_le by done.
        assert (length (drop (Z.to_nat (get_uint16 d)) (piece_of d)) = length d - 2 - Z.to_nat (get_uint16 d))%nat as Hdl by (rewrite length_drop; lia).
        destruct (decide (length d - 2 = Z.to_nat (get_uint16 d))%nat).
        -- left. split; [lia|]. exists (gone ++ [d]). split; [polled|]. split; [done|]. simpl.
           rewrite drop_ge in Hh2 by lia. exact Hh2.
        -- right; right. split; [lia|]. split; [done|]. split; [|rewrite Ea; simpl; lia].
           exists (gone ++ [d]). split; [polled|]. split; [done|]. simpl.
           rewrite take_app_length' by lia. exact Hh2.
  - intros [Ea He]. wp_steps. apply wp_lift. simpl. eapply wp_mono; [exact He|]. cbv beta. intros e n2 Hn2. wp_steps. simpl in Hn2. case_bool_decide.
    + wp_steps. change (0 =? 0) with true. cbv iota. wp_steps. split; [done|]. left. split; [done|].
      exists gone. unfold wr_at. simpl. rewrite Hn2. split; [polled|]. by split.
    + destruct Hn2 as [Hlossy [lost El]]. wp_steps. change (-1 =? 0) with false. change (-1 =? -1) with true. cbv iota. wp_steps.
      split; [done|]. right; left. split; [done|]. split; [done|]. split; [polled|]. split; [done|].
      exists (gone ++ lost). simpl. rewrite Es, El, <- app_assoc. split; [done|].
      apply kept_more. simpl in Hh. eapply (hears_lost log sent rest win_lossy); [done|exact Hh|done].
Qed.

Lemma win_loop_ok fuel : ∀ w gone, wr_at w gone [] → created_receiver_socket (wr_socket (wre w)) = true →
  (length (win_arrivals (wr_net w)) < fuel)%nat →
  wp (win_receive_loop fuel : ST (wrworld X N Q) _) only_assert (λ k w',
    created_receiver_socket (wr_socket (wre w')) = true ∧ ((k = 0 ∧ wr_inv w') ∨ (k = -1 ∧ wr_lost w'))) w.
Proof using HasHeapLaws0 Hsent Hstream Hfits Hsink.
  induction fuel as [|fuel IH]; intros w gone Hi Hcr Hf; [lia|]. simpl win_receive_loop. wp_steps. apply (wp_fault no_fault); [by intros ? []|].
  eapply wp_mono; [by eapply win_receive_ok|].
  intros [k d] w' (Hcr' & [(Ek & Hi')|[(Ek & Hl)|(Hk & Ej & (gone' & Hi') & Hlen)]]); simpl in *.
  - subst k. change (0 <? 0) with false. cbv iota. wp_steps. split; [done|]. by left.
  - subst k. change (0 <? -1) with false. cbv iota. wp_steps. split; [done|]. by right.
  - destruct (Z.ltb_spec 0 k); [|lia]. cbv iota. wp_steps. unfold wr_on_decoder. apply wp_lift.
    destruct Hi' as (Hp & Es & Hh). rewrite Ej in Hh.
    eapply wp_mono; [by eapply hears_write|]. cbv beta. intros _ s' Hh'.
    eapply wp_mono; [apply (IH _ gone'); [|done|simpl; lia]|done].
    split; [destruct Hp; constructor; done|]. split; [done|]. simpl. rewrite Ej. by destruct s' as [? []].
Qed.

Lemma wr_io_ok m w gone (j : bool) c : harmless m → hears early gone j (wr_dec_state w) c →
  wp (wr_on_io m : ST (wrworld X N Q) unit) no_fault (λ _ w', wre w' = wre w ∧ wr_net w' = wr_net w ∧ wr_poll w' = wr_poll w ∧
    hears early gone j (wr_dec_state w') c) w.
Proof using.
  intros Hm Hh. unfold wr_on_io. apply wp_lift. eapply wp_mono; [apply Hm|]. cbv beta. intros _ x (Hv & E1 & E2).
  split_and!; [done..|]. exact (hears_io log win_lossy early gone j _ c x Hh Hv E1 E2).
Qed.

(** Whatever the decoder was about, it begins anew. *)
Lemma win_reconnect_ok w : wr_lost w →
  wp (win_reconnect sink_gap : ST (wrworld X N Q) unit) only_assert (λ _ w', wr_inv w') w.
Proof using All.
  intros (Hlossy & [Hlis Hses Hj Hbuf] & Hcr & gone & Es & Hk). destruct (Hses Hcr) as ([f Hf] & Hlive & Hne).
  unfold win_reconnect, set_created, wr_modify, wr_get, wr_on_decoder. wp_steps. apply wp_lift. simpl.
  eapply wp_mono; [apply (kept_reset log win_lossy gone early _ []); [exact Hk|exact Hlossy]|]. cbv beta. intros _ s' Hh. wp_steps.
  apply (wp_fault no_fault); [by intros ? []|]. eapply wp_mono; [apply (wr_io_ok _ _ gone false []); [done|by destruct s' as [? []]]|].
  cbv beta. simpl. intros _ w3 (Er & En & Eq & Hh3). wp_steps. unfold wr_on_poll. apply wp_lift. simpl.
  apply (wp_fault no_fault); [by intros ? []|]. eapply wp_mono; [apply po_rm_fd_works; by rewrite Er, Eq|]. cbv beta. intros _ q1 E1. wp_steps.
  unfold wr_on_socket. apply wp_lift. unfold get_receiver_fd, wg_get. wp_steps. apply (wp_of_option _ _ _ f); [simpl; by rewrite Er|]. wp_steps. apply wp_lift.
  unfold on_win. apply wp_lift. simpl. apply (wp_fault no_fault); [by intros ? []|].
  eapply wp_mono; [apply win_closesocket_law|]. cbv beta. intros _ n4 Hn. simpl. wp_steps.
  destruct Hn as [[lost Ea] _]. simpl in Ea. rewrite En in Ea. rewrite Er, Eq in E1. simpl in E1. exists (gone ++ lost). split.
  - constructor; simpl; rewrite ?Er; simpl; [|done..]. split; [apply Hlis|]. rewrite E1. destruct Hlis as [_ Hlis]. set_solver.
  - split; [simpl; by rewrite Es, Ea, <- app_assoc|]. simpl. destruct Hh3 as (got & before & H1 & H2 & H3 & H4 & _).
    exists got, before. split_and!; [done..| |by intros []]. rewrite stream_app, length_app. lia.
Qed.

Lemma wsa_assert_ok b n : wp (wsa_assert b) only_assert (λ _ n', win_arrivals n' = win_arrivals n) n.
Proof using.
  destruct b; [done|]. unfold wsa_assert, wsa_error. wp_steps. apply (wp_fault no_fault); [by intros ? []|].
  eapply wp_mono; [apply win_last_error_law|]. cbv beta. intros e n' E. wp_steps. by destruct (bool_decide _).
Qed.

Lemma win_accept_ok w : wr_inv w → created_receiver_socket (wr_socket (wre w)) = false →
  wp (win_accept_session this : ST (wrworld X N Q) unit) only_assert (λ _ w', wr_inv w') w.
Proof using All.
  intros (gone & [[[l Hl] Hlive] Hses Hj Hbuf] & Es & Hh) Hcr. simpl in Hh. rewrite Hj in Hh by done.
  unfold win_accept_session, set_created, wr_modify, wr_on_poll, wr_on_socket. wp_steps. apply wp_lift.
  unfold get_receiver_listener_fd, wg_get. wp_steps. apply (wp_of_option _ _ _ l); [done|]. wp_steps. apply wp_lift. unfold on_win. apply wp_lift. simpl.
  apply (wp_fault no_fault); [by intros ? []|]. eapply wp_mono; [apply win_accept_law|]. cbv beta. intros f n1 Hn1. wp_steps. simpl.
  destruct (hears_fewer gone _ n1 _ Es Hh Hn1) as (g1 & Es1 & Hh1).
  destruct (_ =? 10035).
  { wp_steps. exists g1. split; [by constructor|]. simpl. split; [done|]. rewrite Hj by done. exact Hh1. }
  destruct (negb _).
  - wp_steps. apply wp_lift, wp_lift. simpl. apply (wp_fault no_fault); [by intros ? []|]. eapply wp_mono; [apply win_ioctl_law|].
    cbv beta. intros rc n2 Hn2. wp_steps. destruct (hears_fewer g1 _ n2 _ Es1 Hh1 Hn2) as (g2 & Es2 & Hh2).
    apply wp_lift, wp_lift. simpl.
    eapply wp_mono; [apply wsa_assert_ok|]. cbv beta. intros _ n3 E3. wp_steps. apply wp_lift. simpl. apply (wp_fault no_fault); [by intros ? []|].
    eapply wp_mono; [apply po_add_fd_works|]. cbv beta. intros h q1 [Hh1' E1]. wp_steps. simpl. wp_steps. apply wp_lift. simpl.
    apply (wp_fault no_fault); [by intros ? []|]. eapply wp_mono; [apply po_set_pollin_works; set_solver|]. cbv beta. intros _ q2 E2. wp_steps.
    apply wp_lift, wp_lift. simpl. apply (wp_fault no_fault); [by intros ? []|]. eapply wp_mono; [apply win_setsockopt_law|]. cbv beta. intros _ n4 Hn4. wp_steps.
    assert (win_heard n2 n4) as Hn24 by by (unfold win_heard in *; rewrite <- E3).
    destruct (hears_fewer g2 _ n4 _ Es2 Hh2 Hn24) as (g4 & Es4 & Hh4).
    apply wp_lift. unfold set_receiver_fd, wg_set. wp_steps. simpl. exists g4. split.
    + constructor; simpl; [|intros _|done|done]; (split; [done|]); rewrite E2, E1; [set_solver|]. split; set_solver.
    + split; [done|]. simpl. rewrite Hj by done. exact Hh4.
  - wp_steps. apply wp_lift, wp_lift. eapply wp_mono; [exact (wsa_assert_ok false _)|]. cbv beta. intros _ n2 E2. simpl in E2 |- *.
    exists g1. split; [by constructor|]. simpl. rewrite E2. split; [done|]. rewrite Hj by done. exact Hh1.
Qed.

(** What the poller reports: input at the listener, or in the session if
    there is one. *)
Inductive win_event := at_listener | in_session.
Definition win_on_event (fuel : nat) (e : win_event) : ST (wrworld X N Q) unit :=
  r ← wr_get;
  match e with
  | at_listener => win_receiver_in_event this sink_flush sink_gap fuel (socket_listener_handle r)
  | in_session => st_when (created_receiver_socket (wr_socket r)) (win_receiver_in_event this sink_flush sink_gap fuel (wr_socket_handle r))
  end.

(** A second session begins only if the first was lost. *)
Lemma win_on_event_ok fuel e w : wr_inv w → (length sent < fuel)%nat →
  (e = at_listener → created_receiver_socket (wr_socket (wre w)) = true → win_lossy) →
  wp (win_on_event fuel e) only_assert (λ _ w', wr_inv w') w.
Proof using All.
  intros Hi Hf Hlossy. unfold win_on_event, wr_get. wp_steps. destruct e.
  - unfold win_receiver_in_event, wr_get. wp_steps. rewrite Z.eqb_refl. destruct (created_receiver_socket (wr_socket (wre w))) eqn:Hcr; simpl.
    + apply win_reconnect_ok. destruct Hi as (gone & Hp & Es & Hh). split; [by apply Hlossy|]. split; [done|]. split; [done|].
      exists gone. split; [done|]. eapply hears_lost; [exact Hstream|exact Hh|done].
    + by apply win_accept_ok.
  - apply wp_when; intros Hcr; [|done]. unfold win_receiver_in_event, wr_get. wp_steps. rewrite Hcr. simpl.
    destruct Hi as (gone & Hi). pose proof Hi as (Hp & Es & _). destruct (rp_session _ _ Hp Hcr) as (_ & _ & Hne). rewrite (proj2 (Z.eqb_neq _ _)) by done.
    wp_steps. eapply wp_mono; [apply (win_loop_ok fuel w gone); [done|done|]|].
    { apply (f_equal length) in Es. rewrite length_app in Es. lia. }
    cbv beta. intros k w1 (Hcr1 & [(-> & g1 & Hp1 & Es1 & Hh1)|(-> & Hl)]); wp_steps.
    + apply (wp_fault no_fault); [by intros ? []|]. eapply wp_mono; [by apply wr_io_ok|]. cbv beta.
      intros _ w2 (Er & En & Eq & Hh2). apply wp_when_false; [done|]. exists g1. unfold wr_at. by rewrite Er, En, Eq.
    + destruct Hl as (Hlo & Hp1 & _ & g1 & Es1 & Hk). unfold wr_on_io. apply wp_lift. apply (wp_fault no_fault); [by intros ? []|].
      eapply wp_mono; [apply Hflush|]. cbv beta. intros _ x (Hv & E1 & E2). apply wp_when_true; [done|].
      apply win_reconnect_ok. split; [done|]. split; [done|]. split; [done|]. exists g1. split; [done|]. exact (kept_io log g1 _ x Hk Hv E1 E2).
Qed.
End win_receiving.

(** ** A whole group *)

Section win_theorem.
Context {X N Q : Type} `{!HasHeap X, !HasHeapLaws X, !MessageSource X, !SourceLaws X, !WinSockets N, !WinPgmSends N, !WinPgmCalls N, !IPoller Q, !PollerWorks Q}.

Fixpoint win_sender_events (k : nat) : ST (wsworld X N Q) unit :=
  match k with O => mret tt | S k => win_sender_out_event ;; win_sender_events k end.

Lemma win_sender_events_ok k : ∀ w log, win_sender_inv w log →
  wp (win_sender_events k) source_fault (λ _ w', ∃ log', log `prefix_of` log' ∧ win_sender_inv w' log') w.
Proof using HasHeapLaws0.
  induction k as [|k IH]; intros w log Hi; simpl; [apply wp_ret; by exists log|].
  wp_steps. eapply wp_mono; [by apply win_sender_out_event_ok|]. cbv beta. intros _ w1 (l1 & H1 & Hi1).
  eapply wp_mono; [by apply IH|]. cbv beta. intros _ w2 (l2 & H2 & Hi2). exists l2. split; [by etrans|done].
Qed.

(** A sender that is registered and has not begun. *)
Record sender_idle (w : wsworld X N Q) : Prop := {
  wn_buffer : Z.of_nat (length (ws_out_buffer (wse w))) = pgm_win_max_apdu;
  wn_live : ws_handle (wse w) ∈ po_live (ws_poll w);
  wn_socket : is_Some (sender_socket (ws_socket (wse w)));
  wn_pos : ws_write_pos (wse w) = ws_write_size (wse w);
  wn_sent : win_sent (ws_net w) = [];
  wn_encoder : ws_encoder (wse w) = Encoder [] 0 enc_message_ready true;
  wn_tmpbuf : length (ws_enc_tmpbuf (wse w)) = 9%nat;
  wn_source : source_held (ws_io w) (ws_enc_message (wse w)) []
}.

Lemma sender_idle_inv w : sender_idle w → win_sender_inv w [].
Proof using.
  intros []. unfold win_sender_inv. rewrite wn_pos0, Z.eqb_refl, wn_sent0.
  split_and!; [done..|constructor|]. by constructor; simpl; rewrite ?wn_encoder0.
Qed.

Lemma win_sender_inv_sent w log : win_sender_inv w log → source_held (ws_io w) (ws_enc_message (wse w)) log ∧
  announces (win_sent (ws_net w)) log ∧ ∃ rest, stream (win_sent (ws_net w)) ++ rest = frames log.
Proof using.
  intros (_ & _ & _ & H). destruct (ws_write_pos (wse w) =? ws_write_size (wse w)).
  - destruct H as [Hk He]. split; [apply He|]. split; [by eapply packets_announce|by eapply enc_inv_rest].
  - destruct H as (_ & _ & Hk & He). split; [apply He|]. split.
    + apply packets_snoc_inv in Hk as (log0 & Hk & Hp). by eapply packets_announce.
    + destruct (enc_inv_rest _ _ _ He) as [rest E]. rewrite stream_app, <- app_assoc in E. by eexists.
Qed.
End win_theorem.

Section win_joining.
Context {Y M R : Type} `{!HasHeap Y, !HasHeapLaws Y, !MessageSink Y, !SinkLaws Y, !WinSockets M, !WinPgmCalls M, !WinPgmReceives M, !IPoller R, !PollerWorks R}.
Context (this : engine_id) (sink_flush sink_gap : ST Y unit).

Fixpoint win_events (fuel : nat) (evs : list win_event) : ST (wrworld Y M R) unit :=
  match evs with [] => mret tt | e :: evs => win_on_event this sink_flush sink_gap fuel e ;; win_events fuel evs end.

(** One session, accepted first. *)
Definition one_session (evs : list win_event) : Prop := ∃ l, evs = at_listener :: l ∧ Forall (eq in_session) l.

(** A receiver that is registered and has no session. *)
Record receiver_idle (v : wrworld Y M R) : Prop := {
  wv_joined : wr_joined (wre v) = false;
  wv_listener : is_Some (receiver_listener_socket (wr_socket (wre v))) ∧ socket_listener_handle (wre v) ∈ po_live (wr_poll v);
  wv_created : created_receiver_socket (wr_socket (wre v)) = false;
  wv_buffer : Z.of_nat (length (pgm_msgv_recv (wr_socket (wre v)))) = pgm_max_tpdu;
  wv_decoder : wr_decoder (wre v) = Decoder (Some (to_tmpbuf, 0%nat)) 1 one_byte_size_ready;
  wv_tmpbuf : length (wr_dec_tmpbuf (wre v)) = 8%nat;
  wv_message : length (vsm_data (wr_dec_message (wre v))) = Z.to_nat max_vsm_size;
  wv_heap : heap_ok (heap_of (wr_io v)) (wr_dec_message (wre v) :: sink_messages (wr_io v));
  wv_view : sink_view (wr_io v) []
}.

Definition win_hears (early sent log : list (list Z)) (rest : list Z) (v : wrworld Y M R) : Prop :=
  heard_of win_lossy early sent log rest (wr_joined (wre v)) (win_arrivals (wr_net v)) (wr_io v).

Lemma receiver_idle_inv log sent early rest v : receiver_idle v → sent = early ++ win_arrivals (wr_net v) →
  wr_inv log sent early rest v.
Proof using.
  intros [] E. exists early. split; [by constructor; [|congruence| |]|]. split; [done|]. unfold hears. rewrite wv_joined0.
  exists [], []. split; [|split_and!; [apply prefix_nil|done|simpl; lia|intros _; split; [done|exists []; by rewrite app_nil_r]]].
  unfold untouched, at_field. simpl. rewrite wv_decoder0. split_and!; [|done..]. by constructor.
Qed.

Lemma win_inv_hears log sent early rest v : wr_inv log sent early rest v → win_hears early sent log rest v.
Proof using. intros (gone & _ & Es & Hh). exact (hears_heard _ _ _ _ _ gone [] _ _ (wr_dec_state v) Hh Es). Qed.

Lemma win_events_ok log sent early rest : announces sent log → stream sent ++ rest = frames log → Forall fits log →
  (∀ y : Y, ¬ sink_full y) → harmless sink_flush → harmless sink_gap → ∀ fuel evs v, (length sent < fuel)%nat →
  win_lossy ∨ Forall (eq in_session) evs ∨ created_receiver_socket (wr_socket (wre v)) = false ∧ one_session evs →
  wr_inv log sent early rest v → wp (win_events fuel evs) only_assert (λ _ v', wr_inv log sent early rest v') v.
Proof using HasHeapLaws0.
  intros H1 H2 H3 H4 H5 H6 fuel. induction evs as [|e evs IH]; intros v Hf He Hi; simpl; [done|]. wp_steps.
  eapply wp_mono; [apply win_on_event_ok; [done..|]|].
  - intros -> Hcr. destruct He as [|[He|[Hn _]]]; [done| |congruence]. by apply Forall_cons in He as [? _].
  - cbv beta. intros _ v' Hi'. apply IH; [done| |done]. destruct He as [|[He|(_ & l & [= -> ->] & Hl)]]; [by left| |by right; left].
    apply Forall_cons in He as [_ ?]. by right; left.
Qed.
End win_joining.


(** ** Closing *)

(** However the system answers, closing a socket does not end well: the
    assertion after [shutdown] is on the result 0 of a success, and then a
    member that was never set is read. *)
Lemma win_close_never_returns {N : Type} `{!WinSockets N, !WinPgmCalls N} (p : win_pgm_t) (n : N) :
  sender_socket p = None ∨ receiver_socket p = None → wp win_close_transport (λ _, True) (λ _ _, False) (p, n).
Proof.
  intros Hp. assert (∀ A (m : ST N A) (Q : A → N → Prop) n, (∀ a n', Q a n') → wp m (λ _, True) Q n) as Hany.
  { intros A m Q n1 HQ. unfold wp. destruct (m n1) as [[a n2]|]; [apply HQ|done]. }
  unfold win_close_transport, wg_get, on_win. wp_steps. simpl. destruct (sender_socket p) as [f|] eqn:E; [|done].
  destruct Hp as [|Hp]; [done|]. simpl. wp_steps. apply wp_lift, Hany. intros rc n1. wp_steps. apply wp_lift, Hany. intros _ n2. wp_steps.
  apply wp_when; intros _; wp_steps; [apply wp_lift, Hany; intros _ n3; wp_steps|]; simpl; by rewrite Hp.
Qed.

(** ** Runs *)

#[local] Existing Instance script_has_heap. #[local] Existing Instance script_has_heap_laws.
#[local] Existing Instance script_source. #[local] Existing Instance script_laws.
#[local] Existing Instance listener_has_heap. #[local] Existing Instance listener_has_heap_laws.
#[local] Existing Instance listener_sink. #[local] Existing Instance listener_laws.
#[local] Existing Instance net8_pgm. #[local] Existing Instance net8_receives.
#[local] Existing Instance handles_poller. #[local] Existing Instance handles_work.

(** Sessions are descriptor [session]. *)
Section network.
Context (session : fd_t).

#[local] Instance net8_windows : WinSockets net8 := {
  win_last_error := mret WSAEWOULDBLOCK;
  win_socket := mret (Some 3);
  win_ioctl_nonblocking _ := mret true;
  win_nodelay _ := mret true;
  win_reuseaddr _ := mret true;
  win_connect _ _ := mret true;
  win_closesocket _ := mret true;
  win_send _ d := λ n, Ok (Some (Z.of_nat (length d)), Net8 (net_sent n ++ [d]) (net_coming n));
  win_recv _ k := λ n, Ok match net_coming n with
    | p :: ps => if (0 <? length p)%nat && (length p <=? k)%nat then (Some p, Net8 (net_sent n) ps) else (None, n)
    | [] => (None, n)
    end;
  win_so_error _ := mret (Some 0);
  win_bind _ _ := mret true;
  win_getsockname _ := mret None;
  win_listen _ _ := mret true;
  win_accept _ := mret (Some session);
  win_gethostname _ := mret None;
  win_inet_ntoa _ := mret []
}.
#[local] Instance net8_calls : WinPgmCalls net8 := {
  win_enum_size := mret (Some 100);
  win_malloc _ := mret true;
  win_enum_protocols _ := mret (Some [pgm_protocol]);
  win_rdm_socket := mret (Some 3);
  win_inet_addr _ := mret 7;
  win_rm_setsockopt _ _ := mret true;
  win_shutdown _ := mret true
}.
#[local] Instance net8_win_sends : WinPgmSends net8.
Proof. by refine {| win_sent := net_sent |}. Defined.
#[local] Instance net8_win_receives : WinPgmReceives net8.
Proof.
  refine {| win_arrivals := net_coming; win_lossy := False |}; try done; try (by intros; split; [by exists []|]).
  intros f k n. unfold wp. simpl. destruct (net_coming n) as [|p ps] eqn:E; [by rewrite E|].
  destruct p as [|z p]; simpl; [by rewrite E|]. destruct k as [|k]; simpl; [by rewrite E|].
  destruct (Nat.leb_spec (length p) k); [|by rewrite E]. split; [done|]. simpl. lia.
Defined.
End network.
#[local] Instance fd5 : WinSockets net8 := net8_windows 5.
#[local] Existing Instance net8_calls.
#[local] Instance fd5_sends : WinPgmSends net8 := net8_win_sends 5.
#[local] Instance fd5_receives : WinPgmReceives net8 := net8_win_receives 5.

(** A network that loses packets: where [None] stands, the session is reset, and
    the packet that follows is lost before the next session is accepted. *)
#[local] Existing Instance lossy8_pgm. #[local] Existing Instance lossy8_receives.
#[local] Instance lossy8_windows : WinSockets lossy8 := {
  win_last_error := λ n, Ok (match to_come n with None :: _ => WSAECONNRESET | _ => WSAEWOULDBLOCK end, n);
  win_socket := mret (Some 3);
  win_ioctl_nonblocking _ := mret true;
  win_nodelay _ := mret true;
  win_reuseaddr _ := mret true;
  win_connect _ _ := mret true;
  win_closesocket _ := mret true;
  win_send _ d := mret (Some (Z.of_nat (length d)));
  win_recv _ k := λ n, Ok match to_come n with
    | Some p :: ps => if (0 <? length p)%nat && (length p <=? k)%nat then (Some p, Lossy8 ps) else (None, n)
    | _ => (None, n)
    end;
  win_so_error _ := mret (Some 0);
  win_bind _ _ := mret true;
  win_getsockname _ := mret None;
  win_listen _ _ := mret true;
  win_accept _ := λ n, Ok (Some 5, Lossy8 (match to_come n with None :: l => tail l | l => l end));
  win_gethostname _ := mret None;
  win_inet_ntoa _ := mret []
}.
#[local] Instance lossy8_calls : WinPgmCalls lossy8 := {
  win_enum_size := mret (Some 100);
  win_malloc _ := mret true;
  win_enum_protocols _ := mret (Some [pgm_protocol]);
  win_rdm_socket := mret (Some 3);
  win_inet_addr _ := mret 7;
  win_rm_setsockopt _ _ := mret true;
  win_shutdown _ := mret true
}.
#[local] Instance lossy8_win_receives : WinPgmReceives lossy8.
Proof.
  refine {| win_arrivals := packets_to_come; win_lossy := True |}; try done; try (by intros; split; [by exists []|]).
  - intros f k [[|[p|] l]]; unfold wp; simpl; [done| |by split; [|split; [|exists []]]].
    destruct p as [|z p]; simpl; [done|]. destruct k as [|k]; simpl; [done|].
    destruct (Nat.leb_spec (length p) k); [|done]. split; [done|]. simpl. lia.
  - intros l [[|[p|] q]]; split; try done; try by exists [].
    unfold packets_to_come. simpl. destruct q as [|[p|] q]; [by exists []|by exists [p]|by exists []].
Defined.

Definition win_idle (receiver_ : bool) : win_pgm_t :=
  WinPgm receiver_ [] [] 7500 false (Some 3) None (Some 3) 0 (replicate 1500 0).

Definition win_speaker (l : list (list Z)) : wsworld script net8 (gset handle_t) :=
  WSWorld (WinSender [] false (Encoder [] 0 enc_message_ready true) no_message (replicate 9 0) (win_idle false) 1 true (replicate 1400 0) 0 0 (-1))
    (Script empty_heap [] l) (Net8 [] []) {[1]}.
Definition win_receiver_at {M} (n : M) : wrworld listener M (gset handle_t) :=
  WRWorld (WinReceiver false false (Decoder (Some (to_tmpbuf, 0%nat)) 1 one_byte_size_ready) no_message (replicate 8 0) (win_idle true) true 0 1)
    (Listener empty_heap []) n {[1]}.
Definition win_hearer (l : list (list Z)) : wrworld listener net8 (gset handle_t) := win_receiver_at (Net8 [] l).

Definition packet123 : list Z := [0; 0; 3; 1; 2; 3; 4; 4; 5; 6; 7; 6; 8; 9; 10; 11; 12; 13].

Lemma win_speaker_runs : ∃ w, runs (win_sender_events 2) (win_speaker three) tt w ∧ net_sent (ws_net w) = [packet123] ∧ said (ws_io w) = three.
Proof. eexists. split; [vm_compute; reflexivity|split; reflexivity]. Qed.

Lemma win_speaker_idle l : sender_idle (win_speaker l).
Proof. constructor; try done. Qed.

Lemma win_receiver_at_idle {M} `{!WinSockets M, !WinPgmCalls M, !WinPgmReceives M} (n : M) : receiver_idle (win_receiver_at n).
Proof. constructor; try done. apply empty_inbox_ok. Qed.

(** Five messages in four packets, of which the second is lost: a session is
    accepted, and after the loss another one. *)
Definition long : list (list Z) := (λ k, replicate 900 (Z.of_nat k)) <$> seq 1 5.
Definition two_sessions : list win_event := [at_listener; in_session; at_listener; in_session].

Lemma win_two_sessions : ∃ w p1 p2 l v, runs (win_sender_events 8) (win_speaker long) tt w ∧
  net_sent (ws_net w) = p1 :: p2 :: l ∧ said (ws_io w) = long ∧ length l = 2%nat ∧
  runs (win_events 1%positive (mret tt) (mret tt) 5 two_sessions) (win_receiver_at (Lossy8 (Some p1 :: None :: Some p2 :: (Some <$> l)))) tt v ∧
  bodies (wr_io v) = Some <$> [replicate 900 1; replicate 900 5].
Proof. do 5 eexists. split; [vm_compute; reflexivity|]. split; [reflexivity|]. split; [reflexivity|]. split; [reflexivity|]. split; [vm_compute; reflexivity|reflexivity]. Qed.

Lemma all_packets (l : list (list Z)) : omap id (Some <$> l) = l.
Proof. induction l as [|p l IH]; [done|]. simpl. by f_equal. Qed.

Lemma long_fit : Forall fits long.
Proof. apply Forall_fmap, Forall_forall. intros k _. change (fits (replicate 900 (Z.of_nat k))). unfold fits. rewrite length_replicate. unfold sizeof_content. lia. Qed.


Lemma win_hearer_runs : ∃ v, runs (win_events 1%positive (mret tt) (mret tt) 5 [at_listener; in_session]) (win_hearer [packet123]) tt v ∧
  bodies (wr_io v) = Some <$> three.
Proof. eexists. split; [vm_compute; reflexivity|reflexivity]. Qed.

(** A session whose descriptor is 10035 is taken for an error and forgotten. *)
#[local] Instance fd10035 : WinSockets net8 := net8_windows 10035.
Lemma session_is_ignored : ∃ v, runs (win_accept_session (WinSockets0 := fd10035) 1%positive) (win_hearer [packet123]) tt v ∧
  created_receiver_socket (wr_socket (wre v)) = false.
Proof. eexists. split; [vm_compute; reflexivity|reflexivity]. Qed.
