(* ===== verification/Sctp.v ===== *)
(** Engines and listeners over SCTP ([src/libzmq/sctp_engine.cpp],
    [sctp_listener.cpp]): each message of 0MQ is a message of SCTP. *)
From S2P Require Import Prelude Config Channel Message MessageBody Command Swap Pipe Store Mux Demux Engine Codec BpCodec TcpSocket Listening BpTcpEngine.
Local Open Scope Z_scope.

(** The calls that are particular to SCTP. *)
Class Sctp (N : Type) `{Sockets N} := {
  sys_sctp_socket : ST N fd_t;
  sys_sctp_events : fd_t → ST N bool;
  sys_sctp_nodelay : fd_t → ST N bool;
  (** At most so many bytes. *)
  sys_sctp_recvmsg : fd_t → nat → ST N (list Z + errno);
  sys_sctp_sendmsg : fd_t → list Z → ST N (Z + errno)
}.

Definition sctp_get_watermarks : Z * Z := (bp_hwm, bp_lwm).
Definition sctp_get_swap_size : Z := 0.
Definition sctp_info : engine_info := EngineInfo sctp_get_watermarks sctp_get_swap_size.

(** ** sctp_engine_t *)

Record sctp_engine_t := SctpEngine { sc_s : fd_t; sc_handle : handle_t; sc_local_object : cstring; sc_shutting_down : bool }.
#[export] Instance eta_sctp_engine : Eta sctp_engine_t := λ e,
  SctpEngine (sc_s e) (sc_handle e) (sc_local_object e) (sc_shutting_down e).

Section engine.
(** [X] holds the engine's [mux] and [demux] and their objects. *)
Context {X N Q : Type} `{!HasHeap X, !MessageSource X, !MessageSink X, !Sockets N, !Sctp N, !IPoller Q}.

Record scworld := ScWorld { sc : sctp_engine_t; sc_io : X; sc_net : N; sc_poll : Q }.
#[export] Instance eta_scworld : Eta scworld := λ w, ScWorld (sc w) (sc_io w) (sc_net w) (sc_poll w).

Definition sc_get : ST scworld sctp_engine_t := w ← st_get; mret (sc w).
Definition sc_modify (f : sctp_engine_t → sctp_engine_t) : ST scworld unit := st_modify (λ w, w <| sc := f (sc w) |>).
Definition sc_on_io {A} : ST X A → ST scworld A := st_lift sc_io (λ x w, w <| sc_io := x |>).
Definition sc_on_net {A} : ST N A → ST scworld A := st_lift sc_net (λ n w, w <| sc_net := n |>).
Definition sc_on_poll {A} : ST Q A → ST scworld A := st_lift sc_poll (λ q w, w <| sc_poll := q |>).

(** The options that every socket gets. *)
Definition sctp_options (f : fd_t) : ST N unit :=
  rc ← sys_sctp_nodelay f;
  st_assert rc ;;
  rc ← sys_nonblocking f;
  st_assert rc.

Definition sctp_connect (hostname_ : cstring) : ST N fd_t :=
  ip_address ← resolve_ip_hostname hostname_;
  s ← sys_sctp_socket;
  st_assert (negb (s =? -1)) ;;
  rc ← sys_sctp_events s;
  st_assert rc ;;
  rc ← sys_connect s ip_address;
  st_assert (bool_decide (rc = None)) ;;
  sctp_options s ;;
  mret s.

Definition sctp_accept (listener_ : fd_t) : ST N fd_t :=
  r ← sys_accept listener_;
  match r with
  | inr _ => st_crash AssertFailed
  | inl s => sctp_options s ;; mret s
  end.

(** The members of a new engine, with a socket. *)
Definition sctp_engine_fields (s : fd_t) (local_object_ : cstring) : sctp_engine_t := SctpEngine s 0 local_object_ false.

Definition sctp_engine_delete : ST scworld unit := e ← sc_get; rc ← sc_on_net (sys_close (sc_s e)); st_assert rc.

(** The engine's address, and [demux->flush ()]. *)
Context (this : engine_id) (sink_flush : ST X unit).

Definition sctp_register_event : ST scworld unit :=
  e ← sc_get;
  h ← sc_on_poll (po_add_fd (sc_s e) this);
  sc_modify (λ e, e <| sc_handle := h |>) ;;
  sc_on_poll (po_set_pollin h).

(** [message_t msg (nbytes)], filled and written: the sink must take it. *)
Definition write_bytes (buffer : list Z) : ST X unit :=
  msg ← in_heap (raw_message_init no_message (Z.of_nat (length buffer)));
  msg ← in_heap (raw_message_poke msg 0 buffer);
  r ← sink_write msg;
  let '(ok, msg) := r : bool * raw_message in
  st_assert ok ;;
  in_heap (raw_message_destroy msg).

(** One message is received for each event. *)
Definition sctp_in_event : ST scworld unit :=
  e ← sc_get;
  r ← sc_on_net (sys_sctp_recvmsg (sc_s e) (Z.to_nat max_sctp_message_size));
  match r with
  | inr _ => st_crash AssertFailed
  | inl buffer => sc_on_io (write_bytes buffer) ;; sc_on_io sink_flush
  end.

Definition sctp_out_event : ST scworld unit :=
  msg ← sc_on_io (in_heap (raw_message_init no_message 0));
  r ← sc_on_io (source_read msg);
  let '(retrieved, msg) := r : bool * raw_message in
  (if negb retrieved then e ← sc_get; sc_on_poll (po_reset_pollout (sc_handle e))
   else
     region ← sc_on_io (in_heap (message_region msg));
     size ← sc_on_io (in_heap (raw_message_size msg));
     e ← sc_get;
     st_of_option BadAccess (guard (Z.to_nat size ≤ length region)%nat) ;;
     r ← sc_on_net (sys_sctp_sendmsg (sc_s e) (take (Z.to_nat size) region));
     match r with
     | inr _ => st_crash AssertFailed
     | inl nbytes => st_assert (nbytes =? size)
     end) ;;
  sc_on_io (in_heap (raw_message_destroy msg)).

Definition sctp_timer_event : ST scworld unit := st_assert false.
Definition sctp_unregister_event : ST scworld unit := mret tt.
End engine.
Arguments scworld X N Q : clear implicits.

(** ** Making engines, and their commands *)

Section commands.
Context {P S N Q : Type} `{!Channel raw_message P, !Swap S, !Sockets N, !Sctp N, !IPoller Q}.
(** The engine's address and a bound on the messages left in a pipe that is
    deleted. *)
Context (this : engine_id) (fuel : nat).

Definition register_cmd (calling_thread_ thread_ : thread_id) : ST (store P S) unit :=
  st_modify (λ o, o <| sent_out := sent_out o ++ [Sent calling_thread_ thread_ (init_register_engine (Some this))] |>).

Definition sctp_engine_connect (calling_thread_ thread_ : thread_id) (hostname_ local_object_ : cstring) (load_balancing_ : bool)
    : ST (store P S * N) (sctp_engine_t * engine_base_t) :=
  s ← st_lift snd (λ n s, (s.1, n)) (sctp_connect hostname_);
  st_lift fst (λ o s, (o, s.2)) (register_cmd calling_thread_ thread_) ;;
  mret (sctp_engine_fields s local_object_, engine_base_new load_balancing_).

Definition sctp_engine_accepted (calling_thread_ thread_ : thread_id) (listener_ : fd_t) (local_object_ : cstring)
    : ST (store P S * N) (sctp_engine_t * engine_base_t) :=
  s ← st_lift snd (λ n s, (s.1, n)) (sctp_accept listener_);
  st_lift fst (λ o s, (o, s.2)) (register_cmd calling_thread_ thread_) ;;
  mret (sctp_engine_fields s local_object_, engine_base_new false).

Definition sctp_base_flush : ST (eenv P S) unit := e ← st_get; on_objs (demux_flush (demux (base e))).

Definition sctp_revive (pipe_ : pipe_id) : ST (scworld (eenv P S) N Q) unit :=
  e ← sc_get;
  st_when (negb (sc_shutting_down e))
    (sc_on_io (engine_revive true pipe_) ;;
     sc_on_poll (po_set_pollout (sc_handle e)) ;;
     sctp_out_event).

Definition sctp_head (pipe_ : pipe_id) (position_ : Z) : ST (scworld (eenv P S) N Q) unit :=
  sc_on_io (engine_head true pipe_ position_) ;;
  sctp_in_event sctp_base_flush.

Definition sctp_send_to (pipe_ : pipe_id) : ST (scworld (eenv P S) N Q) unit :=
  w ← st_get;
  st_when (negb (sc_shutting_down (sc w)))
    (st_when (demux_no_pipes (P := P) (S := S) (demux (base (sc_io w)))) (sc_on_poll (po_set_pollin (sc_handle (sc w)))) ;;
     sc_on_io (engine_send_to true pipe_)).

Definition sctp_receive_from (pipe_ : pipe_id) : ST (scworld (eenv P S) N Q) unit :=
  sc_on_io (engine_receive_from true pipe_) ;;
  e ← sc_get;
  if sc_shutting_down e then sc_on_io (on_objs (on_pipe pipe_ pipe_terminate_reader))
  else sc_on_poll (po_set_pollout (sc_handle e)).

Definition sctp_process (engcmd : engine_command_t) : ST (scworld (eenv P S) N Q) unit :=
  match engcmd with
  | ec_revive pipe => sctp_revive pipe
  | ec_head pipe position => sctp_head pipe position
  | ec_send_to pipe => sctp_send_to pipe
  | ec_receive_from pipe => sctp_receive_from pipe
  | _ => sc_on_io (engine_process true true fuel engcmd)
  end.
End commands.

(** ** sctp_listener_t *)

Section listener.
Context {P S N Q : Type} `{!Channel raw_message P, !Swap S, !Sockets N, !Sctp N, !IpCalls N, !ListenCalls N, !IPoller Q}.
Context (resolve_nic_name : in_addr → option cstring → ST N in_addr).

Record sctp_listener_t := SctpListener {
  sl_s : fd_t;
  sl_source : bool;
  sl_thread : thread_id;
  sl_peer_thread : thread_id;
  sl_peer_engine : engine_id;
  sl_peer_name : cstring;
  sl_arguments : cstring;
  sl_handler_threads : list thread_id;
  sl_current_handler_thread : nat
}.
#[export] Instance eta_sctp_listener : Eta sctp_listener_t := λ l,
  SctpListener (sl_s l) (sl_source l) (sl_thread l) (sl_peer_thread l) (sl_peer_engine l) (sl_peer_name l) (sl_arguments l)
    (sl_handler_threads l) (sl_current_handler_thread l).

(** [engines] are those made so far, with their threads; objects are made at
    [next_address] and above. *)
Record slworld := SlWorld {
  sl : sctp_listener_t;
  sl_objs : store P S;
  sl_net : N;
  sl_poll : Q;
  sl_engines : list (engine_id * thread_id * (sctp_engine_t * engine_base_t));
  sl_next : positive
}.
#[export] Instance eta_slworld : Eta slworld := λ w,
  SlWorld (sl w) (sl_objs w) (sl_net w) (sl_poll w) (sl_engines w) (sl_next w).

(** ["sctp://"] *)
Definition sctp_scheme : cstring := [115; 99; 116; 112; 58; 47; 47].

(** A listening socket and the listener's address as a string. *)
Definition sctp_listen (interface_ : cstring) : ST N (fd_t * cstring) :=
  ip_address ← resolve_ip_interface resolve_nic_name interface_;
  s ← sys_sctp_socket;
  st_assert (negb (s =? -1)) ;;
  rc ← sys_bind s ip_address;
  st_assert rc ;;
  '(name, port) ← bound_address (256 - length sctp_scheme) ip_address s;
  rc ← sys_listen s 10;
  st_assert rc ;;
  mret (s, address_string sctp_scheme name port).

Definition sctp_listener_new (this : engine_id) (calling_thread_ thread_ : thread_id) (interface_ : cstring)
    (handler_threads_ : list thread_id) (source_ : bool) (peer_thread_ : thread_id) (peer_engine_ : engine_id) (peer_name_ : cstring)
    : ST (store P S * N) sctp_listener_t :=
  st_assert (bool_decide (length handler_threads_ ≠ 0%nat)) ;;
  '(s, arguments) ← st_lift snd (λ n s, (s.1, n)) (sctp_listen interface_);
  st_lift fst (λ o s, (o, s.2)) (register_cmd this calling_thread_ thread_) ;;
  mret (SctpListener s source_ thread_ peer_thread_ peer_engine_ (take 256 peer_name_) arguments handler_threads_ 0).

Definition sl_on_net {A} : ST N A → ST slworld A := st_lift sl_net (λ n w, w <| sl_net := n |>).
Definition sl_on_poll {A} : ST Q A → ST slworld A := st_lift sl_poll (λ q w, w <| sl_poll := q |>).

Definition sctp_listener_delete : ST slworld unit := w ← st_get; rc ← sl_on_net (sys_close (sl_s (sl w))); st_assert rc.

(** There are never pipes to a listener. *)
Definition sl_get_watermarks : ST slworld unit := st_assert false.
Definition sl_get_swap_size : ST slworld unit := st_assert false.
Definition sl_get_arguments (l : sctp_listener_t) : cstring := sl_arguments l.

Definition sl_register_event (this : engine_id) : ST slworld unit :=
  w ← st_get;
  handle ← sl_on_poll (po_add_fd (sl_s (sl w)) this);
  sl_on_poll (po_set_pollin handle).

Definition sl_send (destination_ : thread_id) (cmd_ : command_t) : ST slworld unit :=
  st_modify (λ w, w <| sl_objs := sl_objs w <| sent_out := sent_out (sl_objs w) ++ [Sent (sl_thread (sl w)) destination_ cmd_] |> |>).

Definition sl_new_object : ST slworld positive :=
  w ← st_get;
  st_modify (λ w, w <| sl_next := Pos.succ (sl_next w) |>) ;;
  mret (sl_next w).

Definition new_sctp_engine (thread_ : thread_id) : ST slworld engine_id :=
  w ← st_get;
  a ← sl_new_object;
  e ← st_lift (λ w, (sl_objs w, sl_net w)) (λ s w, w <| sl_objs := s.1 |> <| sl_net := s.2 |>)
    (sctp_engine_accepted a (sl_thread (sl w)) thread_ (sl_s (sl w)) (sl_peer_name (sl w)));
  st_modify (λ w, w <| sl_engines := sl_engines w ++ [(a, thread_, e)] |>) ;;
  mret a.

Definition sl_new_pipe (st : thread_id) (se : engine_id) (dt : thread_id) (de : engine_id) (si di : engine_info) : ST slworld pipe_id :=
  a ← sl_new_object;
  st_modify (λ w, w <| sl_objs := sl_objs w <| pipes := <[a := pipe_new st se dt de si di]> (pipes (sl_objs w)) |> |>) ;;
  mret a.

(** [peer_info]: what the peer answers to the constructor of a pipe. *)
Definition sl_in_event (peer_info : engine_info) : ST slworld unit :=
  w ← st_get;
  let l := sl w in
  thread ← st_of_option BadAccess (sl_handler_threads l !! sl_current_handler_thread l);
  engine ← new_sctp_engine thread;
  (if sl_source l then
     pipe ← sl_new_pipe thread engine (sl_peer_thread l) (sl_peer_engine l) sctp_info peer_info;
     sl_send thread (init_engine_send_to (Some engine) pipe) ;;
     sl_send (sl_peer_thread l) (init_engine_receive_from (Some (sl_peer_engine l)) pipe)
   else
     pipe ← sl_new_pipe (sl_peer_thread l) (sl_peer_engine l) thread engine peer_info sctp_info;
     sl_send thread (init_engine_receive_from (Some engine) pipe) ;;
     sl_send (sl_peer_thread l) (init_engine_send_to (Some (sl_peer_engine l)) pipe)) ;;
  st_modify (λ w, w <| sl := sl w <| sl_current_handler_thread :=
    let n := Datatypes.S (sl_current_handler_thread (sl w)) in
    if bool_decide (n = length (sl_handler_threads (sl w))) then 0%nat else n |> |>).

Definition sl_out_event : ST slworld unit := st_assert false.
Definition sl_timer_event : ST slworld unit := st_assert false.
Definition sl_unregister_event : ST slworld unit := mret tt.
End listener.
Arguments slworld P S N Q : clear implicits.
