(* ===== verification/SctpTransfer.v ===== *)
(** What two engines over SCTP do to the messages between them. *)
From S2P Require Import Prelude Config Atomics Message MessageBody Command Codec BpCodec BpEncoding CodecRuns TcpSocket BpTcpEngine PgmSocket BpPgm PgmSending PgmReceiving PgmRuns Sctp.
Local Open Scope Z_scope.

(** A socket sends a message as a whole or fails. *)
Class SctpSends (N : Type) `{Sctp N} := {
  sctp_sent : N → list (list Z);
  sctp_sendmsg_law f b n : wp (sys_sctp_sendmsg f b) no_fault (λ r n',
    match r with
    | inl k => k = Z.of_nat (length b) ∧ sctp_sent n' = sctp_sent n ++ [b]
    | inr _ => sctp_sent n' = sctp_sent n
    end) n
}.

(** Messages arrive in order; what does not fit into the buffer is left for the
    next call.  At the end of the connection there are no bytes. *)
Class SctpReceives (N : Type) `{Sctp N} := {
  sctp_coming : N → list (list Z);
  sctp_ended : N → Prop;
  sctp_recvmsg_law f k n : wp (sys_sctp_recvmsg f k) no_fault (λ r n',
    match r with
    | inl b =>
        (∃ d l, sctp_coming n = d :: l ∧ b = take k d ∧
          sctp_coming n' = if bool_decide (length d ≤ k)%nat then l else drop k d :: l) ∨
        (b = [] ∧ sctp_coming n = [] ∧ sctp_coming n' = [] ∧ sctp_ended n')
    | inr _ => sctp_coming n' = sctp_coming n
    end) n
}.

(** A source goes on when the message it gave is destroyed and the caller comes
    with a new one. *)
Definition source_ready {X} `{HasHeap X, MessageSource X, !SourceLaws X} (x : X) (log : list (list Z)) : Prop :=
  wp (in_heap (raw_message_init no_message 0)) no_fault (λ m x', source_held x' m log) x.
Class SourceRenews (X : Type) `{HasHeap X, MessageSource X, !SourceLaws X} := {
  source_renew_law x m log : source_held x m log →
    wp (in_heap (raw_message_destroy m)) no_fault (λ _ x', source_ready x' log) x
}.

(** A run may end in a failed assertion or for want of what the source needs. *)
Definition assert_or (F : fault → Prop) : fault → Prop := λ f, f = AssertFailed ∨ F f.
Lemma assert_or_no F f : no_fault f → assert_or F f.
Proof. by intros []. Qed.
Lemma assert_or_r (F : fault → Prop) f : F f → assert_or F f.
Proof. by right. Qed.

(** An assertion that may fail. *)
Lemma wp_may_assert {S} (F : fault → Prop) b (Q : unit → S → Prop) s : F AssertFailed → (b = true → Q tt s) → wp (st_assert b) F Q s.
Proof. intros HF H. destruct b; [by apply H|done]. Qed.

(** ** Sending *)

Section sending.
Context {X N Q : Type} `{!HasHeap X, !HasHeapLaws X, !MessageSource X, !SourceLaws X, !SourceRenews X}.
Context `{!Sockets N, !Sctp N, !SctpSends N, !IPoller Q, !PollerWorks Q}.
Implicit Types (w : scworld X N Q).

Definition sctp_sender w : Prop := source_ready (sc_io w) (sctp_sent (sc_net w)) ∧ sc_handle (sc w) ∈ po_live (sc_poll w).

Lemma destroy_ready m log w : source_held (sc_io w) m log → sctp_sent (sc_net w) = log → sc_handle (sc w) ∈ po_live (sc_poll w) →
  wp (sc_on_io (in_heap (raw_message_destroy m))) (assert_or source_fault) (λ _ w', sctp_sender w' ∧ sctp_sent (sc_net w') = log) w.
Proof using SourceRenews0.
  intros Hh Hs Hl. apply wp_lift. apply (wp_fault no_fault); [apply assert_or_no|].
  eapply wp_mono; [by apply source_renew_law|]. cbv beta. intros _ x' Hx. unfold sctp_sender. simpl. by rewrite Hs.
Qed.

(** Reading from the heap. *)
Lemma sc_reads {A} (m : ST mheap A) a w : runs m (heap_of (sc_io w)) a (heap_of (sc_io w)) → runs (sc_on_io (in_heap m)) w a w.
Proof using HasHeapLaws0.
  unfold runs, sc_on_io, in_heap, st_lift. intros ->. rewrite set_heap_of. by destruct w.
Qed.

Lemma sctp_out_event_ok w : sctp_sender w →
  wp sctp_out_event (assert_or source_fault) (λ _ w', sctp_sender w' ∧ sctp_sent (sc_net w) `prefix_of` sctp_sent (sc_net w')) w.
Proof using All.
  intros [Hr Hl]. unfold source_ready in Hr. unfold sctp_out_event. wp_steps. apply wp_lift.
  apply (wp_fault no_fault); [apply assert_or_no|]. eapply wp_mono; [exact Hr|]. cbv beta. intros m x1 Hm. wp_steps. apply wp_lift.
  apply (wp_fault source_fault); [apply assert_or_r|]. simpl.
  eapply wp_mono; [by apply source_read_law|]. cbv beta. intros [[] m'] x2 Hb; simpl; wp_steps.
  - destruct Hb as (body & Hm' & Hbody). destruct (body_region _ _ _ Hbody) as (region & Hreg & Hlen & Htake).
    eapply runs_wp; [by apply sc_reads|]. wp_steps. eapply runs_wp; [apply sc_reads, Hbody|]. unfold sc_get. wp_steps. simpl.
    rewrite Nat2Z.id. apply wp_guard; [done|]. intros _. wp_steps. apply wp_lift. rewrite Htake. simpl.
    apply (wp_fault no_fault); [apply assert_or_no|]. eapply wp_mono; [apply sctp_sendmsg_law|]. cbv beta.
    intros [k|e] n' Hs; [|by left]. destruct Hs as [-> Hs]. apply wp_assert; [by apply Z.eqb_refl|].
    eapply wp_mono; [by eapply (destroy_ready _ (sctp_sent (sc_net w) ++ [body]))|]. cbv beta. intros _ w' [Hw ->].
    split; [done|]. by eexists.
  - unfold sc_get. wp_steps. apply wp_lift. simpl. apply (wp_fault no_fault); [apply assert_or_no|].
    destruct Hb as [Hb _]. eapply wp_mono; [by apply po_reset_pollout_works|]. cbv beta. intros _ q' Eq.
    eapply wp_mono; [apply (destroy_ready _ (sctp_sent (sc_net w))); simpl; [done|done|by rewrite Eq]|]. cbv beta.
    intros _ w' [Hw ->]. done.
Qed.

(** The poller calls the sender so many times. *)
Fixpoint sctp_out_events (k : nat) : ST (scworld X N Q) unit :=
  match k with O => mret tt | S k => sctp_out_event ;; sctp_out_events k end.

Lemma sctp_out_events_ok k : ∀ w, sctp_sender w → wp (sctp_out_events k) (assert_or source_fault) (λ _ w', sctp_sender w') w.
Proof using All.
  induction k as [|k IH]; intros w Hi; simpl; [by apply wp_ret|]. wp_steps.
  eapply wp_mono; [by apply sctp_out_event_ok|]. cbv beta. intros _ w' [Hi' _]. by apply IH.
Qed.
End sending.

(** ** Receiving *)

Section receiving.
Context {X N Q : Type} `{!HasHeap X, !HasHeapLaws X, !MessageSink X, !SinkLaws X}.
Context `{!Sockets N, !Sctp N, !SctpReceives N, !IPoller Q}.
Context (sink_flush : ST X unit) (Hflush : harmless sink_flush).
Implicit Types (w : scworld X N Q).

(** A sink with room for one more message to count. *)
Definition sink_ready (x : X) (log : list (list Z)) : Prop :=
  sink_view x log ∧ heap_ok (heap_of x) (sink_messages x) ∧ Z.of_nat (S (length (sink_messages x))) < 2 ^ 32.

Lemma write_bytes_ok x log b : sink_ready x log → Z.of_nat (length b) + sizeof_content < 2 ^ 64 →
  wp (write_bytes b) only_assert (λ _ x', sink_ready x' (log ++ [b])) x.
Proof using HasHeapLaws0.
  intros (Hv & Hh & Hn) Hb. unfold write_bytes, in_heap. wp_steps. apply wp_lift.
  eapply wp_mono; [by apply (init_holds _ no_message (sink_messages x))|]. cbv beta. intros m h (Hh1 & Hm & _ & Hold). wp_steps. apply wp_lift.
  rewrite heap_of_set. destruct (poke_ok h m (sink_messages x) [] _ b Hh1 Hm) as (m1 & h1 & Hr & Hh2 & Hm1 & _ & Hold2); [done|].
  eapply runs_wp; [exact Hr|]. wp_steps. rewrite set_heap_set.
  destruct (holds_body _ _ _ Hm1) as [Hbody Hsh].
  apply (wp_fault no_fault); [by intros ? []|].
  eapply wp_mono; [apply (sink_write_law (set_heap h1 x) m1 log b)|].
  - apply sink_view_heap; [done|]. intros m2 Hm2. by rewrite Hold2, Hold.
  - by rewrite heap_of_set, sink_messages_heap.
  - by rewrite heap_of_set.
  - done.
  - cbv beta. intros [ok m2] x2 Hpost. simpl. wp_steps. apply wp_may_assert; [done|]. intros ->.
    destruct Hpost as (Hv2 & Hh3 & _). apply wp_lift.
    destruct (destroy_ok _ _ _ Hh3) as (h3 & Hr3 & Hh4 & _ & _ & Hk). eapply runs_wp; [exact Hr3|].
    split; [|split].
    + apply sink_view_heap; [done|]. intros m3 Hm3. apply bytes_kept; [done|]. intros l El. by eapply live_block.
    + by rewrite heap_of_set, sink_messages_heap.
    + rewrite sink_messages_heap. by apply heap_few in Hh3.
Qed.

(** [given]: the messages that came and are not to come any more; after the
    last, if the connection has ended, empty ones. *)
Definition sctp_given (log : list (list Z)) (n : N) (given : list (list Z)) : Prop :=
  ∃ done e, given = done ++ replicate e [] ∧ log = done ++ sctp_coming n ∧ (e ≠ 0%nat → sctp_coming n = [] ∧ sctp_ended n).

Definition sctp_receiver (log : list (list Z)) w : Prop := ∃ given, sink_ready (sc_io w) given ∧ sctp_given log (sc_net w) given.

Lemma give_ok b log w given : sink_ready (sc_io w) given → sctp_given log (sc_net w) (given ++ [b]) → (length b ≤ 4096)%nat →
  wp (sc_on_io (write_bytes b) ;; sc_on_io sink_flush) only_assert (λ _ w', sctp_receiver log w') w.
Proof using HasHeapLaws0 Hflush.
  intros Hs Hg Hb. wp_steps. apply wp_lift.
  eapply wp_mono; [apply write_bytes_ok; [done|unfold sizeof_content; lia]|]. cbv beta. intros _ x1 (Hv & Hh & Hn).
  apply wp_lift. apply (wp_fault no_fault); [by intros ? []|].
  eapply wp_mono; [apply Hflush|]. cbv beta. intros _ x2 (Hv2 & Eh & Em). simpl in *.
  exists (given ++ [b]). split; [|done]. unfold sink_ready. simpl. rewrite Eh, Em. split_and!; [by apply Hv2|done..].
Qed.

(** With messages that fit into the buffer. *)
Definition sctp_fit (log : list (list Z)) : Prop := Forall (λ b, Z.of_nat (length b) ≤ max_sctp_message_size) log.

Lemma sctp_in_event_ok log w : sctp_fit log → sctp_receiver log w →
  wp (sctp_in_event sink_flush) only_assert (λ _ w', sctp_receiver log w') w.
Proof using HasHeapLaws0 Hflush SctpReceives0.
  intros Hfit (given & Hs & dn & e & -> & El & He). unfold sctp_in_event, sc_get. wp_steps. apply wp_lift.
  apply (wp_fault no_fault); [by intros ? []|]. eapply wp_mono; [apply sctp_recvmsg_law|]. cbv beta.
  intros [b|r] n' Hr; [|done]. destruct Hr as [(d & l & E1 & -> & E2)|(-> & E1 & E2 & Hend)].
  - assert (length d ≤ Z.to_nat max_sctp_message_size)%nat as Hd.
    { rewrite El, E1 in Hfit. apply Forall_app in Hfit as [_ Hfit]. inversion Hfit. lia. }
    rewrite take_ge by done. rewrite bool_decide_true in E2 by done.
    assert (e = 0%nat) as -> by (destruct e; [done|]; destruct He as [He _]; [done|]; congruence).
    eapply give_ok; [exact Hs| |exact Hd]. simpl. rewrite app_nil_r. exists (dn ++ [d]), 0%nat.
    rewrite E2, El, E1, app_nil_r, <- app_assoc. by split_and!.
  - eapply give_ok; [exact Hs| |simpl; lia]. simpl. exists dn, (Datatypes.S e).
    rewrite E2, El, E1, <- app_assoc, replicate_S_end. by split_and!.
Qed.

(** The poller calls the receiver so many times. *)
Fixpoint sctp_in_events (j : nat) : ST (scworld X N Q) unit :=
  match j with O => mret tt | S j => sctp_in_event sink_flush ;; sctp_in_events j end.

Lemma sctp_in_events_ok log j : ∀ w, sctp_fit log → sctp_receiver log w →
  wp (sctp_in_events j) only_assert (λ _ w', sctp_receiver log w') w.
Proof using HasHeapLaws0 Hflush SctpReceives0.
  induction j as [|j IH]; intros w Hf Hi; simpl; [by apply wp_ret|]. wp_steps.
  eapply wp_mono; [by apply sctp_in_event_ok|]. cbv beta. intros _ w' Hi'. by apply IH.
Qed.
End receiving.

(** C26: over SCTP messages stay messages: what a sender has sent is what it read
    from its source, each with one call; a receiver to which that comes hands
    on the same messages, one for each event, in order and none twice, and
    after the end of the connection empty ones, if none is longer than
    [max_sctp_message_size]; what either may do else is to fail an
    assertion. *)
Theorem sctp_transfer {X N Q Y M R : Type}
    `{!HasHeap X, !HasHeapLaws X, !MessageSource X, !SourceLaws X, !SourceRenews X, !Sockets N, !Sctp N, !SctpSends N,
      !IPoller Q, !PollerWorks Q}
    `{!HasHeap Y, !HasHeapLaws Y, !MessageSink Y, !SinkLaws Y, !Sockets M, !Sctp M, !SctpReceives M, !IPoller R}
    (sink_flush : ST Y unit) (k j : nat) (w : scworld X N Q) (v : scworld Y M R) :
  harmless sink_flush → sctp_sender w → sink_ready (sc_io v) [] →
  wp (sctp_out_events k) (assert_or source_fault) (λ _ w', sctp_sender w' ∧
    (sctp_coming (sc_net v) = sctp_sent (sc_net w') → sctp_fit (sctp_sent (sc_net w')) →
     wp (sctp_in_events sink_flush j) only_assert (λ _ v', ∃ given, sink_view (sc_io v') given ∧
       sctp_given (sctp_sent (sc_net w')) (sc_net v') given) v)) w.
Proof.
  intros Hflush Hw Hv. eapply wp_mono; [by apply sctp_out_events_ok|]. cbv beta. intros _ w' Hw'. split; [done|]. intros Ec Hf.
  eapply wp_mono; [apply (sctp_in_events_ok sink_flush Hflush (sctp_sent (sc_net w')) j v Hf)|].
  - exists []. split; [done|]. exists [], 0%nat. by rewrite Ec.
  - cbv beta. intros _ v' (given & (Hs & _) & Hg). by exists given.
Qed.

(** ** Runs *)

#[local] Existing Instances script_has_heap script_has_heap_laws script_source.
#[local] Existing Instances listener_has_heap listener_has_heap_laws listener_sink listener_laws moody_has_heap moody_sink.
#[local] Existing Instances handles_poller handles_work.

(** ** A network *)

(** Messages sent, messages to come; whether there is an end after them, and
    how many more are taken. *)
Record assoc := Assoc { as_sent : list (list Z); as_coming : list (list Z); as_ended : bool; as_room : nat }.
#[local] Instance assoc_sockets : Sockets assoc := {
  sys_getaddrinfo _ := mret None; sys_socket := mret 5; sys_nonblocking _ := mret true; sys_nodelay _ := mret true;
  sys_connect _ _ := mret None; sys_close _ := mret true; sys_send _ _ := mret (inr EAGAIN); sys_recv _ _ _ := mret (inr EAGAIN);
  sys_so_error _ := mret None; sys_accept _ := mret (inl 6)
}.
#[local] Instance assoc_sctp : Sctp assoc := {
  sys_sctp_socket := mret 5; sys_sctp_events _ := mret true; sys_sctp_nodelay _ := mret true;
  sys_sctp_recvmsg _ k := λ n, Ok (match as_coming n with
    | d :: l => (inl (take k d), Assoc (as_sent n) (if bool_decide (length d ≤ k)%nat then l else drop k d :: l) (as_ended n) (as_room n))
    | [] => (if as_ended n then inl [] else inr EAGAIN, n)
    end);
  sys_sctp_sendmsg _ b := λ n, Ok (match as_room n with
    | O => (inr EAGAIN, n)
    | S r => (inl (Z.of_nat (length b)), Assoc (as_sent n ++ [b]) (as_coming n) (as_ended n) r)
    end)
}.

#[local] Instance assoc_sends : SctpSends assoc.
Proof. refine {| sctp_sent := as_sent |}. intros f b [s c e [|r]]; by unfold wp. Defined.

#[local] Instance assoc_receives : SctpReceives assoc.
Proof.
  refine {| sctp_coming := as_coming; sctp_ended n := as_ended n = true |}.
  intros f k [s [|d l] [] r]; unfold wp; simpl; [by right|done|left; by exists d, l..].
Defined.

(** The source's messages are short, so that they need no block. *)
#[local] Instance short_laws : SourceLaws script.
Proof.
  refine {| source_held x m log := log = said x ∧ is_plain m = true; source_spent x := unsaid x = []; source_fault := no_fault |}.
  intros [h d [|b q]] m log [-> Hm]; unfold wp; simpl; [done|]. exists b. split; [done|]. apply short_body.
Defined.
#[local] Instance short_renews : SourceRenews script.
Proof. constructor. intros [h d q] m log [-> Hm]. unfold wp, in_heap, st_lift, raw_message_destroy. by rewrite Hm. Defined.

(** ** Runs *)

Definition talker (l : list (list Z)) (room : nat) : scworld script assoc (gset handle_t) :=
  ScWorld (SctpEngine 5 1 [] false) (Script empty_heap [] l) (Assoc [] [] false room) {[1]}.
Definition taker {Y} (y : Y) (l : list (list Z)) (ended : bool) : scworld Y assoc (gset handle_t) :=
  ScWorld (SctpEngine 6 1 [] false) y (Assoc [] l ended 0) {[1]}.
Definition nobody : listener := Listener empty_heap [].

Lemma talker_sender l room : sctp_sender (talker l room).
Proof. done. Qed.

Lemma nobody_ready : sink_ready nobody [].
Proof. split_and!; [done| |done]. constructor; [done|constructor|simpl; lia]. Qed.

Lemma no_flush : harmless (X := listener) (mret tt).
Proof. by intros x. Qed.

Lemma talker_runs : ∃ w, runs (sctp_out_events 4) (talker three 9) tt w ∧ as_sent (sc_net w) = three.
Proof. eexists. split; [vm_compute; reflexivity|reflexivity]. Qed.

Lemma taker_runs : ∃ v, runs (sctp_in_events (mret tt) 4) (taker nobody three true) tt v ∧ bodies (sc_io v) = Some <$> three ++ [[]].
Proof. eexists. split; [vm_compute; reflexivity|reflexivity]. Qed.

Lemma three_short : sctp_fit three.
Proof. repeat (apply Forall_cons; split; [by vm_compute|]). by apply Forall_nil. Qed.

Lemma sctp_transfer_witness : ∃ w v, runs (sctp_out_events 4) (talker three 9) tt w ∧
  runs (sctp_in_events (mret tt) 4) (taker nobody three true) tt v ∧ ∃ given, sink_view (sc_io v) given ∧
    sctp_given (sctp_sent (sc_net w)) (sc_net v) given.
Proof.
  destruct talker_runs as (w & Hw & Es). destruct taker_runs as (v & Hv & _). exists w, v. split; [exact Hw|]. split; [exact Hv|].
  pose proof (sctp_transfer (mret tt) 4 4 (talker three 9) (taker nobody three true) no_flush (talker_sender _ _) nobody_ready) as H.
  apply (wp_runs _ _ _ _ _ _ H) in Hw as [_ Hr]. change (as_sent (sc_net w)) with (sctp_sent (sc_net w)) in Es. rewrite Es in Hr |- *.
  exact (wp_runs _ _ _ _ _ _ (Hr eq_refl three_short) Hv).
Defined.

(** ** What goes wrong *)

(** A command that reports progress of a reader makes the engine receive,
    whether or not something has come: with nothing there it aborts. *)
Lemma nothing_there_aborts {Y} `{!HasHeap Y, !MessageSink Y} (flush : ST Y unit) (y : Y) :
  sctp_in_event flush (taker y [] false) = Crash AssertFailed.
Proof. done. Qed.

(** A socket that takes no more for now aborts the sender. *)
Lemma full_socket_aborts : sctp_out_events 3 (talker three 2) = Crash AssertFailed.
Proof. vm_compute. done. Qed.

(** A peer that closed the connection makes empty messages, one for each
    event, for ever. *)
Lemma end_makes_messages j : ∀ l : list (option (list Z)), ∃ v,
  runs (sctp_in_events (mret tt) j) (taker (Listener empty_heap l) [] true) tt v ∧ bodies (sc_io v) = l ++ replicate j (Some []).
Proof.
  induction j as [|j IH]; intros l; [eexists; split; [done|by rewrite app_nil_r]|].
  destruct (IH (l ++ [Some []])) as (v & Hv & E). exists v. split; [|by rewrite E, <- app_assoc].
  eapply runs_bind; [reflexivity|exact Hv].
Qed.

(** A message that is too long for the buffer becomes several. *)
Definition too_long : list Z := replicate 5000 7.
Lemma too_long_is_cut : ∃ v, runs (sctp_in_events (mret tt) 2) (taker (Listener (MHeap ∅ 100000 []) []) [too_long] false) tt v ∧
  bodies (sc_io v) = [Some (take 4096 too_long); Some (drop 4096 too_long)].
Proof. eexists. split; [vm_compute; reflexivity|vm_compute; reflexivity]. Qed.

(** A sink that refuses a message aborts the receiver. *)
Lemma full_pipe_aborts : sctp_in_event (mret tt) (taker (Moody nobody [true]) [[1]] false) = Crash AssertFailed.
Proof. vm_compute. done. Qed.
