(* ===== verification/CInterface.v ===== *)
(** The C interface ([src/libczmq/zmq.cpp]): its calls make messages of the
    application's data and copy received ones to blocks that the application
    frees. *)
From S2P Require Import Prelude Config YQueue Channel Message MessageBody Command Swap Pipe Store Mux Demux Engine Codec BpCodec.
From S2P Require Import Attributes Dispatcher ApiThread.
Local Open Scope Z_scope.

(** The constants of [zmq.h]; for other numbers the calls below stop, where
    the code casts them to values that the enumerations do not have. *)
Definition scope_of (scope_ : Z) : option scope_t :=
  if scope_ =? 1 then Some scope_local else if scope_ =? 2 then Some scope_process
  else if scope_ =? 3 then Some scope_global else None.
Definition style_of (style_ : Z) : option style_t :=
  if style_ =? 1 then Some style_data_distribution else if style_ =? 2 then Some style_load_balancing else None.

Section c_interface.
Context {P S Q L W : Type} `{!Channel raw_message P, !Swap S, !SlotQueue command_t Q}.
Context `{!ILocator L, !EngineFactory W, !Runtime W}.

(** What is behind the handle that [zmq_create] returns, and the blocks that
    the application holds. *)
Record cworld := CWorld { lib : aenv P S Q L W; blocks : gmap positive (list Z) }.
#[export] Instance eta_cworld : Eta cworld := λ w, CWorld (lib w) (blocks w).

Definition on_lib {A} : ST (aenv P S Q L W) A → ST cworld A := st_lift lib (λ e w, w <| lib := e |>).
Definition on_messages {A} : ST mheap A → ST cworld A :=
  st_lift (λ w, heap (reach (lib w))) (λ h w, w <| lib := lib w <| reach := reach (lib w) <| heap := h |> |> |>).

(** Parameters of the application's thread; the context's [io_thread]; the
    sizes for which [malloc] does not return [NULL]. *)
Context (width : Z) (index_of : thread_id → nat) (foreign_engine : engine_id → engine_info) (fuel : nat).
Context (io_thread : thread_id) (can_malloc : Z → bool).
(** The constructor and the destructor of the locator. *)
Context (new_locator : option string → ST W L) (delete_locator : ST L unit).

(** The I/O thread and then the application's register with a new dispatcher. *)
Definition zmq_create (host_ : option string) : ST cworld unit :=
  on_lib (st_modify (λ e, e <| around := around e <| disp := dispatcher_new 2 |> |>)) ;;
  locator ← on_lib (on_runtime (new_locator host_));
  on_lib (st_modify (λ e, e <| around := around e <| loc := locator |> |>)) ;;
  on_lib (on_disp (allocate_thread_id io_thread io_thread)) ;;
  on_lib api_thread_create.

(** The result are the calls to the threads. *)
Definition zmq_destroy : ST cworld (list thread_call) :=
  on_lib (on_around (st_lift loc (λ l d, d <| loc := l |>) delete_locator)) ;;
  w ← st_get;
  mret (dispatcher_delete (disp (around (lib w)))).

Definition c_malloc (size : Z) : ST cworld (option positive) :=
  if can_malloc size then
    w ← st_get;
    let a := fresh (dom (blocks w)) in
    st_modify (λ w, w <| blocks := <[a := replicate (Z.to_nat size) 0]> (blocks w) |>) ;;
    mret (Some a)
  else mret None.

Definition c_free (data_ : option positive) : ST cworld unit :=
  match data_ with
  | None => mret tt
  | Some a => λ w, match blocks w !! a with
                   | Some _ => Ok (tt, w <| blocks := delete a (blocks w) |>)
                   | None => Crash UseAfterFree
                   end
  end.

Definition zmq_mask (notifications_ : Z) : ST cworld unit := on_lib (mask notifications_).

Definition zmq_create_exchange (name_ : string) (scope_ : Z) (location_ : option string) (style_ : Z) : ST cworld Z :=
  scope ← st_of_option BadAccess (scope_of scope_);
  style ← st_of_option BadAccess (style_of style_);
  on_lib (create_exchange name_ scope location_ (Some io_thread) [io_thread] style).

Definition zmq_create_queue (name_ : string) (scope_ : Z) (location_ : option string) (hwm_ lwm_ swap_ : Z) : ST cworld Z :=
  scope ← st_of_option BadAccess (scope_of scope_);
  on_lib (create_queue name_ scope location_ (Some io_thread) [io_thread] hwm_ lwm_ swap_).

Definition zmq_bind (exchange_name_ queue_name_ exchange_options_ queue_options_ : string) : ST cworld unit :=
  on_lib (bind index_of foreign_engine fuel exchange_name_ queue_name_ (Some io_thread) (Some io_thread) exchange_options_ queue_options_).

(** The result is a [bool] converted to [int]. *)
Definition zmq_send (exchange_ : Z) (data_ : list Z) (block_ : Z) : ST cworld Z :=
  msg ← on_messages (raw_message_init no_message (Z.of_nat (length data_)));
  msg ← on_messages (raw_message_poke msg 0 data_);
  st_of_option BadAccess (guard (0 ≤ exchange_)) ;;
  r ← on_lib (api_send width index_of fuel (Z.to_nat exchange_) msg (negb (block_ =? 0)));
  let '(sent, msg) := r : bool * raw_message in
  on_messages (raw_message_destroy msg) ;;
  mret (if sent then 1 else 0).

(** [data_] and [size_] and [type_] point to variables: the results. *)
Definition zmq_receive (block_ : Z) : ST cworld (Z * positive * Z * Z) :=
  r ← on_lib (api_receive width index_of fuel no_message (negb (block_ =? 0)));
  let '(qid, msg) := r : Z * raw_message in
  size ← on_messages (raw_message_size msg);
  buf ← c_malloc size;
  buf ← st_of_option AssertFailed buf;
  region ← on_messages (message_region msg);
  st_of_option BadAccess (guard (Z.to_nat size ≤ length region)%nat) ;;
  st_modify (λ w, w <| blocks := <[buf := take (Z.to_nat size) region]> (blocks w) |>) ;;
  on_messages (raw_message_destroy msg) ;;
  mret (qid, buf, size, message_type msg).

Definition zmq_free (data_ : option positive) : ST cworld unit := c_free data_.
End c_interface.
Arguments cworld P S Q L W : clear implicits.
