(* ===== verification/Loopback.v ===== *)
(** An application that sends to its own queue: through the C interface, an
    exchange and a queue that are bound to each other are a bounded queue of
    byte strings. *)
From S2P Require Import Prelude Config YQueue Channel Message MessageBody Command Swap Pipe Store Mux Demux PollSet Engine.
From S2P Require Import YPipe PipeRuns Codec BpCodec BpEncoding Attributes Dispatcher DispatchRuns ApiThread ApiRuns CInterface.
Local Open Scope Z_scope.

(** ** The pipe *)

Section pipe.
Context {P S : Type} `{ChannelLaws raw_message P, !Swap S}.
(** Both engines live in the thread [t]; [x] writes and [q] reads. *)
Context (t : thread_id) (x q : engine_id) (p : pipe_id) (hw lw : Z).
Context (Hwm : hw = 0 ∨ -2 ^ 62 < lw ≤ hw ∧ 0 < hw < 2 ^ 62).
Implicit Types (e : penv P S) (pp : pipe_t P S).

(** Messages read between two reports. *)
Definition period : Z := hw - lw + 1.

(** [xs] are in the pipe, [n] of them flushed; [G] were read, [R] of which the
    writer knows. *)
Record local_pipe pp (xs : list raw_message) (n : nat) (asleep awake : bool) (G R : Z) : Prop := {
  lp_view : ch_view (pipe pp) xs n asleep;
  lp_alive : alive pp = awake;
  lp_ends : source_thread pp = Some t ∧ source_engine pp = Some x ∧ destination_thread pp = Some t ∧ destination_engine pp = Some q;
  lp_marks : Pipe.hwm pp = hw ∧ Pipe.lwm pp = lw;
  lp_plain : data_dam pp = None ∧ swapping pp = false ∧ delayed_gap pp = false;
  lp_counts : hw ≠ 0 → Pipe.head pp = G ∧ last_head_position pp = R ∧ in_core_msg_cnt pp = Z.of_nat (length xs) + G - R;
  lp_data : Forall (λ m, message_type m = message_data) xs
}.

(** A report of the reader is due. *)
Definition due (G : Z) : bool := negb (hw =? 0) && (G `mod` period =? 0).
(** The writer may write. *)
Definition room (k : nat) (G R : Z) : bool := (hw =? 0) || (Z.of_nat k + G - R <? hw).

Lemma period_ok : hw ≠ 0 → 1 ≤ period < 2 ^ 64.
Proof using Hwm. unfold period. lia. Qed.

Lemma local_room pp xs n al aw G R : local_pipe pp xs n al aw G R → 0 ≤ R ≤ G →
  pipe_check_write pp = room (length xs) G R.
Proof using Hwm.
  intros [] HG. unfold pipe_check_write, room. destruct lp_marks0 as [-> _], lp_plain0 as [-> _]. simpl. rewrite orb_false_r.
  destruct (Z.eqb_spec hw 0); [done|]. destruct lp_counts0 as (_ & _ & ->); [done|]. by rewrite (wrap_small 64) by (unfold in_u; lia).
Qed.

Lemma local_write e xs n al aw G R m : local_pipe (me e) xs n al aw G R → room (length xs) G R = true → message_type m = message_data →
  0 ≤ R ≤ G → Z.of_nat (length xs) + G < 2 ^ 32 →
  wp (pipe_write m) no_fault (λ _ e', local_pipe (me e') (xs ++ [m]) n al aw G R ∧ mem e' = mem e ∧ out e' = out e) e.
Proof using Hwm.
  intros HI Hroom Hm HG Hfew. pose proof HI as []. destruct lp_marks0 as [Eh El], lp_plain0 as (Ed & Es & Eg).
  unfold pipe_write. wp_steps. apply wp_assert; [by rewrite Eg|]. wp_steps. rewrite Eh.
  assert ((in_core_msg_cnt (me e) =? u64 hw) && negb (hw =? 0) = false) as Ec.
  { unfold room in Hroom. destruct (Z.eqb_spec hw 0); [by rewrite andb_false_r|]. destruct lp_counts0 as (_ & _ & ->); [done|].
    rewrite andb_true_r. simpl in Hroom. apply Z.ltb_lt in Hroom. rewrite (wrap_small 64) by (unfold in_u; lia). apply Z.eqb_neq. lia. }
  rewrite Ec. apply wp_when_false; [done|]. wp_steps. rewrite Es. apply wp_modify. simpl. split; [|done].
  constructor; simpl; try done.
  - by apply ch_write_law.
  - intros Hz. destruct lp_counts0 as (E1 & E2 & E3); [done|]. split_and!; [done..|]. rewrite E3, length_app. simpl.
    rewrite (wrap_small 64); [lia|]. unfold in_u. lia.
  - by apply Forall_app_2; [|apply Forall_singleton].
Qed.

Lemma local_flush e xs n al aw G R : local_pipe (me e) xs n al aw G R → Pipe.self e = p →
  let woken := al && (n <? length xs)%nat in
  wp pipe_flush no_fault (λ _ e', local_pipe (me e') xs (length xs) (al && (length xs <=? n)%nat) aw G R ∧ mem e' = mem e ∧
    out e' = out e ++ (if woken then [Sent t t (init_engine_revive (Some q) p)] else [])) e.
Proof using Hwm.
  intros [] Hs woken. destruct lp_ends0 as (E1 & E2 & E3 & E4). unfold pipe_flush. wp_steps.
  destruct (ch_flush_law _ _ _ _ lp_view0) as (p' & -> & V). wp_steps. apply wp_modify. simpl. subst woken.
  rewrite negb_involutive. destruct (al && (n <? length xs)%nat); simpl.
  - unfold send_command. rewrite E1, E3, E4, Hs. apply wp_modify. simpl. split; [by constructor|done].
  - apply wp_ret. rewrite app_nil_r. split; [by constructor|done].
Qed.

Lemma local_revive e xs n G R : local_pipe (me e) xs n false false G R →
  wp pipe_revive no_fault (λ _ e', local_pipe (me e') xs n false true G R ∧ mem e' = mem e ∧ out e' = out e) e.
Proof using Hwm.
  intros []. unfold pipe_revive. wp_steps. apply wp_assert; [by rewrite lp_alive0|]. apply wp_modify. split; [by constructor|done].
Qed.

Lemma local_read e x0 xs n G R m : local_pipe (me e) (x0 :: xs) (Datatypes.S n) false true G R → Pipe.self e = p → 0 ≤ G < 2 ^ 62 →
  wp (pipe_read m) no_fault (λ r e', r = (true, x0) ∧ local_pipe (me e') xs n false true (G + 1) R ∧ mem e' = mem e ∧
    out e' = out e ++ (if due (G + 1) then [Sent t t (init_engine_head (Some x) p (G + 1))] else [])) e.
Proof using Hwm.
  intros [] Hs HG. destruct lp_ends0 as (E1 & E2 & E3 & E4), lp_marks0 as [Eh El]. unfold pipe_read. wp_steps. rewrite lp_alive0. simpl.
  apply wp_bind. destruct (ch_read_law _ _ _ _ lp_view0) as (p' & E & V). unfold wp at 1. rewrite E. wp_steps. apply wp_modify. simpl.
  apply Forall_cons in lp_data0 as [Hd Hds].
  rewrite bool_decide_false by (intros Ec; unfold message_type, raw_message_type in Hd; rewrite Ec in Hd; vm_compute in Hd; done).
  rewrite Eh. apply wp_bind. unfold due. apply wp_when.
  - intros Hz%negb_true_iff. rewrite Hz. apply Z.eqb_neq in Hz. destruct lp_counts0 as (C1 & C2 & C3); [done|]. wp_steps. apply wp_modify. simpl.
    wp_steps. simpl. unfold report_period. simpl. rewrite El. fold period. pose proof (period_ok Hz).
    rewrite (wrap_small 64 period) by (unfold in_u; lia). rewrite (proj2 (Z.eqb_neq period 0)) by lia.
    rewrite C1, (wrap_small 64 (G + 1)) by (unfold in_u; lia).
    assert (∀ pp, pipe pp = p' → alive pp = true → (source_thread pp = Some t ∧ source_engine pp = Some x ∧ destination_thread pp = Some t ∧ destination_engine pp = Some q) →
      Pipe.hwm pp = hw ∧ Pipe.lwm pp = lw → data_dam pp = None ∧ swapping pp = false ∧ delayed_gap pp = false →
      Pipe.head pp = G + 1 → last_head_position pp = R → in_core_msg_cnt pp = in_core_msg_cnt (me e) → local_pipe pp xs n false true (G + 1) R) as Hlp.
    { intros pp F0 F1 F2 F3 F4 F5 F6 F7. constructor; try done; [by rewrite F0|]. intros _. rewrite F5, F6, F7, C3. cbn [length]. split_and!; [done..|]. lia. }
    apply wp_when.
    + intros Hm. rewrite Hm. unfold send_command. simpl. rewrite E1, E3, E2, Hs. apply wp_modify, wp_ret. simpl.
      split; [done|]. split; [|done]. by apply Hlp.
    + intros Hm. rewrite Hm. apply wp_ret. rewrite app_nil_r. split; [done|]. split; [|done]. by apply Hlp.
  - intros Hz%negb_false_iff. rewrite Hz. apply wp_ret. simpl. rewrite app_nil_r. split; [done|]. split; [|done].
    apply Z.eqb_eq in Hz. by constructor.
Qed.

Lemma local_read_none e xs al aw G R m : local_pipe (me e) xs 0 al aw G R → (aw = true → al = false) →
  wp (pipe_read m) no_fault (λ r e', r = (false, m) ∧ local_pipe (me e') xs 0 (al || aw) false G R ∧ mem e' = mem e ∧ out e' = out e) e.
Proof using Hwm.
  intros HI Haw. pose proof HI as []. unfold pipe_read. wp_steps. rewrite lp_alive0. destruct aw; simpl.
  - rewrite Haw in * by done. apply wp_bind. destruct (ch_read_none _ _ _ lp_view0) as (p' & E & V). unfold wp at 1. rewrite E. wp_steps.
    apply wp_modify. simpl. wp_steps. apply wp_modify, wp_ret. simpl. split; [done|]. split; [|done]. constructor; try done. by apply V.
  - apply wp_ret. rewrite orb_false_r. done.
Qed.

Lemma local_set_head e xs n al aw G R pos : hw ≠ 0 → local_pipe (me e) xs n al aw G R → 0 ≤ R ≤ pos → pos ≤ G →
  Z.of_nat (length xs) + G < 2 ^ 32 →
  wp (pipe_set_head pos) no_fault (λ _ e', local_pipe (me e') xs n al aw G pos ∧ mem e' = mem e ∧ out e' = out e) e.
Proof using Hwm.
  intros Hz [] HR Hp Hfew. destruct lp_counts0 as (C1 & C2 & C3); [done|]. destruct lp_plain0 as (Ed & Es & Eg).
  unfold pipe_set_head. wp_steps. apply wp_modify. wp_steps. apply wp_when_false; [simpl; by rewrite Es|]. wp_steps.
  apply wp_when_false; [simpl; by rewrite Eg|]. simpl. split; [|done]. constructor; simpl; try done. intros _. split_and!; [done..|].
  rewrite C2, C3, (wrap_small 64 (pos - R)) by (unfold in_u; lia). rewrite wrap_small; [lia|]. unfold in_u. lia.
Qed.
End pipe.

(** ** The distributor and the multiplexer *)

Section ends.
Context {P S : Type} `{!Channel raw_message P, !Swap S}.
Context (F : fault → Prop) (p : pipe_id) (pp : pipe_t P S).
Implicit Types (w : store P S).

(** A store after an operation of the pipe. *)
Definition put_pipe w (e : penv P S) : store P S := Store (mem e) (<[p := me e]> (Store.pipes w)) (out e).
Definition pipe_env w : penv P S := PEnv p pp (heap w) (sent_out w).

Lemma wp_on_pipe {A} (f : ST (penv P S) A) (Q : A → store P S → Prop) w : Store.pipes w !! p = Some pp →
  wp f F (λ a e', Q a (put_pipe w e')) (pipe_env w) → wp (on_pipe p f) F Q w.
Proof. unfold wp, on_pipe. intros ->. unfold pipe_env. by destruct (f _) as [[a e']|]. Qed.

Lemma check_write_runs w : Store.pipes w !! p = Some pp → runs (check_write p) w (pipe_check_write pp) w.
Proof.
  intros E. unfold runs, check_write, on_pipe. rewrite E. unfold mbind, st_bind, st_get, mret, st_ret. simpl.
  rewrite insert_id by done. by destruct w.
Qed.

(** A distributor with this pipe only. *)
Definition sends_to (d : demux_t) : Prop := d = a_publisher (Publisher [p]) ∨ d = a_load_balancer (LoadBalancer [p] 0).

Lemma detach_runs m w : runs (on_heap (raw_message_init m 0)) w (detached m) w.
Proof. unfold runs, on_heap, st_lift, raw_message_init. simpl. by destruct w. Qed.

Lemma write_full d m w : sends_to d → is_delimiter m = false → Store.pipes w !! p = Some pp → pipe_check_write pp = false →
  wp (demux_write d m) F (λ '(b, m', d') w', b = false ∧ m' = m ∧ d' = d ∧ w' = w) w.
Proof.
  intros [-> | ->] Hm Hp Hc; simpl; wp_steps.
  - unfold publisher_write. rewrite Hm. simpl. wp_steps. eapply runs_wp; [by apply check_write_runs|]. rewrite Hc. wp_steps. done.
  - unfold load_balancer_write. rewrite Hm. simpl. wp_steps. eapply runs_wp; [by apply check_write_runs|]. rewrite Hc. wp_steps. done.
Qed.

Lemma write_ready d m w (Q : penv P S → Prop) : sends_to d → is_delimiter m = false → Store.pipes w !! p = Some pp → pipe_check_write pp = true →
  wp (pipe_write m) F (λ _ e', Q e') (pipe_env w) →
  wp (demux_write d m) F (λ '(b, m', d') w', b = true ∧ m' = detached m ∧ d' = d ∧ ∃ e', Q e' ∧ w' = put_pipe w e') w.
Proof.
  intros [-> | ->] Hm Hp Hc HQ; simpl; wp_steps.
  - unfold publisher_write. rewrite Hm. simpl. wp_steps. eapply runs_wp; [by apply check_write_runs|]. rewrite Hc. wp_steps. simpl.
    case_bool_decide; wp_steps; apply (wp_on_pipe _ _ _ Hp); (eapply wp_mono; [exact HQ|]); cbv beta; intros [] e' He; wp_steps;
      (eapply runs_wp; [apply detach_runs|]); wp_steps; eauto 10.
  - unfold load_balancer_write. rewrite Hm. simpl. wp_steps. eapply runs_wp; [by apply check_write_runs|]. rewrite Hc. wp_steps. simpl.
    wp_steps. apply (wp_on_pipe _ _ _ Hp). eapply wp_mono; [exact HQ|]. cbv beta. intros [] e' He. wp_steps.
    eapply runs_wp; [apply detach_runs|]. wp_steps. eauto 10.
Qed.

Lemma flush_ready d w (Q : penv P S → Prop) : sends_to d → Store.pipes w !! p = Some pp →
  wp pipe_flush F (λ _ e', Q e') (pipe_env w) →
  wp (demux_flush d) F (λ _ w', ∃ e', Q e' ∧ w' = put_pipe w e') w.
Proof.
  intros [-> | ->] Hp HQ; simpl; unfold publisher_flush, load_balancer_flush; simpl; wp_steps; apply (wp_on_pipe _ _ _ Hp);
    (eapply wp_mono; [exact HQ|]); cbv beta; intros [] e' He; wp_steps; eauto.
Qed.

(** A multiplexer with this pipe only, and a message object without a block. *)
Lemma read_ready m w (Q : bool * raw_message → penv P S → Prop) : is_plain m = true → Store.pipes w !! p = Some pp →
  wp (pipe_read m) F (λ r e', Q r e' ∧ (r.1 = false → r.2 = m)) (pipe_env w) →
  wp (mux_read (Mux [p] 0) m) F (λ '(b, m', x) w', x = Mux [p] 0 ∧ ∃ e' m1, Q (b, m1) e' ∧
    m' = (if b then m1 else detached m) ∧ w' = put_pipe w e') w.
Proof.
  intros Hm Hp HQ. unfold mux_read. wp_steps. apply wp_lift. unfold raw_message_destroy. rewrite Hm. wp_steps. simpl. wp_steps.
  replace (Store (heap w) (Store.pipes w) (sent_out w)) with w by by destruct w.
  apply (wp_on_pipe _ _ _ Hp). eapply wp_mono; [exact HQ|]. cbv beta. intros [[] m1] e' [He Hm1]; simpl in *; wp_steps; simpl; wp_steps.
  - eauto 10.
  - rewrite Hm1 in * by done. eapply runs_wp; [apply detach_runs|]. wp_steps. eauto 10.
Qed.
End ends.

(** ** The thread *)

Section thread.
Context {P S Q L W : Type} `{ChannelLaws raw_message P, !Swap S, !SlotQueue command_t Q, !ILocator L, !EngineFactory W, !Runtime W}.
Context (width : Z) (index_of : thread_id → nat) (fuel : nat).
(** The exchange's number, engine and name, the queue's, and their pipe. *)
Context (i : nat) (x q : engine_id) (xn qn : string) (p : pipe_id) (hw lw : Z).
Context (Hwm : hw = 0 ∨ -2 ^ 62 < lw ≤ hw ∧ 0 < hw < 2 ^ 62) (Hfuel : (0 < fuel)%nat).
Context (Htsc : ∀ tsc (w : W), read_tsc = Some tsc → wp tsc no_fault (λ _ _, True) w).
Implicit Types (e : aenv P S Q L W).

(** [xs] are in the pipe, [hs] is the heap, [cmds] were sent by the last call
    and wait to be obeyed. *)
Record mid e (hs : mheap) (xs : list raw_message) (n : nat) (al aw : bool) (G R : Z) (cmds : list sent) : Prop := {
  md_exchange : exchanges (api e) !! i = Some (xn, x);
  md_queues : queues (api e) = [Queue qn q true];
  md_current : current_queue (api e) = 0%nat;
  md_mask : Z.land message_data (message_mask (api e)) ≠ 0;
  md_signals : signals e = 0;
  md_sent : sent_out (reach e) = cmds;
  md_out : ∃ o, out_engines e !! x = Some o ∧ sends_to p (demux (out_base o));
  md_in : ∃ n, in_engines e !! q = Some n ∧ mux (in_base n) = Mux [p] 0;
  md_other : out_engines e !! q = None;
  md_pipe : ∃ pp, Store.pipes (reach e) !! p = Some pp ∧ local_pipe (self e) x q hw lw pp xs n al aw G R;
  md_heap : heap (reach e) = hs
}.

Lemma md_ne e hs xs n al aw G R cmds : mid e hs xs n al aw G R cmds → x ≠ q.
Proof. intros [] ->. destruct md_out0 as (o & E & _). congruence. Qed.

(** The engines after a call. *)
Definition with_out e (o : out_engine_t) (w : store P S) : aenv P S Q L W :=
  e <| out_engines := <[x := o]> (out_engines e) |> <| reach := w |>.
Definition with_in e (n : in_engine_t) (w : store P S) : aenv P S Q L W :=
  e <| in_engines := <[q := n]> (in_engines e) |> <| reach := w |>.

Lemma wp_on_out {A} F (f : ST (eenv P S) A) (Q0 : A → aenv P S Q L W → Prop) e o : out_engines e !! x = Some o →
  wp f F (λ a v, Q0 a (with_out e (o <| out_base := base v |>) (objs v))) (EEnv (out_base o) (reach e)) → wp (on_out x f) F Q0 e.
Proof. unfold wp, on_out. intros ->. by destruct (f _) as [[a v]|]. Qed.
Lemma wp_on_in {A} F (f : ST (eenv P S) A) (Q0 : A → aenv P S Q L W → Prop) e n : in_engines e !! q = Some n →
  wp f F (λ a v, Q0 a (with_in e (n <| in_base := base v |>) (objs v))) (EEnv (in_base n) (reach e)) → wp (on_in q f) F Q0 e.
Proof. unfold wp, on_in. intros ->. by destruct (f _) as [[a v]|]. Qed.

(** A call of the exchange's engine, and of the queue's, on the pipe. *)
Lemma mid_out e (e1 : penv P S) pp' o hs xs n al aw G R cmds hs' xs' n' al' aw' G' R' cmds' :
  mid e hs xs n al aw G R cmds → sends_to p (demux (out_base o)) → local_pipe (self e) x q hw lw (me e1) xs' n' al' aw' G' R' →
  out e1 = cmds' → mem e1 = hs' → pp' = put_pipe p (reach e) e1 →
  mid (with_out e o pp') hs' xs' n' al' aw' G' R' cmds'.
Proof.
  intros HI Ho Hl <- <- ->. pose proof (md_ne _ _ _ _ _ _ _ _ _ HI). destruct HI. constructor; simpl; try done.
  - exists o. by rewrite lookup_insert_eq.
  - by rewrite lookup_insert_ne.
  - exists (me e1). by rewrite lookup_insert_eq.
Qed.
Lemma mid_in e (e1 : penv P S) pp' m hs xs n al aw G R cmds hs' xs' n' al' aw' G' R' cmds' :
  mid e hs xs n al aw G R cmds → mux (in_base m) = Mux [p] 0 → local_pipe (self e) x q hw lw (me e1) xs' n' al' aw' G' R' →
  out e1 = cmds' → mem e1 = hs' → pp' = put_pipe p (reach e) e1 →
  mid (with_in e m pp') hs' xs' n' al' aw' G' R' cmds'.
Proof.
  intros HI Ho Hl <- <- ->. destruct HI. constructor; simpl; try done.
  - exists m. by rewrite lookup_insert_eq.
  - exists (me e1). by rewrite lookup_insert_eq.
Qed.

(** Taking the commands away. *)
Definition obeyed e : aenv P S Q L W := e <| reach := reach e <| sent_out := [] |> |>.
Lemma mid_obeyed e hs xs n al aw G R cmds : mid e hs xs n al aw G R cmds → mid (obeyed e) hs xs n al aw G R [].
Proof. intros []. by constructor. Qed.

Lemma route_none k e : sent_out (reach e) = [] → wp (route (P := P) (S := S) (Q := Q) (L := L) (W := W) index_of fuel k) no_fault (λ _ e', e' = e) e.
Proof. intros E. eapply runs_wp; [by apply route_nothing|done]. Qed.

(** One command to the thread itself. *)
Lemma route_one k e c Q0 : sent_out (reach e) = [Sent (self e) (self e) c] →
  wp (process_command fuel c) no_fault (λ _ e', Q0 e' ∧ sent_out (reach e') = []) (obeyed e) →
  wp (route index_of fuel (Datatypes.S (Datatypes.S k))) no_fault (λ _ e', Q0 e') e.
Proof.
  intros E Hc. cbn [route]. wp_steps. rewrite E. wp_steps. simpl. wp_steps. rewrite bool_decide_true by done.
  eapply wp_mono; [exact Hc|]. cbv beta. intros [] e' [HQ Es]. wp_steps.
  eapply wp_mono; [apply (route_none (Datatypes.S k) e' Es)|]. cbv beta. intros [] ? ->. by wp_steps.
Qed.

#[local] Arguments route : simpl never.

(** ** Sending *)

Lemma exchange_write_ok e hs xs n al aw G R m : mid e hs xs n al aw G R [] → message_type m = message_data →
  0 ≤ R ≤ G → Z.of_nat (length xs) + G < 2 ^ 32 →
  wp (exchange_write index_of fuel i m) no_fault (λ r e', r = (room hw (length xs) G R, if room hw (length xs) G R then detached m else m) ∧
    mid e' hs (if room hw (length xs) G R then xs ++ [m] else xs) n al aw G R []) e.
Proof using All.
  intros HI Hm HG Hfew. pose proof HI as []. unfold exchange_write, routed. wp_steps. rewrite md_exchange0. wp_steps.
  destruct md_out0 as (o & Ho & Hd), md_pipe0 as (pp & Hp & Hl).
  assert (is_delimiter m = false) as Hdel.
  { unfold is_delimiter. apply bool_decide_false. intros E. unfold message_type, raw_message_type in Hm. rewrite E in Hm. by vm_compute in Hm. }
  simpl. wp_steps. apply (wp_on_out _ _ _ _ _ Ho). unfold out_engine_write. wp_steps. unfold on_objs. apply wp_lift. simpl.
  assert (pipe_check_write pp = room hw (length xs) G R) as Hroom by by eapply local_room.
  destruct (room hw (length xs) G R) eqn:Er.
  - eapply wp_mono.
    { apply (write_ready _ p pp _ _ _ (λ e' : penv P S, local_pipe (self e) x q hw lw (me e') (xs ++ [m]) n al aw G R ∧ mem e' = heap (reach e) ∧ out e' = sent_out (reach e)) Hd Hdel Hp Hroom).
      by eapply local_write. }
    intros [[b m'] d'] w' (-> & -> & -> & e1 & (Hl1 & Em & Eo) & ->). unfold set_demux, modify_base. simpl. wp_steps. simpl.
    eapply wp_mono; [apply route_none; simpl; by rewrite Eo|]. cbv beta. intros [] ? ->. wp_steps. split; [done|].
    eapply mid_out; try done; [by rewrite Eo|by rewrite Em].
  - eapply wp_mono; [by apply (write_full _ p pp)|].
    intros [[b m'] d'] w' (-> & -> & -> & ->). unfold set_demux, modify_base. simpl. wp_steps. simpl.
    eapply wp_mono; [by apply route_none|]. cbv beta. intros [] ? ->. wp_steps. split; [done|].
    constructor; simpl; try done.
    + eexists. rewrite lookup_insert_eq. done.
    + rewrite lookup_insert_ne; [done|]. by eapply md_ne.
    + eauto.
Qed.

(** Between the calls of the application. *)
Definition idle e (hs : mheap) (xs : list raw_message) (G R : Z) : Prop := ∃ al, mid e hs xs (length xs) al (negb al) G R [].

Lemma revive_ok e hs xs n G R cmds : mid e hs xs n false false G R cmds →
  wp (process_command fuel (init_engine_revive (Some q) p)) no_fault (λ _ e', mid e' hs xs n false true G R cmds) e.
Proof using All.
  intros HI. pose proof HI as []. unfold init_engine_revive, process_command. wp_steps.
  rewrite md_other0, bool_decide_false by by intros []. destruct md_in0 as (m & Hm & Ex), md_pipe0 as (pp & Hp & Hl).
  apply (wp_on_in _ _ _ _ _ Hm). simpl. unfold engine_revive. wp_steps. apply wp_assert; [done|]. unfold on_objs. apply wp_lift. simpl.
  apply (wp_on_pipe _ p pp _ _ _ Hp). eapply wp_mono; [by eapply local_revive|]. cbv beta. intros [] e1 (Hl1 & Em & Eo).
  eapply mid_in; try done; [by rewrite Eo|by rewrite Em].
Qed.

Lemma exchange_flush_ok e hs xs n al G R : mid e hs xs n al (negb al) G R [] →
  wp (exchange_flush index_of fuel i) no_fault (λ _ e', idle e' hs xs G R) e.
Proof using All.
  intros HI. pose proof HI as []. unfold exchange_flush, routed. wp_steps. rewrite md_exchange0. simpl. wp_steps.
  destruct md_out0 as (o & Ho & Hd), md_pipe0 as (pp & Hp & Hl).
  apply (wp_on_out _ _ _ _ _ Ho). unfold out_engine_flush. wp_steps. unfold on_objs. apply wp_lift. simpl.
  eapply wp_mono; [eapply (flush_ready _ p pp); [done..|]; by eapply (local_flush _ _ _ p)|]. cbv beta.
  intros [] w' (e1 & (Hl1 & Em & Eo) & ->). simpl. unfold pipe_env in Eo. simpl in Eo. rewrite md_sent0 in Eo. simpl in Eo.
  assert (mid (with_out e o (put_pipe p (reach e) e1)) hs xs (length xs) (al && (length xs <=? n)%nat) (negb al) G R (out e1)) as H1.
  { eapply mid_out; try done. by rewrite Em. }
  replace (OutEngine (out_base o)) with o by by destruct o. wp_steps.
  destruct (al && (n <? length xs)%nat) eqn:Ew.
  - apply andb_true_iff in Ew as [-> Hn%Nat.ltb_lt]. rewrite (proj2 (Nat.leb_gt _ _)) in H1 by done. simpl in H1.
    eapply wp_mono; [eapply (route_one 2 _ _ (λ e', idle e' hs xs G R)); [by rewrite (md_sent _ _ _ _ _ _ _ _ _ H1), Eo|]|].
    + eapply wp_mono; [eapply revive_ok, mid_obeyed, H1|]. cbv beta. intros _ e2 H2. split; [by exists false|apply H2].
    + cbv beta. intros [] e2 H2. by wp_steps.
  - rewrite Eo in H1. eapply wp_mono; [apply route_none, H1|]. cbv beta. intros [] ? ->. wp_steps.
    destruct al; simpl in *; [|by exists false]. apply Nat.ltb_ge in Ew. rewrite (proj2 (Nat.leb_le _ _)) in H1 by done. by exists true.
Qed.

(** Without signals there is nothing to obey. *)
Lemma mid_same e e' hs xs n al aw G R cmds : mid e hs xs n al aw G R cmds → self e' = self e →
  exchanges (api e') = exchanges (api e) → queues (api e') = queues (api e) → current_queue (api e') = current_queue (api e) →
  message_mask (api e') = message_mask (api e) → signals e' = signals e → reach e' = reach e → out_engines e' = out_engines e →
  in_engines e' = in_engines e → mid e' hs xs n al aw G R cmds.
Proof using. intros [] E1 E2 E3 E4 E5 E6 E7 E8 E9. constructor; rewrite ?E1, ?E2, ?E3, ?E4, ?E5, ?E6, ?E7, ?E8, ?E9; done. Qed.

Lemma api_check_ok e hs xs n al aw G R : mid e hs xs n al aw G R [] →
  wp api_check no_fault (λ z e', z = 0 ∧ mid e' hs xs n al aw G R []) e.
Proof using All.
  intros HI. unfold api_check. wp_steps. rewrite (md_signals _ _ _ _ _ _ _ _ _ HI). simpl. wp_steps. split; [done|].
  eapply mid_same; [exact HI|try done..]. simpl. by rewrite (md_signals _ _ _ _ _ _ _ _ _ HI).
Qed.

Lemma process_commands_ok e hs xs n al aw G R : mid e hs xs n al aw G R [] →
  wp (process_commands width index_of fuel) no_fault (λ _ e', mid e' hs xs n al aw G R []) e.
Proof using All.
  intros HI. unfold process_commands.
  assert (∀ e, mid e hs xs n al aw G R [] → wp (signals ← api_check; st_when (negb (signals =? 0)) (process_commands_from width index_of fuel signals)) no_fault
    (λ _ e', mid e' hs xs n al aw G R []) e) as Hpoll.
  { intros e1 H1. wp_steps. eapply wp_mono; [by apply api_check_ok|]. cbv beta. intros z e2 [-> H2]. by apply wp_when_false. }
  destruct read_tsc as [tsc|] eqn:Et; [|by apply Hpoll]. wp_steps. unfold on_runtime, on_around, on_world. apply wp_lift, wp_lift.
  eapply wp_mono; [by apply Htsc|]. cbv beta. intros now w _. wp_steps.
  assert (mid (e <| around := around e <| world := w |> |>) hs xs n al aw G R []) as H1 by by eapply mid_same.
  destruct (_ <=? _); [by apply wp_ret|]. unfold modify_api. wp_steps. apply Hpoll. by eapply mid_same.
Qed.

Lemma api_send_ok e hs xs G R m : idle e hs xs G R → message_type m = message_data → 0 ≤ R ≤ G → Z.of_nat (length xs) + G < 2 ^ 32 →
  let ok := room hw (length xs) G R in
  wp (api_send width index_of fuel i m false) no_fault
    (λ r e', r = (ok, if ok then detached m else m) ∧ idle e' hs (if ok then xs ++ [m] else xs) G R) e.
Proof using All.
  intros [al HI] Hm HG Hfew ok. unfold api_send. wp_steps. apply wp_assert; [by rewrite Hm|]. wp_steps.
  eapply wp_mono; [by apply process_commands_ok|]. cbv beta. intros [] e1 H1. wp_steps. unfold write_or_block. wp_steps.
  eapply wp_mono; [by apply exchange_write_ok|]. cbv beta. intros [b m'] e2 [[= -> ->] H2]. wp_steps. simpl. wp_steps.
  eapply wp_mono; [by eapply exchange_flush_ok|]. cbv beta. intros [] e3 H3. wp_steps. split; [done|]. done.
Qed.

(** ** Receiving *)

(** What the writer knows of the messages read: the last report. *)
Definition reported (G : Z) : Z := if hw =? 0 then 0 else period hw lw * (G `div` period hw lw).

Lemma reported_bound G : 0 ≤ G → 0 ≤ reported G ≤ G.
Proof using Hwm.
  clear Hfuel. intros HG. unfold reported. destruct (Z.eqb_spec hw 0); [lia|]. pose proof (period_ok hw lw Hwm n).
  pose proof (Z.mul_div_le G (period hw lw) ltac:(lia)). pose proof (Z.div_pos G (period hw lw) ltac:(lia) ltac:(lia)). nia.
Qed.

Lemma reported_next G : 0 ≤ G → reported (G + 1) = if due hw lw (G + 1) then G + 1 else reported G.
Proof using Hwm.
  clear Hfuel. intros HG. unfold reported, due. destruct (Z.eqb_spec hw 0); simpl; [done|]. pose proof (period_ok hw lw Hwm n).
  set (N := period hw lw) in *. pose proof (Z.div_mod G N). pose proof (Z.div_mod (G + 1) N).
  pose proof (Z.mod_pos_bound G N). pose proof (Z.mod_pos_bound (G + 1) N).
  destruct (Z.eqb_spec ((G + 1) `mod` N) 0); [lia|]. assert ((G + 1) `div` N = G `div` N) as -> by nia. done.
Qed.

Lemma head_ok e h xs n al aw G R cmds : hw ≠ 0 → mid e h xs n al aw G R cmds → 0 ≤ R ≤ G → Z.of_nat (length xs) + G < 2 ^ 32 →
  wp (process_command fuel (init_engine_head (Some x) p G)) no_fault (λ _ e', mid e' h xs n al aw G G cmds) e.
Proof using All.
  intros Hz HI HG Hfew. pose proof HI as []. unfold init_engine_head, process_command. wp_steps.
  destruct md_out0 as (o & Ho & Hd), md_pipe0 as (pp & Hp & Hl). rewrite bool_decide_true by eauto.
  apply (wp_on_out _ _ _ _ _ Ho). simpl. unfold engine_head. wp_steps. apply wp_assert; [done|]. unfold on_objs. apply wp_lift. simpl.
  apply (wp_on_pipe _ p pp _ _ _ Hp). eapply wp_mono; [eapply local_set_head; try done; lia|]. cbv beta. intros [] e1 (Hl1 & Em & Eo).
  eapply mid_out; try done; [by rewrite Eo|by rewrite Em].
Qed.

Lemma queue_read_some e h x0 xs G m : mid e h (x0 :: xs) (length (x0 :: xs)) false true G (reported G) [] → is_plain m = true →
  0 ≤ G < 2 ^ 31 → Z.of_nat (length xs) < 2 ^ 31 →
  wp (routed index_of fuel (on_in q (in_engine_read m))) no_fault
    (λ r e', r = (true, x0) ∧ mid e' h xs (length xs) false true (G + 1) (reported (G + 1)) []) e.
Proof using All.
  intros HI Hm HG Hfew. pose proof HI as []. unfold routed. wp_steps. destruct md_in0 as (n & Hn & Ex), md_pipe0 as (pp & Hp & Hl).
  apply (wp_on_in _ _ _ _ _ Hn). unfold in_engine_read. wp_steps. unfold on_objs. apply wp_lift. simpl. rewrite Ex.
  eapply wp_mono.
  { apply (read_ready _ p pp m _ (λ r (e' : penv P S), r = (true, x0) ∧ local_pipe (self e) x q hw lw (me e') xs (length xs) false true (G + 1) (reported G) ∧
      mem e' = h ∧ out e' = if due hw lw (G + 1) then [Sent (self e) (self e) (init_engine_head (Some x) p (G + 1))] else []) Hm Hp).
    eapply wp_mono; [eapply local_read; try done; lia|]. cbv beta. intros r e1 (-> & Hl1 & Em & Eo). split; [|done].
    split_and!; [done..|by rewrite Em|]. rewrite Eo. simpl. by rewrite md_sent0. }
  intros [[b m'] x'] w' (-> & e1 & m1 & (Er & Hl1 & Em & Eo) & -> & ->). injection Er as -> ->. unfold set_mux, modify_base. simpl. wp_steps. simpl.
  match goal with |- wp _ _ _ ?e2 => assert (mid e2 h xs (length xs) false true (G + 1) (reported G) (out e1)) as H2 by by eapply mid_in end.
  rewrite reported_next by lia. pose proof (reported_bound G ltac:(lia)) as HR. wp_steps. destruct (due hw lw (G + 1)) eqn:Ed.
  - eapply wp_mono; [eapply (route_one 2 _ _ (λ e', mid e' h xs (length xs) false true (G + 1) (G + 1) [])); [by rewrite (md_sent _ _ _ _ _ _ _ _ _ H2), Eo|]|].
    + eapply wp_mono; [eapply head_ok; [|eapply mid_obeyed, H2|lia|lia]|].
      * unfold due in Ed. by apply andb_true_iff in Ed as [Ez%negb_true_iff%Z.eqb_neq _].
      * cbv beta. intros _ e3 H3. split; [done|apply H3].
    + cbv beta. intros [] e3 H3. by wp_steps.
  - rewrite Eo in H2. eapply wp_mono; [apply route_none, H2|]. cbv beta. intros [] ? ->. by wp_steps.
Qed.

Lemma queue_read_none e h al G R m : mid e h [] 0 al (negb al) G R [] → is_plain m = true →
  wp (routed index_of fuel (on_in q (in_engine_read m))) no_fault
    (λ r e', r = (false, detached m) ∧ mid e' h [] 0 true false G R []) e.
Proof using All.
  intros HI Hm. pose proof HI as []. unfold routed. wp_steps. destruct md_in0 as (n & Hn & Ex), md_pipe0 as (pp & Hp & Hl).
  apply (wp_on_in _ _ _ _ _ Hn). unfold in_engine_read. wp_steps. unfold on_objs. apply wp_lift. simpl. rewrite Ex.
  eapply wp_mono.
  { apply (read_ready _ p pp m _ (λ r (e' : penv P S), r = (false, m) ∧ local_pipe (self e) x q hw lw (me e') [] 0 true false G R ∧
      mem e' = h ∧ out e' = []) Hm Hp).
    eapply wp_mono; [eapply local_read_none; [done|exact Hl|by destruct al]|]. cbv beta. intros r e1 (-> & Hl1 & Em & Eo). split; [|done].
    split_and!; [done| |by rewrite Em|by rewrite Eo]. by destruct al. }
  intros [[b m'] x'] w' (-> & e1 & m1 & (Er & Hl1 & Em & Eo) & -> & ->). injection Er as -> ->. unfold set_mux, modify_base. simpl. wp_steps. simpl.
  match goal with |- wp _ _ _ ?e2 => assert (mid e2 h [] 0 true false G R (out e1)) as H2 by by eapply mid_in end.
  rewrite Eo in H2. wp_steps. eapply wp_mono; [apply route_none, H2|]. cbv beta. intros [] ? ->. by wp_steps.
Qed.

(** Between the calls, when all reports that are due have been taken. *)
Definition calm e (h : mheap) (xs : list raw_message) (G : Z) : Prop := idle e h xs G (reported G).

(** What a call that receives gives. *)
Definition received (xs : list raw_message) (G : Z) (h : mheap) (r : Z * raw_message) e : Prop :=
  match xs with
  | [] => r = (0, detached no_message) ∧ calm e h [] G
  | x0 :: xs => r = (1, x0) ∧ calm e h xs (G + 1)
  end.

Lemma calm_awake e h x0 xs G : calm e h (x0 :: xs) G → mid e h (x0 :: xs) (length (x0 :: xs)) false true G (reported G) [].
Proof using Type*.
  intros [[] HI]; [|done]. destruct (md_pipe _ _ _ _ _ _ _ _ _ HI) as (pp & _ & Hl).
  destruct (ch_view_bound _ _ _ _ (lp_view _ _ _ _ _ _ _ _ _ _ _ _ Hl)) as [_ Hn]. by specialize (Hn eq_refl).
Qed.

Lemma calm_data e h x0 xs G : calm e h (x0 :: xs) G → message_type x0 = message_data.
Proof using Type*.
  intros [al HI]. destruct (md_pipe _ _ _ _ _ _ _ _ _ HI) as (pp & _ & Hl).
  pose proof (lp_data _ _ _ _ _ _ _ _ _ _ _ _ Hl) as Hd. by apply Forall_cons in Hd as [? _].
Qed.

Lemma fetch_wanted_ok k e h xs G : (0 < k)%nat → calm e h xs G → 0 ≤ G < 2 ^ 31 → Z.of_nat (length xs) < 2 ^ 31 →
  wp (fetch_wanted index_of fuel k q no_message) no_fault (λ r e', received xs G h (if (r.1 : bool) then 1 else 0, r.2) e') e.
Proof using All.
  intros Hk HI HG Hfew. destruct k as [|k]; [lia|]. simpl. wp_steps. destruct xs as [|x0 xs].
  - destruct HI as [al HI]. eapply wp_mono; [by eapply queue_read_none|]. cbv beta. intros r e1 [-> H1]. wp_steps. simpl. wp_steps.
    split; [done|]. by exists true.
  - pose proof (calm_data _ _ _ _ _ HI) as Hx. eapply wp_mono; [apply queue_read_some; [by apply calm_awake|done|lia|simpl in Hfew; lia]|].
    cbv beta. intros r e1 [-> H1]. wp_steps. simpl. rewrite Hx. rewrite (proj2 (Z.eqb_neq _ 0)) by apply H1. simpl. wp_steps.
    split; [done|]. by exists false.
Qed.

Lemma fetch_message_ok e h xs G : calm e h xs G → 0 ≤ G < 2 ^ 31 → Z.of_nat (length xs) < 2 ^ 31 →
  wp (fetch_message index_of fuel no_message) no_fault (λ r e', received xs G h r e') e.
Proof using All.
  intros HI HG Hfew. pose proof HI as [al H1]. pose proof H1 as []. unfold fetch_message. wp_steps. rewrite md_queues0. cbn [length fetch_loop]. wp_steps.
  unfold modify_api. wp_steps. rewrite md_current0, md_queues0. simpl. rewrite md_queues0. simpl. wp_steps. simpl.
  match goal with |- wp _ _ _ ?e2 => assert (calm e2 h xs G) as H2 by (exists al; by eapply mid_same) end.
  wp_steps. eapply wp_mono; [by apply fetch_wanted_ok|]. cbv beta. intros [[] m] e1 Hr; simpl in *; wp_steps; [|done]. by destruct xs.
Qed.

Lemma api_receive_ok e h xs G : calm e h xs G → 0 ≤ G < 2 ^ 31 → Z.of_nat (length xs) < 2 ^ 31 →
  wp (api_receive width index_of fuel no_message false) no_fault (λ r e', received xs G h r e') e.
Proof using All.
  intros HI HG Hfew. unfold api_receive. wp_steps.
  assert (∀ r e1, received xs G h r e1 → ∃ h' xs' al G', mid e1 h' xs' (length xs') al (negb al) G' (reported G') [] ∧
    ∀ e2, mid e2 h' xs' (length xs') al (negb al) G' (reported G') [] → received xs G h r e2) as Hrec.
  { intros r e1 Hr. destruct xs as [|x0 xs]; destruct Hr as [-> [al H1]]; do 4 eexists; (split; [exact H1|]); intros e2 H2; (split; [done|by exists al]). }
  eapply (wp_mono _ _ (λ r e', received xs G h r e')).
  - unfold non_blocking_receive. wp_steps. eapply wp_mono; [by apply fetch_message_ok|]. cbv beta. intros [qid m] e1 Hr.
    destruct (Z.eqb_spec qid 0); simpl; [|by wp_steps]. wp_steps. destruct (Hrec _ _ Hr) as (h' & xs' & al & G' & H1 & Hback).
    eapply wp_mono; [by apply api_check_ok|]. cbv beta. intros z e2 [-> H2]. simpl. wp_steps. by apply Hback.
  - intros r e1 Hr. destruct (Hrec _ _ Hr) as (h' & xs' & al & G' & H1 & Hback). unfold modify_api. wp_steps.
    assert (mid (e1 <| api := api e1 <| ticks := ticks (api e1) + 1 |> |>) h' xs' (length xs') al (negb al) G' (reported G') []) as H2 by by eapply mid_same.
    apply wp_when; intros _; [|wp_steps; by apply Hback]. wp_steps.
    eapply wp_mono; [by apply api_check_ok|]. cbv beta. intros z e2 [-> H3]. simpl. wp_steps. apply Hback. by eapply mid_same.
Qed.
End thread.

(** ** Messages in the heap *)

(** The block of a message stays as it is. *)
Definition block_kept (h h' : mheap) (m : raw_message) : Prop :=
  ∀ l, content m = Ptr l → ∃ c c', contents h !! l = Some c ∧ contents h' !! l = Some c' ∧ same_body c c'.

Lemma body_of_kept h h' m b : block_kept h h' m → body_of h m b → body_of h' m b.
Proof.
  intros Hk (Hb & Hs & Hw). unfold body_of, raw_message_bytes, raw_message_size in *.
  destruct (content m) as [t|l] eqn:Ec.
  - split; [done|]. split; [|done]. unfold mret, st_ret in *.
    destruct (bool_decide (Tag t = Tag vsm_tag)); [simpl in Hs; simplify_eq/=; congruence|].
    destruct (bool_decide (Tag t = Tag delimiter_tag) || _); [simpl in Hs; congruence|done].
  - destruct (Hk l Ec) as (c & c' & Hc & Hc' & _ & Es & _ & Eb). rewrite !bool_decide_false in * by done. simpl in *.
    unfold mbind, st_bind in *. simpl in *. rewrite Hc, Hc' in *. simpl in *. rewrite Es, Eb. split; [done|]. split; [|done].
    unfold mret, st_ret in *. simpl in Hs. simplify_eq/=. congruence.
Qed.

Lemma destroyed_kept h h' ms m : bodies_kept h h' → heap_ok h' ms → m ∈ ms → block_kept h h' m.
Proof.
  intros Hk Hh Hm l El. destruct (live_block _ _ _ _ Hh Hm El) as [c' Hc']. destruct (Hk _ _ Hc') as (c & Hc & Hs). eauto 10.
Qed.

Lemma init_kept m n h m' h' : runs (raw_message_init m n) h m' h' →
  (∀ l, is_Some (contents h !! l) → contents h' !! l = contents h !! l) ∧ (∀ l, content m' = Ptr l → contents h !! l = None) ∧
  message_type m' = message_data ∧ avail h' = avail h.
Proof.
  unfold raw_message_init. intros Hr. destruct (n <=? max_vsm_size); st_inv; [done|].
  unfold runs, new_content, malloc in *. destruct (_ <=? avail h); simplify_eq/=. split; [|split; [|done]].
  - intros l Hl. rewrite lookup_insert_ne; [done|]. intros <-. pose proof (is_fresh (dom (contents h))) as Hf. by apply Hf, elem_of_dom.
  - intros l [= <-]. apply not_elem_of_dom, is_fresh.
Qed.

Lemma init_safe m n h : 0 ≤ n → n + sizeof_content < 2 ^ 64 → n + sizeof_content ≤ avail h →
  wp (raw_message_init m n) no_fault (λ _ _, True) h.
Proof.
  intros Hn Hb Hle. unfold raw_message_init, sizeof_content, max_vsm_size in *. destruct (_ <=? _); [done|]. wp_steps.
  unfold wp, new_content, malloc. rewrite !(wrap_small 64) by (rewrite ?(wrap_small 64); unfold in_u; lia).
  destruct (Z.leb_spec (32 + n) (avail h)); [done|lia].
Qed.

Lemma poke_kept m o b h m' h' : runs (raw_message_poke m o b) h m' h' → content m' = content m ∧ avail h' = avail h ∧
  ∀ l, content m ≠ Ptr l → contents h' !! l = contents h !! l.
Proof.
  unfold raw_message_poke. intros Hr. destruct (content m) as [t|l] eqn:Ec.
  - call_inv. by simplify_eq/=.
  - call_inv. destruct x as [l1 c]. call_inv. unfold set_content in Hr2. call_inv. split; [done|]. split.
    + unfold runs, deref in Hr0. destruct (contents h !! l); by simplify_eq/=.
    + intros l2 Hne. simpl. unfold runs, deref in Hr0. destruct (contents h !! l); simplify_eq/=. rewrite lookup_insert_ne; [done|]. congruence.
Qed.

Lemma wp_with_runs {S A} (F : fault → Prop) (m : ST S A) (Q : A → S → Prop) s : wp m F Q s → wp m F (λ a s', Q a s' ∧ runs m s a s') s.
Proof. unfold wp, runs. by destruct (m s) as [[a s']|]. Qed.
Lemma wp_safe {S A} (F : fault → Prop) (m : ST S A) (Q : A → S → Prop) s : wp m F Q s → wp m no_fault (λ _ _, True) s → wp m no_fault Q s.
Proof. unfold wp. by destruct (m s) as [[a s']|]. Qed.

(** A message with these bytes, beside the others. *)
Definition made (h : mheap) (xs : list raw_message) (data : list Z) (m : raw_message) (h' : mheap) : Prop :=
  heap_ok h' (m :: xs) ∧ body_of h' m data ∧ message_type m = message_data ∧ avail h' = avail h ∧
  ∀ m2, m2 ∈ xs → block_kept h h' m2.

Lemma make_message_ok h xs data : heap_ok h xs → Z.of_nat (S (length xs)) < 2 ^ 32 → Z.of_nat (length data) + sizeof_content < 2 ^ 64 →
  Z.of_nat (length data) + sizeof_content ≤ avail h →
  wp (m ← raw_message_init no_message (Z.of_nat (length data)); raw_message_poke m 0 data) no_fault (made h xs data) h.
Proof.
  intros Hh Hn Hd Ha. wp_steps. eapply wp_mono; [apply wp_with_runs; eapply wp_safe; [by apply init_holds|apply init_safe; lia]|].
  cbv beta. intros m h1 [(Hh1 & Hm & _ & _) Hr1]. destruct (init_kept _ _ _ _ _ Hr1) as (Hk & Hfresh & Ht & Ha1).
  destruct (poke_ok h1 m xs [] _ data Hh1 Hm ltac:(simpl; lia)) as (m' & h' & Hr & Hh' & Hm' & _ & _).
  eapply runs_wp; [exact Hr|]. apply poke_kept in Hr as (Ec & Ha2 & Hk2). split; [done|]. split; [apply holds_body, Hm'|].
  split; [|split; [congruence|]].
  - unfold message_type, raw_message_type in *. by rewrite Ec.
  - intros m2 Hm2 l El. destruct (live_block _ _ _ _ Hh Hm2 El) as [c Hc]. exists c, c.
    assert (contents h1 !! l = Some c) as Hc1 by (rewrite Hk by eauto; done).
    rewrite Hk2; [done|]. intros E. rewrite (Hfresh l E) in Hc. done.
Qed.

Lemma wp_unbind {S A B} (F : fault → Prop) (m : ST S A) (k : A → ST S B) Q s : wp (m ≫= k) F Q s → wp m F (λ a s', wp (k a) F Q s') s.
Proof. unfold wp, mbind, st_bind. by destruct (m s) as [[a s']|]. Qed.

(** ** The application *)

(** What it calls, and what it sees. *)
Inductive c_call := c_send (data : list Z) | c_receive.
Inductive c_result := c_sent (result : Z) | c_received (qid : Z) (data : list Z) (type : Z).

(** The reference: a queue with [reads] messages taken so far.  The writer
    learns of them [period] by [period]. *)
Definition takes (hw lw : Z) (queue : list (list Z)) (reads : Z) : bool :=
  (hw =? 0) || (Z.of_nat (length queue) + reads `mod` period hw lw <? hw).
Fixpoint queue_run (hw lw : Z) (queue : list (list Z)) (reads : Z) (calls : list c_call) : list c_result :=
  match calls with
  | [] => []
  | c_send data :: calls =>
      if takes hw lw queue reads then c_sent 1 :: queue_run hw lw (queue ++ [data]) reads calls
      else c_sent 0 :: queue_run hw lw queue reads calls
  | c_receive :: calls =>
      match queue with
      | [] => c_received 0 [] message_data :: queue_run hw lw [] reads calls
      | data :: queue => c_received 1 data message_data :: queue_run hw lw queue (reads + 1) calls
      end
  end.

(** A result for which [malloc (0)] was called and gave [NULL]. *)
Definition no_block (can_malloc : Z → bool) (r : c_result) : bool :=
  match r with c_received _ [] _ => negb (can_malloc 0) | _ => false end.

Section application.
Context {P S Q L W : Type} `{ChannelLaws raw_message P, !Swap S, !SlotQueue command_t Q, !ILocator L, !EngineFactory W, !Runtime W}.
Context (width : Z) (index_of : thread_id → nat) (fuel : nat) (can_malloc : Z → bool).
Implicit Types (w : cworld P S Q L W).

(** A received block is read and freed. *)
Definition c_do (exchange_ : Z) (c : c_call) : ST (cworld P S Q L W) c_result :=
  match c with
  | c_send data => r ← zmq_send width index_of fuel exchange_ data 0; mret (c_sent r)
  | c_receive =>
      '(qid, buf, size, type) ← zmq_receive width index_of fuel can_malloc 0;
      w ← st_get;
      data ← st_of_option UseAfterFree (blocks w !! buf);
      zmq_free (Some buf) ;;
      mret (c_received qid data type)
  end.
Fixpoint c_run (exchange_ : Z) (calls : list c_call) : ST (cworld P S Q L W) (list c_result) :=
  match calls with
  | [] => mret []
  | c :: calls => r ← c_do exchange_ c; rs ← c_run exchange_ calls; mret (r :: rs)
  end.

Context (i : nat) (x q : engine_id) (xn qn : string) (p : pipe_id) (hw lw : Z).
Context (Hwm : hw = 0 ∨ -2 ^ 62 < lw ≤ hw ∧ 0 < hw < 2 ^ 62) (Hfuel : (0 < fuel)%nat).
Context (Htsc : ∀ tsc (w : W), read_tsc = Some tsc → wp tsc no_fault (λ _ _, True) w).
(** Messages have up to [limit] bytes; there is memory for such blocks. What
    [malloc (0)] gives is up to the C library. *)
Context (limit : Z) (Hlimit : limit + sizeof_content < 2 ^ 64) (Hmalloc : ∀ n, 0 < n ≤ limit → can_malloc n = true) (Hnonneg : 0 ≤ limit).

Abbreviation calm := (calm i x q xn qn p hw lw).

(** The thread with the messages [queue], beside which there are none. *)
Definition holding w (queue : list (list Z)) (reads : Z) : Prop :=
  ∃ h xs, calm (lib w) h xs reads ∧ heap_ok h xs ∧ Forall2 (body_of h) xs queue ∧ limit + sizeof_content ≤ avail h ∧
    Forall (λ data, Z.of_nat (length data) ≤ limit) queue.

Lemma calm_heap (e : aenv P S Q L W) h h' xs G : calm e h xs G → calm (e <| reach := reach e <| heap := h' |> |>) h' xs G.
Proof using. intros [al []]. exists al. by constructor. Qed.
Lemma calm_is (e : aenv P S Q L W) h xs G : calm e h xs G → heap (reach e) = h.
Proof using. by intros [al []]. Qed.

Lemma bodies_stay h h' xs queue : (∀ m, m ∈ xs → block_kept h h' m) → Forall2 (body_of h) xs queue → Forall2 (body_of h') xs queue.
Proof using.
  intros Hk Hb. apply Forall2_same_length_lookup_2; [by eapply Forall2_length|]. intros j m b Hm Hq.
  eapply body_of_kept; [by eapply Hk, list_elem_of_lookup_2|]. by eapply (Forall2_lookup_lr _ _ _ _ _ _ Hb).
Qed.

Lemma takes_room queue reads : 0 ≤ reads → takes hw lw queue reads = room hw (length queue) reads (reported hw lw reads).
Proof using Hwm.
  clear Hfuel Hlimit Hnonneg. intros Hr. unfold takes, room, reported. destruct (Z.eqb_spec hw 0); [done|]. simpl. f_equal.
  pose proof (period_ok hw lw Hwm n). pose proof (Z.div_mod reads (period hw lw)). lia.
Qed.

Lemma zmq_send_ok w queue reads data : holding w queue reads → 0 ≤ reads → Z.of_nat (length queue) + reads < 2 ^ 31 →
  Z.of_nat (length data) ≤ limit →
  let ok := takes hw lw queue reads in
  wp (zmq_send width index_of fuel (Z.of_nat i) data 0) no_fault (λ r w', r = (if ok then 1 else 0) ∧ blocks w' = blocks w ∧
    holding w' (if ok then queue ++ [data] else queue) reads) w.
Proof using All.
  intros (h & xs & Hc & Hh & Hb & Ha & Hq) Hr Hfew Hd ok. pose proof (Forall2_length _ _ _ Hb) as Hlen. unfold zmq_send, on_messages. wp_steps. apply wp_lift.
  rewrite (calm_is _ _ _ _ Hc).
  eapply wp_mono; [exact (wp_unbind _ _ _ _ _ (make_message_ok h xs data Hh ltac:(lia) ltac:(lia) ltac:(lia)))|]. cbv beta. intros m h1 Hmk. wp_steps. apply wp_lift. simpl.
  eapply wp_mono; [exact Hmk|]. cbv beta. intros m' h2 (Hh2 & Hb2 & Ht & Ha2 & Hk). wp_steps. apply wp_guard; [lia|]. intros _. wp_steps. unfold on_lib. apply wp_lift. simpl.
  rewrite Nat2Z.id. eapply wp_mono.
  { eapply (api_send_ok width index_of fuel i x q xn qn p hw lw Hwm Hfuel Htsc _ h2 xs reads (reported hw lw reads) m'); [|done|by apply reported_bound|lia].
    exact (calm_heap _ _ h2 _ _ Hc). }
  cbv beta. intros [b m2] e' [[= -> ->] Hi]. rewrite Hlen, <- takes_room in * by done. fold ok in Hi |- *. simpl. wp_steps. apply wp_lift. simpl.
  rewrite (calm_is e' h2 (if ok then xs ++ [m'] else xs) reads) by exact Hi. destruct ok.
  - wp_steps. split; [done|]. split; [done|]. exists h2, (xs ++ [m']). split; [exact (calm_heap _ _ h2 _ _ Hi)|]. split.
    + eapply heap_ok_perm; [|exact Hh2]. solve_Permutation.
    + split; [apply Forall2_app; [by eapply bodies_stay|by constructor]|]. split; [by rewrite Ha2|]. by apply Forall_app_2; [|apply Forall_singleton].
  - destruct (destroy_ok _ _ _ Hh2) as (h3 & Hr3 & Hh3 & Ha3 & _ & Hk3). eapply runs_wp; [exact Hr3|]. wp_steps. split; [done|]. split; [done|].
    exists h3, xs. split; [exact (calm_heap _ _ h3 _ _ Hi)|]. split; [done|].
    split; [|by rewrite Ha3, Ha2]. eapply bodies_stay; [intros m3 Hm3; by eapply destroyed_kept|]. by eapply bodies_stay.
Qed.

Lemma copied_freed (B : gmap positive (list Z)) d1 d2 : let a := fresh (dom B) in delete a (<[a := d1]> (<[a := d2]> B)) = B.
Proof using. intros a. rewrite insert_insert_eq, delete_insert_id; [done|]. apply not_elem_of_dom, is_fresh. Qed.

(** A message is copied out, its block freed, and destroyed. *)
Lemma copied_out (w : cworld P S Q L W) (qid : Z) m b xs : heap_ok (heap (reach (lib w))) (m :: xs) → body_of (heap (reach (lib w))) m b →
  Z.of_nat (length b) ≤ limit →
  wp (S := cworld P S Q L W) (size ← on_messages (raw_message_size m);
      buf ← c_malloc can_malloc size;
      buf ← st_of_option AssertFailed buf;
      region ← on_messages (message_region m);
      st_of_option BadAccess (guard (Z.to_nat size ≤ length region)%nat) ;;
      st_modify (λ w, w <| blocks := <[buf := take (Z.to_nat size) region]> (blocks w) |>) ;;
      on_messages (raw_message_destroy m) ;;
      mret ((qid, buf, size, message_type m) : Z * positive * Z * Z)) (asserts_if (b = [] ∧ can_malloc 0 = false))
    (λ r w', (b = [] → can_malloc 0 = true) ∧ ∃ a h', r = (qid, a, Z.of_nat (length b), message_type m) ∧ a = fresh (dom (blocks w)) ∧
       blocks w' = <[a := b]> (<[a := replicate (length b) 0]> (blocks w)) ∧
       heap_ok h' xs ∧ (∀ m2, m2 ∈ xs → block_kept (heap (reach (lib w))) h' m2) ∧
       avail h' = avail (heap (reach (lib w))) ∧ lib w' = lib w <| reach := reach (lib w) <| heap := h' |> |>) w.
Proof using Hmalloc Hfuel.
  clear Hwm. intros Hh Hb Hl. destruct (body_region _ _ _ Hb) as (region & Hreg & Hlen & Htake). pose proof Hb as (_ & Hs & _).
  unfold on_messages. wp_steps. apply wp_lift. eapply runs_wp; [exact Hs|]. wp_steps. unfold c_malloc.
  destruct (can_malloc (Z.of_nat (length b))) eqn:Em.
  2: { wp_steps. assert (b = []) as -> by (destruct b; [done|]; rewrite Hmalloc in Em; [done|]; simpl in *; lia). by split. }
  assert (b = [] → can_malloc 0 = true) as Em0 by (by intros ->). wp_steps.
  simpl. wp_steps. apply wp_lift. simpl. destruct w as [[? ? ? ? [] ? ? ? ?] B]. simpl in *.
  eapply runs_wp; [exact Hreg|]. wp_steps. rewrite Nat2Z.id.
  apply wp_guard; [done|]. intros _. wp_steps. simpl. wp_steps. apply wp_lift. simpl.
  destruct (destroy_ok _ _ _ Hh) as (h' & Hr & Hh' & Ha & _ & Hk). eapply runs_wp; [exact Hr|]. wp_steps.
  split; [exact Em0|]. eexists _, h'. split_and!; [done|done|by rewrite Htake|done| |done|done]. intros m2 Hm2. by eapply destroyed_kept.
Qed.

(** What the call returns: the block that holds a copy of the message. *)
Lemma zmq_receive_ok w queue reads : holding w queue reads → 0 ≤ reads → Z.of_nat (length queue) + reads < 2 ^ 31 →
  wp (zmq_receive width index_of fuel can_malloc 0) (asserts_if (hd [] queue = [] ∧ can_malloc 0 = false)) (λ r w', (hd [] queue = [] → can_malloc 0 = true) ∧ ∃ a b,
    r = ((match queue with [] => 0 | _ => 1 end), a, Z.of_nat (length b), message_data) ∧
    b = hd [] queue ∧ a = fresh (dom (blocks w)) ∧
    blocks w' = <[a := b]> (<[a := replicate (length b) 0]> (blocks w)) ∧
    holding w' (tail queue) (match queue with [] => reads | _ => reads + 1 end)) w.
Proof using All.
  intros (h & xs & Hc & Hh & Hb & Ha & Hq) Hr Hfew. pose proof (Forall2_length _ _ _ Hb) as Hlen. unfold zmq_receive. apply wp_bind. unfold on_lib.
  apply wp_lift. eapply wp_mono; [eapply wp_fault; [|eapply (api_receive_ok width index_of fuel i x q xn qn p hw lw Hwm Hfuel Htsc _ h xs reads Hc); lia]; done|].
  cbv beta. intros [qid m] e' Hrec.
  assert (∃ xs', calm e' h xs' (match queue with [] => reads | _ => reads + 1 end) ∧ heap_ok h (m :: xs') ∧ body_of h m (hd [] queue) ∧
    Forall2 (body_of h) xs' (tail queue) ∧ message_type m = message_data ∧ qid = match queue with [] => 0 | _ => 1 end)
    as (xs' & Hc' & Hh' & Hm & Hb' & Ht & ->).
  { destruct Hb as [|x0 b xs queue Hb Hbs]; destruct Hrec as [[= -> ->] Hc'].
    - exists []. split_and!; try done. by apply heap_ok_plain_cons.
    - exists xs. split_and!; try done. by eapply calm_data. }
  eapply wp_mono; [eapply (copied_out _ _ m (hd [] queue) xs'); simpl; [by rewrite (calm_is _ _ _ _ Hc')..|by destruct Hq]|].
  cbv beta. simpl. intros r w' (He & a & h' & -> & -> & Eb & Hh2 & Hk & Ha2 & El). rewrite Ht. rewrite (calm_is _ _ _ _ Hc') in Hk, Ha2. split; [exact He|]. do 2 eexists.
  split; [done|]. split; [done|]. split; [done|]. split; [done|]. exists h', xs'. rewrite El. split; [by eapply calm_heap|]. split; [done|].
  split; [by eapply bodies_stay|]. split; [by rewrite Ha2|by destruct Hq].
Qed.

Lemma c_do_receive w queue reads : holding w queue reads → 0 ≤ reads → Z.of_nat (length queue) + reads < 2 ^ 31 →
  let got := match queue with [] => c_received 0 [] message_data | data :: _ => c_received 1 data message_data end in
  wp (c_do (Z.of_nat i) c_receive) (asserts_if (no_block can_malloc got = true)) (λ r w', blocks w' = blocks w ∧ r = got ∧ no_block can_malloc got = false ∧
    holding w' (tail queue) (match queue with [] => reads | _ => reads + 1 end)) w.
Proof using All.
  intros HI Hr Hfew got.
  assert (hd [] queue = [] ∧ can_malloc 0 = false → no_block can_malloc got = true) as Hyes
    by (intros [Eq Em]; subst got; destruct queue as [|[]]; simplify_eq/=; by rewrite Em).
  assert ((hd [] queue = [] → can_malloc 0 = true) → no_block can_malloc got = false) as Hno
    by (intros Em; subst got; destruct queue as [|[]]; simpl in *; rewrite ?Em; done).
  unfold c_do. apply wp_bind. eapply wp_mono; [eapply wp_fault; [exact (asserts_if_mono _ _ Hyes)|by eapply zmq_receive_ok]|].
  cbv beta. intros ? w1 (Hm & a & b & -> & -> & Ea & Eb & HI'). wp_steps. rewrite Eb, lookup_insert_eq. simpl. wp_steps. unfold zmq_free, c_free.
  unfold wp. rewrite Eb, lookup_insert_eq. simpl. rewrite Ea, copied_freed. split; [done|]. split; [by destruct queue|]. split; [by apply Hno|].
  destruct w1. exact HI'.
Qed.

Definition fits (calls : list c_call) : Prop :=
  Forall (λ c, match c with c_send data => Z.of_nat (length data) ≤ limit | c_receive => True end) calls.

Lemma run_ok calls : ∀ w queue reads, holding w queue reads → 0 ≤ reads →
  Z.of_nat (length queue + length calls) + reads < 2 ^ 31 → fits calls →
  let rs := queue_run hw lw queue reads calls in
  wp (c_run (Z.of_nat i) calls) (asserts_if (existsb (no_block can_malloc) rs = true))
    (λ rs' w', (rs' = rs ∧ blocks w' = blocks w) ∧ existsb (no_block can_malloc) rs = false) w.
Proof using All.
  induction calls as [|c calls IH]; intros w queue reads HI Hr Hfew Hfit; [by apply wp_ret|].
  apply Forall_cons in Hfit as [Hc Hfit]. cbn [length] in Hfew. cbn [c_run]. cbv zeta in *. apply wp_bind. destruct c as [data|].
  - unfold c_do. apply wp_bind. eapply wp_mono; [eapply wp_fault; [|apply (zmq_send_ok _ _ _ data HI); [done|lia|done]]; done|].
    cbv beta. intros z w1 (-> & Eb & HI'). cbn [queue_run]. destruct (takes hw lw queue reads); wp_steps.
    all: eapply wp_mono; [eapply IH; [exact HI'|done| |done]; rewrite ?length_app; simpl; lia|].
    all: cbv beta; intros rs w2 [[-> Eb2] En]; wp_steps; split; [split; [done|by rewrite Eb2]|exact En].
  - set (got := match queue with [] => c_received 0 [] message_data | data :: _ => c_received 1 data message_data end).
    set (reads' := match queue with [] => reads | _ => reads + 1 end).
    replace (queue_run hw lw queue reads (c_receive :: calls)) with (got :: queue_run hw lw (tail queue) reads' calls) by (by destruct queue).
    cbn [existsb]. eapply wp_mono.
    { eapply wp_fault; [|apply (c_do_receive _ _ _ HI); [done|lia]]. apply asserts_if_mono. intros E. apply orb_true_iff. by left. }
    cbv beta. intros r w1 (Eb & -> & En & HI'). fold got in En. rewrite En, orb_false_l.
    wp_steps. eapply wp_mono; [eapply IH; [exact HI'| | |done]; destruct queue; simpl in *; lia|].
    cbv beta. intros rs w2 [[-> Eb2] En2]. wp_steps. split; [split; [done|by rewrite Eb2]|exact En2].
Qed.
End application.

(** ** From a thread without objects *)

Section from_start.
Context {P S Q L W : Type} `{ChannelLaws raw_message P, !Swap S, !SlotQueue command_t Q, !ILocator L, !EngineFactory W, !Runtime W}.
Context (width : Z) (index_of : thread_id → nat) (foreign_engine : engine_id → engine_info) (fuel : nat).
Context (io_thread : thread_id) (can_malloc : Z → bool) (hw lw : Z).
Context (Hmarks : 0 ≤ hw < 2 ^ 62 ∧ -2 ^ 62 < lw < 2 ^ 62 ∧ (hw = 0 ∨ lw ≤ hw)) (Hfuel : (0 < fuel)%nat).
Context (Htsc : ∀ tsc (w : W), read_tsc = Some tsc → wp tsc no_fault (λ _ _, True) w).
Context (limit : Z) (Hlimit : 0 ≤ limit ∧ limit + sizeof_content < 2 ^ 64) (Hmalloc : ∀ n, 0 < n ≤ limit → can_malloc n = true).
Implicit Types (w : cworld P S Q L W).

Context (new_locator : option string → ST W L).

(** Before [zmq_create] there are no objects and messages; there is memory for
    messages. *)
Record nothing_yet w : Prop := {
  no_engines : out_engines (lib w) = ∅ ∧ in_engines (lib w) = ∅;
  no_signals : signals (lib w) = 0 ∧ sent_out (reach (lib w)) = [];
  no_messages : heap_ok (heap (reach (lib w))) [] ∧ limit + sizeof_content ≤ avail (heap (reach (lib w)))
}.
(** After it the thread knows its number. *)
Definition fresh_thread w : Prop := nothing_yet w ∧ ∃ id, api (lib w) = api_thread_new id.

Lemma create_ok w host l u : nothing_yet w → runs (new_locator host) (world (around (lib w))) l u →
  wp (zmq_create io_thread new_locator host) no_fault
    (λ _ w', fresh_thread w' ∧ blocks w' = blocks w ∧ world (around (lib w')) = u) w.
Proof using.
  intros [Ho Hs Hm] Hl. unfold zmq_create, on_lib. wp_steps. apply wp_lift. wp_steps. apply wp_lift.
  unfold on_runtime, on_around, on_world. apply wp_lift, wp_lift. eapply runs_wp; [exact Hl|]. wp_steps. apply wp_lift. wp_steps. apply wp_lift.
  unfold on_disp, on_around. apply wp_lift, wp_lift. unfold allocate_thread_id. wp_steps. simpl. wp_steps.
  apply wp_lift. unfold api_thread_create. wp_steps. unfold on_disp, on_around. apply wp_lift, wp_lift. unfold allocate_thread_id. wp_steps. simpl.
  wp_steps. unfold modify_api. wp_steps. split_and!; [|done..]. split; [by constructor|by eexists].
Qed.

(** An exchange, a queue of this thread, and a pipe between them. *)
Definition set_up (style_ : Z) (xn qn xo qo : string) : ST (cworld P S Q L W) Z :=
  i ← zmq_create_exchange io_thread xn 1 None style_;
  zmq_create_queue io_thread qn 1 None hw lw 0 ;;
  zmq_bind index_of foreign_engine fuel io_thread xn qn xo qo ;;
  mret i.

Lemma new_pipe_ok (t : thread_id) x q o : let n := in_engine_create hw lw 0 in
  local_pipe (P := P) (S := S) t x q hw lw (pipe_new t x t q (EngineInfo (out_engine_get_watermarks o) (out_engine_get_swap_size o))
    (EngineInfo (in_engine_get_watermarks n) (swap_size n))) [] 0 false true 0 0.
Proof using H0 Hmarks.
  clear Hfuel Hlimit. assert (hw ≠ -1) as Hm by lia. intros n. unfold pipe_new. simpl. rewrite (proj2 (Z.eqb_neq hw (-1)) Hm). simpl.
  constructor; simpl; try done.
  - apply ch_new_law.
  - rewrite !swrap_small by lia. done.
Qed.

Lemma set_up_ok w style_ xn qn xo qo x q p u1 u2 u3 : fresh_thread w → style_ = 1 ∨ style_ = 2 → x ≠ q →
  runs new_address (world (around (lib w))) x u1 → runs new_address u1 q u2 → runs new_address u2 p u3 →
  wp (set_up style_ xn qn xo qo) no_fault (λ i w', i = 0 ∧ blocks w' = blocks w ∧ holding 0 x q xn qn p hw lw limit w' [] 0) w.
Proof using All.
  intros [[[Eo Ei] [Es Ec] [Hh Hav]] [id Ha]] Hst Hne H1 H2 H3. unfold set_up, zmq_create_exchange, zmq_create_queue, zmq_bind, on_lib. destruct w as [e B]. simpl in *.
  destruct e as [t ap oe ie [pps hp so] ar sg ss arr]. simpl in *. subst ap oe ie sg so.
  assert (∃ st, style_of style_ = Some st) as [st Est] by (destruct Hst as [-> | ->]; vm_compute; eauto).
  assert (∀ A (m : ST W A) (e : aenv P S Q L W) a u, runs m (world (around e)) a u →
    runs (on_runtime m) e a (e <| around := around e <| world := u |> |>)) as Hrt.
  { intros A m e a u Hr. unfold runs, on_runtime, on_around, on_world, st_lift in *. by rewrite Hr. }
  wp_steps. rewrite Est. simpl. wp_steps. apply wp_lift. simpl. unfold create_exchange. wp_steps. apply wp_assert; [done|]. wp_steps.
  eapply runs_wp; [by apply Hrt|]. unfold modify_api. wp_steps. simpl. wp_steps. apply wp_lift. simpl. unfold create_queue, modify_api. wp_steps.
  apply wp_assert; [done|]. wp_steps. eapply runs_wp; [by apply Hrt|]. wp_steps. simpl. wp_steps. apply wp_lift. unfold bind, resolve. wp_steps. simpl.
  rewrite !decide_True by done. simpl. wp_steps. simpl. wp_steps. simpl.
  eapply runs_wp; [by apply Hrt|]. wp_steps. simpl.
  set (o := out_engine_create _). set (n := in_engine_create hw lw 0).
  assert (<[x:=o]> (∅ : gmap engine_id out_engine_t) !! q = None) as Hq by by rewrite lookup_insert_ne.
  unfold info_of. simpl. rewrite Hq, !lookup_insert_eq.
  match goal with |- wp _ _ _ ?e => eapply runs_wp; [refine (send_to_self index_of fuel e x o p _ eq_refl); apply lookup_insert_eq|] end. wp_steps.
  match goal with |- wp _ _ _ ?e => eapply runs_wp; [refine (receive_from_self index_of fuel e q n p _ _ eq_refl); simpl|] end.
  { apply lookup_insert_eq. }
  { by rewrite lookup_insert_ne. }
  simpl. wp_steps. simpl. split; [done|]. split; [done|].
  exists pps, []. split; [|by split_and!; [|constructor| |constructor]]. exists false. constructor; simpl; try done.
  - rewrite lookup_insert_eq. eexists. split; [done|]. unfold sends_to. destruct st; [by left|by right].
  - rewrite lookup_insert_eq. eexists. done.
  - rewrite !lookup_insert_ne; done.
  - rewrite lookup_insert_eq. eexists. split; [done|]. replace (reported hw lw 0) with 0; [apply new_pipe_ok|].
    unfold reported. destruct (hw =? 0); [done|]. rewrite Zdiv_0_l, Z.mul_0_r. done.
Qed.

(** C27: an application that creates a context, makes an exchange and a queue of
    its own, binds them and then sends and receives through the C interface sees a bounded queue of
    byte strings, whatever the calls: a send gives 1 and adds its bytes at the
    end, or gives 0 when the messages in the pipe and those read since the last
    report reach the high watermark; a receive gives the oldest bytes, with the
    queue's number, or nothing with number 0.  Every block
    that a call gave to the application is freed again.  The program is aborted
    exactly if there is a receive that gives no bytes, that is no message or one without a
    body, and [malloc (0)] is [NULL]; memory for the other messages, each of at
    most [limit] bytes, is assumed. *)
Theorem local_queue w host l u0 style_ xn qn xo qo x q p u1 u2 u3 calls :
  nothing_yet w → style_ = 1 ∨ style_ = 2 → x ≠ q →
  runs (new_locator host) (world (around (lib w))) l u0 →
  runs new_address u0 x u1 → runs new_address u1 q u2 → runs new_address u2 p u3 →
  Z.of_nat (length calls) < 2 ^ 31 → fits limit calls →
  let expected := queue_run hw lw [] 0 calls in
  let aborts := existsb (no_block can_malloc) expected in
  wp (zmq_create io_thread new_locator host ;; i ← set_up style_ xn qn xo qo; c_run width index_of fuel can_malloc i calls)
    (asserts_if (aborts = true)) (λ rs w', (rs = expected ∧ blocks w' = blocks w) ∧ aborts = false) w.
Proof using All.
  intros Hf Hst Hne Hl H1 H2 H3 Hn Hfit expected aborts.
  apply wp_bind. eapply wp_mono; [eapply wp_fault; [|eapply create_ok; [done|exact Hl]]; done|].
  cbv beta. intros _ w0 (H0' & <- & <-). apply wp_bind. eapply wp_mono; [eapply wp_fault; [|by eapply set_up_ok]; done|].
  cbv beta. intros ? w1 (-> & <- & HI). apply (run_ok width index_of fuel can_malloc 0 x q xn qn p hw lw ltac:(lia) Hfuel Htsc limit
    ltac:(lia) Hmalloc ltac:(lia) calls w1 [] 0 HI); [lia|simpl; lia|done].
Qed.
End from_start.

(** ** A run *)

#[local] Existing Instance message_slots.
#[local] Existing Instance counting_runtime.
#[local] Instance message_slots_laws : SlotQueueLaws raw_message (yqueue raw_message) := yqueue_laws message_pipe_granularity ltac:(vm_compute; lia).

(** The locator knows nothing. *)
Definition no_locator : option string → ST positive attr_list_t := λ _, mret ∅.

Definition one_thread : cworld (ypipe (yqueue raw_message)) unit (yqueue command_t) attr_list_t positive :=
  CWorld started ∅.

(** The high watermark is 3: the fourth message must wait.  Where [malloc (0)]
    gives a block the calls succeed; where it gives [NULL] the first receive
    that finds no message aborts the program. *)
Definition demo_program (can_malloc : Z → bool) :=
  zmq_create 2%positive no_locator None ;; i ← set_up no_index no_engine 10 2%positive 3 2 1 "E"%string "Q"%string ""%string ""%string;
  c_run 64 no_index 10 can_malloc i
    [c_send [1; 2]; c_receive; c_receive; c_send [3]; c_send []; c_send [4]; c_receive; c_send [4]; c_receive].

Definition demo_expected : list c_result :=
  [c_sent 1; c_received 1 [1; 2] 1; c_received 0 [] 1; c_sent 1; c_sent 1; c_sent 0; c_received 1 [3] 1; c_sent 1; c_received 1 [] 1].

Lemma local_queue_witness :
  (∃ rs w', runs (demo_program (λ n, n <=? 100)) one_thread rs w' ∧ rs = demo_expected ∧ blocks w' = ∅) ∧
  demo_program (λ n, (0 <? n) && (n <=? 100)) one_thread = Crash AssertFailed.
Proof.
  assert (∀ can_malloc, (∀ n, 0 < n ≤ 100 → can_malloc n = true) →
    wp (demo_program can_malloc) (asserts_if (existsb (no_block can_malloc) demo_expected = true))
      (λ rs w', (rs = demo_expected ∧ blocks w' = ∅) ∧ existsb (no_block can_malloc) demo_expected = false) one_thread) as run.
  { intros can_malloc Hm.
    replace demo_expected with (queue_run 3 2 [] 0
      [c_send [1; 2]; c_receive; c_receive; c_send [3]; c_send []; c_send [4]; c_receive; c_send [4]; c_receive]) by (vm_compute; reflexivity).
    apply (local_queue 64 no_index no_engine 10 2%positive can_malloc 3 2) with (limit := 100) (new_locator := no_locator)
      (l := ∅) (u0 := 10%positive) (x := 10%positive) (q := 11%positive) (p := 12%positive) (u1 := 11%positive) (u2 := 12%positive) (u3 := 13%positive); try done; try lia.
    by repeat constructor. }
  split.
  - exact (wp_asserts_if _ _ _ _ (run (λ n, n <=? 100) ltac:(cbv beta; intros; lia))).
  - exact (wp_asserts_if _ _ _ _ (run (λ n, (0 <? n) && (n <=? 100)) ltac:(cbv beta; intros; lia))).
Defined.
